(** * E-commerce skills: the export and description-generation pipelines

    A shallow embedding of [scripts/export-products.js] and
    [scripts/generate-descriptions.js], and the properties of the two
    pipelines stated in the repository's specification.

    Layout: Part I embeds the code (JavaScript values and the built-ins the
    scripts call, then one module per script); Part II holds the lemmas and
    the theorems. *)

From Stdlib Require Import String Ascii List ZArith NArith Lia Bool Arith PeanoNat.
From Stdlib Require Import DecimalString DecimalZ DecimalN DecimalFacts.
From Stdlib Require Import Permutation.
Import ListNotations.

Local Open Scope list_scope.
Local Open Scope nat_scope.
Local Open Scope string_scope.

(* ===================================================================== *)
(** * Part I. The embedding                                               *)
(* ===================================================================== *)

(** ** JavaScript values

    Everything the two scripts handle comes out of [JSON.parse] (a line of
    standard input, or the body of an HTTP response), so a value is a JSON
    value or [undefined].  Strings are sequences of code units below 256;
    numbers are the integer-valued ones, inside the safe-integer range where
    a double and the integer it holds print and compare alike.

    An object is the list of its own properties in the order JavaScript
    enumerates them: array-index keys first, ascending, then the other keys
    in creation order. *)

Module JS.

#[local] Unset Elimination Schemes.
Inductive json : Type :=
| JNull : json
| JBool (b : bool) : json
| JNum (n : Z) : json
| JStr (s : string) : json
| JArr (l : list json) : json
| JObj (m : list (string * json)) : json.
#[local] Set Elimination Schemes.

(** [None] is [undefined]. *)
Definition value : Type := option json.
Definition undefined : value := None.

(** Exceptions.  [Error msg] is [new Error(msg)]; the other two are raised by
    the runtime, whose message text is engine-specific. *)
Inductive exn : Type :=
| Error (msg : string)
| TypeError
| SyntaxError.

Inductive res (A : Type) : Type :=
| Ok (a : A)
| Throw (e : exn).
Arguments Ok {A} a.
Arguments Throw {A} e.

Definition bind {A B : Type} (r : res A) (k : A -> res B) : res B :=
  match r with
  | Ok a => k a
  | Throw e => Throw e
  end.

Declare Scope res_scope.
Delimit Scope res_scope with res.
Notation "x <- r ;; k" := (bind r (fun x => k))
  (at level 61, r at next level, right associativity) : res_scope.

(** *** Lists of properties *)

Fixpoint assoc {A : Type} (k : string) (m : list (string * A)) : option A :=
  match m with
  | [] => None
  | (k', v) :: m' => if String.eqb k k' then Some v else assoc k m'
  end.

Definition has_key {A : Type} (k : string) (m : list (string * A)) : bool :=
  match assoc k m with Some _ => true | None => false end.

Fixpoint remove_key {A : Type} (k : string) (m : list (string * A)) : list (string * A) :=
  match m with
  | [] => []
  | (k', v) :: m' => if String.eqb k k' then remove_key k m' else (k', v) :: remove_key k m'
  end.

Definition is_digit (c : ascii) : bool :=
  let n := nat_of_ascii c in ((48 <=? n) && (n <=? 57))%nat.

Fixpoint all_digits (s : string) : bool :=
  match s with
  | EmptyString => true
  | String c s' => is_digit c && all_digits s'
  end.

Definition string_of_N (n : N) : string := NilZero.string_of_uint (N.to_uint n).
Definition string_of_Z (n : Z) : string := NilZero.string_of_int (Z.to_int n).
Definition string_of_nat (n : nat) : string := string_of_N (N.of_nat n).

(** An array index is the canonical decimal form of an integer below
    2^32 - 1.  Such keys are enumerated before all others, in numeric
    order. *)
Definition array_index (k : string) : option N :=
  match k with
  | EmptyString => None
  | String c _ =>
      if all_digits k && (String.eqb k "0" || negb (Ascii.eqb c "0"%char)) then
        match NilZero.uint_of_string k with
        | Some d => let n := N.of_uint d in
                    if (n <? 4294967295)%N then Some n else None
        | None => None
        end
      else None
  end.

(** Position of a new array-index key [i]: before the first key that is not
    an index or is a larger index. *)
Fixpoint insert_index {A : Type} (i : N) (k : string) (v : A) (m : list (string * A))
  : list (string * A) :=
  match m with
  | [] => [(k, v)]
  | (k', v') :: m' =>
      match array_index k' with
      | Some j => if (j <? i)%N then (k', v') :: insert_index i k v m'
                  else (k, v) :: m
      | None => (k, v) :: m
      end
  end.

Fixpoint replace_key {A : Type} (k : string) (v : A) (m : list (string * A)) : list (string * A) :=
  match m with
  | [] => []
  | (k', v') :: m' => if String.eqb k k' then (k', v) :: m' else (k', v') :: replace_key k v m'
  end.

(** [CreateDataProperty]: an existing key keeps its place, a new one goes
    where the enumeration order puts it. *)
Definition define {A : Type} (k : string) (v : A) (m : list (string * A)) : list (string * A) :=
  if has_key k m then replace_key k v m
  else match array_index k with
       | Some i => insert_index i k v m
       | None => (m ++ [(k, v)])%list
       end.

(** *** Coercions *)

Definition truthy (v : value) : bool :=
  match v with
  | None => false
  | Some JNull => false
  | Some (JBool b) => b
  | Some (JNum n) => negb (n =? 0)%Z
  | Some (JStr s) => negb (String.eqb s "")
  | Some (JArr _) => true
  | Some (JObj _) => true
  end.

(** [a || b] on values. *)
Definition or_else (a b : value) : value := if truthy a then a else b.

Fixpoint join (sep : string) (l : list string) : string :=
  match l with
  | [] => ""
  | [s] => s
  | s :: l' => s ++ sep ++ join sep l'
  end.

Fixpoint sequence {A : Type} (l : list (res A)) : res (list A) :=
  match l with
  | [] => Ok []
  | r :: l' =>
      match r with
      | Throw e => Throw e
      | Ok a => match sequence l' with
                | Throw e => Throw e
                | Ok l'' => Ok (a :: l'')
                end
      end
  end.

(** [ToString].  An array prints its elements joined by commas, with [null]
    printing as the empty string; a plain object prints as
    "[object Object]" unless it carries an own "toString" property, which a
    JSON value cannot make callable, so the conversion raises. *)
Fixpoint to_string (v : json) : res string :=
  match v with
  | JNull => Ok "null"
  | JBool true => Ok "true"
  | JBool false => Ok "false"
  | JNum n => Ok (string_of_Z n)
  | JStr s => Ok s
  | JArr l =>
      match sequence (map (fun x => match x with
                                    | JNull => Ok ""
                                    | _ => to_string x
                                    end) l) with
      | Ok parts => Ok (join "," parts)
      | Throw e => Throw e
      end
  | JObj m => if has_key "toString" m then Throw TypeError else Ok "[object Object]"
  end.

(** An element as [Array.prototype.join] prints it. *)
Definition element_string (x : json) : res string :=
  match x with
  | JNull => Ok ""
  | _ => to_string x
  end.

(** [arr.join(sep)]. *)
Definition array_join (sep : string) (l : list json) : res string :=
  match sequence (map element_string l) with
  | Ok parts => Ok (join sep parts)
  | Throw e => Throw e
  end.

(** A value inside a template literal. *)
Definition template (v : value) : res string :=
  match v with
  | None => Ok "undefined"
  | Some j => to_string j
  end.

(** *** Property access

    [get v k] is [v.k] for the property names the scripts read.  None of
    them is defined on a built-in prototype, except [length] on arrays and
    strings. *)

Fixpoint string_nth (n : nat) (s : string) : option ascii :=
  match s, n with
  | EmptyString, _ => None
  | String c _, O => Some c
  | String _ s', S n' => string_nth n' s'
  end.

Definition get (v : value) (k : string) : res value :=
  match v with
  | None => Throw TypeError
  | Some JNull => Throw TypeError
  | Some (JObj m) => Ok (assoc k m)
  | Some (JArr l) =>
      if String.eqb k "length" then Ok (Some (JNum (Z.of_nat (List.length l))))
      else match array_index k with
           | Some i => Ok (nth_error l (N.to_nat i))
           | None => Ok None
           end
  | Some (JStr s) =>
      if String.eqb k "length" then Ok (Some (JNum (Z.of_nat (String.length s))))
      else match array_index k with
           | Some i => Ok (option_map (fun c => JStr (String c EmptyString))
                                      (string_nth (N.to_nat i) s))
           | None => Ok None
           end
  | Some (JBool _) => Ok None
  | Some (JNum _) => Ok None
  end.

(** [v?.k]. *)
Definition get_opt (v : value) (k : string) : res value :=
  match v with
  | None => Ok None
  | Some JNull => Ok None
  | _ => get v k
  end.

(** *** Strings *)

(** White space and line terminators among the code units below 256. *)
Definition is_space (c : ascii) : bool :=
  let n := nat_of_ascii c in
  ((n =? 9) || (n =? 10) || (n =? 11) || (n =? 12) || (n =? 13) || (n =? 32) || (n =? 160))%nat.

Fixpoint trim_start (s : string) : string :=
  match s with
  | EmptyString => EmptyString
  | String c s' => if is_space c then trim_start s' else s
  end.

Fixpoint trim_end (s : string) : string :=
  match s with
  | EmptyString => EmptyString
  | String c s' =>
      match trim_end s' with
      | EmptyString => if is_space c then EmptyString else String c EmptyString
      | t => String c t
      end
  end.

Definition trim (s : string) : string := trim_end (trim_start s).

Definition newline : ascii := "010"%char.

(** [s.indexOf("\n")], [None] for -1. *)
Fixpoint index_of_newline (s : string) : option nat :=
  match s with
  | EmptyString => None
  | String c s' =>
      if Ascii.eqb c newline then Some 0
      else option_map S (index_of_newline s')
  end.

(** [s.slice(0, n)] and [s.slice(n)] for [0 <= n]. *)
Fixpoint slice_to (n : nat) (s : string) : string :=
  match n, s with
  | O, _ => EmptyString
  | S n', String c s' => String c (slice_to n' s')
  | S _, EmptyString => EmptyString
  end.

Fixpoint slice_from (n : nat) (s : string) : string :=
  match n, s with
  | O, _ => s
  | S n', String _ s' => slice_from n' s'
  | S _, EmptyString => EmptyString
  end.

(** The own enumerable properties an object spread copies. *)
Fixpoint indexed_from {A : Type} (i : nat) (l : list A) : list (string * A) :=
  match l with
  | [] => []
  | x :: l' => (string_of_nat i, x) :: indexed_from (S i) l'
  end.

Fixpoint chars (s : string) : list json :=
  match s with
  | EmptyString => []
  | String c s' => JStr (String c EmptyString) :: chars s'
  end.

Definition own_properties (v : value) : list (string * json) :=
  match v with
  | Some (JObj m) => m
  | Some (JArr l) => indexed_from 0 l
  | Some (JStr s) => indexed_from 0 (chars s)
  | _ => []
  end.

(** [{ ...v, k1: v1, ... }]: each later property is defined over the copy. *)
Definition spread (v : value) (extra : list (string * json)) : json :=
  JObj (fold_left (fun m kv => define (fst kv) (snd kv) m) extra (own_properties v)).

End JS.

(** ** [JSON.stringify] and [JSON.parse]

    The two built-ins as ECMA-262 defines them, on the values of [JS.json]:
    [stringify] without indentation, [parse] without reviver.  A text of the
    JSON grammar may denote a value outside [JS.json]: a number literal with
    a fraction or an exponent, the literal [-0], a [\u] escape above [00ff].
    [parse] has no result for such a text; [well_formed] is the whole
    grammar, and [covered] tells whether the embedding has the outcome of
    [JSON.parse] on a text at all. *)

Module JSON.
Import JS.

Definition dquote : ascii := "034"%char.
Definition backslash : ascii := "092"%char.

Definition hex_digit (n : nat) : ascii :=
  if (n <? 10)%nat then ascii_of_nat (48 + n) else ascii_of_nat (87 + n).

(** [QuoteJSONString] on one code unit. *)
Definition escape_char (c : ascii) : string :=
  let n := nat_of_ascii c in
  if (n =? 34)%nat then String backslash (String dquote EmptyString)
  else if (n =? 92)%nat then String backslash (String backslash EmptyString)
  else if (n =? 8)%nat then String backslash "b"
  else if (n =? 12)%nat then String backslash "f"
  else if (n =? 10)%nat then String backslash "n"
  else if (n =? 13)%nat then String backslash "r"
  else if (n =? 9)%nat then String backslash "t"
  else if (n <? 32)%nat then
    String backslash
      (String "u" (String "0" (String "0"
         (String (hex_digit (n / 16)) (String (hex_digit (n mod 16)) EmptyString)))))
  else String c EmptyString.

Fixpoint quote_body (s : string) : string :=
  match s with
  | EmptyString => EmptyString
  | String c s' => escape_char c ++ quote_body s'
  end.

Definition quote (s : string) : string :=
  String dquote (quote_body s ++ String dquote EmptyString).

Fixpoint stringify (v : json) : string :=
  match v with
  | JNull => "null"
  | JBool true => "true"
  | JBool false => "false"
  | JNum n => string_of_Z n
  | JStr s => quote s
  | JArr l => "[" ++ join "," (map stringify l) ++ "]"
  | JObj m =>
      "{" ++ join "," (map (fun kv => match kv with
                                      | (k, x) => quote k ++ ":" ++ stringify x
                                      end) m) ++ "}"
  end.

(** [JSON.stringify(v)] for a value that may be [undefined] (the result is
    then [undefined] too, which a template literal prints as such). *)
Definition stringify_value (v : value) : string :=
  match v with
  | None => "undefined"
  | Some j => stringify j
  end.

(** *** Parsing *)

Definition is_ws (c : ascii) : bool :=
  let n := nat_of_ascii c in ((n =? 32) || (n =? 9) || (n =? 10) || (n =? 13))%nat.

Fixpoint skip_ws (s : string) : string :=
  match s with
  | EmptyString => EmptyString
  | String c s' => if is_ws c then skip_ws s' else s
  end.

Definition hex_value (c : ascii) : option nat :=
  let n := nat_of_ascii c in
  if ((48 <=? n) && (n <=? 57))%nat then Some (n - 48)
  else if ((97 <=? n) && (n <=? 102))%nat then Some (n - 87)
  else if ((65 <=? n) && (n <=? 70))%nat then Some (n - 55)
  else None.

Definition hex4 (a b c d : ascii) : option nat :=
  match hex_value a, hex_value b, hex_value c, hex_value d with
  | Some x, Some y, Some z, Some w => Some (((x * 16 + y) * 16 + z) * 16 + w)
  | _, _, _, _ => None
  end.

Definition simple_escape (c : ascii) : option ascii :=
  let n := nat_of_ascii c in
  if (n =? 34)%nat then Some dquote
  else if (n =? 92)%nat then Some backslash
  else if (n =? 47)%nat then Some "/"%char
  else if (n =? 98)%nat then Some "008"%char
  else if (n =? 102)%nat then Some "012"%char
  else if (n =? 110)%nat then Some "010"%char
  else if (n =? 114)%nat then Some "013"%char
  else if (n =? 116)%nat then Some "009"%char
  else None.

Definition cons_char (c : ascii) (r : option (string * string)) : option (string * string) :=
  match r with
  | Some (s, rest) => Some (String c s, rest)
  | None => None
  end.

(** The characters of a string literal, after its opening quote. *)
Fixpoint parse_chars (s : string) : option (string * string) :=
  match s with
  | EmptyString => None
  | String c s' =>
      if Ascii.eqb c dquote then Some (EmptyString, s')
      else if Ascii.eqb c backslash then
        match s' with
        | EmptyString => None
        | String e s'' =>
            match simple_escape e with
            | Some ch => cons_char ch (parse_chars s'')
            | None =>
                if Ascii.eqb e "u"%char then
                  match s'' with
                  | String h1 (String h2 (String h3 (String h4 s3))) =>
                      match hex4 h1 h2 h3 h4 with
                      | Some n => if (n <? 256)%nat
                                  then cons_char (ascii_of_nat n) (parse_chars s3)
                                  else None
                      | None => None
                      end
                  | _ => None
                  end
                else None
            end
        end
      else if (nat_of_ascii c <? 32)%nat then None
      else cons_char c (parse_chars s')
  end.

(** The longest prefix of digits. *)
Fixpoint span_digits (s : string) : string * string :=
  match s with
  | EmptyString => (EmptyString, EmptyString)
  | String c s' =>
      if is_digit c then let (d, r) := span_digits s' in (String c d, r)
      else (EmptyString, s)
  end.

(** Whether a fraction or an exponent follows. *)
Definition fraction_next (s : string) : bool :=
  match s with
  | EmptyString => false
  | String c _ => Ascii.eqb c "."%char || Ascii.eqb c "e"%char || Ascii.eqb c "E"%char
  end.

(** An unsigned integer literal: no leading zero, and neither a fraction nor
    an exponent after it. *)
Definition parse_digits (s : string) : option (N * string) :=
  let (d, rest) := span_digits s in
  match d with
  | EmptyString => None
  | String c d' =>
      if Ascii.eqb c "0"%char && negb (String.eqb d' "") then None
      else if fraction_next rest then None
      else match NilZero.uint_of_string d with
           | Some u => Some (N.of_uint u, rest)
           | None => None
           end
  end.

Definition parse_number (s : string) : option (json * string) :=
  match s with
  | EmptyString => None
  | String c s' =>
      if Ascii.eqb c "-"%char then
        match parse_digits s' with
        | Some (n, rest) => if (n =? 0)%N then None else Some (JNum (- Z.of_N n), rest)
        | None => None
        end
      else
        match parse_digits s with
        | Some (n, rest) => Some (JNum (Z.of_N n), rest)
        | None => None
        end
  end.

Fixpoint strip_prefix (p s : string) : option string :=
  match p, s with
  | EmptyString, _ => Some s
  | String a p', String b s' => if Ascii.eqb a b then strip_prefix p' s' else None
  | String _ _, EmptyString => None
  end.

(** Recursive descent.  [parse_value] expects no leading white space;
    [parse_elements] and [parse_members] run after the first element or
    member of a non-empty array or object and collect the rest. *)
Fixpoint parse_value (fuel : nat) (s : string) : option (json * string) :=
  match fuel with
  | O => None
  | S fuel' =>
      match s with
      | EmptyString => None
      | String c s' =>
          if Ascii.eqb c "n"%char then
            option_map (fun r => (JNull, r)) (strip_prefix "ull" s')
          else if Ascii.eqb c "t"%char then
            option_map (fun r => (JBool true, r)) (strip_prefix "rue" s')
          else if Ascii.eqb c "f"%char then
            option_map (fun r => (JBool false, r)) (strip_prefix "alse" s')
          else if Ascii.eqb c dquote then
            match parse_chars s' with
            | Some (str, r) => Some (JStr str, r)
            | None => None
            end
          else if Ascii.eqb c "["%char then
            match skip_ws s' with
            | EmptyString => None
            | String c1 r =>
                if Ascii.eqb c1 "]"%char then Some (JArr [], r)
                else
                  match parse_value fuel' (String c1 r) with
                  | Some (x, r1) =>
                      match parse_elements fuel' (skip_ws r1) with
                      | Some (l, r2) => Some (JArr (x :: l), r2)
                      | None => None
                      end
                  | None => None
                  end
            end
          else if Ascii.eqb c "{"%char then
            match skip_ws s' with
            | EmptyString => None
            | String c1 r =>
                if Ascii.eqb c1 "}"%char then Some (JObj [], r)
                else
                  match parse_member fuel' (String c1 r) with
                  | Some (kv, r1) =>
                      match parse_members fuel' (skip_ws r1) with
                      | Some (m, r2) =>
                          Some (JObj (fold_left (fun acc p => define (fst p) (snd p) acc)
                                                (kv :: m) []), r2)
                      | None => None
                      end
                  | None => None
                  end
            end
          else parse_number s
      end
  end

with parse_elements (fuel : nat) (s : string) : option (list json * string) :=
  match fuel with
  | O => None
  | S fuel' =>
      match s with
      | EmptyString => None
      | String c s' =>
          if Ascii.eqb c "]"%char then Some ([], s')
          else if Ascii.eqb c ","%char then
            match parse_value fuel' (skip_ws s') with
            | Some (x, r) =>
                match parse_elements fuel' (skip_ws r) with
                | Some (l, r') => Some (x :: l, r')
                | None => None
                end
            | None => None
            end
          else None
      end
  end

with parse_member (fuel : nat) (s : string) : option ((string * json) * string) :=
  match fuel with
  | O => None
  | S fuel' =>
      match s with
      | EmptyString => None
      | String c s' =>
          if Ascii.eqb c dquote then
            match parse_chars s' with
            | Some (k, r) =>
                match skip_ws r with
                | EmptyString => None
                | String c1 r1 =>
                    if Ascii.eqb c1 ":"%char then
                      match parse_value fuel' (skip_ws r1) with
                      | Some (x, r2) => Some ((k, x), r2)
                      | None => None
                      end
                    else None
                end
            | None => None
            end
          else None
      end
  end

with parse_members (fuel : nat) (s : string) : option (list (string * json) * string) :=
  match fuel with
  | O => None
  | S fuel' =>
      match s with
      | EmptyString => None
      | String c s' =>
          if Ascii.eqb c "}"%char then Some ([], s')
          else if Ascii.eqb c ","%char then
            match parse_member fuel' (skip_ws s') with
            | Some (kv, r) =>
                match parse_members fuel' (skip_ws r) with
                | Some (m, r') => Some (kv :: m, r')
                | None => None
                end
            | None => None
            end
          else None
      end
  end.

(** [JSON.parse(text)]: one value with white space around it.  [None]: the
    text is not JSON (a thrown [SyntaxError]) or denotes a value outside
    [JS.json]; [well_formed] below tells the two apart. *)
Definition parse (text : string) : option json :=
  match parse_value (S (String.length text)) (skip_ws text) with
  | Some (v, rest) =>
      match skip_ws rest with
      | EmptyString => Some v
      | String _ _ => None
      end
  | None => None
  end.

(** *** The grammar of JSON texts

    The texts [JSON.parse] accepts, whatever they denote: the same descent
    with every number literal and every [\u] escape of the grammar. *)

(** The characters of a string literal, after its opening quote. *)
Fixpoint accept_chars (s : string) : option string :=
  match s with
  | EmptyString => None
  | String c s' =>
      if Ascii.eqb c dquote then Some s'
      else if Ascii.eqb c backslash then
        match s' with
        | EmptyString => None
        | String e s'' =>
            match simple_escape e with
            | Some _ => accept_chars s''
            | None =>
                if Ascii.eqb e "u"%char then
                  match s'' with
                  | String h1 (String h2 (String h3 (String h4 s3))) =>
                      match hex4 h1 h2 h3 h4 with
                      | Some _ => accept_chars s3
                      | None => None
                      end
                  | _ => None
                  end
                else None
            end
        end
      else if (nat_of_ascii c <? 32)%nat then None
      else accept_chars s'
  end.

(** At least one digit. *)
Definition accept_digits (s : string) : option string :=
  let (d, rest) := span_digits s in
  match d with
  | EmptyString => None
  | String _ _ => Some rest
  end.

(** The integer part: [0], or digits that do not start with [0]. *)
Definition accept_int (s : string) : option string :=
  let (d, rest) := span_digits s in
  match d with
  | EmptyString => None
  | String c d' =>
      if Ascii.eqb c "0"%char && negb (String.eqb d' "") then None else Some rest
  end.

Definition accept_fraction (s : string) : option string :=
  match s with
  | EmptyString => Some s
  | String c s' => if Ascii.eqb c "."%char then accept_digits s' else Some s
  end.

Definition skip_sign (s : string) : string :=
  match s with
  | EmptyString => s
  | String c s' => if Ascii.eqb c "+"%char || Ascii.eqb c "-"%char then s' else s
  end.

Definition accept_exponent (s : string) : option string :=
  match s with
  | EmptyString => Some s
  | String c s' =>
      if Ascii.eqb c "e"%char || Ascii.eqb c "E"%char then accept_digits (skip_sign s')
      else Some s
  end.

(** A number literal: an optional minus sign, the integer part, an optional
    fraction, an optional exponent. *)
Definition accept_number (s : string) : option string :=
  let s1 := match s with
            | EmptyString => s
            | String c s' => if Ascii.eqb c "-"%char then s' else s
            end in
  match accept_int s1 with
  | Some r =>
      match accept_fraction r with
      | Some r' => accept_exponent r'
      | None => None
      end
  | None => None
  end.

Fixpoint accept_value (fuel : nat) (s : string) : option string :=
  match fuel with
  | O => None
  | S fuel' =>
      match s with
      | EmptyString => None
      | String c s' =>
          if Ascii.eqb c "n"%char then strip_prefix "ull" s'
          else if Ascii.eqb c "t"%char then strip_prefix "rue" s'
          else if Ascii.eqb c "f"%char then strip_prefix "alse" s'
          else if Ascii.eqb c dquote then accept_chars s'
          else if Ascii.eqb c "["%char then
            match skip_ws s' with
            | EmptyString => None
            | String c1 r =>
                if Ascii.eqb c1 "]"%char then Some r
                else
                  match accept_value fuel' (String c1 r) with
                  | Some r1 => accept_elements fuel' (skip_ws r1)
                  | None => None
                  end
            end
          else if Ascii.eqb c "{"%char then
            match skip_ws s' with
            | EmptyString => None
            | String c1 r =>
                if Ascii.eqb c1 "}"%char then Some r
                else
                  match accept_member fuel' (String c1 r) with
                  | Some r1 => accept_members fuel' (skip_ws r1)
                  | None => None
                  end
            end
          else accept_number s
      end
  end

with accept_elements (fuel : nat) (s : string) : option string :=
  match fuel with
  | O => None
  | S fuel' =>
      match s with
      | EmptyString => None
      | String c s' =>
          if Ascii.eqb c "]"%char then Some s'
          else if Ascii.eqb c ","%char then
            match accept_value fuel' (skip_ws s') with
            | Some r => accept_elements fuel' (skip_ws r)
            | None => None
            end
          else None
      end
  end

with accept_member (fuel : nat) (s : string) : option string :=
  match fuel with
  | O => None
  | S fuel' =>
      match s with
      | EmptyString => None
      | String c s' =>
          if Ascii.eqb c dquote then
            match accept_chars s' with
            | Some r =>
                match skip_ws r with
                | EmptyString => None
                | String c1 r1 =>
                    if Ascii.eqb c1 ":"%char then accept_value fuel' (skip_ws r1)
                    else None
                end
            | None => None
            end
          else None
      end
  end

with accept_members (fuel : nat) (s : string) : option string :=
  match fuel with
  | O => None
  | S fuel' =>
      match s with
      | EmptyString => None
      | String c s' =>
          if Ascii.eqb c "}"%char then Some s'
          else if Ascii.eqb c ","%char then
            match accept_member fuel' (skip_ws s') with
            | Some r => accept_members fuel' (skip_ws r)
            | None => None
            end
          else None
      end
  end.

(** Whether [JSON.parse(text)] returns: when this is [false] it throws a
    [SyntaxError]. *)
Definition well_formed (text : string) : bool :=
  match accept_value (S (String.length text)) (skip_ws text) with
  | Some rest => String.eqb (skip_ws rest) ""
  | None => false
  end.

(** The integers a double holds one by one, [Number.MAX_SAFE_INTEGER] being
    the largest: beyond them [JSON.parse] rounds. *)
Definition MAX_SAFE_INTEGER : Z := 9007199254740991.

Fixpoint exact (v : json) : bool :=
  match v with
  | JNum n => (Z.abs n <=? MAX_SAFE_INTEGER)%Z
  | JArr l => forallb exact l
  | JObj m => forallb (fun kv => exact (snd kv)) m
  | _ => true
  end.

(** The embedding has the outcome of [JSON.parse(text)]: the value [parse]
    returns is the one the runtime builds, or the text is not JSON and the
    runtime throws.  Elsewhere the runtime returns a value that [JS.json]
    does not hold, and nothing is said of what the scripts do with it. *)
Definition covered (text : string) : bool :=
  match parse text with
  | Some v => exact v
  | None => negb (well_formed text)
  end.

(** *** Values as JavaScript holds them

    A value in memory lists the properties of each of its objects in the
    order in which creating them one after the other puts them: no key
    twice, array-index keys first and ascending. *)

Definition in_creation_order (m : list (string * json)) : Prop :=
  fold_left (fun acc p => define (fst p) (snd p) acc) m [] = m.

Fixpoint proper (v : json) : Prop :=
  match v with
  | JArr l =>
      (fix all (l : list json) : Prop :=
         match l with
         | [] => True
         | x :: l' => proper x /\ all l'
         end) l
  | JObj m =>
      in_creation_order m /\
      (fix all (m : list (string * json)) : Prop :=
         match m with
         | [] => True
         | kv :: m' => proper (snd kv) /\ all m'
         end) m
  | _ => True
  end.

(** The same order, on the keys alone: array indices from [lo] upwards in
    ascending order, then the other keys, none of them twice. *)
Fixpoint ordered (lo : N) (ks : list string) : Prop :=
  match ks with
  | [] => True
  | k :: ks' =>
      match array_index k with
      | Some i => (lo <= i)%N /\ ordered (i + 1) ks'
      | None =>
          ~ In k ks' /\ Forall (fun k' => array_index k' = None) ks' /\ ordered lo ks'
      end
  end.

(** The fuel the descent uses on the text of a value. *)
Fixpoint weight (v : json) : nat :=
  match v with
  | JArr l =>
      S ((fix sum (l : list json) : nat :=
            match l with
            | [] => 0
            | x :: l' => S (weight x) + sum l'
            end) l)
  | JObj m =>
      S ((fix sum (m : list (string * json)) : nat :=
            match m with
            | [] => 0
            | kv :: m' => S (S (weight (snd kv))) + sum m'
            end) m)
  | _ => 1
  end.

Fixpoint elements_weight (l : list json) : nat :=
  match l with
  | [] => 0
  | x :: l' => S (weight x) + elements_weight l'
  end.

Fixpoint members_weight (m : list (string * json)) : nat :=
  match m with
  | [] => 0
  | kv :: m' => S (S (weight (snd kv))) + members_weight m'
  end.

(** The text of the elements after the first one, and of the members after
    the first one. *)
Fixpoint elements_text (l : list json) : string :=
  match l with
  | [] => ""
  | x :: l' => "," ++ stringify x ++ elements_text l'
  end.

Definition member_text (kv : string * json) : string :=
  quote (fst kv) ++ ":" ++ stringify (snd kv).

Fixpoint members_text (m : list (string * json)) : string :=
  match m with
  | [] => ""
  | kv :: m' => "," ++ member_text kv ++ members_text m'
  end.

(** What may follow a value inside an array or an object, or nothing. *)
Definition delimiter_next (s : string) : bool :=
  match s with
  | EmptyString => true
  | String c _ => Ascii.eqb c ","%char || Ascii.eqb c "]"%char || Ascii.eqb c "}"%char
  end.

(** The first character of the text of a value. *)
Definition opens_value (c : ascii) : bool :=
  negb (is_ws c) && negb (Ascii.eqb c "]"%char) && negb (Ascii.eqb c "}"%char).

(** What the induction carries for one value. *)
Definition parses_back (v : json) : Prop :=
  proper v ->
  forall (fuel : nat) (rest : string),
    weight v <= fuel -> delimiter_next rest = true ->
    parse_value fuel (stringify v ++ rest)%string = Some (v, rest).

End JSON.

(** ** [scripts/generate-descriptions.js] *)

Module Generate.
Import JS.

Definition BATCH_SIZE : nat := 20.

(** *** The object [mf]

    [const mf = {}] followed by [mf[m.key] = m.value] is an ordinary
    assignment, so the key ["__proto__"] reaches the accessor inherited from
    [Object.prototype] rather than creating a property: the accessor swaps
    the prototype when the value is an object or [null] and ignores any
    other value.  A later read of [mf.longDescription] falls back to such a
    prototype. *)

Inductive prototype : Type :=
| ObjectPrototype
| NullPrototype
| ObjectValue (m : list (string * json))
| ArrayValue (l : list json).

Record mfobj : Type := {
  mf_proto : prototype;
  mf_own : list (string * value)
}.

Definition empty_object : mfobj := {| mf_proto := ObjectPrototype; mf_own := [] |}.

(** Whether [mf["__proto__"] = v] finds the inherited accessor: not when [mf]
    has an own property of that name, nor when the chain ends before
    [Object.prototype] or passes a data property of that name. *)
Definition reaches_proto_accessor (o : mfobj) : bool :=
  negb (has_key "__proto__" (mf_own o)) &&
  match mf_proto o with
  | ObjectPrototype => true
  | NullPrototype => false
  | ObjectValue m => negb (has_key "__proto__" m)
  | ArrayValue _ => true
  end.

(** [mf[k] = v]. *)
Definition mf_set (o : mfobj) (k : string) (v : value) : mfobj :=
  if String.eqb k "__proto__" && reaches_proto_accessor o then
    match v with
    | Some JNull => {| mf_proto := NullPrototype; mf_own := mf_own o |}
    | Some (JObj m) => {| mf_proto := ObjectValue m; mf_own := mf_own o |}
    | Some (JArr l) => {| mf_proto := ArrayValue l; mf_own := mf_own o |}
    | _ => o
    end
  else {| mf_proto := mf_proto o; mf_own := define k v (mf_own o) |}.

(** [mf.longDescription]. *)
Definition mf_longDescription (o : mfobj) : value :=
  match assoc "longDescription" (mf_own o) with
  | Some v => v
  | None =>
      match mf_proto o with
      | ObjectValue m => assoc "longDescription" m
      | _ => None
      end
  end.

(** The values a [for ... of] loop visits. *)
Definition iterate (v : value) : res (list value) :=
  match v with
  | Some (JArr l) => Ok (map Some l)
  | Some (JStr s) => Ok (map Some (chars s))
  | _ => Throw TypeError
  end.

(** [for (const m of ...) mf[m.key] = m.value]. *)
Fixpoint collect (ms : list value) (mf : mfobj) : res mfobj :=
  match ms with
  | [] => Ok mf
  | m :: ms' =>
      (k <- get m "key";;
       v <- get m "value";;
       key <- template k;;
       collect ms' (mf_set mf key v))%res
  end.

Definition metafields_object (product : json) : res mfobj :=
  (ms <- get (Some product) "metafields";;
   l <- iterate (or_else ms (Some (JArr [])));;
   collect l empty_object)%res.

Record attributes : Type := {
  id : value;
  title : value;
  productType : value;
  vendor : value;
  tags : value;
  existingDescription : value;
  existingLongDescription : value;
  metafields : mfobj
}.

Definition extractAttributes (product : json) : res attributes :=
  (mf <- metafields_object product;;
   i <- get (Some product) "id";;
   t <- get (Some product) "title";;
   pt <- get (Some product) "productType";;
   vd <- get (Some product) "vendor";;
   tg <- get (Some product) "tags";;
   d <- get (Some product) "description";;
   Ok {| id := i;
         title := t;
         productType := or_else pt (Some JNull);
         vendor := or_else vd (Some JNull);
         tags := or_else tg (Some (JArr []));
         existingDescription := or_else d (Some JNull);
         existingLongDescription := or_else (mf_longDescription mf) (Some JNull);
         metafields := mf |})%res.

(** [v && v.trim().length > 0]. *)
Definition and_nonblank (v : value) : res value :=
  if truthy v then
    match v with
    | Some (JStr s) => Ok (Some (JBool (0 <? String.length (trim s))%nat))
    | _ => Throw TypeError
    end
  else Ok v.

Definition needsGeneration (overwrite : bool) (product : json) : res bool :=
  if overwrite then Ok true
  else
    (mf <- metafields_object product;;
     d <- get (Some product) "description";;
     hasDescription <- and_nonblank d;;
     hasLong <- and_nonblank (mf_longDescription mf);;
     Ok (negb (truthy hasDescription) || negb (truthy hasLong)))%res.

(** *** The structured-output schema *)

Definition outputSchema (length : nat) : json :=
  JObj [
    ("type", JStr "object");
    ("properties", JObj [
      ("products", JObj [
        ("type", JStr "array");
        ("items", JObj [
          ("type", JStr "object");
          ("properties", JObj [
            ("description", JObj [("type", JStr "string")]);
            ("longDescription", JObj [("type", JStr "string")])
          ]);
          ("required", JArr [JStr "description"; JStr "longDescription"]);
          ("additionalProperties", JBool false)
        ]);
        ("minItems", JNum (Z.of_nat length));
        ("maxItems", JNum (Z.of_nat length))
      ])
    ]);
    ("required", JArr [JStr "products"]);
    ("additionalProperties", JBool false)
  ].

(** What the generation service checks a structured output against: the
    JSON Schema keywords [outputSchema] uses. *)
Definition type_matches (t : option json) (v : json) : bool :=
  match t with
  | Some (JStr name) =>
      match v with
      | JNull => String.eqb name "null"
      | JBool _ => String.eqb name "boolean"
      | JNum _ => String.eqb name "number" || String.eqb name "integer"
      | JStr _ => String.eqb name "string"
      | JArr _ => String.eqb name "array"
      | JObj _ => String.eqb name "object"
      end
  | _ => true
  end.

Definition required_present (r : option json) (m : list (string * json)) : bool :=
  match r with
  | Some (JArr names) =>
      forallb (fun n => match n with
                        | JStr k => has_key k m
                        | _ => true
                        end) names
  | _ => true
  end.

Definition bound_ok (b : option json) (test : Z -> bool) : bool :=
  match b with
  | Some (JNum n) => test n
  | _ => true
  end.

Fixpoint satisfies (schema : list (string * json)) (v : json) : bool :=
  type_matches (assoc "type" schema) v &&
  match v with
  | JArr l =>
      bound_ok (assoc "minItems" schema) (fun n => (n <=? Z.of_nat (List.length l))%Z) &&
      bound_ok (assoc "maxItems" schema) (fun n => (Z.of_nat (List.length l) <=? n)%Z) &&
      match assoc "items" schema with
      | Some (JObj items) => forallb (fun x => satisfies items x) l
      | _ => true
      end
  | JObj m =>
      required_present (assoc "required" schema) m &&
      let props := match assoc "properties" schema with
                   | Some (JObj ps) => ps
                   | _ => []
                   end in
      forallb (fun kv => match kv with
                         | (k, x) =>
                             match assoc k props with
                             | Some (JObj sub) => satisfies sub x
                             | Some _ => true
                             | None =>
                                 match assoc "additionalProperties" schema with
                                 | Some (JBool false) => false
                                 | _ => true
                                 end
                             end
                         end) m
  | _ => true
  end.

Definition conforms (schema : json) (v : value) : bool :=
  match schema, v with
  | JObj s, Some j => satisfies s j
  | _, _ => false
  end.

(** *** The prompt *)

Definition nl : string := String newline EmptyString.

(** [for (const [key, value] of Object.entries(a.metafields))]. *)
Fixpoint metafield_lines (entries : list (string * value)) : res (list string) :=
  match entries with
  | [] => Ok []
  | (key, v) :: rest =>
      if String.eqb key "longDescription" then metafield_lines rest
      else if truthy v then
        (s <- template v;;
         ls <- metafield_lines rest;;
         Ok ((key ++ ": " ++ s) :: ls))%res
      else metafield_lines rest
  end.

Definition labelled (label : string) (v : value) : res (list string) :=
  if truthy v then (s <- template v;; Ok [label ++ s])%res else Ok [].

Definition tag_lines (tg : value) : res (list string) :=
  (len <- get tg "length";;
   if truthy len then
     match tg with
     | Some (JArr l) => (s <- array_join ", " l;; Ok ["Tags: " ++ s])
     | _ => Throw TypeError
     end
   else Ok [])%res.

Definition product_prompt (i : nat) (a : attributes) : res string :=
  (t <- template (title a);;
   ty <- labelled "Type: " (productType a);;
   vd <- labelled "Vendor: " (vendor a);;
   tg <- tag_lines (tags a);;
   mfs <- metafield_lines (mf_own (metafields a));;
   let first := "Product " ++ string_of_nat (i + 1) ++ ": " ++ t in
   Ok (join nl (first :: (ty ++ vd ++ tg ++ mfs)%list)))%res.

Fixpoint product_prompts (i : nat) (attrs : list attributes) : res (list string) :=
  match attrs with
  | [] => Ok []
  | a :: rest =>
      (p <- product_prompt i a;;
       ps <- product_prompts (S i) rest;;
       Ok (p :: ps))%res
  end.

(** The [prompt] option of the generation call for a batch. *)
Definition build_prompt (batch : list json) : res string :=
  (attrs <- sequence (map extractAttributes batch);;
   ps <- product_prompts 0 attrs;;
   Ok ("Generate descriptions for these " ++ string_of_nat (List.length batch)
       ++ " products in order:" ++ nl ++ nl ++ join (nl ++ nl) ps))%res.

(** *** The generation call *)

Record usage : Type := {
  input_tokens : option Z;
  output_tokens : option Z
}.

Record result_message : Type := {
  subtype : string;
  errors : option (list string);
  structured_output : value;
  usage_of : option usage
}.

(** A message of the stream [query] yields: a result, or one of another
    type. *)
Inductive message : Type :=
| Other
| Result (r : result_message).

(** The [for await] loop of [generateBatch]. *)
Fixpoint consume (msgs : list message) (result : option result_message)
  : res (option result_message) :=
  match msgs with
  | [] => Ok result
  | Other :: rest => consume rest result
  | Result r :: rest =>
      if String.eqb (subtype r) "success" then consume rest (Some r)
      else Throw (Error ("AI error: " ++ subtype r ++ ": "
                         ++ match errors r with
                            | Some l => join ", " l
                            | None => "undefined"
                            end))
  end.

(** What [generateBatch] returns once the stream [msgs] has been read: the
    [descriptions] and the [tokens] (the dollar cost, a float that only
    feeds the closing log line, is left out). *)
Definition generateBatch (msgs : list message) : res (value * option usage) :=
  (result <- consume msgs None;;
   match result with
   | None => Throw TypeError
   | Some r =>
       ds <- get (structured_output r) "products";;
       Ok (ds, usage_of r)
   end)%res.

(** *** Output *)

Fixpoint defined (fields : list (string * value)) : list (string * json) :=
  match fields with
  | [] => []
  | (k, Some j) :: rest => (k, j) :: defined rest
  | (_, None) :: rest => defined rest
  end.

(** The object [processBatch] prints for [products[i]]; [JSON.stringify]
    leaves out the properties whose value is [undefined]. *)
Definition output_line (i : nat) (product : json) (descriptions : value) : res json :=
  (desc <- get descriptions (string_of_nat i);;
   pid <- get (Some product) "id";;
   h <- get (Some product) "handle";;
   t <- get (Some product) "title";;
   d <- get desc "description";;
   ld <- get desc "longDescription";;
   Ok (JObj (defined [("id", pid); ("handle", h); ("title", t);
                      ("description", d); ("longDescription", ld)])))%res.

(** The loop of [processBatch]: the lines printed, and the exception that
    ended the loop early, if any. *)
Fixpoint emit (i : nat) (products : list json) (descriptions : value)
  : list json * option exn :=
  match products with
  | [] => ([], None)
  | p :: rest =>
      match output_line i p descriptions with
      | Throw e => ([], Some e)
      | Ok o => let (ls, r) := emit (S i) rest descriptions in (o :: ls, r)
      end
  end.

(** *** The run

    The script is one thread of control with interleaved asynchronous
    steps: [run] reads standard input chunk by chunk and hands batches to
    [processBatch] without waiting for them; each generation call answers at
    some later point, between two reads or while [run] waits for
    [Promise.all(pending)].  A run is therefore a sequence of actions chosen
    by the environment: a chunk of input arrives, the input ends, or the
    call of one outstanding batch delivers its messages. *)

Inductive log_line : Type :=
| LogReading
| LogStarting (n : nat)
| LogDispatching (total skipped : nat)
| LogGenerated (completed total : nat)
| LogToGenerate (total skipped : nat)
| LogCost (input output : Z).

(** What the process does that can be seen from outside.  [Stdout o] is
    [console.log(JSON.stringify(o))]; [Failure e] is [error(err.message)] in
    the handler of [run().catch]; [Unhandled e] is the report of the runtime
    when it ends the process for a rejection nobody handles. *)
Inductive event : Type :=
| Log (l : log_line)
| Query (prompt : string) (schema : json)
| Stdout (o : json)
| Success (completed : nat)
| Failure (e : exn)
| Unhandled (e : exn).

Inductive phase : Type :=
| Reading
| Joining
| Exited (code : nat).

(** The promise [processBatch(batch)] returns. *)
Inductive promise : Type :=
| Inflight (products : list json)
| Fulfilled (products : list json)
| Rejected (products : list json) (e : exn).

Definition products_of (p : promise) : list json :=
  match p with
  | Inflight ps => ps
  | Fulfilled ps => ps
  | Rejected ps _ => ps
  end.

Record state : Type := {
  buffer : string;
  batch : list json;
  total : nat;
  skipped : nat;
  completed : nat;
  totalInput : Z;
  totalOutput : Z;
  pending : list promise;
  stage : phase;
  trace : list event
}.

Definition initial : state :=
  {| buffer := ""; batch := []; total := 0; skipped := 0; completed := 0;
     totalInput := 0; totalOutput := 0; pending := []; stage := Reading;
     trace := [Log LogReading] |}.

Definition set_buffer (b : string) (st : state) : state :=
  {| buffer := b; batch := batch st; total := total st; skipped := skipped st;
     completed := completed st; totalInput := totalInput st;
     totalOutput := totalOutput st; pending := pending st; stage := stage st;
     trace := trace st |}.

Definition set_stage (p : phase) (st : state) : state :=
  {| buffer := buffer st; batch := batch st; total := total st; skipped := skipped st;
     completed := completed st; totalInput := totalInput st;
     totalOutput := totalOutput st; pending := pending st; stage := p;
     trace := trace st |}.

Definition set_pending (ps : list promise) (st : state) : state :=
  {| buffer := buffer st; batch := batch st; total := total st; skipped := skipped st;
     completed := completed st; totalInput := totalInput st;
     totalOutput := totalOutput st; pending := ps; stage := stage st;
     trace := trace st |}.

Definition emit_events (evs : list event) (st : state) : state :=
  {| buffer := buffer st; batch := batch st; total := total st; skipped := skipped st;
     completed := completed st; totalInput := totalInput st;
     totalOutput := totalOutput st; pending := pending st; stage := stage st;
     trace := (trace st ++ evs)%list |}.

(** The process ends with [code]. *)
Definition exit_with (ev : event) (code : nat) (st : state) : state :=
  set_stage (Exited code) (emit_events [ev] st).

(** [processBatch(batch)] up to its first suspension, then [batch = []]:
    [generateBatch] logs, builds the prompt and opens the generation call.
    An exception while building the prompt rejects the promise at once. *)
Definition dispatch (st : state) : state :=
  let products := batch st in
  let st1 := emit_events [Log (LogStarting (List.length products))] st in
  let st2 :=
    match build_prompt products with
    | Ok prompt =>
        set_pending (pending st1 ++ [Inflight products])%list
          (emit_events [Query prompt (outputSchema (List.length products))] st1)
    | Throw e => set_pending (pending st1 ++ [Rejected products e])%list st1
    end in
  {| buffer := buffer st2; batch := []; total := total st2; skipped := skipped st2;
     completed := completed st2; totalInput := totalInput st2;
     totalOutput := totalOutput st2; pending := pending st2; stage := stage st2;
     trace := trace st2 |}.

(** [skipped++]. *)
Definition skip (st : state) : state :=
  {| buffer := buffer st; batch := batch st; total := total st;
     skipped := S (skipped st); completed := completed st;
     totalInput := totalInput st; totalOutput := totalOutput st;
     pending := pending st; stage := stage st; trace := trace st |}.

(** [batch.push(product); total++], then the dispatch of a full batch. *)
Definition accept (product : json) (st : state) : state :=
  let st1 :=
    {| buffer := buffer st; batch := (batch st ++ [product])%list;
       total := S (total st); skipped := skipped st; completed := completed st;
       totalInput := totalInput st; totalOutput := totalOutput st;
       pending := pending st; stage := stage st; trace := trace st |} in
  if (BATCH_SIZE <=? List.length (batch st1))%nat then
    dispatch (emit_events [Log (LogDispatching (total st1) (skipped st1))] st1)
  else st1.

(** The body of the inner loop for one line cut off the buffer.  An
    exception leaves [run] and reaches the handler of [run().catch].  The
    line is one the embedding covers ([JSON.covered], which [step] checks
    before it lets a chunk in), so that [None] from [JSON.parse] is the
    [SyntaxError] of a text that is not JSON. *)
Definition handle_line (overwrite : bool) (raw : string) (st : state) : state :=
  let line := trim raw in
  if String.eqb line "" then st
  else
    match JSON.parse line with
    | None => exit_with (Failure SyntaxError) 1 st
    | Some product =>
        match needsGeneration overwrite product with
        | Throw e => exit_with (Failure e) 1 st
        | Ok false => skip st
        | Ok true => accept product st
        end
    end.

(** [while ((newline = buffer.indexOf("\n")) !== -1) ...]; every turn
    shortens the buffer, so [fuel] above its length is never used up. *)
Fixpoint drain (overwrite : bool) (fuel : nat) (st : state) : state :=
  match fuel with
  | O => st
  | S fuel' =>
      match stage st with
      | Exited _ => st
      | _ =>
          match index_of_newline (buffer st) with
          | None => st
          | Some n =>
              let raw := slice_to n (buffer st) in
              let st1 := set_buffer (slice_from (S n) (buffer st)) st in
              drain overwrite fuel' (handle_line overwrite raw st1)
          end
      end
  end.

Fixpoint first_rejected (ps : list promise) : option exn :=
  match ps with
  | [] => None
  | Rejected _ e :: _ => Some e
  | _ :: rest => first_rejected rest
  end.

Definition is_fulfilled (p : promise) : bool :=
  match p with
  | Fulfilled _ => true
  | _ => false
  end.

(** What happens once the synchronous part of a step is over.

    While [run] reads, no handler is attached to the promises in [pending]:
    a rejected one stays unobserved unless the runtime ends the process for
    it ([crash], its policy on unhandled rejections).  Once [run] waits for
    [Promise.all(pending)], the first rejection rejects [run] and the handler
    of [run().catch] prints it and exits with 1; when every promise is
    fulfilled [run] prints the totals and the process ends with 0. *)
Definition settle (crash : bool) (st : state) : state :=
  match stage st with
  | Reading =>
      if crash then
        match first_rejected (pending st) with
        | Some e => exit_with (Unhandled e) 1 st
        | None => st
        end
      else st
  | Joining =>
      match first_rejected (pending st) with
      | Some e => exit_with (Failure e) 1 st
      | None =>
          if forallb is_fulfilled (pending st) then
            set_stage (Exited 0)
              (emit_events [Log (LogCost (totalInput st) (totalOutput st));
                            Success (completed st)] st)
          else st
      end
  | Exited _ => st
  end.

Fixpoint set_nth {A : Type} (k : nat) (x : A) (l : list A) : list A :=
  match l, k with
  | [], _ => []
  | _ :: l', O => x :: l'
  | y :: l', S k' => y :: set_nth k' x l'
  end.

Definition tokens_or_zero (t : option usage) (field : usage -> option Z) : Z :=
  match t with
  | Some u => match field u with
              | Some n => n
              | None => 0%Z
              end
  | None => 0%Z
  end.

(** The rest of [processBatch] for the batch at position [k] of [pending],
    once its generation call has delivered [msgs]. *)
Definition processBatch (k : nat) (products : list json) (msgs : list message)
  (st : state) : state :=
  match generateBatch msgs with
  | Throw e => set_pending (set_nth k (Rejected products e) (pending st)) st
  | Ok (descriptions, tokens) =>
      let (lines, failure) := emit 0 products descriptions in
      let st1 :=
        {| buffer := buffer st; batch := batch st; total := total st;
           skipped := skipped st; completed := completed st;
           totalInput := (totalInput st + tokens_or_zero tokens input_tokens)%Z;
           totalOutput := (totalOutput st + tokens_or_zero tokens output_tokens)%Z;
           pending := pending st; stage := stage st;
           trace := (trace st ++ map Stdout lines)%list |} in
      match failure with
      | Some e => set_pending (set_nth k (Rejected products e) (pending st1)) st1
      | None =>
          let done := (completed st1 + List.length products)%nat in
          {| buffer := buffer st1; batch := batch st1; total := total st1;
             skipped := skipped st1; completed := done;
             totalInput := totalInput st1; totalOutput := totalOutput st1;
             pending := set_nth k (Fulfilled products) (pending st1);
             stage := stage st1;
             trace := (trace st1 ++ [Log (LogGenerated done (total st1))])%list |}
      end
  end.

Inductive action : Type :=
| Chunk (text : string)
| Eof
| Complete (k : nat) (msgs : list message).

(** The complete lines of a text, and what follows its last newline. *)
Fixpoint split_lines (s : string) : list string * string :=
  match s with
  | EmptyString => ([], EmptyString)
  | String c s' =>
      let (ls, rest) := split_lines s' in
      if Ascii.eqb c newline then (EmptyString :: ls, rest)
      else match ls with
           | [] => ([], String c rest)
           | l :: ls' => (String c l :: ls', rest)
           end
  end.

(** Every complete line of the text is one on which the embedding has the
    outcome of [JSON.parse]. *)
Definition lines_covered (text : string) : bool :=
  forallb (fun raw => JSON.covered (trim raw)) (fst (split_lines text)).

(** One step of the process; [None] when the action cannot happen in [st],
    or when a chunk completes a line that is JSON for a value outside
    [JS.json] (a fractional number, say): the runtime goes on with that
    value, and the embedding does not follow it. *)
Definition step (overwrite crash : bool) (a : action) (st : state) : option state :=
  match a, stage st with
  | Chunk text, Reading =>
      let st1 := set_buffer (buffer st ++ text) st in
      if lines_covered (buffer st1) then
        Some (settle crash (drain overwrite (S (String.length (buffer st1))) st1))
      else None
  | Eof, Reading =>
      let st1 := match batch st with
                 | [] => st
                 | _ :: _ => dispatch st
                 end in
      let st2 := emit_events [Log (LogToGenerate (total st1) (skipped st1))] st1 in
      Some (settle crash (set_stage Joining st2))
  | Complete k msgs, Reading
  | Complete k msgs, Joining =>
      match nth_error (pending st) k with
      | Some (Inflight products) => Some (settle crash (processBatch k products msgs st))
      | _ => None
      end
  | _, _ => None
  end.

Fixpoint exec (overwrite crash : bool) (schedule : list action) (st : state)
  : option state :=
  match schedule with
  | [] => Some st
  | a :: rest =>
      match step overwrite crash a st with
      | Some st' => exec overwrite crash rest st'
      | None => None
      end
  end.

(** [run()] with its [catch] handler, under a schedule. *)
Definition run (overwrite crash : bool) (schedule : list action) : option state :=
  exec overwrite crash schedule initial.

Definition stdout (st : state) : list json :=
  flat_map (fun ev => match ev with
                      | Stdout o => [o]
                      | _ => []
                      end) (trace st).

Definition reports (st : state) : list exn :=
  flat_map (fun ev => match ev with
                      | Failure e => [e]
                      | Unhandled e => [e]
                      | _ => []
                      end) (trace st).

(** *** Records as the specification describes them

    A record is an object whose [description] is text or missing and whose
    [metafields], when present, is an array of metafields; a metafield is an
    object with a text key and a value that is text or missing. *)

Definition text_or_absent (v : value) : bool :=
  match v with
  | None => true
  | Some JNull => true
  | Some (JStr _) => true
  | Some _ => false
  end.

Definition is_metafield (m : json) : bool :=
  match m with
  | JObj e =>
      match assoc "key" e with
      | Some (JStr _) => text_or_absent (assoc "value" e)
      | _ => false
      end
  | _ => false
  end.

Definition is_record (p : json) : bool :=
  match p with
  | JObj fields =>
      text_or_absent (assoc "description" fields) &&
      match assoc "metafields" fields with
      | None => true
      | Some JNull => true
      | Some (JArr ms) => forallb is_metafield ms
      | Some _ => false
      end
  | _ => false
  end.

Definition text_of (v : value) : string :=
  match v with
  | Some (JStr s) => s
  | _ => ""
  end.

Definition metafields_of (p : json) : list json :=
  match p with
  | JObj fields =>
      match assoc "metafields" fields with
      | Some (JArr ms) => ms
      | _ => []
      end
  | _ => []
  end.

(** The value of the last metafield of [ms] whose key is [k], whatever its
    namespace. *)
Fixpoint last_with_key (k : string) (ms : list json) : option value :=
  match ms with
  | [] => None
  | m :: ms' =>
      match last_with_key k ms' with
      | Some v => Some v
      | None =>
          match m with
          | JObj e =>
              match assoc "key" e with
              | Some (JStr k') => if String.eqb k k' then Some (assoc "value" e) else None
              | _ => None
              end
          | _ => None
          end
      end
  end.

(** The prototype of [mf] is not an object of the input. *)
Definition plain (o : mfobj) : Prop :=
  match mf_proto o with
  | ObjectValue _ => False
  | _ => True
  end.

(** Empty after trimming. *)
Definition blank (s : string) : bool := String.eqb (trim s) "".

Definition description_text (p : json) : string :=
  match p with
  | JObj fields => text_of (assoc "description" fields)
  | _ => ""
  end.

Definition long_description_text (p : json) : string :=
  match last_with_key "longDescription" (metafields_of p) with
  | Some v => text_of v
  | None => ""
  end.

(** The same metafield filed under the namespace [ns]. *)
Definition set_namespace (ns : json) (m : json) : json :=
  match m with
  | JObj e => JObj (define "namespace" ns e)
  | _ => m
  end.

(** The same record with [ms] for metafields. *)
Definition set_metafields (ms : list json) (p : json) : json :=
  match p with
  | JObj fields => JObj (define "metafields" (JArr ms) fields)
  | _ => p
  end.

(** [v.k] for a [v] that is not [null]. *)
Definition prop (v : json) (k : string) : value :=
  match get (Some v) k with
  | Ok x => x
  | Throw _ => None
  end.

(** The line for the record [p] with the generated pair [d]. *)
Definition line_for (p d : json) : json :=
  JObj (defined [("id", prop p "id"); ("handle", prop p "handle");
                 ("title", prop p "title");
                 ("description", prop d "description");
                 ("longDescription", prop d "longDescription")]).

(** *** The input as lines

    What the reading loop amounts to: the complete lines of the text read
    so far are handled in order, and the text after the last newline waits
    in the buffer. *)

Fixpoint feed (overwrite : bool) (lines : list string) (st : state) : state :=
  match lines with
  | [] => st
  | raw :: rest =>
      match stage st with
      | Exited _ => st
      | _ => feed overwrite rest (handle_line overwrite raw st)
      end
  end.

(** The text of the chunks of a schedule. *)
Fixpoint input_text (schedule : list action) : string :=
  match schedule with
  | [] => EmptyString
  | Chunk text :: rest => text ++ input_text rest
  | _ :: rest => input_text rest
  end.

(** The records on the complete, non-blank lines of a text. *)
Fixpoint records_on (lines : list string) : list json :=
  match lines with
  | [] => []
  | raw :: rest =>
      if String.eqb (trim raw) "" then records_on rest
      else match JSON.parse (trim raw) with
           | Some p => p :: records_on rest
           | None => records_on rest
           end
  end.

Definition records_of (text : string) : list json := records_on (fst (split_lines text)).

Definition eligible (overwrite : bool) (p : json) : bool :=
  match needsGeneration overwrite p with
  | Ok true => true
  | _ => false
  end.

(** *** What a run maintains

    The predicates below are the invariants of the step function that the
    properties of Part II rest on. *)

(** A state with its buffer emptied: two states with the same image differ
    in the buffer at most. *)
Definition forget (st : state) : state := set_buffer "" st.

(** The batches handed to [processBatch] so far, in order. *)
Definition batches (st : state) : list (list json) := map products_of (pending st).

Definition chunk_text (a : action) : string :=
  match a with
  | Chunk text => text
  | _ => ""
  end.

(** While the input is read: the eligible records among [rs] are those of
    the dispatched batches followed by the batch being filled, every
    dispatched batch is full and the one being filled is not. *)
Record batched (overwrite : bool) (rs : list json) (st : state) : Prop := {
  batched_records : (concat (batches st) ++ batch st)%list = filter (eligible overwrite) rs;
  batched_full : Forall (fun b => List.length b = BATCH_SIZE) (batches st);
  batched_room : List.length (batch st) < BATCH_SIZE;
  batched_total : total st = List.length (filter (eligible overwrite) rs);
  batched_skipped : skipped st + total st = List.length rs
}.

(** Full batches, then at most one shorter, non-empty batch. *)
Definition flushed_shape (bs : list (list json)) : Prop :=
  exists (full last : list (list json)),
    bs = (full ++ last)%list /\
    Forall (fun b => List.length b = BATCH_SIZE) full /\
    (last = [] \/ exists b, last = [b] /\ 0 < List.length b < BATCH_SIZE).

(** Once the input has ended. *)
Record flushed (overwrite : bool) (rs : list json) (st : state) : Prop := {
  flushed_stage : stage st <> Reading;
  flushed_records : concat (batches st) = filter (eligible overwrite) rs;
  flushed_batches : flushed_shape (batches st);
  flushed_total : total st = List.length (filter (eligible overwrite) rs);
  flushed_skipped : skipped st + total st = List.length rs
}.

Definition reading_inv (overwrite : bool) (text : string) (st : state) : Prop :=
  buffer st = snd (split_lines text) /\ batched overwrite (records_of text) st.

(** A line of standard output was printed for a product of a dispatched
    batch. *)
Definition printed_for (st : state) (line : json) : Prop :=
  exists (p : json) (i : nat) (ds : value),
    In p (concat (batches st)) /\ output_line i p ds = Ok line.

Definition fulfilled_products (ps : list promise) : list json :=
  concat (map products_of (filter is_fulfilled ps)).

Record accounted (st : state) : Prop := {
  acc_completed : completed st = List.length (fulfilled_products (pending st));
  acc_stdout : first_rejected (pending st) = None ->
               List.length (stdout st) = completed st;
  acc_lines : Forall (printed_for st) (stdout st)
}.

(** The stage of a state before [settle] has looked at it. *)
Definition unsettled (st : state) : Prop :=
  match stage st with
  | Exited code =>
      code = 1 /\ exists t e, trace st = (t ++ [Failure e])%list /\ reports st = [e]
  | _ => reports st = []
  end.

(** Exit codes and reports agree: a process that has not ended has reported
    nothing and, unless the runtime lets them pass, holds no rejected
    promise; one that ended with 0 reported nothing and fulfilled every
    promise; one that ended otherwise ended with 1, its last event being the
    report of one exception. *)
Definition reported (crash : bool) (st : state) : Prop :=
  match stage st with
  | Reading => reports st = [] /\ (crash = true -> first_rejected (pending st) = None)
  | Joining => reports st = [] /\ first_rejected (pending st) = None /\
               forallb is_fulfilled (pending st) = false
  | Exited code =>
      (code = 0 /\ reports st = [] /\ forallb is_fulfilled (pending st) = true) \/
      (code = 1 /\
       exists t e, (trace st = (t ++ [Failure e])%list \/
                    trace st = (t ++ [Unhandled e])%list) /\
                   reports st = [e])
  end.

(** Events that neither print a line nor report an exception. *)
Definition quiet (evs : list event) : Prop :=
  Forall (fun ev => match ev with
                    | Log _ => True
                    | Query _ _ => True
                    | _ => False
                    end) evs.

(** The effect of the reading loop on what the run accounts for: it adds
    promises that are not fulfilled and events that print nothing, and
    either goes on or ends with the report of one exception. *)
Record read_on (st st' : state) : Prop := {
  read_pending : exists new, pending st' = (pending st ++ new)%list /\
                             Forall (fun p => is_fulfilled p = false) new;
  read_completed : completed st' = completed st;
  read_stdout : stdout st' = stdout st;
  read_stage : (stage st' = Reading /\ reports st' = reports st) \/
               (stage st' = Exited 1 /\
                exists t e, trace st' = (t ++ [Failure e])%list /\
                            reports st' = (reports st ++ [e])%list)
}.

Definition coherent (crash : bool) (st : state) : Prop := accounted st /\ reported crash st.

(** Two states that differ in the buffer only, neither buffer holding a
    complete line. *)
Definition same_but_buffer (a b : state) : Prop :=
  forget a = forget b /\
  index_of_newline (buffer a) = None /\ index_of_newline (buffer b) = None.

(** *** The reader as a function of the text

    The state of a run that has read [text], no generation call having
    answered yet: the complete lines handled in order, the text after the
    last newline in the buffer. *)
Definition after_reading (overwrite : bool) (text : string) : state :=
  set_buffer (snd (split_lines text)) (feed overwrite (fst (split_lines text)) initial).

(** A text the reader gets through: the embedding covers its lines, no
    line ends the run and, where the runtime ends the process for an
    unhandled rejection, no batch was rejected when it was dispatched. *)
Definition readable (overwrite crash : bool) (text : string) : Prop :=
  lines_covered text = true /\
  stage (after_reading overwrite text) = Reading /\
  (crash = true -> first_rejected (pending (after_reading overwrite text)) = None).

(** *** The generation calls of a run *)

(** The calls opened so far: the prompt and the schema of each. *)
Definition calls (st : state) : list (string * json) :=
  flat_map (fun ev => match ev with
                      | Query prompt schema => [(prompt, schema)]
                      | _ => []
                      end) (trace st).

(** The call [generateBatch] opens for a batch, if it gets that far. *)
Definition call_for (products : list json) : list (string * json) :=
  match build_prompt products with
  | Ok prompt => [(prompt, outputSchema (List.length products))]
  | Throw _ => []
  end.

(** Every call belongs to a dispatched batch, in order, and asks for as
    many entries as the batch has products. *)
Definition called (st : state) : Prop := calls st = flat_map call_for (batches st).

(** *** Token accounting *)

(** What an action adds to a total: the usage of the result of a call that
    returned, nothing without usage or when [generateBatch] threw. *)
Definition tokens_used (field : usage -> option Z) (a : action) : Z :=
  match a with
  | Complete _ msgs =>
      match generateBatch msgs with
      | Ok (_, tokens) => tokens_or_zero tokens field
      | Throw _ => 0%Z
      end
  | _ => 0%Z
  end.

Definition tokens_total (field : usage -> option Z) (schedule : list action) : Z :=
  fold_right Z.add 0%Z (map (tokens_used field) schedule).

(** *** Progress *)

(** Every record counted in [total] sits in a dispatched batch or in the
    batch being filled. *)
Definition tallied (st : state) : Prop :=
  total st = (List.length (concat (batches st)) + List.length (batch st))%nat.

(** The progress lines of a trace never show more generated than read. *)
Definition progress_bounded (t : list event) : Prop :=
  Forall (fun ev => match ev with
                    | Log (LogGenerated generated read) => (generated <= read)%nat
                    | _ => True
                    end) t.

(** The two totals of a state. *)
Definition totals (st : state) : Z * Z := (totalInput st, totalOutput st).

(** A run that ended with 0 closed its trace with the totals and the
    number of descriptions generated. *)
Definition closed (st : state) : Prop :=
  stage st = Exited 0 ->
  exists t : list event,
    trace st = (t ++ [Log (LogCost (totalInput st) (totalOutput st));
                      Success (completed st)])%list.

(** What the induction on a run carries for the progress lines. *)
Definition steady (st : state) : Prop := tallied st /\ progress_bounded (trace st).

(** *** Records of a catalogue

    A record whose attributes are of the kinds an export holds: a title, a
    product type and a vendor that are not objects or arrays, and tags that
    are an array of such values (or nothing that has a truthy [length]). *)

Definition primitive (v : json) : bool :=
  match v with
  | JArr _ => false
  | JObj _ => false
  | _ => true
  end.

Definition printable (v : value) : bool :=
  match v with
  | Some j => primitive j
  | None => true
  end.

Definition tags_printable (v : value) : bool :=
  match v with
  | Some (JArr l) => forallb primitive l
  | Some (JStr s) => String.eqb s ""
  | Some (JObj _) => false
  | _ => true
  end.

Definition catalogue_record (p : json) : bool :=
  is_record p &&
  match p with
  | JObj fields =>
      printable (assoc "title" fields) && printable (assoc "productType" fields) &&
      printable (assoc "vendor" fields) && tags_printable (assoc "tags" fields)
  | _ => false
  end.

End Generate.

(** ** [scripts/export-products.js] *)

Module Exporter.
Import JS.

(** *** The remote endpoint

    The endpoint is a function from requests to responses: what it returns
    for a request does not depend on the requests made before, so each of
    the concurrent fetches of a [Promise.all] gets the same data in every
    interleaving.  The order in which their responses arrive is not the
    script's to choose; it is an argument of the run (see [par3]). *)

Inductive query : Type :=
| PRODUCTS_QUERY
| VARIANTS_QUERY
| MEDIA_QUERY
| METAFIELDS_QUERY.

(** The body [{ query, variables: { id, cursor } }] of a request ([id] is
    [undefined] when the variables carry none). *)
Record request : Type := {
  req_query : query;
  req_id : value;
  req_cursor : value
}.

Record throttle_status : Type := {
  currentlyAvailable : Z;
  restoreRate : Z
}.

Record cost : Type := {
  requestedQueryCost : Z;
  throttleStatus : option throttle_status
}.

Record edge : Type := { node : json }.

Record page_info : Type := {
  hasNextPage : bool;
  endCursor : value
}.

Record connection : Type := {
  edges : list edge;
  pageInfo : page_info
}.

(** The parsed body of a response.  [data] is the connection the query
    selects ([data.products], [data.product.variants], ...), or [None] when
    that path does not lead to a connection, in which case reading it
    raises. *)
Record body : Type := {
  errors : value;
  extensions_cost : option cost;
  data : option connection
}.

(** [json_body] is [None] when the text of the response is not JSON. *)
Record response : Type := {
  ok : bool;
  status : nat;
  text : string;
  json_body : option body
}.

Definition endpoint : Type := request -> response.

(** *** Effects *)

(** The argument of [setTimeout]: a number of milliseconds, or the result
    of a division by zero. *)
Inductive delay : Type :=
| Millis (ms : Z)
| NotFinite.

Inductive log_line : Type :=
| LogStarting
| LogThrottled (wait : delay)
| LogExported (total : nat).

Inductive event : Type :=
| Request (r : request)
| Log (l : log_line)
| Sleep (wait : delay)
| Stdout (o : json)
| Success (total : nat)
| Failure (e : exn).

(** How a computation stands when the observation ends: it returned, it
    threw, or it is still looping (the fuel of a [while (true)] ran out). *)
Inductive outcome (A : Type) : Type :=
| Done (a : A)
| Raised (e : exn)
| Running.
Arguments Done {A} a.
Arguments Raised {A} e.
Arguments Running {A}.

Definition M (A : Type) : Type := list event * outcome A.

Definition ret {A : Type} (a : A) : M A := ([], Done a).
Definition raise {A : Type} (e : exn) : M A := ([], Raised e).
Definition tell (evs : list event) : M unit := (evs, Done tt).

Definition bind {A B : Type} (m : M A) (k : A -> M B) : M B :=
  match m with
  | (t, Done a) => let (t', r) := k a in ((t ++ t')%list, r)
  | (t, Raised e) => (t, Raised e)
  | (t, Running) => (t, Running)
  end.

Declare Scope export_scope.
Delimit Scope export_scope with M.
Notation "x <- m ;; k" := (bind m (fun x => k))
  (at level 61, m at next level, right associativity) : export_scope.
Notation "m ;;; k" := (bind m (fun _ => k))
  (at level 61, right associativity) : export_scope.

Definition lift {A : Type} (r : res A) : M A :=
  match r with
  | Ok a => ret a
  | Throw e => raise e
  end.

(** *** [Promise.all]

    The asynchronous functions [Promise.all] waits for run as the threads
    of one process.  A call runs at once up to the first point where it
    awaits a result from outside (the response to a request, the end of a
    timer) and goes on, one turn at a time, when the result it waits for
    arrives.  The calls of the array start in array order; after that the
    awaited results arrive in an order the script does not choose.

    [Promise.all] rejects with the first rejection in time, and [run], which
    awaits it, then throws into the handler of [run().catch], which ends the
    process: the turns the other threads had left never happen.  Among
    calls that threw before they waited, the first of the array counts. *)

(** Where a function stops to wait: after sending a request, after starting
    a timer. *)
Definition suspends (ev : event) : bool :=
  match ev with
  | Request _ => true
  | Sleep _ => true
  | _ => false
  end.

(** The trace of a function cut into turns: the events up to its first wait,
    then those of each later turn, the last turn being the one in which it
    returns or throws. *)
Fixpoint turns_of (t : list event) : list event * list (list event) :=
  match t with
  | [] => ([], [])
  | ev :: t' =>
      let (turn, more) := turns_of t' in
      if suspends ev then ([ev], turn :: more) else (ev :: turn, more)
  end.

(** A thread that waits: what it does when the result arrives, its turns
    after that, and the exception its last turn ends with, if any. *)
Record thread : Type := {
  next : list event;
  later : list (list event);
  throws : option exn
}.

Definition thrown {A : Type} (o : outcome A) : option exn :=
  match o with
  | Raised e => Some e
  | _ => None
  end.

Definition first_turn {A : Type} (m : M A) : list event := fst (turns_of (fst m)).

(** The exception of a call that threw before it waited. *)
Definition threw_at_once {A : Type} (m : M A) : option exn :=
  match snd (turns_of (fst m)) with
  | [] => thrown (snd m)
  | _ :: _ => None
  end.

(** The thread a call leaves behind when it waits. *)
Definition suspended {A : Type} (m : M A) : list thread :=
  match snd (turns_of (fst m)) with
  | [] => []
  | turn :: more => [{| next := turn; later := more; throws := thrown (snd m) |}]
  end.

(** The element at position [k], and the others. *)
Fixpoint take {A : Type} (k : nat) (l : list A) : option (A * list A) :=
  match l, k with
  | [], _ => None
  | x :: l', O => Some (x, l')
  | x :: l', S k' =>
      match take k' l' with
      | Some (y, rest) => Some (y, x :: rest)
      | None => None
      end
  end.

Definition turns_left (waiting : list thread) : nat :=
  fold_right (fun th n => S (List.length (later th)) + n) 0 waiting.

(** The threads in [waiting] wait, the one that has waited longest first.
    The head of [order] says whose result arrives next, as a position in
    [waiting] (modulo its length; the oldest when [order] is used up).
    That thread runs one turn: if it was its last, the thread has returned,
    or has thrown and the race is over; otherwise it waits again, behind the
    others.  Every turn is one of the [turns_left], which is the [fuel]. *)
Fixpoint race (fuel : nat) (order : list nat) (waiting : list thread)
  : list event * option exn :=
  match fuel with
  | O => ([], None)
  | S fuel' =>
      match take (hd 0 order mod List.length waiting) waiting with
      | None => ([], None)
      | Some (th, others) =>
          match later th with
          | [] =>
              match throws th with
              | Some e => (next th, Some e)
              | None =>
                  let (t, r) := race fuel' (tl order) others in ((next th ++ t)%list, r)
              end
          | turn :: more =>
              let (t, r) :=
                race fuel' (tl order)
                  (others ++ [{| next := turn; later := more; throws := throws th |}])%list in
              ((next th ++ t)%list, r)
          end
      end
  end.

Fixpoint first_thrown (l : list (option exn)) : option exn :=
  match l with
  | [] => None
  | Some e :: _ => Some e
  | None :: l' => first_thrown l'
  end.

(** The calls have started ([started] is what they did up to their first
    wait, in array order); then the race of those that wait, unless one
    threw at once.  The result is the events, and the exception
    [Promise.all] rejects with, if any. *)
Definition settle_all (order : list nat) (started : list event)
  (at_once : list (option exn)) (waiting : list thread) : list event * option exn :=
  match first_thrown at_once with
  | Some e => (started, Some e)
  | None =>
      let (t, r) := race (turns_left waiting) order waiting in ((started ++ t)%list, r)
  end.

(** [await Promise.all([a, b, c])].  When no call threw, the result is there
    once all three have returned. *)
Definition par3 {A B C : Type} (order : list nat) (a : M A) (b : M B) (c : M C)
  : M (A * B * C) :=
  let (t, r) :=
    settle_all order (first_turn a ++ first_turn b ++ first_turn c)%list
      [threw_at_once a; threw_at_once b; threw_at_once c]
      (suspended a ++ suspended b ++ suspended c)%list in
  (t, match r with
      | Some e => Raised e
      | None =>
          match snd a, snd b, snd c with
          | Done x, Done y, Done z => Done (x, y, z)
          | _, _, _ => Running
          end
      end).

(** The results of calls none of which threw: they are there once every
    call has returned. *)
Fixpoint gather {A : Type} (os : list (outcome A)) : outcome (list A) :=
  match os with
  | [] => Done []
  | Done a :: os' =>
      match gather os' with
      | Done l => Done (a :: l)
      | _ => Running
      end
  | _ :: _ => Running
  end.

(** [await Promise.all(l.map(f))]. *)
Definition par_map {A B : Type} (order : list nat) (f : A -> M B) (l : list A)
  : M (list B) :=
  let calls := map f l in
  let (t, r) :=
    settle_all order (concat (map first_turn calls)) (map threw_at_once calls)
      (flat_map suspended calls) in
  (t, match r with
      | Some e => Raised e
      | None => gather (map snd calls)
      end).

(** *** [shopify] *)

Definition FLOOR : Z := 100.

(** [Math.ceil(a / b)] for [b <> 0]. *)
Definition ceil_div (a b : Z) : Z := (- ((- a) / b))%Z.

(** [Math.ceil(cost.requestedQueryCost / cost.throttleStatus.restoreRate) * 1000]. *)
Definition wait_for (c : cost) (t : throttle_status) : delay :=
  if (restoreRate t =? 0)%Z then NotFinite
  else Millis (ceil_div (requestedQueryCost c) (restoreRate t) * 1000)%Z.

(** The pause after a response: [cost?.throttleStatus?.currentlyAvailable < 100]. *)
Definition throttle (c : option cost) : M unit :=
  match c with
  | Some c' =>
      match throttleStatus c' with
      | Some t =>
          if (currentlyAvailable t <? FLOOR)%Z then
            tell [Log (LogThrottled (wait_for c' t)); Sleep (wait_for c' t)]
          else ret tt
      | None => ret tt
      end
  | None => ret tt
  end.

Definition shopify (server : endpoint) (r : request) : M (option connection) :=
  (tell [Request r] ;;;
   let resp := server r in
   if negb (ok resp) then
     raise (Error ("Shopify API " ++ string_of_nat (status resp) ++ ": " ++ text resp))
   else
     match json_body resp with
     | None => raise SyntaxError
     | Some b =>
         if truthy (errors b) then
           raise (Error ("GraphQL: " ++ JSON.stringify_value (errors b)))
         else
           (throttle (extensions_cost b) ;;;
            ret (data b))
     end)%M.

(** [extract(data)], then the reads of [connection.edges] and
    [connection.pageInfo]. *)
Definition extract (d : option connection) : M connection :=
  match d with
  | Some c => ret c
  | None => raise TypeError
  end.

(** *** [fetchAllPages]

    [fuel] bounds the turns of the [while (true)] loop; [id] stands for the
    [variables] and the [extract] argument is the typed [data] above. *)
Fixpoint fetch_loop (fuel : nat) (server : endpoint) (q : query) (id cursor : value)
  (items : list json) : M (list json) :=
  match fuel with
  | O => ([], Running)
  | S fuel' =>
      (d <- shopify server {| req_query := q; req_id := id; req_cursor := cursor |} ;;
       c <- extract d ;;
       let items' := (items ++ map node (edges c))%list in
       if negb (hasNextPage (pageInfo c)) then ret items'
       else fetch_loop fuel' server q id (endCursor (pageInfo c)) items')%M
  end.

Definition fetchAllPages (fuel : nat) (server : endpoint) (q : query) (id : value)
  : M (list json) :=
  fetch_loop fuel server q id (Some JNull) [].

Definition fetchMetafields (fuel : nat) (server : endpoint) (nodeId : value)
  : M (list json) :=
  fetchAllPages fuel server METAFIELDS_QUERY nodeId.

(** *** [run] *)

(** [{ ...variant, metafields: await fetchMetafields(variant.id) }]. *)
Definition with_metafields (fuel : nat) (server : endpoint) (variant : json) : M json :=
  (vid <- lift (get (Some variant) "id") ;;
   mfs <- fetchMetafields fuel server vid ;;
   ret (spread (Some variant) [("metafields", JArr mfs)]))%M.

(** [{ ...product, metafields, variants: variantsWithMetafields, media }]. *)
Definition enrich (product : json) (metafields variantsWithMetafields media : list json)
  : json :=
  spread (Some product)
    [("metafields", JArr metafields);
     ("variants", JArr variantsWithMetafields);
     ("media", JArr media)].

(** The order in which the awaited results of the two [Promise.all] of a
    product arrive: for the product that comes after [n] others, the
    [order] of the race of its three fetches and that of the fetches of its
    variants' metafields. *)
Definition arrivals : Type := nat -> list nat * list nat.

(** The body of the [for] loop for one product. *)
Definition export_product (order : list nat * list nat) (fuel : nat) (server : endpoint)
  (product : json) : M unit :=
  (pid <- lift (get (Some product) "id") ;;
   fetched <- par3 (fst order)
                (fetchAllPages fuel server VARIANTS_QUERY pid)
                (fetchAllPages fuel server MEDIA_QUERY pid)
                (fetchMetafields fuel server pid) ;;
   let '(variants, media, metafields) := fetched in
   variantsWithMetafields <- par_map (snd order) (with_metafields fuel server) variants ;;
   tell [Stdout (enrich product metafields variantsWithMetafields media)])%M.

Fixpoint export_edges (when : arrivals) (fuel : nat) (server : endpoint) (es : list edge)
  (total : nat) : M nat :=
  match es with
  | [] => ret total
  | e :: es' =>
      (export_product (when total) fuel server (node e) ;;;
       export_edges when fuel server es' (S total))%M
  end.

Fixpoint run_loop (when : arrivals) (fuel : nat) (server : endpoint) (turns : nat)
  (cursor : value) (total : nat) : M nat :=
  match turns with
  | O => ([], Running)
  | S turns' =>
      (d <- shopify server {| req_query := PRODUCTS_QUERY; req_id := None;
                              req_cursor := cursor |} ;;
       c <- extract d ;;
       total' <- export_edges when fuel server (edges c) total ;;
       tell [Log (LogExported total')] ;;;
       if negb (hasNextPage (pageInfo c)) then ret total'
       else run_loop when fuel server turns' (endCursor (pageInfo c)) total')%M
  end.

Definition run (when : arrivals) (fuel : nat) (server : endpoint) : M unit :=
  (tell [Log LogStarting] ;;;
   total <- run_loop when fuel server fuel (Some JNull) 0 ;;
   tell [Success total])%M.

(** [run().catch(...)]: the events of the process and its exit code, [None]
    while it is still running. *)
Definition main (when : arrivals) (fuel : nat) (server : endpoint)
  : list event * option nat :=
  match run when fuel server with
  | (t, Done _) => (t, Some 0)
  | (t, Raised e) => ((t ++ [Failure e])%list, Some 1)
  | (t, Running) => (t, None)
  end.

Definition stdout (t : list event) : list json :=
  flat_map (fun ev => match ev with
                      | Stdout o => [o]
                      | _ => []
                      end) t.

Definition requests (t : list event) : list request :=
  flat_map (fun ev => match ev with
                      | Request r => [r]
                      | _ => []
                      end) t.

(** *** A simulated collection

    The fixture of the pagination tests: [items] served [size] at a time,
    the cursor of a page being the offset of the page after it. *)
Definition offset_of (cursor : value) : nat :=
  match cursor with
  | Some (JNum n) => Z.to_nat n
  | _ => 0
  end.

Definition page (items : list json) (size : nat) (cursor : value) : connection :=
  let off := offset_of cursor in
  {| edges := map (fun x => {| node := x |}) (firstn size (skipn off items));
     pageInfo := {| hasNextPage := (off + size <? List.length items)%nat;
                    endCursor := Some (JNum (Z.of_nat (off + size))) |} |}.

Definition simulated (items : list json) (size : nat) : endpoint :=
  fun r =>
    {| ok := true; status := 200; text := "";
       json_body := Some {| errors := None; extensions_cost := None;
                            data := Some (page items size (req_cursor r)) |} |}.

(** The cursors a traversal of at most [turns] requests sends when the
    endpoint answers cursor [c] with the connection [page_at c]: the
    starting cursor, then the end cursor of every response that reports a
    next page. *)
Fixpoint cursors_sent (turns : nat) (page_at : value -> connection) (cursor : value)
  : list value :=
  match turns with
  | O => []
  | S turns' =>
      cursor ::
      (if hasNextPage (pageInfo (page_at cursor))
       then cursors_sent turns' page_at (endCursor (pageInfo (page_at cursor)))
       else [])
  end.

(** The number of pages of a collection of [n] items: an empty collection
    is one empty page. *)
Definition page_count (n size : nat) : nat := Nat.max 1 ((n + size - 1) / size).

(** The nodes of every response are values as [res.json()], which is
    [JSON.parse] on the text of the response, builds them. *)
Definition serves_proper (server : endpoint) : Prop :=
  forall (r : request) (b : body) (c : connection),
    json_body (server r) = Some b -> data b = Some c ->
    Forall (fun e => JSON.proper (node e)) (edges c).







(** What [console.log(JSON.stringify(o))] writes on standard output for the
    records [os]: the text of each, followed by a line feed. *)
Definition stdout_text (os : list json) : string :=
  String.concat "" (map (fun o => JSON.stringify o ++ String newline EmptyString) os).

(** *** Traversals of any endpoint *)

Definition no_page : connection :=
  {| edges := []; pageInfo := {| hasNextPage := false; endCursor := None |} |}.

(** The connection [shopify] hands to the traversal of [q] with the
    variables [id] for a cursor; no page when the response makes it throw. *)
Definition served (server : endpoint) (q : query) (id cursor : value) : connection :=
  let resp := server {| req_query := q; req_id := id; req_cursor := cursor |} in
  if ok resp then
    match json_body resp with
    | Some b =>
        if truthy (errors b) then no_page
        else match data b with
             | Some c => c
             | None => no_page
             end
    | None => no_page
    end
  else no_page.

(** The products the listing of the shop reaches in at most [turns]
    pages. *)
Definition listing (server : endpoint) (turns : nat) : list json :=
  concat (map (fun c => map node (edges (served server PRODUCTS_QUERY None c)))
              (cursors_sent turns (served server PRODUCTS_QUERY None) (Some JNull))).

(** [o] is an object that has the properties [extra] and, under every other
    key, what [base] has there. *)
Definition carries (base : json) (extra : list (string * json)) (o : json) : Prop :=
  exists fields : list (string * json),
    o = JObj fields /\
    Forall (fun kv => assoc (fst kv) fields = Some (snd kv)) extra /\
    forall k : string,
      ~ In k (map fst extra) -> assoc k fields = assoc k (own_properties (Some base)).

(** The variant a record holds for [variant]: the variant with all the
    metafields its own fetch returned. *)
Definition variant_as (fuel : nat) (server : endpoint) (variant v' : json) : Prop :=
  exists (vid : value) (mfs : list json),
    get (Some variant) "id" = Ok vid /\
    snd (fetchMetafields fuel server vid) = Done mfs /\
    v' = spread (Some variant) [("metafields", JArr mfs)] /\
    carries variant [("metafields", JArr mfs)] v'.

(** The record [run] prints for [product]: its three fetches have returned,
    and the record holds all they returned, under [metafields], [variants]
    and [media], beside what the product has under its other keys. *)
Definition exported_as (fuel : nat) (server : endpoint) (product o : json) : Prop :=
  exists (pid : value) (variants media metafields enriched : list json),
    get (Some product) "id" = Ok pid /\
    snd (fetchAllPages fuel server VARIANTS_QUERY pid) = Done variants /\
    snd (fetchAllPages fuel server MEDIA_QUERY pid) = Done media /\
    snd (fetchMetafields fuel server pid) = Done metafields /\
    Forall2 (variant_as fuel server) variants enriched /\
    o = enrich product metafields enriched media /\
    carries product [("metafields", JArr metafields); ("variants", JArr enriched);
                     ("media", JArr media)] o.

(** A record that [run] may print: that of a product of the listing. *)
Definition complete_record (fuel : nat) (server : endpoint) (o : json) : Prop :=
  exists product : json,
    In product (listing server fuel) /\ exported_as fuel server product o.

(** The counts a trace logs are the numbers of records printed before
    them, [seen] records having been printed before the trace. *)
Fixpoint counts_agree (seen : nat) (t : list event) : Prop :=
  match t with
  | [] => True
  | Stdout _ :: t' => counts_agree (S seen) t'
  | Log (LogExported k) :: t' => k = seen /\ counts_agree seen t'
  | Success k :: t' => k = seen /\ counts_agree seen t'
  | _ :: t' => counts_agree seen t'
  end.

(** Events that neither print a record nor log a count. *)
Definition uncounted (t : list event) : Prop :=
  Forall (fun ev => match ev with
                    | Stdout _ => False
                    | Log (LogExported _) => False
                    | Success _ => False
                    | _ => True
                    end) t.

End Exporter.

(** ** Sample data for the worked examples *)

Module Samples.
Import JS.

(** The metafield that holds the long description of a product. *)
Definition long_description : json :=
  JObj [("namespace", JStr "custom");
        ("key", JStr "longDescription");
        ("value", JStr "Regular fit.")].

(** A product that has both texts. *)
Definition described_fields : list (string * json) :=
  [("id", JStr "gid://shopify/Product/1");
   ("handle", JStr "crew-tee");
   ("title", JStr "Crew Tee");
   ("description", JStr "Organic cotton.");
   ("metafields", JArr [long_description])].

Definition described : json := JObj described_fields.

(** A product that has neither. *)
Definition undescribed : json :=
  JObj [("id", JStr "gid://shopify/Product/2");
        ("handle", JStr "bottle");
        ("title", JStr "Water Bottle");
        ("vendor", JStr "Acme");
        ("tags", JArr [JStr "drinkware"; JStr "steel"]);
        ("metafields",
         JArr [JObj [("namespace", JStr "custom");
                     ("key", JStr "material");
                     ("value", JStr "steel")]])].

(** A second product without texts, and without attributes. *)
Definition mug : json :=
  JObj [("id", JStr "gid://shopify/Product/3");
        ("handle", JStr "mug");
        ("title", JStr "Mug")].

(** Metafields that hold the same two keys under two namespaces, and a
    product that carries them. *)
Definition relabelled_metafields : list json :=
  [JObj [("namespace", JStr "custom");
         ("key", JStr "material");
         ("value", JStr "steel")];
   JObj [("namespace", JStr "custom");
         ("key", JStr "longDescription");
         ("value", JStr "Double-walled flask.")];
   JObj [("namespace", JStr "reviews");
         ("key", JStr "material");
         ("value", JStr "plastic")];
   JObj [("namespace", JStr "reviews");
         ("key", JStr "longDescription");
         ("value", JStr "")]].

Definition relabelled_fields : list (string * json) :=
  [("id", JStr "gid://shopify/Product/4");
   ("handle", JStr "flask");
   ("title", JStr "Flask");
   ("description", JStr "Keeps drinks warm.");
   ("metafields", JArr relabelled_metafields)].

Definition relabelled : json := JObj relabelled_fields.

(** The line of input that carries [p]. *)
Definition line (p : json) : string := JSON.stringify p ++ Generate.nl.

Definition pair (a b : string) : json :=
  JObj [("description", JStr a); ("longDescription", JStr b)].

(** The result message of a generation call that succeeds with [ds], and
    the stream that delivers it. *)
Definition success_of (ds : list json) : Generate.result_message :=
  {| Generate.subtype := "success";
     Generate.errors := None;
     Generate.structured_output := Some (JObj [("products", JArr ds)]);
     Generate.usage_of := Some {| Generate.input_tokens := Some 100%Z;
                                  Generate.output_tokens := Some 40%Z |} |}.

Definition succeeds (ds : list json) : list Generate.message :=
  [Generate.Other; Generate.Result (success_of ds)].

(** What a generation service that names each product in its texts
    returns for [undescribed] and for [mug]. *)
Definition for_bottle : json := pair "A bottle." "A steel water bottle by Acme.".

Definition for_mug : json := pair "A mug." "A plain mug.".


(** 25 lines of input, 20 records that have both texts and then 5 that have
    neither, read in one chunk; the only batch succeeds. *)
Definition twenty_five : string :=
  String.concat "" (repeat (line described) 20 ++ repeat (line undescribed) 5)%list.

Definition scenario : list Generate.action :=
  [Generate.Chunk twenty_five; Generate.Eof;
   Generate.Complete 0 (succeeds (repeat (pair "a" "b") 5))].

Definition scenario_end : Generate.state :=
  Eval vm_compute in
    match Generate.run false true scenario with
    | Some st => st
    | None => Generate.initial
    end.

(** One line, then a record on a last line that no newline ends. *)
Definition unterminated_end : Generate.state :=
  Eval vm_compute in
    match Generate.run false true
            ([Generate.Chunk (line undescribed)]
             ++ Generate.Chunk (JSON.stringify undescribed)
             :: [Generate.Eof; Generate.Complete 0 (succeeds [pair "a" "b"])])%list with
    | Some st => st
    | None => Generate.initial
    end.



(** An endpoint whose every response reports 50 points available, a
    requested cost of 10 and a restore rate of 5 per second. *)
Definition throttled_status : Exporter.throttle_status :=
  {| Exporter.currentlyAvailable := 50%Z; Exporter.restoreRate := 5%Z |}.

Definition throttled_cost : Exporter.cost :=
  {| Exporter.requestedQueryCost := 10%Z;
     Exporter.throttleStatus := Some throttled_status |}.

Definition throttled_body : Exporter.body :=
  {| Exporter.errors := None;
     Exporter.extensions_cost := Some throttled_cost;
     Exporter.data :=
       Some {| Exporter.edges := [];
               Exporter.pageInfo := {| Exporter.hasNextPage := true;
                                       Exporter.endCursor := Some (JStr "next") |} |} |}.

Definition throttled : Exporter.endpoint :=
  fun _ =>
    {| Exporter.ok := true; Exporter.status := 200; Exporter.text := "";
       Exporter.json_body := Some throttled_body |}.

(** The first request of a traversal. *)
Definition first_request : Exporter.request :=
  {| Exporter.req_query := Exporter.PRODUCTS_QUERY; Exporter.req_id := None;
     Exporter.req_cursor := Some JNull |}.


(** The responses of concurrent fetches arrive in the order in which their
    requests were sent. *)
Definition in_turn : Exporter.arrivals := fun _ => ([], []).

(** A shop of one product, served one item at a time, and the record the
    exporter prints for it. *)
Definition one_product : Exporter.endpoint := Exporter.simulated [undescribed] 1.

Definition exported : json :=
  Exporter.enrich undescribed [undescribed]
    [spread (Some undescribed) [("metafields", JArr [undescribed])]] [undescribed].

(** A shop of one product whose variants fail on their second page and
    whose media fail at once. *)
Definition down (code : nat) (what : string) : Exporter.response :=
  {| Exporter.ok := false; Exporter.status := code; Exporter.text := what;
     Exporter.json_body := None |}.

Definition flaky : Exporter.endpoint :=
  fun r =>
    match Exporter.req_query r, Exporter.req_cursor r with
    | Exporter.PRODUCTS_QUERY, _ => one_product r
    | Exporter.VARIANTS_QUERY, Some JNull => Exporter.simulated [undescribed; mug] 1 r
    | Exporter.VARIANTS_QUERY, _ => down 500 "variants down"
    | Exporter.MEDIA_QUERY, _ => down 503 "media down"
    | Exporter.METAFIELDS_QUERY, _ => Exporter.simulated [] 1 r
    end.

(** The second response to the variants arrives before the first to the
    media. *)
Definition variants_first : Exporter.arrivals := fun _ => ([0; 2], []).

(** The prompt of the batch that holds [undescribed] alone. *)
Definition prompt_text : string :=
  Eval vm_compute in
    match Generate.build_prompt [undescribed] with
    | Ok text => text
    | Throw _ => EmptyString
    end.

(** An input whose only record has both texts. *)
Definition nothing_to_do : list Generate.action :=
  [Generate.Chunk (line described); Generate.Eof].

Definition nothing_to_do_end : Generate.state :=
  Eval vm_compute in
    match Generate.run false true nothing_to_do with
    | Some st => st
    | None => Generate.initial
    end.

(** A text cut in two chunks after [n] characters. *)
Definition cut (n : nat) (s : string) : list string := [slice_to n s; slice_from n s].

(** A collection of three items. *)
Definition three : list json := [JNum 1; JNum 2; JNum 3].

End Samples.

(* ===================================================================== *)
(** * Part II. Properties                                                 *)
(* ===================================================================== *)

Local Open Scope string_scope.
Local Open Scope nat_scope.
Local Open Scope list_scope.

(** ** Property lists *)

Section PropertyLists.
Import JS.
Context {A : Type}.

Lemma has_key_assoc (k : string) (m : list (string * A)) :
  has_key k m = false <-> assoc k m = None.
Proof. unfold has_key. destruct (assoc k m); split; congruence. Qed.

Lemma assoc_replace_key (k k' : string) (v : A) (m : list (string * A)) :
  has_key k' m = true ->
  assoc k (replace_key k' v m) = if String.eqb k k' then Some v else assoc k m.
Proof.
  unfold has_key. induction m as [| [k0 v0] m IH]; cbn; [discriminate |].
  destruct (String.eqb_spec k' k0) as [-> | Hne]; cbn.
  - intros _. destruct (String.eqb k k0); reflexivity.
  - intros H. rewrite (IH H).
    destruct (String.eqb_spec k k0) as [-> | Hne'].
    + destruct (String.eqb_spec k0 k'); [congruence | reflexivity].
    + reflexivity.
Qed.

Lemma assoc_insert_index (k k' : string) (i : N) (v : A) (m : list (string * A)) :
  has_key k' m = false ->
  assoc k (insert_index i k' v m) = if String.eqb k k' then Some v else assoc k m.
Proof.
  unfold has_key. induction m as [| [k0 v0] m IH]; cbn.
  - intros _. reflexivity.
  - destruct (String.eqb_spec k' k0) as [-> | Hne]; [discriminate |].
    intros H.
    destruct (array_index k0) as [j |]; [destruct (j <? i)%N |]; cbn;
      try reflexivity.
    rewrite (IH H).
    destruct (String.eqb_spec k k0) as [-> | Hne'].
    + destruct (String.eqb_spec k0 k'); [congruence | reflexivity].
    + reflexivity.
Qed.

Lemma assoc_app (k : string) (m m' : list (string * A)) :
  assoc k (m ++ m') = match assoc k m with
                      | Some x => Some x
                      | None => assoc k m'
                      end.
Proof.
  induction m as [| [k0 v0] m IH]; cbn; [reflexivity |].
  destruct (String.eqb k k0); [reflexivity | exact IH].
Qed.

Lemma assoc_define (k k' : string) (v : A) (m : list (string * A)) :
  assoc k (define k' v m) = if String.eqb k k' then Some v else assoc k m.
Proof.
  unfold define. destruct (has_key k' m) eqn:Hk.
  - now apply assoc_replace_key.
  - destruct (array_index k') as [i |].
    + now apply assoc_insert_index.
    + rewrite assoc_app. cbn.
      apply has_key_assoc in Hk.
      destruct (String.eqb_spec k k') as [-> | Hne].
      * now rewrite Hk.
      * now destruct (assoc k m).
Qed.

End PropertyLists.

(** ** Decimal numerals *)

Section DecimalRendering.
Import JS.

Lemma nzhead_no_D0 (u v : Decimal.uint) : Decimal.nzhead u <> Decimal.D0 v.
Proof. induction u; cbn; try discriminate; assumption. Qed.

Lemma normal_head (u : Decimal.uint) :
  Decimal.unorm u = u ->
  u <> Decimal.Nil /\ (u = Decimal.D0 Decimal.Nil \/ forall v, u <> Decimal.D0 v).
Proof.
  intros H. split.
  - intros ->. discriminate H.
  - destruct u; try (right; discriminate).
    left. rewrite unorm_D0 in H. unfold Decimal.unorm in H.
    destruct (Decimal.nzhead u) eqn:E; try discriminate H.
    + symmetry; exact H.
    + exfalso. subst. eapply nzhead_no_D0. exact E.
Qed.

Lemma to_uint_normal (n : N) : Decimal.unorm (N.to_uint n) = N.to_uint n.
Proof.
  rewrite <- (DecimalN.Unsigned.to_of (N.to_uint n)).
  now rewrite DecimalN.Unsigned.of_to.
Qed.

Lemma digits_all (u : Decimal.uint) : all_digits (NilEmpty.string_of_uint u) = true.
Proof. induction u; cbn; auto. Qed.

Lemma string_of_N_digits (n : N) : all_digits (string_of_N n) = true.
Proof.
  unfold string_of_N, NilZero.string_of_uint.
  destruct (N.to_uint n) eqn:E; try (rewrite <- E; apply digits_all).
  reflexivity.
Qed.

Lemma string_of_N_nonnil (n : N) :
  string_of_N n = NilEmpty.string_of_uint (N.to_uint n) /\ N.to_uint n <> Decimal.Nil.
Proof.
  destruct (normal_head _ (to_uint_normal n)) as [Hn _].
  split; [| exact Hn].
  unfold string_of_N, NilZero.string_of_uint.
  destruct (N.to_uint n); congruence.
Qed.

Lemma string_of_N_head (n : N) :
  exists (c : ascii) (s : string),
    string_of_N n = String c s /\
    (String.eqb (string_of_N n) "0" || negb (Ascii.eqb c "0"%char)) = true.
Proof.
  destruct (string_of_N_nonnil n) as [Hs Hn]. rewrite Hs.
  destruct (normal_head _ (to_uint_normal n)) as [_ [H0 | Hd]].
  - rewrite H0. exists "0"%char, "". cbn. split; reflexivity.
  - destruct (N.to_uint n) as [| u | u | u | u | u | u | u | u | u | u] eqn:E;
      try congruence;
      try (exfalso; now apply (Hd u));
      cbn [NilEmpty.string_of_uint]; eexists _, _; (split; [reflexivity |]);
      cbn [Ascii.eqb Bool.eqb andb negb]; apply orb_true_r.
Qed.

Lemma uint_of_string_of_N (n : N) :
  NilZero.uint_of_string (string_of_N n) = Some (N.to_uint n).
Proof.
  unfold string_of_N. apply NilZero.usu.
  apply (string_of_N_nonnil n).
Qed.

Lemma array_index_string_of_N (n : N) :
  (n < 4294967295)%N -> array_index (string_of_N n) = Some n.
Proof.
  intros Hn.
  destruct (string_of_N_head n) as (c & s & Hs & Hhead).
  pose proof (string_of_N_digits n) as Hd.
  pose proof (uint_of_string_of_N n) as Hu.
  rewrite Hs in Hd, Hu, Hhead |- *.
  unfold array_index. rewrite Hd, Hhead. cbn [andb]. rewrite Hu. cbn zeta.
  rewrite DecimalN.Unsigned.of_to.
  apply N.ltb_lt in Hn. now rewrite Hn.
Qed.

Lemma array_index_string_of_nat (i : nat) :
  (N.of_nat i < 4294967295)%N -> array_index (string_of_nat i) = Some (N.of_nat i).
Proof. apply array_index_string_of_N. Qed.

Lemma string_of_Z_of_N (n : N) : string_of_Z (Z.of_N n) = string_of_N n.
Proof. destruct n; reflexivity. Qed.

Lemma string_of_Z_neg (p : positive) :
  string_of_Z (Z.neg p) = String "-" (string_of_N (N.pos p)).
Proof. reflexivity. Qed.

End DecimalRendering.

(** ** The grammar of JSON texts *)

Section Grammar.
Import JS JSON.





Lemma strip_prefix_map {A : Type} (f : string -> A) (p s : string) (a : A) (r : string) :
  option_map (fun r => (f r, r)) (strip_prefix p s) = Some (a, r) ->
  strip_prefix p s = Some r.
Proof.
  destruct (strip_prefix p s); [| discriminate]. cbn. intros H. now injection H as _ <-.
Qed.




End Grammar.

Section GrammarFuel.
Import JS JSON.

Lemma skip_ws_length (s : string) : String.length (skip_ws s) <= String.length s.
Proof.
  induction s as [| c s IH]; [cbn; lia |]. cbn [skip_ws].
  destruct (is_ws c); cbn [String.length] in *; lia.
Qed.

Lemma strip_prefix_length (p s r : string) :
  strip_prefix p s = Some r -> String.length r <= String.length s.
Proof.
  revert s. induction p as [| a p IH]; intros s.
  - cbn. intros H. injection H as <-. lia.
  - destruct s as [| b s]; [discriminate |]. cbn [strip_prefix].
    destruct (Ascii.eqb a b); [| discriminate].
    intros H. apply IH in H. cbn [String.length]. lia.
Qed.

Lemma span_digits_length (s : string) :
  String.length (fst (span_digits s)) + String.length (snd (span_digits s))
  = String.length s.
Proof.
  induction s as [| c s IH]; [reflexivity |]. cbn [span_digits].
  destruct (is_digit c); [| reflexivity].
  destruct (span_digits s) as [d r]. cbn [fst snd String.length] in *. lia.
Qed.

Lemma accept_digits_length (s r : string) :
  accept_digits s = Some r -> String.length r < String.length s.
Proof.
  unfold accept_digits. pose proof (span_digits_length s) as H.
  destruct (span_digits s) as [d rest]. cbn [fst snd] in H.
  destruct d as [| c d]; [discriminate |].
  intros E. injection E as <-. cbn [String.length] in H. lia.
Qed.

Lemma accept_int_length (s r : string) :
  accept_int s = Some r -> String.length r < String.length s.
Proof.
  unfold accept_int. pose proof (span_digits_length s) as H.
  destruct (span_digits s) as [d rest]. cbn [fst snd] in H.
  destruct d as [| c d]; [discriminate |].
  destruct (Ascii.eqb c "0"%char && negb (String.eqb d "")); [discriminate |].
  intros E. injection E as <-. cbn [String.length] in H. lia.
Qed.

Lemma accept_number_length (s r : string) :
  accept_number s = Some r -> String.length r < String.length s.
Proof.
  unfold accept_number.
  set (s1 := match s with
             | EmptyString => s
             | String c s' => if Ascii.eqb c "-"%char then s' else s
             end).
  assert (H1 : String.length s1 <= String.length s).
  { unfold s1. destruct s as [| c s']; [lia |].
    destruct (Ascii.eqb c "-"%char); cbn [String.length]; lia. }
  destruct (accept_int s1) as [r1 |] eqn:E1; [| discriminate].
  apply accept_int_length in E1.
  destruct (accept_fraction r1) as [r2 |] eqn:E2; [| discriminate].
  assert (H2 : String.length r2 <= String.length r1).
  { unfold accept_fraction in E2. destruct r1 as [| c r1'].
    - injection E2 as <-. lia.
    - destruct (Ascii.eqb c "."%char).
      + apply accept_digits_length in E2. cbn [String.length]. lia.
      + injection E2 as <-. lia. }
  intros E3.
  assert (H3 : String.length r <= String.length r2).
  { unfold accept_exponent in E3. destruct r2 as [| c r2'].
    - injection E3 as <-. lia.
    - destruct (Ascii.eqb c "e"%char || Ascii.eqb c "E"%char).
      + apply accept_digits_length in E3.
        assert (String.length (skip_sign r2') <= String.length r2').
        { unfold skip_sign. destruct r2' as [| g t]; [lia |].
          destruct (Ascii.eqb g "+"%char || Ascii.eqb g "-"%char); cbn [String.length]; lia. }
        cbn [String.length]. lia.
      + injection E3 as <-. lia. }
  lia.
Qed.

Lemma accept_chars_length (s r : string) :
  accept_chars s = Some r -> String.length r < String.length s.
Proof.
  assert (H : forall n s, String.length s < n ->
                forall r, accept_chars s = Some r -> String.length r < String.length s);
    [| exact (H (S (String.length s)) s (Nat.lt_succ_diag_r _) r)].
  clear s r. intros n. induction n as [| n IHn]; [intros s Hs; lia |].
  intros s Hs r.
  assert (IH : forall s0, String.length s0 < String.length s ->
                 forall r, accept_chars s0 = Some r -> String.length r < String.length s0)
    by (intros s0 H0; apply IHn; lia).
  clear IHn Hs. destruct s as [| c s']; [discriminate |].
  cbn [accept_chars].
  destruct (Ascii.eqb c dquote).
  - intros H. injection H as <-. cbn [String.length]. lia.
  - destruct (Ascii.eqb c backslash).
    + destruct s' as [| e s'']; [discriminate |].
      destruct (simple_escape e).
      * intros H. apply IH in H; cbn [String.length] in *; lia.
      * destruct (Ascii.eqb e "u"%char); [| discriminate].
        destruct s'' as [| h1 [| h2 [| h3 [| h4 s3]]]]; try discriminate.
        destruct (hex4 h1 h2 h3 h4) as [hx |]; [| discriminate].
        intros H. apply IH in H; cbn [String.length] in *; lia.
    + destruct (nat_of_ascii c <? 32)%nat; [discriminate |].
      intros H. apply IH in H; cbn [String.length] in *; lia.
Qed.

(** A descent that succeeds takes at least one character, and succeeds
    alike with any fuel above the length of its text. *)
Lemma accept_fuel (fuel : nat) :
  (forall s r, accept_value fuel s = Some r ->
     String.length r < String.length s /\
     forall fuel', String.length s < fuel' -> accept_value fuel' s = Some r) /\
  (forall s r, accept_elements fuel s = Some r ->
     String.length r < String.length s /\
     forall fuel', String.length s < fuel' -> accept_elements fuel' s = Some r) /\
  (forall s r, accept_member fuel s = Some r ->
     String.length r < String.length s /\
     forall fuel', String.length s < fuel' -> accept_member fuel' s = Some r) /\
  (forall s r, accept_members fuel s = Some r ->
     String.length r < String.length s /\
     forall fuel', String.length s < fuel' -> accept_members fuel' s = Some r).
Proof.
  induction fuel as [| fuel (IHv & IHe & IHm & IHms)].
  - repeat split; intros; discriminate.
  - split; [| split; [| split]].
    + intros s r. cbn [accept_value].
      destruct s as [| c s']; [discriminate |].
      destruct (Ascii.eqb c "n"%char) eqn:Cn.
      { intros H. pose proof (strip_prefix_length _ _ _ H) as L.
        split; [cbn [String.length]; lia |].
        intros [| f'] Hf; [lia |]. cbn [accept_value]. now rewrite Cn. }
      destruct (Ascii.eqb c "t"%char) eqn:Ct.
      { intros H. pose proof (strip_prefix_length _ _ _ H) as L.
        split; [cbn [String.length]; lia |].
        intros [| f'] Hf; [lia |]. cbn [accept_value]. now rewrite Cn, Ct. }
      destruct (Ascii.eqb c "f"%char) eqn:Cf.
      { intros H. pose proof (strip_prefix_length _ _ _ H) as L.
        split; [cbn [String.length]; lia |].
        intros [| f'] Hf; [lia |]. cbn [accept_value]. now rewrite Cn, Ct, Cf. }
      destruct (Ascii.eqb c dquote) eqn:Cq.
      { intros H. pose proof (accept_chars_length _ _ H) as L.
        split; [cbn [String.length]; lia |].
        intros [| f'] Hf; [lia |]. cbn [accept_value]. now rewrite Cn, Ct, Cf, Cq. }
      destruct (Ascii.eqb c "["%char) eqn:Ca.
      { pose proof (skip_ws_length s') as Lw.
        destruct (skip_ws s') as [| c1 r0] eqn:Ew; [discriminate |].
        destruct (Ascii.eqb c1 "]"%char) eqn:Cc.
        - intros H. injection H as <-. cbn [String.length] in *.
          split; [lia |].
          intros [| f'] Hf; [lia |]. cbn [accept_value].
          now rewrite Cn, Ct, Cf, Cq, Ca, Ew, Cc.
        - destruct (accept_value fuel (String c1 r0)) as [r1 |] eqn:E1; [| discriminate].
          destruct (IHv _ _ E1) as [L1 F1].
          intros E2. destruct (IHe _ _ E2) as [L2 F2].
          pose proof (skip_ws_length r1) as Lw1. cbn [String.length] in *.
          split; [lia |].
          intros [| f'] Hf; [lia |]. cbn [accept_value].
          rewrite Cn, Ct, Cf, Cq, Ca, Ew, Cc.
          rewrite (F1 f') by (cbn [String.length]; lia).
          apply F2. lia. }
      destruct (Ascii.eqb c "{"%char) eqn:Co.
      { pose proof (skip_ws_length s') as Lw.
        destruct (skip_ws s') as [| c1 r0] eqn:Ew; [discriminate |].
        destruct (Ascii.eqb c1 "}"%char) eqn:Cc.
        - intros H. injection H as <-. cbn [String.length] in *.
          split; [lia |].
          intros [| f'] Hf; [lia |]. cbn [accept_value].
          now rewrite Cn, Ct, Cf, Cq, Ca, Co, Ew, Cc.
        - destruct (accept_member fuel (String c1 r0)) as [r1 |] eqn:E1; [| discriminate].
          destruct (IHm _ _ E1) as [L1 F1].
          intros E2. destruct (IHms _ _ E2) as [L2 F2].
          pose proof (skip_ws_length r1) as Lw1. cbn [String.length] in *.
          split; [lia |].
          intros [| f'] Hf; [lia |]. cbn [accept_value].
          rewrite Cn, Ct, Cf, Cq, Ca, Co, Ew, Cc.
          rewrite (F1 f') by (cbn [String.length]; lia).
          apply F2. lia. }
      intros H. pose proof (accept_number_length _ _ H) as L.
      split; [exact L |].
      intros [| f'] Hf; [lia |]. cbn [accept_value].
      now rewrite Cn, Ct, Cf, Cq, Ca, Co.
    + intros s r. cbn [accept_elements].
      destruct s as [| c s']; [discriminate |].
      destruct (Ascii.eqb c "]"%char) eqn:Cc.
      { intros H. injection H as <-. cbn [String.length].
        split; [lia |].
        intros [| f'] Hf; [lia |]. cbn [accept_elements]. now rewrite Cc. }
      destruct (Ascii.eqb c ","%char) eqn:Cm; [| discriminate].
      destruct (accept_value fuel (skip_ws s')) as [r1 |] eqn:E1; [| discriminate].
      destruct (IHv _ _ E1) as [L1 F1].
      intros E2. destruct (IHe _ _ E2) as [L2 F2].
      pose proof (skip_ws_length s') as Lw. pose proof (skip_ws_length r1) as Lw1.
      cbn [String.length] in *. split; [lia |].
      intros [| f'] Hf; [lia |]. cbn [accept_elements]. rewrite Cc, Cm.
      rewrite (F1 f') by lia. apply F2. lia.
    + intros s r. cbn [accept_member].
      destruct s as [| c s']; [discriminate |].
      destruct (Ascii.eqb c dquote) eqn:Cq; [| discriminate].
      destruct (accept_chars s') as [r0 |] eqn:E0; [| discriminate].
      pose proof (accept_chars_length _ _ E0) as L0.
      pose proof (skip_ws_length r0) as Lw.
      destruct (skip_ws r0) as [| c1 r1] eqn:Ew; [discriminate |].
      destruct (Ascii.eqb c1 ":"%char) eqn:Cc; [| discriminate].
      intros E2. destruct (IHv _ _ E2) as [L2 F2].
      pose proof (skip_ws_length r1) as Lw1.
      cbn [String.length] in *. split; [lia |].
      intros [| f'] Hf; [lia |]. cbn [accept_member]. rewrite Cq, E0, Ew, Cc.
      apply F2. lia.
    + intros s r. cbn [accept_members].
      destruct s as [| c s']; [discriminate |].
      destruct (Ascii.eqb c "}"%char) eqn:Cc.
      { intros H. injection H as <-. cbn [String.length].
        split; [lia |].
        intros [| f'] Hf; [lia |]. cbn [accept_members]. now rewrite Cc. }
      destruct (Ascii.eqb c ","%char) eqn:Cm; [| discriminate].
      destruct (accept_member fuel (skip_ws s')) as [r1 |] eqn:E1; [| discriminate].
      destruct (IHm _ _ E1) as [L1 F1].
      intros E2. destruct (IHms _ _ E2) as [L2 F2].
      pose proof (skip_ws_length s') as Lw. pose proof (skip_ws_length r1) as Lw1.
      cbn [String.length] in *. split; [lia |].
      intros [| f'] Hf; [lia |]. cbn [accept_members]. rewrite Cc, Cm.
      rewrite (F1 f') by lia. apply F2. lia.
Qed.

(** The fuel [well_formed] gives the descent is enough: a text that any
    amount of fuel accepts is well formed. *)
Lemma well_formed_enough_fuel (text : string) (fuel : nat) (rest : string) :
  accept_value fuel (skip_ws text) = Some rest -> skip_ws rest = "" ->
  well_formed text = true.
Proof.
  intros H Hr. destruct (proj1 (accept_fuel fuel) _ _ H) as [_ F].
  unfold well_formed. rewrite (F (S (String.length text))).
  - now rewrite Hr.
  - pose proof (skip_ws_length text). lia.
Qed.

End GrammarFuel.

(** ** The exporter *)

Section ExporterFacts.
Import JS Exporter.

Lemma ceil_div_bounds (a b : Z) :
  (0 < b)%Z -> ((ceil_div a b - 1) * b < a <= ceil_div a b * b)%Z.
Proof.
  intros Hb. unfold ceil_div.
  pose proof (Z.div_mod (- a) b ltac:(lia)) as Hdm.
  pose proof (Z.mod_pos_bound (- a) b Hb) as Hm.
  nia.
Qed.

Lemma bind_trace {A B : Type} (m : M A) (k : A -> M B) :
  fst (bind m k) =
  fst m ++ match snd m with
           | Done a => fst (k a)
           | _ => []
           end.
Proof.
  destruct m as [t [a | e | ]]; cbn.
  - destruct (k a); reflexivity.
  - now rewrite List.app_nil_r.
  - now rewrite List.app_nil_r.
Qed.

Lemma bind_outcome {A B : Type} (m : M A) (k : A -> M B) :
  snd (bind m k) =
  match snd m with
  | Done a => snd (k a)
  | Raised e => Raised e
  | Running => Running
  end.
Proof.
  destruct m as [t [a | e | ]]; cbn; try reflexivity.
  destruct (k a); reflexivity.
Qed.

Lemma shopify_ok (server : endpoint) (r : request) (b : body) :
  ok (server r) = true -> json_body (server r) = Some b -> truthy (errors b) = false ->
  shopify server r =
    (Request r :: fst (throttle (extensions_cost b)), Done (data b)).
Proof.
  intros Hok Hb He. unfold shopify; cbn.
  rewrite Hok, Hb; cbn. rewrite He.
  unfold throttle.
  destruct (extensions_cost b) as [c|]; [|reflexivity].
  destruct (throttleStatus c) as [t|]; [|reflexivity].
  destruct (currentlyAvailable t <? FLOOR)%Z; reflexivity.
Qed.

Lemma throttle_below (c : cost) (t : throttle_status) :
  throttleStatus c = Some t -> (currentlyAvailable t < FLOOR)%Z ->
  throttle (Some c) = ([Log (LogThrottled (wait_for c t)); Sleep (wait_for c t)], Done tt).
Proof.
  intros Ht Hlt. unfold throttle. rewrite Ht.
  apply Z.ltb_lt in Hlt. now rewrite Hlt.
Qed.

Lemma throttle_above (c : cost) (t : throttle_status) :
  throttleStatus c = Some t -> (FLOOR <= currentlyAvailable t)%Z ->
  throttle (Some c) = ([], Done tt).
Proof.
  intros Ht Hge. unfold throttle. rewrite Ht.
  apply Z.ltb_ge in Hge. now rewrite Hge.
Qed.

Lemma fetch_loop_step (fuel : nat) (server : endpoint) (q : query) (id cursor : value)
  (items : list json) (b : body) (c : connection) :
  let r := {| req_query := q; req_id := id; req_cursor := cursor |} in
  ok (server r) = true -> json_body (server r) = Some b -> truthy (errors b) = false ->
  data b = Some c ->
  fetch_loop (S fuel) server q id cursor items =
    let (t, res) :=
      if hasNextPage (pageInfo c)
      then fetch_loop fuel server q id (endCursor (pageInfo c)) (items ++ map node (edges c))
      else ret (items ++ map node (edges c)) in
    (Request r :: fst (throttle (extensions_cost b)) ++ t, res).
Proof.
  intros r Hok Hb He Hd. cbn [fetch_loop]. fold r.
  rewrite (shopify_ok server r b Hok Hb He). rewrite Hd. cbn.
  destruct (hasNextPage (pageInfo c)); cbn.
  - destruct (fetch_loop fuel server q id (endCursor (pageInfo c))
                (items ++ map node (edges c))) as [t res].
    reflexivity.
  - now rewrite List.app_nil_r.
Qed.

(** Claim C5.  After a successful response whose throttle status reports
    less than 100 available, [shopify] sleeps
    [ceil(requestedQueryCost / restoreRate) * 1000] milliseconds before it
    returns, so [fetchAllPages] sends its next request only after the wait;
    at 100 or more available there is no wait; and a cost of 10 restored at
    5 per second waits at least 2000 ms. *)
Theorem throttle_wait_before_next_request
  (server : endpoint) (q : query) (id cursor : value) (b : body) (c : cost)
  (t : throttle_status) :
  let r := {| req_query := q; req_id := id; req_cursor := cursor |} in
  ok (server r) = true -> json_body (server r) = Some b -> truthy (errors b) = false ->
  extensions_cost b = Some c -> throttleStatus c = Some t ->
  (0 < restoreRate t)%Z ->
  let secs := ceil_div (requestedQueryCost c) (restoreRate t) in
  let wait := Millis (secs * 1000) in
  ((secs - 1) * restoreRate t < requestedQueryCost c <= secs * restoreRate t)%Z /\
  ((currentlyAvailable t < 100)%Z ->
     shopify server r = ([Request r; Log (LogThrottled wait); Sleep wait], Done (data b)) /\
     forall fuel items page,
       data b = Some page -> hasNextPage (pageInfo page) = true ->
       exists rest,
         fst (fetch_loop (S (S fuel)) server q id cursor items) =
           [Request r; Log (LogThrottled wait); Sleep wait;
            Request {| req_query := q; req_id := id;
                       req_cursor := endCursor (pageInfo page) |}] ++ rest) /\
  ((100 <= currentlyAvailable t)%Z -> shopify server r = ([Request r], Done (data b))) /\
  (requestedQueryCost c = 10%Z -> restoreRate t = 5%Z -> (2000 <= secs * 1000)%Z).
Proof.
  intros r Hok Hb He Hc Ht Hrate secs wait.
  assert (Hw : wait_for c t = wait).
  { unfold wait_for, wait, secs.
    destruct (Z.eqb_spec (restoreRate t) 0); [lia | reflexivity]. }
  split; [apply ceil_div_bounds; exact Hrate |].
  split; [| split].
  - intros Hlow.
    assert (Hthr : throttle (extensions_cost b)
                   = ([Log (LogThrottled wait); Sleep wait], Done tt)).
    { rewrite Hc, <- Hw. now apply throttle_below. }
    split.
    + rewrite (shopify_ok server r b Hok Hb He), Hthr. reflexivity.
    + intros fuel items page Hd Hnext.
      rewrite (fetch_loop_step (S fuel) server q id cursor items b page Hok Hb He Hd).
      rewrite Hnext, Hthr. cbn [fetch_loop].
      set (r' := {| req_query := q; req_id := id; req_cursor := endCursor (pageInfo page) |}).
      unfold shopify. 
      match goal with |- context [bind (bind (tell [Request r']) ?k) ?k'] =>
        destruct (bind (bind (tell [Request r']) k) k') as [t' res'] eqn:E;
        pose proof (f_equal fst E) as Ht'; rewrite !bind_trace in Ht'; cbn in Ht'
      end.
      cbn. subst t'. eexists. reflexivity.
  - intros Hhigh.
    rewrite (shopify_ok server r b Hok Hb He), Hc.
    now rewrite (throttle_above c t Ht Hhigh).
  - intros Hcost Hr. unfold secs. rewrite Hcost, Hr. vm_compute. discriminate.
Qed.

Lemma shopify_simulated (items : list json) (size : nat) (r : request) :
  shopify (simulated items size) r =
    ([Request r], Done (Some (page items size (req_cursor r)))).
Proof. reflexivity. Qed.

Lemma fetch_loop_simulated (items : list json) (size : nat) (q : query) (id : value) :
  0 < size ->
  forall (fuel : nat) (cursor : value) (acc : list json),
    List.length items - offset_of cursor < fuel ->
    fetch_loop fuel (simulated items size) q id cursor acc =
      (map (fun c => Request {| req_query := q; req_id := id; req_cursor := c |})
           (cursors_sent fuel (page items size) cursor),
       Done (acc ++ skipn (offset_of cursor) items)).
Proof.
  intros Hsize fuel. induction fuel as [| fuel IH]; intros cursor acc Hfuel; [lia |].
  cbn [fetch_loop cursors_sent]. rewrite shopify_simulated.
  cbn [bind extract ret req_cursor app].
  set (off := offset_of cursor) in *.
  assert (Hnodes : map node (edges (page items size cursor)) = firstn size (skipn off items)).
  { cbn. rewrite map_map. cbn. apply map_id. }
  rewrite Hnodes.
  assert (Hnext : hasNextPage (pageInfo (page items size cursor))
                  = (off + size <? List.length items)) by reflexivity.
  rewrite Hnext.
  destruct (Nat.ltb_spec (off + size) (List.length items)) as [Hlt | Hge].
  - cbn [negb].
    assert (Hoff : offset_of (endCursor (pageInfo (page items size cursor))) = off + size).
    { cbn. fold off. apply Nat2Z.id. }
    rewrite IH by (rewrite Hoff; lia).
    rewrite Hoff. cbn [map]. f_equal. f_equal.
    rewrite <- List.app_assoc. f_equal.
    rewrite <- (firstn_skipn size (skipn off items)) at 2.
    f_equal. rewrite skipn_skipn. f_equal. lia.
  - cbn [negb ret map]. f_equal. f_equal. f_equal.
    apply firstn_all2. rewrite length_skipn. lia.
Qed.

Lemma pages_concat (items : list json) (size : nat) :
  0 < size ->
  forall (fuel : nat) (cursor : value),
    List.length items - offset_of cursor < fuel ->
    concat (map (fun c => map node (edges (page items size c)))
                (cursors_sent fuel (page items size) cursor))
    = skipn (offset_of cursor) items.
Proof.
  intros Hsize fuel. induction fuel as [| fuel IH]; intros cursor Hfuel; [lia |].
  cbn [cursors_sent map concat].
  set (off := offset_of cursor) in *.
  assert (Hnodes : map node (edges (page items size cursor)) = firstn size (skipn off items)).
  { cbn. rewrite map_map. cbn. apply map_id. }
  rewrite Hnodes.
  assert (Hnext : hasNextPage (pageInfo (page items size cursor))
                  = (off + size <? List.length items)) by reflexivity.
  rewrite Hnext.
  destruct (Nat.ltb_spec (off + size) (List.length items)) as [Hlt | Hge].
  - assert (Hoff : offset_of (endCursor (pageInfo (page items size cursor))) = off + size).
    { cbn. fold off. apply Nat2Z.id. }
    rewrite IH by (rewrite Hoff; lia).
    rewrite Hoff.
    rewrite <- (firstn_skipn size (skipn off items)) at 2.
    f_equal. rewrite skipn_skipn. f_equal. lia.
  - cbn. rewrite List.app_nil_r. apply firstn_all2. rewrite length_skipn. lia.
Qed.

Lemma pages_sent (items : list json) (size : nat) :
  0 < size ->
  forall (fuel : nat) (cursor : value),
    List.length items - offset_of cursor < fuel ->
    List.length (cursors_sent fuel (page items size) cursor)
    = page_count (List.length items - offset_of cursor) size.
Proof.
  intros Hsize fuel. induction fuel as [| fuel IH]; intros cursor Hfuel; [lia |].
  cbn [cursors_sent List.length].
  set (off := offset_of cursor) in *.
  assert (Hnext : hasNextPage (pageInfo (page items size cursor))
                  = (off + size <? List.length items)) by reflexivity.
  rewrite Hnext. unfold page_count.
  destruct (Nat.ltb_spec (off + size) (List.length items)) as [Hlt | Hge].
  - assert (Hoff : offset_of (endCursor (pageInfo (page items size cursor))) = off + size).
    { cbn. fold off. apply Nat2Z.id. }
    rewrite IH by (rewrite Hoff; lia).
    rewrite Hoff. unfold page_count.
    replace (List.length items - off + size - 1)
      with ((List.length items - (off + size) + size - 1) + 1 * size) by lia.
    rewrite Nat.div_add by lia.
    assert (H : 1 <= (List.length items - (off + size) + size - 1) / size).
    { apply Nat.div_le_lower_bound; lia. }
    lia.
  - cbn [List.length].
    assert (H : (List.length items - off + size - 1) / size < 2).
    { apply Nat.Div0.div_lt_upper_bound. lia. }
    lia.
Qed.

(** Claim C1.  On a simulated collection served [size] items at a time,
    [fetchAllPages] starts from the [null] cursor, sends each response's end
    cursor back unchanged while the response reports a next page, stops at
    the first response that reports none, and returns the items of the
    pages it visited in order, which are exactly the items of the
    collection. *)
Theorem fetchAllPages_traverses_simulated_collection
  (items : list json) (size fuel : nat) (q : query) (id : value) :
  0 < size -> List.length items < fuel ->
  let sent := cursors_sent fuel (page items size) (Some JNull) in
  fetchAllPages fuel (simulated items size) q id =
    (map (fun c => Request {| req_query := q; req_id := id; req_cursor := c |}) sent,
     Done items) /\
  concat (map (fun c => map node (edges (page items size c))) sent) = items /\
  List.length sent = page_count (List.length items) size.
Proof.
  intros Hsize Hfuel sent. unfold fetchAllPages.
  assert (H0 : List.length items - offset_of (Some JNull) < fuel) by (cbn; lia).
  split; [| split].
  - rewrite (fetch_loop_simulated items size q id Hsize fuel (Some JNull) [] H0).
    reflexivity.
  - unfold sent. rewrite (pages_concat items size Hsize fuel (Some JNull) H0). reflexivity.
  - unfold sent. rewrite (pages_sent items size Hsize fuel (Some JNull) H0).
    cbn. now rewrite Nat.sub_0_r.
Qed.

Lemma throttle_done (c : option cost) : snd (throttle c) = Done tt.
Proof.
  unfold throttle. destruct c as [c |]; [| reflexivity].
  destruct (throttleStatus c) as [t |]; [| reflexivity].
  destruct (currentlyAvailable t <? FLOOR)%Z; reflexivity.
Qed.

Lemma shopify_done (server : endpoint) (r : request) (d : option connection) :
  snd (shopify server r) = Done d ->
  exists b : body, json_body (server r) = Some b /\ d = data b.
Proof.
  unfold shopify. rewrite bind_outcome. cbn [tell snd].
  destruct (negb (ok (server r))); [discriminate |].
  destruct (json_body (server r)) as [b |]; [| discriminate].
  destruct (truthy (errors b)); [discriminate |].
  rewrite bind_outcome, throttle_done. cbn. intros H. injection H as <-.
  now exists b.
Qed.

End ExporterFacts.

(** ** [Promise.all] *)

Section PromiseAll.
Import JS Exporter.

Lemma turns_of_concat (t : list event) :
  (fst (turns_of t) ++ concat (snd (turns_of t)))%list = t.
Proof.
  induction t as [| ev t IH]; [reflexivity |].
  cbn [turns_of]. destruct (turns_of t) as [turn more]. cbn [fst snd] in IH.
  destruct (suspends ev); cbn [fst snd concat app]; now rewrite IH.
Qed.

Lemma take_in {A : Type} (k : nat) (l : list A) (y : A) (rest : list A) :
  take k l = Some (y, rest) -> forall x, In x l <-> x = y \/ In x rest.
Proof.
  revert k y rest. induction l as [| a l IH]; intros k y rest; [destruct k; discriminate |].
  destruct k as [| k]; cbn [take].
  - intros H. injection H as <- <-. intros x. cbn. intuition congruence.
  - destruct (take k l) as [[y' rest'] |] eqn:E; [| discriminate].
    intros H. injection H as <- <-. intros x. cbn [In].
    rewrite (IH _ _ _ E x). intuition congruence.
Qed.

Lemma take_none {A : Type} (k : nat) (l : list A) :
  take k l = None -> List.length l <= k.
Proof.
  revert k. induction l as [| a l IH]; intros k; [cbn; lia |].
  destruct k as [| k]; cbn [take]; [discriminate |].
  destruct (take k l) as [[y rest] |] eqn:E; [discriminate |].
  intros _. apply IH in E. cbn [List.length]. lia.
Qed.

Lemma take_turns (k : nat) (l : list thread) (th : thread) (rest : list thread) :
  take k l = Some (th, rest) ->
  turns_left l = S (List.length (later th)) + turns_left rest.
Proof.
  revert k th rest. induction l as [| a l IH]; intros k th rest; [destruct k; discriminate |].
  destruct k as [| k]; cbn [take].
  - intros H. injection H as <- <-. reflexivity.
  - destruct (take k l) as [[y' rest'] |] eqn:E; [| discriminate].
    intros H. injection H as <- <-. cbn [turns_left fold_right].
    fold (turns_left l). fold (turns_left rest'). rewrite (IH _ _ _ E). lia.
Qed.

Lemma turns_left_app (a b : list thread) :
  turns_left (a ++ b) = turns_left a + turns_left b.
Proof.
  induction a as [| th a IH]; [reflexivity |].
  cbn [app turns_left fold_right]. fold (turns_left (a ++ b)). fold (turns_left a).
  rewrite IH. lia.
Qed.

(** The events of a thread that waits. *)
Definition ahead (th : thread) : list event := (next th ++ concat (later th))%list.

(** The race does nothing but what its threads had left to do. *)
Lemma race_events (P : event -> Prop) (fuel : nat) :
  forall (order : list nat) (waiting : list thread),
    Forall (fun th => Forall P (ahead th)) waiting ->
    Forall P (fst (race fuel order waiting)).
Proof.
  induction fuel as [| fuel IH]; intros order waiting Hw; [constructor |].
  cbn [race].
  destruct (take (hd 0 order mod List.length waiting) waiting) as [[th others] |] eqn:E;
    [| constructor].
  pose proof (take_in _ _ _ _ E) as Hin.
  assert (Hth : Forall P (ahead th)).
  { rewrite Forall_forall in Hw. apply Hw. apply Hin. now left. }
  assert (Ho : Forall (fun th => Forall P (ahead th)) others).
  { rewrite Forall_forall in Hw |- *. intros x Hx. apply Hw. apply Hin. now right. }
  unfold ahead in Hth. apply Forall_app in Hth. destruct Hth as [Hn Hl].
  destruct (later th) as [| turn more] eqn:El.
  - destruct (throws th) as [e |]; [exact Hn |].
    specialize (IH (tl order) others Ho).
    destruct (race fuel (tl order) others) as [t r]. cbn [fst] in *.
    apply Forall_app. now split.
  - match goal with |- context [race fuel (tl order) ?q] =>
      specialize (IH (tl order) q) end.
    destruct (race fuel (tl order) _) as [t r]. cbn [fst] in *.
    apply Forall_app. split; [exact Hn |]. apply IH.
    apply Forall_app. split; [exact Ho |]. constructor; [| constructor].
    exact Hl.
Qed.

(** The exception of a race is that of one of its threads, which ran to its
    end. *)
Lemma race_thrown (fuel : nat) :
  forall (order : list nat) (waiting : list thread) (e : exn),
    snd (race fuel order waiting) = Some e ->
    exists th : thread,
      In th waiting /\ throws th = Some e /\
      incl (ahead th) (fst (race fuel order waiting)).
Proof.
  induction fuel as [| fuel IH]; intros order waiting e; [discriminate |].
  cbn [race].
  destruct (take (hd 0 order mod List.length waiting) waiting) as [[th others] |] eqn:E;
    [| discriminate].
  pose proof (take_in _ _ _ _ E) as Hin.
  destruct (later th) as [| turn more] eqn:El.
  - destruct (throws th) as [e' |] eqn:Et.
    + cbn [snd fst]. intros H. injection H as <-.
      exists th. split; [apply Hin; now left |]. split; [exact Et |].
      unfold ahead. rewrite El. cbn [concat]. rewrite List.app_nil_r. apply incl_refl.
    + specialize (IH (tl order) others e).
      destruct (race fuel (tl order) others) as [t r]. cbn [fst snd] in *.
      intros H. destruct (IH H) as (th' & Hth' & He & Hincl).
      exists th'. split; [apply Hin; now right |]. split; [exact He |].
      apply incl_appr. exact Hincl.
  - match goal with |- context [race fuel (tl order) ?q] =>
      specialize (IH (tl order) q e) end.
    destruct (race fuel (tl order) _) as [t r]. cbn [fst snd] in *.
    intros H. destruct (IH H) as (th' & Hth' & He & Hincl).
    apply in_app_or in Hth'. destruct Hth' as [Hth' | [<- | []]].
    + exists th'. split; [apply Hin; now right |]. split; [exact He |].
      apply incl_appr. exact Hincl.
    + exists th. split; [apply Hin; now left |]. split; [exact He |].
      unfold ahead in *. rewrite El. cbn [next later concat] in *.
      apply incl_app; [apply incl_appl, incl_refl | apply incl_appr, Hincl].
Qed.

(** A thread that throws ends the race, unless another one did before. *)
Lemma race_throws (fuel : nat) :
  forall (order : list nat) (waiting : list thread) (th : thread) (e : exn),
    turns_left waiting <= fuel -> In th waiting -> throws th = Some e ->
    exists e' : exn, snd (race fuel order waiting) = Some e'.
Proof.
  induction fuel as [| fuel IH]; intros order waiting th e Hfuel Hth He.
  - destruct waiting as [| a w]; [destruct Hth |]. cbn in Hfuel. lia.
  - cbn [race].
    destruct (take (hd 0 order mod List.length waiting) waiting) as [[th0 others] |] eqn:E.
    2:{ apply take_none in E. destruct waiting as [| a w]; [destruct Hth |].
        pose proof (Nat.mod_upper_bound (hd 0 order) (List.length (a :: w))
                      ltac:(cbn; lia)). lia. }
    pose proof (take_in _ _ _ _ E) as Hin.
    pose proof (take_turns _ _ _ _ E) as Hturns.
    destruct (later th0) as [| turn more] eqn:El.
    + destruct (throws th0) as [e0 |] eqn:Et; [now exists e0 |].
      assert (Hth' : In th others).
      { apply Hin in Hth. destruct Hth as [-> | H]; [congruence | exact H]. }
      destruct (IH (tl order) others th e ltac:(lia) Hth' He) as (e' & He').
      destruct (race fuel (tl order) others) as [t r]. cbn [snd] in *. now exists e'.
    + set (th1 := {| next := turn; later := more; throws := throws th0 |}).
      assert (Hq : turns_left (others ++ [th1]) <= fuel).
      { rewrite turns_left_app. cbn. cbn [List.length] in Hturns. lia. }
      assert (Hth' : exists th', In th' (others ++ [th1]) /\ throws th' = Some e).
      { apply Hin in Hth. destruct Hth as [-> | H].
        - exists th1. split; [apply in_or_app; right; now left | exact He].
        - exists th. split; [apply in_or_app; now left | exact He]. }
      destruct Hth' as (th' & Hth' & He').
      destruct (IH (tl order) (others ++ [th1]) th' e Hq Hth' He') as (e' & Hr).
      destruct (race fuel (tl order) (others ++ [th1])) as [t r]. cbn [snd] in *.
      now exists e'.
Qed.

Lemma first_thrown_in (l : list (option exn)) (e : exn) :
  first_thrown l = Some e -> In (Some e) l.
Proof.
  induction l as [| [e' |] l IH]; cbn; [discriminate | |].
  - intros H. injection H as <-. now left.
  - intros H. right. now apply IH.
Qed.

Lemma first_thrown_some (l : list (option exn)) (e : exn) :
  In (Some e) l -> exists e', first_thrown l = Some e'.
Proof.
  induction l as [| [e' |] l IH]; cbn; [intros [] | eauto |].
  intros [H | H]; [discriminate | now apply IH].
Qed.

(** *** One call *)

Lemma first_turn_forall {A : Type} (P : event -> Prop) (m : M A) :
  Forall P (fst m) -> Forall P (first_turn m).
Proof.
  intros H. rewrite <- (turns_of_concat (fst m)) in H.
  apply Forall_app in H. exact (proj1 H).
Qed.

Lemma suspended_forall {A : Type} (P : event -> Prop) (m : M A) :
  Forall P (fst m) -> Forall (fun th => Forall P (ahead th)) (suspended m).
Proof.
  intros H. rewrite <- (turns_of_concat (fst m)) in H.
  apply Forall_app in H. destruct H as [_ H].
  unfold suspended. destruct (snd (turns_of (fst m))) as [| turn more]; [constructor |].
  constructor; [| constructor]. exact H.
Qed.

(** A call threw at once or left a thread that throws exactly when it
    throws. *)
Lemma thrown_split {A : Type} (m : M A) (e : exn) :
  thrown (snd m) = Some e <->
  threw_at_once m = Some e \/ exists th, In th (suspended m) /\ throws th = Some e.
Proof.
  unfold threw_at_once, suspended.
  destruct (snd (turns_of (fst m))) as [| turn more].
  - split; [now left | intros [H | (th & [] & _)]; exact H].
  - split.
    + intros H. right. eexists. split; [now left | exact H].
    + intros [H | (th & [<- | []] & H)]; [discriminate | exact H].
Qed.

(** The events of a call that threw at once or of its thread are its
    events. *)
Lemma at_once_all {A : Type} (m : M A) (e : exn) :
  threw_at_once m = Some e -> first_turn m = fst m.
Proof.
  unfold threw_at_once, first_turn. pose proof (turns_of_concat (fst m)) as H.
  destruct (snd (turns_of (fst m))); [| discriminate].
  intros _. cbn [concat] in H. now rewrite List.app_nil_r in H.
Qed.

Lemma suspended_all {A : Type} (m : M A) (th : thread) :
  In th (suspended m) -> fst m = (first_turn m ++ ahead th)%list.
Proof.
  unfold suspended, first_turn, ahead. pose proof (turns_of_concat (fst m)) as H.
  destruct (snd (turns_of (fst m))) as [| turn more]; [intros [] |].
  intros [<- | []]. cbn [next later]. cbn [concat] in H. now rewrite H.
Qed.

(** *** [settle_all] *)

Lemma settle_all_events (P : event -> Prop) (order : list nat) (started : list event)
  (at_once : list (option exn)) (waiting : list thread) :
  Forall P started -> Forall (fun th => Forall P (ahead th)) waiting ->
  Forall P (fst (settle_all order started at_once waiting)).
Proof.
  intros Hs Hw. unfold settle_all.
  destruct (first_thrown at_once); [exact Hs |].
  pose proof (race_events P (turns_left waiting) order waiting Hw) as H.
  destruct (race (turns_left waiting) order waiting) as [t r]. cbn [fst] in *.
  apply Forall_app. now split.
Qed.

Lemma settle_all_thrown (order : list nat) (started : list event)
  (at_once : list (option exn)) (waiting : list thread) (e : exn) :
  snd (settle_all order started at_once waiting) = Some e ->
  (In (Some e) at_once /\ fst (settle_all order started at_once waiting) = started) \/
  exists th : thread,
    In th waiting /\ throws th = Some e /\
    incl (started ++ ahead th) (fst (settle_all order started at_once waiting)).
Proof.
  unfold settle_all. destruct (first_thrown at_once) as [e0 |] eqn:E0.
  - cbn [snd fst]. intros H. injection H as <-. left.
    split; [now apply first_thrown_in | reflexivity].
  - pose proof (race_thrown (turns_left waiting) order waiting e) as H.
    destruct (race (turns_left waiting) order waiting) as [t r]. cbn [fst snd] in *.
    intros Hr. right. destruct (H Hr) as (th & Hth & He & Hincl).
    exists th. split; [exact Hth |]. split; [exact He |].
    apply incl_app; [apply incl_appl, incl_refl | apply incl_appr, Hincl].
Qed.

Lemma settle_all_throws (order : list nat) (started : list event)
  (at_once : list (option exn)) (waiting : list thread) (e : exn) :
  In (Some e) at_once \/ (exists th, In th waiting /\ throws th = Some e) ->
  exists e' : exn, snd (settle_all order started at_once waiting) = Some e'.
Proof.
  intros H. unfold settle_all.
  destruct (first_thrown at_once) as [e0 |] eqn:E0; [now exists e0 |].
  destruct H as [H | (th & Hth & He)].
  - apply first_thrown_some in H. destruct H as (e' & H). congruence.
  - destruct (race_throws (turns_left waiting) order waiting th e (le_n _) Hth He)
      as (e' & Hr).
    destruct (race (turns_left waiting) order waiting) as [t r]. cbn [snd] in *.
    now exists e'.
Qed.

(** *** [par3] *)

Lemma par3_events {A B C : Type} (P : event -> Prop) (order : list nat)
  (a : M A) (b : M B) (c : M C) :
  Forall P (fst a) -> Forall P (fst b) -> Forall P (fst c) ->
  Forall P (fst (par3 order a b c)).
Proof.
  intros Ha Hb Hc. unfold par3.
  match goal with |- context [settle_all ?o ?s ?x ?w] =>
    pose proof (settle_all_events P o s x w) as H;
    destruct (settle_all o s x w) as [t r]
  end.
  cbn [fst] in *. apply H.
  - repeat (apply Forall_app; split); now apply first_turn_forall.
  - repeat (apply Forall_app; split); now apply suspended_forall.
Qed.

Lemma par3_outcome {A B C : Type} (order : list nat) (a : M A) (b : M B) (c : M C) :
  match snd (par3 order a b c) with
  | Done (x, y, z) => snd a = Done x /\ snd b = Done y /\ snd c = Done z
  | Raised e =>
      (snd a = Raised e /\ incl (fst a) (fst (par3 order a b c))) \/
      (snd b = Raised e /\ incl (fst b) (fst (par3 order a b c))) \/
      (snd c = Raised e /\ incl (fst c) (fst (par3 order a b c)))
  | Running =>
      forall e, snd a <> Raised e /\ snd b <> Raised e /\ snd c <> Raised e
  end.
Proof.
  unfold par3.
  match goal with |- context [settle_all ?o ?s ?x ?w] =>
    pose proof (settle_all_thrown o s x w) as Hthrown;
    pose proof (settle_all_throws o s x w) as Hthrows;
    destruct (settle_all o s x w) as [t r]
  end.
  cbn [fst snd] in *.
  assert (Hraised : forall {X : Type} (m : M X) e, thrown (snd m) = Some e -> snd m = Raised e).
  { intros X m e. destruct (snd m); cbn; congruence. }
  destruct r as [e |].
  - destruct (Hthrown e eq_refl) as [[Hin ->] | (th & Hth & He & Hincl)].
    + destruct Hin as [H | [H | [H | []]]].
      * left. split; [apply Hraised, thrown_split; now left |].
        rewrite <- (at_once_all a e H). apply incl_appl, incl_refl.
      * right; left. split; [apply Hraised, thrown_split; now left |].
        rewrite <- (at_once_all b e H). apply incl_appr, incl_appl, incl_refl.
      * right; right. split; [apply Hraised, thrown_split; now left |].
        rewrite <- (at_once_all c e H). apply incl_appr, incl_appr, incl_refl.
    + apply in_app_or in Hth. destruct Hth as [Hth | Hth];
        [| apply in_app_or in Hth; destruct Hth as [Hth | Hth]].
      * left. split; [apply Hraised, thrown_split; right; eauto |].
        rewrite (suspended_all a th Hth).
        intros ev Hev. apply Hincl. apply in_app_or in Hev.
        destruct Hev as [Hev | Hev]; apply in_or_app; [left | now right].
        apply in_or_app. now left.
      * right; left. split; [apply Hraised, thrown_split; right; eauto |].
        rewrite (suspended_all b th Hth).
        intros ev Hev. apply Hincl. apply in_app_or in Hev.
        destruct Hev as [Hev | Hev]; apply in_or_app; [left | now right].
        apply in_or_app. right. apply in_or_app. now left.
      * right; right. split; [apply Hraised, thrown_split; right; eauto |].
        rewrite (suspended_all c th Hth).
        intros ev Hev. apply Hincl. apply in_app_or in Hev.
        destruct Hev as [Hev | Hev]; apply in_or_app; [left | now right].
        apply in_or_app. right. apply in_or_app. now right.
  - assert (Hquiet : forall e,
              threw_at_once a <> Some e /\ threw_at_once b <> Some e /\
              threw_at_once c <> Some e /\
              forall th, In th (suspended a ++ suspended b ++ suspended c) ->
                         throws th <> Some e).
    { intros e. repeat split.
      - intros H. destruct (Hthrows e) as (e' & He'); [left; cbn; auto | discriminate].
      - intros H. destruct (Hthrows e) as (e' & He'); [left; cbn; auto | discriminate].
      - intros H. destruct (Hthrows e) as (e' & He'); [left; cbn; auto | discriminate].
      - intros th Hth H. destruct (Hthrows e) as (e' & He'); [right; eauto | discriminate]. }
    assert (Hnone : forall e, snd a <> Raised e /\ snd b <> Raised e /\ snd c <> Raised e).
    { intros e. destruct (Hquiet e) as (Qa & Qb & Qc & Qth).
      repeat split; intros Hm.
      - assert (Ht : thrown (snd a) = Some e) by now rewrite Hm.
        apply thrown_split in Ht. destruct Ht as [Ht | (th & Hth & Ht)]; [easy |].
        apply (Qth th); [apply in_or_app; now left | exact Ht].
      - assert (Ht : thrown (snd b) = Some e) by now rewrite Hm.
        apply thrown_split in Ht. destruct Ht as [Ht | (th & Hth & Ht)]; [easy |].
        apply (Qth th); [apply in_or_app; right; apply in_or_app; now left | exact Ht].
      - assert (Ht : thrown (snd c) = Some e) by now rewrite Hm.
        apply thrown_split in Ht. destruct Ht as [Ht | (th & Hth & Ht)]; [easy |].
        apply (Qth th); [apply in_or_app; right; apply in_or_app; now right | exact Ht]. }
    destruct (snd a) as [x | ea |] eqn:Ea; [| now destruct (Hnone ea) as (H & _) | exact Hnone].
    destruct (snd b) as [y | eb |] eqn:Eb;
      [| now destruct (Hnone eb) as (_ & H & _) | exact Hnone].
    destruct (snd c) as [z | ec |] eqn:Ec;
      [| now destruct (Hnone ec) as (_ & _ & H) | exact Hnone].
    repeat split.
Qed.

Lemma par3_done {A B C : Type} (order : list nat) (a : M A) (b : M B) (c : M C)
  (x : A) (y : B) (z : C) :
  snd (par3 order a b c) = Done (x, y, z) <->
  snd a = Done x /\ snd b = Done y /\ snd c = Done z.
Proof.
  pose proof (par3_outcome order a b c) as H. split.
  - intros E. now rewrite E in H.
  - intros (Ha & Hb & Hc).
    destruct (snd (par3 order a b c)) as [[[x' y'] z'] | e |] eqn:E.
    + destruct H as (Ha' & Hb' & Hc'). congruence.
    + destruct H as [[H _] | [[H _] | [H _]]]; congruence.
    + exfalso. revert E. unfold par3.
      destruct (settle_all _ _ _ _) as [t [e |]]; cbn [snd]; [discriminate |].
      rewrite Ha, Hb, Hc. discriminate.
Qed.

(** *** [par_map] *)

Lemma gather_done {A : Type} (os : list (outcome A)) (l : list A) :
  gather os = Done l <-> os = map Done l.
Proof.
  revert l. induction os as [| o os IH]; intros l.
  - cbn. split.
    + intros H. injection H as <-. reflexivity.
    + destruct l; [reflexivity | discriminate].
  - cbn [gather]. destruct o as [a | e |].
    + destruct (gather os) as [l' | e |] eqn:E.
      * split.
        -- intros H. injection H as <-. cbn. f_equal. now apply IH.
        -- destruct l as [| a' l'']; [discriminate |]. cbn. intros H.
           injection H as <- H. apply IH in H. congruence.
      * split; [discriminate |]. destruct l as [| a' l'']; [discriminate |].
        cbn. intros H. injection H as _ H. apply IH in H. discriminate.
      * split; [discriminate |]. destruct l as [| a' l'']; [discriminate |].
        cbn. intros H. injection H as _ H. apply IH in H. discriminate.
    + split; [discriminate |]. destruct l; discriminate.
    + split; [discriminate |]. destruct l; discriminate.
Qed.

Lemma gather_not_raised {A : Type} (os : list (outcome A)) (e : exn) :
  gather os <> Raised e.
Proof.
  destruct os as [| [a | e' |] os]; cbn; try discriminate.
  destruct (gather os); discriminate.
Qed.

Lemma par_map_events {A B : Type} (P : event -> Prop) (order : list nat)
  (f : A -> M B) (l : list A) :
  (forall x, In x l -> Forall P (fst (f x))) ->
  Forall P (fst (par_map order f l)).
Proof.
  intros Hf. unfold par_map.
  match goal with |- context [settle_all ?o ?s ?x ?w] =>
    pose proof (settle_all_events P o s x w) as H;
    destruct (settle_all o s x w) as [t r]
  end.
  cbn [fst] in *. apply H.
  - apply Forall_concat. rewrite map_map. apply Forall_map.
    rewrite Forall_forall. intros x Hx. apply first_turn_forall. now apply Hf.
  - rewrite flat_map_concat_map. apply Forall_concat. rewrite map_map.
    apply Forall_map. rewrite Forall_forall. intros x Hx.
    apply suspended_forall. now apply Hf.
Qed.

Lemma first_turn_incl {A B : Type} (f : A -> M B) (l : list A) (x : A) :
  In x l -> incl (first_turn (f x)) (concat (map first_turn (map f l))).
Proof.
  intros Hx ev Hev. apply in_concat. exists (first_turn (f x)).
  split; [| exact Hev]. rewrite map_map. apply in_map_iff. now exists x.
Qed.

Lemma par_map_outcome {A B : Type} (order : list nat) (f : A -> M B) (l : list A) :
  match snd (par_map order f l) with
  | Done ys => map (fun x => snd (f x)) l = map Done ys
  | Raised e =>
      exists x : A,
        In x l /\ snd (f x) = Raised e /\ incl (fst (f x)) (fst (par_map order f l))
  | Running => forall (x : A) (e : exn), In x l -> snd (f x) <> Raised e
  end.
Proof.
  unfold par_map.
  match goal with |- context [settle_all ?o ?s ?x ?w] =>
    pose proof (settle_all_thrown o s x w) as Hthrown;
    pose proof (settle_all_throws o s x w) as Hthrows;
    destruct (settle_all o s x w) as [t r]
  end.
  cbn [fst snd] in *.
  assert (Hraised : forall (m : M B) e, thrown (snd m) = Some e -> snd m = Raised e).
  { intros m e. destruct (snd m); cbn; congruence. }
  destruct r as [e |].
  - destruct (Hthrown e eq_refl) as [[Hin ->] | (th & Hth & He & Hincl)].
    + rewrite map_map in Hin. apply in_map_iff in Hin. destruct Hin as (x & Hx & Hin).
      exists x. split; [exact Hin |].
      split; [apply Hraised, thrown_split; now left |].
      rewrite <- (at_once_all (f x) e Hx). now apply first_turn_incl.
    + apply in_flat_map in Hth. destruct Hth as (m & Hm & Hth).
      apply in_map_iff in Hm. destruct Hm as (x & <- & Hx).
      exists x. split; [exact Hx |].
      split; [apply Hraised, thrown_split; right; eauto |].
      rewrite (suspended_all (f x) th Hth).
      intros ev Hev. apply Hincl. apply in_app_or in Hev.
      destruct Hev as [Hev | Hev]; apply in_or_app; [left | now right].
      now apply (first_turn_incl f l x).
  - assert (Hnone : forall (x : A) (e : exn), In x l -> snd (f x) <> Raised e).
    { intros x e Hx Hm.
      assert (Ht : thrown (snd (f x)) = Some e) by now rewrite Hm.
      apply thrown_split in Ht.
      destruct (Hthrows e) as (e' & He'); [| discriminate].
      destruct Ht as [Ht | (th & Hth & Ht)].
      - left. rewrite map_map. apply in_map_iff. now exists x.
      - right. exists th. split; [| exact Ht].
        apply in_flat_map. exists (f x). split; [| exact Hth].
        apply in_map_iff. now exists x. }
    rewrite map_map.
    destruct (gather (map (fun x => snd (f x)) l)) as [ys | e |] eqn:E.
    + now apply gather_done.
    + now apply gather_not_raised in E.
    + exact Hnone.
Qed.

Lemma par_map_done {A B : Type} (order : list nat) (f : A -> M B) (l : list A)
  (ys : list B) :
  snd (par_map order f l) = Done ys <-> map (fun x => snd (f x)) l = map Done ys.
Proof.
  pose proof (par_map_outcome order f l) as H. split.
  - intros E. now rewrite E in H.
  - intros Hl. destruct (snd (par_map order f l)) as [ys' | e |] eqn:E.
    + rewrite Hl in H. f_equal. symmetry.
      revert H. clear. revert ys'.
      induction ys as [| y ys IH]; intros [| y' ys']; cbn; try discriminate;
        [reflexivity |].
      intros Hm. injection Hm as <- Hm. f_equal. now apply IH.
    + destruct H as (x & Hx & Hr & _).
      assert (Hin : In (snd (f x)) (map (fun x => snd (f x)) l))
        by (apply in_map_iff; now exists x).
      rewrite Hl, Hr in Hin. apply in_map_iff in Hin. destruct Hin as (y & Hy & _).
      discriminate.
    + exfalso. revert E. unfold par_map.
      destruct (settle_all _ _ _ _) as [t [e |]]; cbn [snd]; [discriminate |].
      rewrite map_map, Hl. intros E.
      assert (Hg : gather (map Done ys) = Done ys) by now apply gather_done.
      congruence.
Qed.

Lemma par_map_results {A B : Type} (f : A -> M B) (l : list A) (ys : list B) :
  map (fun x => snd (f x)) l = map Done ys <->
  Forall2 (fun x y => snd (f x) = Done y) l ys.
Proof.
  revert ys. induction l as [| x l IH]; intros [| y ys]; cbn [map]; split; intros H.
  - constructor.
  - reflexivity.
  - discriminate H.
  - inversion H.
  - discriminate H.
  - inversion H.
  - injection H as Hx Hl. constructor; [exact Hx | now apply IH].
  - inversion H; subst. f_equal; [assumption | now apply IH].
Qed.

End PromiseAll.

Section ExporterRecords.
Import JS Exporter.

Lemma stdout_app (t t' : list event) : stdout (t ++ t') = stdout t ++ stdout t'.
Proof. apply flat_map_app. Qed.

Lemma throttle_quiet (c : option cost) : stdout (fst (throttle c)) = [].
Proof.
  unfold throttle. destruct c as [c |]; [| reflexivity].
  destruct (throttleStatus c) as [t |]; [| reflexivity].
  destruct (currentlyAvailable t <? FLOOR)%Z; reflexivity.
Qed.

Lemma shopify_quiet (server : endpoint) (r : request) :
  stdout (fst (shopify server r)) = [].
Proof.
  unfold shopify. rewrite bind_trace. cbn [tell fst snd].
  rewrite stdout_app. cbn [stdout flat_map app].
  destruct (negb (ok (server r))); [reflexivity |].
  destruct (json_body (server r)) as [b |]; [| reflexivity].
  destruct (truthy (errors b)); [reflexivity |].
  rewrite bind_trace, stdout_app, throttle_quiet.
  destruct (snd (throttle (extensions_cost b))); reflexivity.
Qed.

Lemma fetch_loop_quiet (server : endpoint) (q : query) (id : value) (fuel : nat) :
  forall (cursor : value) (items : list json),
    stdout (fst (fetch_loop fuel server q id cursor items)) = [].
Proof.
  induction fuel as [| fuel IH]; intros cursor items; [reflexivity |].
  cbn [fetch_loop]. rewrite bind_trace, stdout_app, shopify_quiet.
  destruct (snd (shopify server _)) as [d | e |]; try reflexivity.
  rewrite bind_trace, stdout_app.
  destruct d as [c |]; cbn [extract ret raise fst snd stdout flat_map app]; [| reflexivity].
  destruct (negb (hasNextPage (pageInfo c))); [reflexivity | apply IH].
Qed.

Lemma fetchAllPages_quiet (fuel : nat) (server : endpoint) (q : query) (id : value) :
  stdout (fst (fetchAllPages fuel server q id)) = [].
Proof. apply fetch_loop_quiet. Qed.

Lemma lift_trace {A : Type} (r : res A) : fst (lift r) = [].
Proof. destruct r; reflexivity. Qed.

Lemma with_metafields_quiet (fuel : nat) (server : endpoint) (variant : json) :
  stdout (fst (with_metafields fuel server variant)) = [].
Proof.
  unfold with_metafields. rewrite bind_trace, lift_trace. cbn [app].
  destruct (snd (lift (get (Some variant) "id"))) as [vid | e |]; try reflexivity.
  rewrite bind_trace, stdout_app.
  unfold fetchMetafields. rewrite fetchAllPages_quiet.
  destruct (snd (fetchAllPages fuel server METAFIELDS_QUERY vid)); reflexivity.
Qed.

(** *** What a record holds *)

Lemma enrich_carries (product : json) (metafields variants media : list json) :
  carries product [("metafields", JArr metafields); ("variants", JArr variants);
                   ("media", JArr media)]
          (enrich product metafields variants media).
Proof.
  unfold enrich, spread. eexists. split; [reflexivity |].
  cbn [fold_left fst snd]. split.
  - repeat constructor; cbn [fst snd]; rewrite !assoc_define; reflexivity.
  - intros k Hk. cbn [map fst In] in Hk. rewrite !assoc_define.
    destruct (String.eqb_spec k "media") as [-> |]; [exfalso; apply Hk; auto |].
    destruct (String.eqb_spec k "variants") as [-> |]; [exfalso; apply Hk; auto |].
    destruct (String.eqb_spec k "metafields") as [-> |]; [exfalso; apply Hk; auto |].
    reflexivity.
Qed.

Lemma variant_carries (variant : json) (mfs : list json) :
  carries variant [("metafields", JArr mfs)]
          (spread (Some variant) [("metafields", JArr mfs)]).
Proof.
  unfold spread. eexists. split; [reflexivity |].
  cbn [fold_left fst snd]. split.
  - repeat constructor; cbn [fst snd]; rewrite !assoc_define; reflexivity.
  - intros k Hk. cbn [map fst In] in Hk. rewrite !assoc_define.
    destruct (String.eqb_spec k "metafields") as [-> |]; [exfalso; apply Hk; auto |].
    reflexivity.
Qed.

Lemma with_metafields_done (fuel : nat) (server : endpoint) (variant v' : json) :
  snd (with_metafields fuel server variant) = Done v' <->
  variant_as fuel server variant v'.
Proof.
  unfold with_metafields, variant_as. rewrite bind_outcome. split.
  - destruct (get (Some variant) "id") as [vid | e] eqn:Hid; cbn [lift ret raise snd];
      [| discriminate].
    rewrite bind_outcome.
    destruct (snd (fetchMetafields fuel server vid)) as [mfs | e |] eqn:Hm;
      try discriminate.
    cbn. intros H. injection H as <-. exists vid, mfs.
    repeat split; try assumption. apply variant_carries.
  - intros (vid & mfs & Hid & Hm & -> & _). rewrite Hid. cbn [lift ret snd].
    rewrite bind_outcome, Hm. reflexivity.
Qed.

(** *** Events that print nothing *)

Definition prints_nothing (ev : event) : Prop :=
  match ev with
  | Stdout _ => False
  | _ => True
  end.

Lemma stdout_nil (t : list event) : stdout t = [] <-> Forall prints_nothing t.
Proof.
  induction t as [| ev t IH]; [split; [constructor | reflexivity] |].
  destruct ev; cbn [stdout flat_map app]; fold (stdout t); split; intros H;
    try (constructor; [exact I | now apply IH]);
    try (inversion H; subst; now apply IH);
    try discriminate.
  inversion H; subst. contradiction.
Qed.

(** *** One product *)

Lemma fetches_done (order : list nat) (fuel : nat) (server : endpoint) (pid : value)
  (variants media metafields : list json) :
  snd (par3 order (fetchAllPages fuel server VARIANTS_QUERY pid)
                  (fetchAllPages fuel server MEDIA_QUERY pid)
                  (fetchMetafields fuel server pid)) = Done (variants, media, metafields) <->
  snd (fetchAllPages fuel server VARIANTS_QUERY pid) = Done variants /\
  snd (fetchAllPages fuel server MEDIA_QUERY pid) = Done media /\
  snd (fetchMetafields fuel server pid) = Done metafields.
Proof. apply par3_done. Qed.

Lemma variants_done (order : list nat) (fuel : nat) (server : endpoint)
  (variants enriched : list json) :
  snd (par_map order (with_metafields fuel server) variants) = Done enriched <->
  Forall2 (variant_as fuel server) variants enriched.
Proof.
  rewrite par_map_done, par_map_results. split; intros H.
  - eapply Forall2_impl; [| exact H]. intros a b Hab. now apply with_metafields_done.
  - eapply Forall2_impl; [| exact H]. intros a b Hab. now apply with_metafields_done.
Qed.

(** What [export_product] does: events [t] that print nothing, then, when
    every fetch has returned, the record of the product and nothing else. *)
Lemma export_product_shape (P : event -> Prop) (order : list nat * list nat)
  (fuel : nat) (server : endpoint) (product : json) :
  (forall (q : query) (id : value), Forall P (fst (fetchAllPages fuel server q id))) ->
  exists t : list event,
    Forall P t /\ stdout t = [] /\
    ((fst (export_product order fuel server product) = t /\
      forall u, snd (export_product order fuel server product) <> Done u) \/
     (exists o : json,
        fst (export_product order fuel server product) = t ++ [Stdout o] /\
        snd (export_product order fuel server product) = Done tt /\
        exported_as fuel server product o)).
Proof.
  intros Hfetch. unfold export_product.
  rewrite bind_outcome, bind_trace, lift_trace. cbn [app].
  destruct (get (Some product) "id") as [pid | e] eqn:Hid; cbn [lift ret raise snd].
  2:{ exists []. split; [constructor |]. split; [reflexivity |]. left.
      split; [reflexivity | discriminate]. }
  rewrite bind_outcome, bind_trace.
  set (fetches := par3 (fst order) (fetchAllPages fuel server VARIANTS_QUERY pid)
                    (fetchAllPages fuel server MEDIA_QUERY pid)
                    (fetchMetafields fuel server pid)).
  assert (HP : Forall P (fst fetches)) by (apply par3_events; apply Hfetch).
  assert (Hq : stdout (fst fetches) = []).
  { apply stdout_nil. apply par3_events; apply stdout_nil; apply fetchAllPages_quiet. }
  destruct (snd fetches) as [[[variants media] metafields] | e |] eqn:Hpar.
  2,3: exists (fst fetches); rewrite List.app_nil_r;
       (split; [exact HP |]); (split; [exact Hq |]); left;
       (split; [reflexivity | discriminate]).
  apply fetches_done in Hpar. destruct Hpar as (Hv & Hm & Hmf).
  rewrite bind_outcome, bind_trace.
  set (inner := par_map (snd order) (with_metafields fuel server) variants).
  assert (HP' : Forall P (fst inner)).
  { apply par_map_events. intros x _. unfold with_metafields.
    rewrite bind_trace, lift_trace. cbn [app].
    destruct (snd (lift (get (Some x) "id"))) as [vid | e |]; try constructor.
    rewrite bind_trace. apply Forall_app. split; [apply Hfetch |].
    destruct (snd (fetchMetafields fuel server vid)); constructor. }
  assert (Hq' : stdout (fst inner) = []).
  { apply stdout_nil. apply par_map_events. intros x _.
    apply stdout_nil, with_metafields_quiet. }
  exists (fst fetches ++ fst inner).
  split; [now apply Forall_app |].
  split; [now rewrite stdout_app, Hq, Hq' |].
  destruct (snd inner) as [enriched | e |] eqn:Hvm.
  2,3: left; rewrite List.app_nil_r; (split; [reflexivity | discriminate]).
  right. exists (enrich product metafields enriched media).
  cbn [tell fst snd]. split; [now rewrite List.app_assoc |]. split; [reflexivity |].
  exists pid, variants, media, metafields, enriched.
  repeat split; try assumption.
  - now apply variants_done in Hvm.
  - apply enrich_carries.
Qed.

Lemma export_product_outcome (order : list nat * list nat) (fuel : nat)
  (server : endpoint) (product : json) :
  (stdout (fst (export_product order fuel server product)) = [] /\
   forall u, snd (export_product order fuel server product) <> Done u) \/
  (exists o : json,
     stdout (fst (export_product order fuel server product)) = [o] /\
     snd (export_product order fuel server product) = Done tt /\
     exported_as fuel server product o).
Proof.
  destruct (export_product_shape (fun _ => True) order fuel server product)
    as (t & _ & Hq & [[-> Hn] | (o & -> & Hd & Hex)]).
  - intros q id. apply Forall_forall. intros; exact I.
  - left. now split.
  - right. exists o. rewrite stdout_app, Hq. cbn. now repeat split.
Qed.

Lemma export_product_done (order : list nat * list nat) (fuel : nat)
  (server : endpoint) (product : json) :
  snd (export_product order fuel server product) = Done tt ->
  exists o : json,
    stdout (fst (export_product order fuel server product)) = [o] /\
    exported_as fuel server product o.
Proof.
  intros H. destruct (export_product_outcome order fuel server product)
    as [[_ Hn] | (o & Ho & _ & Hex)].
  - now destruct (Hn tt).
  - now exists o.
Qed.

Lemma export_product_failed (order : list nat * list nat) (fuel : nat)
  (server : endpoint) (product : json) :
  (forall u, snd (export_product order fuel server product) <> Done u) ->
  stdout (fst (export_product order fuel server product)) = [].
Proof.
  intros H. destruct (export_product_outcome order fuel server product)
    as [[Hq _] | (o & _ & Hd & _)]; [exact Hq |].
  now destruct (H tt).
Qed.

(** The record of a product whose fetches return: the converse. *)
Lemma export_product_exported (order : list nat * list nat) (fuel : nat)
  (server : endpoint) (product o : json) :
  exported_as fuel server product o ->
  stdout (fst (export_product order fuel server product)) = [o] /\
  snd (export_product order fuel server product) = Done tt.
Proof.
  intros (pid & variants & media & metafields & enriched
          & Hid & Hv & Hm & Hmf & Hall & -> & _).
  assert (Hd : snd (export_product order fuel server product) = Done tt).
  { unfold export_product. rewrite bind_outcome, Hid. cbn [lift ret snd].
    rewrite bind_outcome.
    rewrite (proj2 (fetches_done (fst order) fuel server pid variants media metafields)
               (conj Hv (conj Hm Hmf))).
    rewrite bind_outcome.
    now rewrite (proj2 (variants_done (snd order) fuel server variants enriched) Hall). }
  split; [| exact Hd].
  destruct (export_product_done order fuel server product Hd)
    as (o & -> & pid' & variants' & media' & metafields' & enriched'
        & Hid' & Hv' & Hm' & Hmf' & Hall' & -> & _).
  assert (pid' = pid) by congruence. subst pid'.
  assert (variants' = variants) by congruence.
  assert (media' = media) by congruence.
  assert (metafields' = metafields) by congruence. subst.
  assert (enriched' = enriched).
  { pose proof (proj2 (variants_done [] fuel server _ _) Hall) as E.
    pose proof (proj2 (variants_done [] fuel server _ _) Hall') as E'.
    rewrite E in E'. now injection E'. }
  now subst.
Qed.

End ExporterRecords.

(** ** The eligibility filter and the prompt *)

Section Eligibility.
Import JS Generate.

Lemma mf_set_text (o : mfobj) (k : string) (v : value) :
  text_or_absent v = true -> plain o ->
  plain (mf_set o k v) /\
  forall k' : string,
    k' <> "__proto__" ->
    assoc k' (mf_own (mf_set o k v))
    = if String.eqb k' k then Some v else assoc k' (mf_own o).
Proof.
  intros Hv Hp. unfold mf_set.
  destruct (String.eqb_spec k "__proto__") as [-> | Hk]; cbn [andb].
  - destruct (reaches_proto_accessor o).
    + split.
      * destruct v as [[] |]; try discriminate Hv; cbn; auto.
      * intros k' Hk'.
        destruct (String.eqb_spec k' "__proto__"); [contradiction |].
        destruct v as [[] |]; try discriminate Hv; reflexivity.
    + split; [exact Hp |].
      intros k' Hk'. cbn [mf_own]. apply assoc_define.
  - split; [exact Hp |].
    intros k' Hk'. cbn [mf_own]. apply assoc_define.
Qed.

Lemma collect_metafields (ms : list json) :
  forallb is_metafield ms = true ->
  forall o : mfobj,
    plain o ->
    exists o' : mfobj,
      collect (map Some ms) o = Ok o' /\ plain o' /\
      forall k : string,
        k <> "__proto__" ->
        assoc k (mf_own o') = match last_with_key k ms with
                              | Some v => Some v
                              | None => assoc k (mf_own o)
                              end.
Proof.
  induction ms as [| m ms IH]; intros Hms o Hp.
  - exists o. repeat split; auto.
  - cbn [forallb] in Hms. apply andb_prop in Hms. destruct Hms as [Hm Hms].
    destruct m as [| | | | | e]; try discriminate Hm.
    cbn [is_metafield] in Hm.
    destruct (assoc "key" e) as [[| | | key | |] |] eqn:Hkey; try discriminate Hm.
    cbn [map collect]. unfold JS.bind at 1. cbn [get]. rewrite Hkey.
    cbn [JS.bind template to_string].
    destruct (mf_set_text o key (assoc "value" e) Hm Hp) as [Hp' Hown].
    destruct (IH Hms _ Hp') as (o' & Hc & Hp'' & Hlook).
    exists o'. split; [exact Hc |]. split; [exact Hp'' |].
    intros k Hk. rewrite (Hlook k Hk). cbn [last_with_key].
    destruct (last_with_key k ms); [reflexivity |].
    rewrite Hkey. rewrite (Hown k Hk). now destruct (String.eqb k key).
Qed.

Lemma metafields_object_record (p : json) :
  is_record p = true ->
  exists o : mfobj,
    metafields_object p = Ok o /\ plain o /\
    forall k : string,
      k <> "__proto__" ->
      assoc k (mf_own o) = last_with_key k (metafields_of p).
Proof.
  destruct p as [| | | | | fields]; try discriminate.
  cbn [is_record]. intros H. apply andb_prop in H. destruct H as [_ Hm].
  unfold metafields_object, metafields_of. cbn [get JS.bind].
  destruct (assoc "metafields" fields) as [[| | | | ms |] |]; try discriminate Hm;
    cbn [or_else truthy iterate JS.bind].
  - exists empty_object. repeat split; auto.
  - destruct (collect_metafields ms Hm empty_object I) as (o & Hc & Hp & Hl).
    exists o. repeat split; auto.
    intros k Hk. rewrite (Hl k Hk). cbn. now destruct (last_with_key k ms).
  - exists empty_object. repeat split; auto.
Qed.

Lemma trim_length_blank (s : string) :
  negb (0 <? String.length (trim s)) = blank s.
Proof. unfold blank. destruct (trim s); reflexivity. Qed.

Lemma trim_empty : trim "" = "".
Proof. reflexivity. Qed.

Lemma and_nonblank_text (v : value) :
  text_or_absent v = true ->
  exists r : value,
    and_nonblank v = Ok r /\ negb (truthy r) = blank (text_of v).
Proof.
  intros Hv. unfold and_nonblank.
  destruct v as [[| | | s | |] |]; try discriminate Hv; cbn [truthy].
  - exists (Some JNull). split; reflexivity.
  - destruct (String.eqb_spec s "") as [-> | Hs]; cbn [negb].
    + exists (Some (JStr "")). split; reflexivity.
    + eexists. split; [reflexivity |]. cbn [truthy text_of].
      apply trim_length_blank.
  - exists None. split; reflexivity.
Qed.

Lemma last_with_key_text (k : string) (ms : list json) (v : value) :
  forallb is_metafield ms = true -> last_with_key k ms = Some v ->
  text_or_absent v = true.
Proof.
  induction ms as [| m ms IH]; [discriminate |].
  cbn [forallb last_with_key]. intros H. apply andb_prop in H. destruct H as [Hm Hms].
  destruct (last_with_key k ms) as [v' |].
  - intros Hv. injection Hv as <-. now apply IH.
  - destruct m as [| | | | | e]; try discriminate.
    cbn [is_metafield] in Hm.
    destruct (assoc "key" e) as [[| | | key | |] |]; try discriminate.
    destruct (String.eqb k key); [| discriminate].
    intros Hv. now injection Hv as <-.
Qed.

Lemma metafields_of_record (p : json) :
  is_record p = true -> forallb is_metafield (metafields_of p) = true.
Proof.
  destruct p as [| | | | | fields]; try discriminate.
  cbn [is_record metafields_of]. intros H. apply andb_prop in H. destruct H as [_ Hm].
  destruct (assoc "metafields" fields) as [[| | | | ms |] |]; try reflexivity; assumption.
Qed.

Lemma needsGeneration_record (p : json) :
  is_record p = true ->
  needsGeneration false p
  = Ok (blank (description_text p) || blank (long_description_text p)).
Proof.
  intros Hr.
  destruct (metafields_object_record p Hr) as (o & Ho & Hp & Hl).
  unfold needsGeneration. rewrite Ho. cbn [JS.bind].
  pose proof (metafields_of_record p Hr) as Hms.
  destruct p as [| | | | | fields]; try discriminate Hr.
  cbn [get JS.bind].
  cbn [is_record] in Hr. apply andb_prop in Hr. destruct Hr as [Hd _].
  destruct (and_nonblank_text _ Hd) as (r & Hr & Hb). rewrite Hr. cbn [JS.bind].
  assert (Hlong : mf_longDescription o
                  = match last_with_key "longDescription" (metafields_of (JObj fields)) with
                    | Some v => v
                    | None => None
                    end).
  { unfold mf_longDescription. rewrite (Hl "longDescription") by discriminate.
    destruct (last_with_key "longDescription" (metafields_of (JObj fields))); [reflexivity |].
    unfold plain in Hp. now destruct (mf_proto o). }
  assert (Hlt : text_or_absent (mf_longDescription o) = true).
  { rewrite Hlong.
    destruct (last_with_key "longDescription" (metafields_of (JObj fields))) eqn:E;
      [| reflexivity].
    eapply last_with_key_text; eauto. }
  destruct (and_nonblank_text _ Hlt) as (r' & Hr' & Hb'). rewrite Hr'. cbn [JS.bind].
  rewrite Hb, Hb'. unfold description_text, long_description_text.
  rewrite Hlong.
  now destruct (last_with_key "longDescription" (metafields_of (JObj fields))).
Qed.

(** Claim C3.  For a record, [needsGeneration] selects it exactly when the
    override flag is set or one of its two texts, the description and the
    [longDescription] metafield, is empty after trimming.  The decision
    depends on the record and the flag alone: whatever the run has done
    before, the line of a record that has both texts is skipped without the
    flag and taken, unchanged, with it. *)
Theorem needsGeneration_decides_eligibility (overwrite : bool) (p : json) :
  is_record p = true ->
  needsGeneration overwrite p
  = Ok (overwrite || blank (description_text p) || blank (long_description_text p)) /\
  forall (st : state) (raw : string),
    trim raw <> "" -> JSON.parse (trim raw) = Some p ->
    needsGeneration false p = Ok false ->
    handle_line false raw st = skip st /\ handle_line true raw st = accept p st.
Proof.
  intros Hr. split.
  - destruct overwrite; [reflexivity |]. cbn [orb]. now apply needsGeneration_record.
  - intros st raw Hraw Hparse Hskip. unfold handle_line.
    destruct (String.eqb_spec (trim raw) ""); [contradiction |].
    rewrite Hparse, Hskip. split; reflexivity.
Qed.

End Eligibility.

Section Namespaces.
Import JS Generate.

Lemma collect_ext (ms ms' : list value) :
  Forall2 (fun a b => get a "key" = get b "key" /\ get a "value" = get b "value") ms ms' ->
  forall o : mfobj, collect ms o = collect ms' o.
Proof.
  induction 1 as [| a b ms ms' [Hk Hv] _ IH]; intros o; [reflexivity |].
  cbn [collect]. rewrite Hk, Hv.
  destruct (get b "key") as [k |]; cbn [JS.bind]; [| reflexivity].
  destruct (get b "value") as [v |]; cbn [JS.bind]; [| reflexivity].
  destruct (template k) as [key |]; cbn [JS.bind]; [| reflexivity].
  apply IH.
Qed.

Lemma set_namespace_same (ns m : json) :
  get (Some (set_namespace ns m)) "key" = get (Some m) "key" /\
  get (Some (set_namespace ns m)) "value" = get (Some m) "value".
Proof.
  destruct m; try (split; reflexivity).
  cbn [set_namespace get]. rewrite !assoc_define. split; reflexivity.
Qed.

Lemma renamed_same (nss ms : list json) :
  List.length nss = List.length ms ->
  Forall2 (fun a b => get a "key" = get b "key" /\ get a "value" = get b "value")
    (map Some (map (fun nm => set_namespace (fst nm) (snd nm)) (combine nss ms)))
    (map Some ms).
Proof.
  revert nss. induction ms as [| m ms IH]; intros [| ns nss] Hlen; try discriminate Hlen.
  - constructor.
  - cbn. constructor; [apply set_namespace_same |].
    apply IH. now injection Hlen.
Qed.

Lemma metafield_lines_remove (entries : list (string * value)) :
  metafield_lines (remove_key "longDescription" entries) = metafield_lines entries.
Proof.
  induction entries as [| [k v] entries IH]; [reflexivity |].
  cbn [remove_key metafield_lines].
  destruct (String.eqb_spec "longDescription" k) as [<- | Hne].
  - cbn. exact IH.
  - cbn [metafield_lines].
    destruct (String.eqb_spec k "longDescription"); [congruence |].
    now rewrite IH.
Qed.

End Namespaces.

(** ** The output of a batch *)

Section Pairing.
Import JS Generate.

Lemma get_not_null (v : json) (k : string) : v <> JNull -> get (Some v) k = Ok (prop v k).
Proof.
  intros Hv. unfold prop.
  destruct v; try contradiction; cbn [get]; try reflexivity.
  - destruct (String.eqb k "length"); [reflexivity |]. now destruct (array_index k).
  - destruct (String.eqb k "length"); [reflexivity |]. now destruct (array_index k).
Qed.

Lemma string_of_nat_not_length (i : nat) : String.eqb (string_of_nat i) "length" = false.
Proof.
  destruct (String.eqb_spec (string_of_nat i) "length") as [E |]; [| reflexivity].
  pose proof (string_of_N_digits (N.of_nat i)) as H.
  unfold string_of_nat in E. rewrite E in H. discriminate H.
Qed.

Lemma get_index (all : list json) (i : nat) :
  (N.of_nat i < 4294967295)%N ->
  get (Some (JArr all)) (string_of_nat i) = Ok (nth_error all i).
Proof.
  intros Hi. cbn [get]. rewrite string_of_nat_not_length.
  rewrite (array_index_string_of_nat i Hi). now rewrite Nat2N.id.
Qed.

Lemma skipn_nth_error {A : Type} (l : list A) (i : nat) :
  skipn i l = match nth_error l i with
              | Some x => x :: skipn (S i) l
              | None => []
              end.
Proof.
  revert i. induction l as [| y l IH]; intros [| i]; try reflexivity.
  cbn [skipn nth_error]. rewrite IH. now destruct (nth_error l i).
Qed.

Lemma output_line_paired (all : list json) (i : nat) (p d : json) :
  (N.of_nat i < 4294967295)%N -> p <> JNull -> d <> JNull ->
  nth_error all i = Some d ->
  output_line i p (Some (JArr all)) = Ok (line_for p d).
Proof.
  intros Hi Hp Hd Hn. unfold output_line.
  rewrite (get_index all i Hi), Hn. cbn [JS.bind].
  rewrite !(get_not_null p) by exact Hp. cbn [JS.bind].
  rewrite !(get_not_null d) by exact Hd. reflexivity.
Qed.

Lemma output_line_missing (all : list json) (i : nat) (p : json) :
  (N.of_nat i < 4294967295)%N -> p <> JNull ->
  nth_error all i = None ->
  output_line i p (Some (JArr all)) = Throw TypeError.
Proof.
  intros Hi Hp Hn. unfold output_line.
  rewrite (get_index all i Hi), Hn. cbn [JS.bind].
  rewrite !(get_not_null p) by exact Hp. reflexivity.
Qed.

Lemma emit_paired (all : list json) (ps : list json) :
  Forall (fun p => p <> JNull) ps -> Forall (fun d => d <> JNull) all ->
  forall i : nat,
    i <= List.length all ->
    (N.of_nat (i + List.length ps) < 4294967295)%N ->
    emit i ps (Some (JArr all))
    = (map (fun pd => line_for (fst pd) (snd pd)) (combine ps (skipn i all)),
       if i + List.length ps <=? List.length all then None else Some TypeError).
Proof.
  intros Hps Hall. induction Hps as [| p ps Hp Hps IH]; intros i Hle Hi.
  - cbn [emit combine map List.length].
    destruct (Nat.leb_spec (i + 0) (List.length all)); [reflexivity | lia].
  - cbn [emit List.length] in *.
    rewrite (skipn_nth_error all i).
    destruct (nth_error all i) as [d |] eqn:Hn.
    + assert (Hd : d <> JNull).
      { rewrite Forall_forall in Hall. apply Hall. eapply nth_error_In; eauto. }
      rewrite (output_line_paired all i p d) by (auto; lia).
      assert (Hlt : i < List.length all) by (apply nth_error_Some; congruence).
      rewrite IH by lia. cbn [combine map fst snd].
      replace (S i + List.length ps) with (i + S (List.length ps)) by lia.
      reflexivity.
    + rewrite (output_line_missing all i p) by (auto; lia).
      cbn [combine map].
      apply nth_error_None in Hn.
      destruct (Nat.leb_spec (i + S (List.length ps)) (List.length all)); [lia | reflexivity].
Qed.
End Pairing.

Section Schema.
Import JS Generate.

Lemma assoc_In {A : Type} (k : string) (m : list (string * A)) (v : A) :
  assoc k m = Some v -> In (k, v) m.
Proof.
  induction m as [| [k' v'] m IH]; cbn; [discriminate |].
  destruct (String.eqb_spec k k') as [-> | _].
  - intros H. injection H as ->. now left.
  - intros H. right. now apply IH.
Qed.

Lemma conforms_outputSchema (n : nat) (out : value) :
  conforms (outputSchema n) out = true ->
  exists (m : list (string * json)) (ds : list json),
    out = Some (JObj m) /\
    assoc "products" m = Some (JArr ds) /\
    List.length ds = n /\
    Forall (fun d => exists (a b : string),
                       prop d "description" = Some (JStr a) /\
                       prop d "longDescription" = Some (JStr b)) ds.
Proof.
  unfold conforms, outputSchema. destruct out as [j |]; [| discriminate].
  destruct j as [| | | | | m]; try discriminate.
  intros H. cbn in H.
  apply andb_prop in H. destruct H as [Hreq Hall].
  rewrite andb_true_r in Hreq. unfold has_key in Hreq.
  destruct (assoc "products" m) as [x |] eqn:Hx; [| discriminate].
  rewrite forallb_forall in Hall.
  pose proof (Hall _ (assoc_In _ _ _ Hx)) as Hp. cbn -[Z.leb Z.of_nat] in Hp.
  destruct x as [| | | | ds |]; try discriminate Hp.
  cbn -[Z.leb Z.of_nat] in Hp.
  apply andb_prop in Hp. destruct Hp as [Hb Hitems].
  apply andb_prop in Hb. destruct Hb as [Hmin Hmax].
  exists m, ds. split; [reflexivity |]. split; [exact Hx |]. split.
  - apply Z.leb_le in Hmin, Hmax. lia.
  - rewrite forallb_forall in Hitems. apply Forall_forall. intros d Hd.
    specialize (Hitems d Hd).
    destruct d as [| | | | | e]; try discriminate Hitems.
    cbn in Hitems.
    apply andb_prop in Hitems. destruct Hitems as [Hr He].
    unfold has_key in Hr.
    destruct (assoc "description" e) as [a |] eqn:Ha; [| discriminate].
    destruct (assoc "longDescription" e) as [b |] eqn:Hb; [| discriminate].
    rewrite forallb_forall in He.
    pose proof (He _ (assoc_In _ _ _ Ha)) as H1.
    pose proof (He _ (assoc_In _ _ _ Hb)) as H2.
    cbn in H1, H2.
    destruct a; try discriminate H1. destruct b; try discriminate H2.
    unfold prop. cbn [get]. rewrite Ha, Hb. eauto.
Qed.

End Schema.

Section BatchOutput.
Import JS Generate.

Lemma stdout_trace_app (t : list event) (lines : list json) (rest : list event) :
  flat_map (fun ev => match ev with Stdout o => [o] | _ => [] end) (t ++ map Stdout lines ++ rest)
  = flat_map (fun ev => match ev with Stdout o => [o] | _ => [] end) t ++ lines
    ++ flat_map (fun ev => match ev with Stdout o => [o] | _ => [] end) rest.
Proof.
  rewrite !flat_map_app. f_equal. f_equal.
  induction lines as [| l lines IH]; [reflexivity |]. cbn. now rewrite IH.
Qed.

Lemma reports_trace_app (t : list event) (lines : list json) (l : log_line) :
  flat_map (fun ev => match ev with
                      | Failure e => [e]
                      | Unhandled e => [e]
                      | _ => []
                      end) (t ++ map Stdout lines ++ [Log l])
  = flat_map (fun ev => match ev with
                        | Failure e => [e]
                        | Unhandled e => [e]
                        | _ => []
                        end) t.
Proof.
  rewrite !flat_map_app. cbn. rewrite !List.app_nil_r.
  rewrite <- (List.app_nil_r (flat_map _ t)) at 2. f_equal.
  induction lines as [| o lines IH]; [reflexivity |]. exact IH.
Qed.

Lemma forallb_permutation {A : Type} (f : A -> bool) (l l' : list A) :
  Permutation l l' -> forallb f l = forallb f l'.
Proof.
  induction 1 as [| x l l' _ IH | x y l | l l' l'' _ IH _ IH']; cbn [forallb].
  - reflexivity.
  - now rewrite IH.
  - now rewrite !andb_assoc, (andb_comm (f y) (f x)).
  - now rewrite IH.
Qed.

Lemma conforms_permutation (n : nat) (ds ds' : list json) :
  Permutation ds ds' ->
  conforms (outputSchema n) (Some (JObj [("products", JArr ds)]))
  = conforms (outputSchema n) (Some (JObj [("products", JArr ds')])).
Proof.
  intros Hperm. unfold conforms, outputSchema. cbn -[Z.leb Z.of_nat].
  rewrite (Permutation_length Hperm). f_equal. f_equal.
  now apply forallb_permutation.
Qed.

Lemma conforms_products (n : nat) (out : value) (m : list (string * json)) (ds : list json) :
  conforms (outputSchema n) out = true ->
  out = Some (JObj m) -> assoc "products" m = Some (JArr ds) ->
  conforms (outputSchema n) (Some (JObj [("products", JArr ds)])) = true.
Proof.
  intros Hc -> Hm. unfold conforms, outputSchema in *. cbn -[Z.leb Z.of_nat] in *.
  apply andb_prop in Hc. destruct Hc as [_ Hall].
  rewrite forallb_forall in Hall.
  pose proof (Hall _ (assoc_In _ _ _ Hm)) as Hp. cbn -[Z.leb Z.of_nat] in Hp.
  rewrite andb_true_r. exact Hp.
Qed.

Lemma processBatch_conforming (ps ds : list json) (k : nat) (msgs : list message)
  (r : result_message) (m : list (string * json)) (st : state) :
  Forall (fun p => p <> JNull) ps ->
  (N.of_nat (List.length ps) < 4294967295)%N ->
  consume msgs None = Ok (Some r) ->
  structured_output r = Some (JObj m) -> assoc "products" m = Some (JArr ds) ->
  List.length ds = List.length ps ->
  Forall (fun d => d <> JNull) ds ->
  let st' := processBatch k ps msgs st in
  generateBatch msgs = Ok (Some (JArr ds), usage_of r) /\
  trace st' = trace st
              ++ map Stdout (map (fun pd => line_for (fst pd) (snd pd)) (combine ps ds))
              ++ [Log (LogGenerated (completed st + List.length ps) (total st))] /\
  completed st' = completed st + List.length ps /\
  pending st' = set_nth k (Fulfilled ps) (pending st).
Proof.
  intros Hps Hn Hcons Hout Hm Hlen Hds st'.
  assert (Hgen : generateBatch msgs = Ok (Some (JArr ds), usage_of r)).
  { unfold generateBatch. rewrite Hcons. cbn [JS.bind]. rewrite Hout. cbn [get JS.bind].
    now rewrite Hm. }
  split; [exact Hgen |].
  assert (Hemit : emit 0 ps (Some (JArr ds))
                  = (map (fun pd => line_for (fst pd) (snd pd)) (combine ps ds), None)).
  { rewrite (emit_paired ds ps Hps Hds 0) by (cbn; lia). cbn [skipn Nat.add].
    rewrite Hlen. now rewrite Nat.leb_refl. }
  unfold st', processBatch. rewrite Hgen, Hemit. cbn.
  rewrite <- List.app_assoc. repeat split.
Qed.

(** Claim C2, as the code has it.  The call of a batch of [N] records asks
    for a schema with [minItems = maxItems = N]; when the structured output
    of the call conforms to it, it holds exactly [N] entries, each with a
    text [description] and a text [longDescription], and [processBatch]
    attaches entry [i] to record [i]: it prints [N] lines, line [i] made of
    the id, handle and title of record [i] and of the pair of entry [i],
    reports nothing and fulfils the batch.  The pairing is by position
    alone: the same entries in any other order conform to the schema as
    well, and are attached, in the order in which they come, to the records
    in theirs, without a report. *)
Theorem batch_output_is_paired_by_position
  (ps : list json) (k : nat) (msgs : list message) (r : result_message) (st : state) :
  Forall (fun p => p <> JNull) ps ->
  (N.of_nat (List.length ps) < 4294967295)%N ->
  consume msgs None = Ok (Some r) ->
  conforms (outputSchema (List.length ps)) (structured_output r) = true ->
  let paired (ds : list json) : list json :=
    map (fun pd => line_for (fst pd) (snd pd)) (combine ps ds) in
  let attached (ds : list json) (st' : state) : Prop :=
    stdout st' = stdout st ++ paired ds /\
    List.length (paired ds) = List.length ps /\
    (forall (i : nat) (p d : json),
       nth_error ps i = Some p -> nth_error ds i = Some d ->
       nth_error (paired ds) i = Some (line_for p d)) /\
    reports st' = reports st /\
    completed st' = completed st + List.length ps /\
    pending st' = set_nth k (Fulfilled ps) (pending st) in
  exists ds : list json,
    generateBatch msgs = Ok (Some (JArr ds), usage_of r) /\
    List.length ds = List.length ps /\
    Forall (fun d => exists a b : string,
                       prop d "description" = Some (JStr a) /\
                       prop d "longDescription" = Some (JStr b)) ds /\
    attached ds (processBatch k ps msgs st) /\
    forall (ds' : list json) (msgs' : list message) (r' : result_message),
      Permutation ds ds' ->
      consume msgs' None = Ok (Some r') ->
      structured_output r' = Some (JObj [("products", JArr ds')]) ->
      conforms (outputSchema (List.length ps)) (structured_output r') = true /\
      attached ds' (processBatch k ps msgs' st).
Proof.
  intros Hps Hn Hcons Hconf paired attached.
  destruct (conforms_outputSchema _ _ Hconf) as (m & ds & Hout & Hm & Hlen & Htexts).
  assert (Hnot_null : forall l : list json,
            Forall (fun d => exists a b : string,
                               prop d "description" = Some (JStr a) /\
                               prop d "longDescription" = Some (JStr b)) l ->
            Forall (fun d => d <> JNull) l).
  { intros l Hl. eapply Forall_impl; [| exact Hl].
    intros d (a & b & Ha & _) ->. discriminate Ha. }
  assert (Hattached : forall (l : list json) (msgs0 : list message) (r0 : result_message)
                             (m0 : list (string * json)),
            consume msgs0 None = Ok (Some r0) ->
            structured_output r0 = Some (JObj m0) -> assoc "products" m0 = Some (JArr l) ->
            List.length l = List.length ps -> Forall (fun d => d <> JNull) l ->
            attached l (processBatch k ps msgs0 st)).
  { intros l msgs0 r0 m0 H0 H1 H2 H3 H4.
    destruct (processBatch_conforming ps l k msgs0 r0 m0 st Hps Hn H0 H1 H2 H3 H4)
      as (_ & Htrace & Hdone & Hpending).
    unfold attached, paired. repeat split.
    - unfold stdout. rewrite Htrace, stdout_trace_app. cbn. now rewrite List.app_nil_r.
    - rewrite length_map, length_combine. lia.
    - intros i p d Hp Hd. apply map_nth_error with (f := fun pd => line_for (fst pd) (snd pd)) (d := (p, d)).
      clear - Hp Hd. revert ps l Hp Hd.
      induction i as [| i IH]; intros [| p' ps] [| d' l] Hp Hd; try discriminate.
      + cbn in *. congruence.
      + cbn in *. now apply IH.
    - unfold reports. rewrite Htrace. apply reports_trace_app.
    - exact Hdone.
    - exact Hpending. }
  exists ds. split; [| split; [exact Hlen | split; [exact Htexts | split]]].
  - now destruct (processBatch_conforming ps ds k msgs r m st Hps Hn Hcons Hout Hm Hlen
                    (Hnot_null _ Htexts)).
  - exact (Hattached ds msgs r m Hcons Hout Hm Hlen (Hnot_null _ Htexts)).
  - intros ds' msgs' r' Hperm Hcons' Hout'.
    assert (Hconf' : conforms (outputSchema (List.length ps)) (structured_output r') = true).
    { rewrite Hout', <- (conforms_permutation _ ds ds' Hperm).
      exact (conforms_products _ _ m ds Hconf Hout Hm). }
    split; [exact Hconf' |].
    destruct (conforms_outputSchema _ _ Hconf') as (m' & l & Hout'' & Hm' & Hlen' & Htexts').
    rewrite Hout' in Hout''. injection Hout'' as <-. cbn in Hm'. injection Hm' as <-.
    exact (Hattached ds' msgs' r' _ Hcons' Hout' eq_refl Hlen' (Hnot_null _ Htexts')).
Qed.

(** A batch of two records whose call returns, in a conforming output, the
    texts of the second record first: the run attaches them by position,
    the bottle getting the texts of the mug, reports nothing and ends
    with 0. *)
Lemma permuted_output_is_accepted :
  exists st : state,
    conforms (outputSchema 2)
      (Some (JObj [("products", JArr [Samples.for_mug; Samples.for_bottle])])) = true /\
    run false true
      [Chunk (Samples.line Samples.undescribed ++ Samples.line Samples.mug); Eof;
       Complete 0 (Samples.succeeds [Samples.for_mug; Samples.for_bottle])]
    = Some st /\
    map products_of (pending st) = [[Samples.undescribed; Samples.mug]] /\
    stage st = Exited 0 /\ reports st = [] /\
    stdout st = [line_for Samples.undescribed Samples.for_mug;
                 line_for Samples.mug Samples.for_bottle].
Proof.
  eexists. split; [reflexivity |]. split; [vm_compute; reflexivity |].
  vm_compute. repeat split.
Qed.

End BatchOutput.

(** ** The run of the generator *)

Section Lines.
Import JS Generate.

Lemma string_app_assoc (a b c : string) : ((a ++ b) ++ c = a ++ (b ++ c))%string.
Proof. induction a as [| x a IH]; cbn; [reflexivity | now rewrite IH]. Qed.

Lemma string_app_nil_r (a : string) : (a ++ "" = a)%string.
Proof. induction a as [| x a IH]; cbn; [reflexivity | now rewrite IH]. Qed.

Lemma string_length_app (a b : string) :
  String.length (a ++ b)%string = String.length a + String.length b.
Proof. induction a as [| x a IH]; cbn; [reflexivity | now rewrite IH]. Qed.

Lemma split_lines_none (s : string) :
  index_of_newline s = None -> split_lines s = ([], s).
Proof.
  induction s as [| c s IH]; [reflexivity |].
  cbn [index_of_newline split_lines].
  destruct (Ascii.eqb c newline); [discriminate |].
  destruct (index_of_newline s); [discriminate |].
  intros _. now rewrite IH.
Qed.

Lemma split_lines_some (s : string) (n : nat) :
  index_of_newline s = Some n ->
  split_lines s = (slice_to n s :: fst (split_lines (slice_from (S n) s)),
                   snd (split_lines (slice_from (S n) s))) /\
  String.length (slice_from (S n) s) < String.length s.
Proof.
  revert n. induction s as [| c s IH]; intros n; [discriminate |].
  cbn [index_of_newline split_lines].
  destruct (Ascii.eqb c newline).
  - intros H. injection H as <-. cbn [slice_to slice_from String.length].
    destruct (split_lines s). split; [reflexivity | lia].
  - destruct (index_of_newline s) as [m |]; [| discriminate].
    intros H. injection H as <-.
    destruct (IH m eq_refl) as [IH1 IH2]. rewrite IH1.
    cbn [slice_to slice_from String.length]. split; [reflexivity |].
    cbn [slice_from] in IH2. lia.
Qed.

Lemma split_lines_rest (s : string) : index_of_newline (snd (split_lines s)) = None.
Proof.
  induction s as [| c s IH]; [reflexivity |].
  cbn [split_lines]. destruct (split_lines s) as [ls rest].
  destruct (Ascii.eqb c newline) eqn:E; [exact IH |].
  destruct ls; [| exact IH].
  cbn [snd index_of_newline] in *. rewrite E, IH. reflexivity.
Qed.

Lemma split_lines_app (a b : string) :
  split_lines (a ++ b)%string
  = (fst (split_lines a) ++ fst (split_lines (snd (split_lines a) ++ b)%string),
     snd (split_lines (snd (split_lines a) ++ b)%string)).
Proof.
  induction a as [| c a IH].
  - cbn. now destruct (split_lines b).
  - cbn [String.append split_lines]. rewrite IH.
    destruct (split_lines a) as [la ra]. cbn [fst snd].
    destruct (Ascii.eqb c newline) eqn:E.
    + reflexivity.
    + destruct la as [| l la'].
      * cbn [app fst snd String.append split_lines]. rewrite E.
        now destruct (split_lines (ra ++ b)%string) as [[| l' lb] rb].
      * reflexivity.
Qed.

Lemma index_of_newline_app (a b : string) :
  index_of_newline (a ++ b)%string = None <->
  index_of_newline a = None /\ index_of_newline b = None.
Proof.
  induction a as [| c a IH]; cbn [String.append index_of_newline].
  - tauto.
  - destruct (Ascii.eqb c newline).
    + split; [discriminate | intros [H _]; discriminate].
    + destruct (index_of_newline (a ++ b)%string), (index_of_newline a); cbn;
        split; try discriminate; try tauto; intros; try (destruct IH; intuition congruence).
Qed.

Lemma records_on_app (l l' : list string) :
  records_on (l ++ l') = records_on l ++ records_on l'.
Proof.
  induction l as [| raw l IH]; [reflexivity |].
  cbn [app records_on].
  destruct (String.eqb (trim raw) ""); [exact IH |].
  destruct (JSON.parse (trim raw)); [cbn; now rewrite IH | exact IH].
Qed.

End Lines.

Section Reading.
Import JS Generate.
Variable overwrite : bool.

Lemma dispatch_set_buffer (b : string) (st : state) :
  dispatch (set_buffer b st) = set_buffer b (dispatch st).
Proof. unfold dispatch. cbn. now destruct (build_prompt (batch st)). Qed.

Lemma accept_set_buffer (b : string) (p : json) (st : state) :
  accept p (set_buffer b st) = set_buffer b (accept p st).
Proof.
  unfold accept. cbn [batch set_buffer].
  destruct (BATCH_SIZE <=? _); [| reflexivity].
  now rewrite <- dispatch_set_buffer.
Qed.

Lemma handle_line_set_buffer (b raw : string) (st : state) :
  handle_line overwrite raw (set_buffer b st)
  = set_buffer b (handle_line overwrite raw st).
Proof.
  unfold handle_line.
  destruct (String.eqb (trim raw) ""); [reflexivity |].
  destruct (JSON.parse (trim raw)) as [p |]; [| reflexivity].
  destruct (needsGeneration overwrite p) as [[|] | e]; try reflexivity.
  apply accept_set_buffer.
Qed.

Lemma feed_set_buffer (b : string) (lines : list string) :
  forall st : state,
    feed overwrite lines (set_buffer b st) = set_buffer b (feed overwrite lines st).
Proof.
  induction lines as [| raw lines IH]; intros st; [reflexivity |].
  cbn [feed]. cbn [stage set_buffer].
  destruct (stage st); try reflexivity;
    now rewrite handle_line_set_buffer, IH.
Qed.

Lemma forget_set_buffer (b : string) (st : state) : forget (set_buffer b st) = forget st.
Proof. reflexivity. Qed.

Lemma feed_exited (lines : list string) (st : state) (code : nat) :
  stage st = Exited code -> feed overwrite lines st = st.
Proof. intros H. destruct lines; cbn [feed]; [reflexivity | now rewrite H]. Qed.

Lemma drain_feed (fuel : nat) :
  forall st : state,
    String.length (buffer st) < fuel ->
    forget (drain overwrite fuel st)
    = forget (feed overwrite (fst (split_lines (buffer st))) st) /\
    ((forall code, stage (drain overwrite fuel st) <> Exited code) ->
     buffer (drain overwrite fuel st) = snd (split_lines (buffer st))).
Proof.
  induction fuel as [| fuel IH]; intros st Hlen; [lia |].
  cbn [drain].
  destruct (stage st) eqn:Hst.
  3: { split.
       - now rewrite (feed_exited _ st code Hst).
       - intros H. exfalso. now apply (H code). }
  all: destruct (index_of_newline (buffer st)) as [n |] eqn:Hn.
  all: try (rewrite (split_lines_none _ Hn); cbn [fst snd feed]; split; reflexivity).
  all: destruct (split_lines_some _ _ Hn) as [Hsplit Hshort];
    rewrite Hsplit; cbn [fst snd feed]; rewrite Hst;
    rewrite handle_line_set_buffer;
    set (st2 := handle_line overwrite (slice_to n (buffer st)) st);
    set (rest := slice_from (S n) (buffer st)) in *;
    destruct (IH (set_buffer rest st2)) as [IH1 IH2]; [cbn [buffer set_buffer]; lia |];
    cbn [buffer set_buffer] in IH1, IH2;
    (split; [rewrite IH1, feed_set_buffer; reflexivity | exact IH2]).
Qed.

End Reading.

Section Batching.
Import JS Generate.
Variables overwrite crash : bool.

Lemma batches_dispatch (st : state) :
  batches (dispatch st) = batches st ++ [batch st] /\ batch (dispatch st) = [] /\
  total (dispatch st) = total st /\ skipped (dispatch st) = skipped st /\
  stage (dispatch st) = stage st /\ buffer (dispatch st) = buffer st.
Proof.
  unfold dispatch, batches. destruct (build_prompt (batch st)); cbn;
    rewrite map_app; repeat split; reflexivity.
Qed.

Lemma filter_snoc {A : Type} (f : A -> bool) (l : list A) (x : A) :
  filter f (l ++ [x]) = filter f l ++ (if f x then [x] else []).
Proof. rewrite filter_app. reflexivity. Qed.

Lemma handle_line_batched (raw : string) (rs : list json) (st : state) :
  batched overwrite rs st -> stage st = Reading ->
  stage (handle_line overwrite raw st) = Reading ->
  batched overwrite (rs ++ records_on [raw]) (handle_line overwrite raw st).
Proof.
  intros [Hrec Hfull Hroom Htot Hskip] Hst. unfold handle_line. cbn [records_on].
  pose proof (eq_refl : BATCH_SIZE = 20) as HB.
  destruct (String.eqb (trim raw) "").
  { intros _. rewrite List.app_nil_r. now constructor. }
  destruct (JSON.parse (trim raw)) as [p |]; [| discriminate].
  destruct (needsGeneration overwrite p) as [[|] | e] eqn:Hneed; [| | discriminate].
  - (* accepted *)
    assert (Hel : eligible overwrite p = true) by (unfold eligible; now rewrite Hneed).
    intros _. unfold accept. cbn [batch total skipped].
    destruct (Nat.leb_spec BATCH_SIZE (List.length (batch st ++ [p]))) as [Hge | Hlt].
    + match goal with |- batched _ _ (dispatch ?s) => 
        destruct (batches_dispatch s) as (Hb & Hbatch & Ht & Hs & _) end.
      unfold batches in Hb.
      cbn [pending emit_events batch total skipped] in Hb, Hbatch, Ht, Hs.
      fold (batches st) in Hb.
      rewrite length_app in Hge. cbn [List.length] in Hge.
      constructor.
      * rewrite Hbatch. unfold batches at 1. rewrite Hb, List.app_nil_r, concat_app.
        cbn [concat].
        rewrite List.app_nil_r, List.app_assoc.
        rewrite Hrec, filter_snoc. now rewrite Hel.
      * unfold batches at 1. rewrite Hb. apply Forall_app. split; [exact Hfull |].
        constructor; [| constructor]. rewrite length_app. cbn [List.length]. lia.
      * rewrite Hbatch. cbn [List.length]. lia.
      * rewrite Ht, filter_snoc, Hel, length_app. cbn [List.length]. lia.
      * rewrite Hs, Ht, length_app. cbn [List.length]. lia.
    + constructor; unfold batches; cbn [pending batch total skipped];
        fold (batches st).
      * rewrite List.app_assoc, Hrec, filter_snoc. now rewrite Hel.
      * exact Hfull.
      * exact Hlt.
      * rewrite filter_snoc, Hel, length_app. cbn [List.length]. lia.
      * rewrite length_app. cbn [List.length]. lia.
  - (* skipped *)
    assert (Hel : eligible overwrite p = false) by (unfold eligible; now rewrite Hneed).
    intros _. constructor; unfold batches; cbn [skip pending batch total skipped];
      fold (batches st).
    + rewrite Hrec, filter_snoc, Hel. now rewrite List.app_nil_r.
    + exact Hfull.
    + exact Hroom.
    + rewrite filter_snoc, Hel, List.app_nil_r. exact Htot.
    + rewrite length_app. cbn [List.length]. lia.
Qed.

Lemma handle_line_stage (raw : string) (st : state) :
  stage st = Reading ->
  stage (handle_line overwrite raw st) = Reading \/
  stage (handle_line overwrite raw st) = Exited 1.
Proof.
  intros Hst. unfold handle_line.
  destruct (String.eqb (trim raw) ""); [now left |].
  destruct (JSON.parse (trim raw)) as [p |]; [| now right].
  destruct (needsGeneration overwrite p) as [[|] | e]; [| now left | now right].
  left. unfold accept. cbn [batch].
  destruct (BATCH_SIZE <=? _); [| exact Hst].
  match goal with |- stage (dispatch ?s) = _ =>
    destruct (batches_dispatch s) as (_ & _ & _ & _ & H & _); rewrite H end.
  exact Hst.
Qed.

Lemma feed_batched (lines : list string) :
  forall (rs : list json) (st : state),
    batched overwrite rs st -> stage st = Reading ->
    stage (feed overwrite lines st) = Reading ->
    batched overwrite (rs ++ records_on lines) (feed overwrite lines st).
Proof.
  induction lines as [| raw lines IH]; intros rs st Hb Hst Hend.
  - cbn. now rewrite List.app_nil_r.
  - cbn [feed] in *. rewrite Hst in *.
    destruct (handle_line_stage raw st Hst) as [Hr | Hx].
    + replace (raw :: lines) with ([raw] ++ lines) by reflexivity.
      rewrite records_on_app, List.app_assoc.
      apply IH; auto. now apply handle_line_batched.
    + rewrite (feed_exited overwrite lines _ 1 Hx) in Hend. congruence.
Qed.

End Batching.

Section Steps.
Import JS Generate.
Variables overwrite crash : bool.

Lemma input_text_cons (a : action) (rest : list action) :
  input_text (a :: rest) = (chunk_text a ++ input_text rest)%string.
Proof. destruct a; reflexivity. Qed.

(** *** What [settle] and [processBatch] leave alone *)

Lemma settle_fields (st : state) :
  buffer (settle crash st) = buffer st /\ batch (settle crash st) = batch st /\
  total (settle crash st) = total st /\ skipped (settle crash st) = skipped st /\
  completed (settle crash st) = completed st /\ pending (settle crash st) = pending st /\
  stdout (settle crash st) = stdout st.
Proof.
  unfold settle, stdout.
  destruct (stage st); try destruct crash; try destruct (first_rejected (pending st));
    try destruct (forallb is_fulfilled (pending st)); cbn;
    rewrite ?flat_map_app; cbn; rewrite ?List.app_nil_r; repeat split; reflexivity.
Qed.

Lemma settle_reading (st : state) :
  stage (settle crash st) = Reading -> settle crash st = st.
Proof.
  unfold settle.
  destruct (stage st) eqn:Hst; try destruct crash; try destruct (first_rejected (pending st));
    try destruct (forallb is_fulfilled (pending st)); cbn; congruence.
Qed.

Lemma settle_stage (st : state) :
  stage (settle crash st) = stage st \/ exists code, stage (settle crash st) = Exited code.
Proof.
  unfold settle.
  destruct (stage st) eqn:Hst; try destruct crash; try destruct (first_rejected (pending st));
    try destruct (forallb is_fulfilled (pending st)); cbn; eauto.
Qed.

Lemma map_set_nth {A B : Type} (f : A -> B) (l : list A) (k : nat) (x y : A) :
  nth_error l k = Some x -> f y = f x -> map f (set_nth k y l) = map f l.
Proof.
  revert k. induction l as [| z l IH]; intros [| k]; cbn; try discriminate.
  - intros H E. injection H as ->. now rewrite E.
  - intros H E. now rewrite (IH k H E).
Qed.

Lemma processBatch_fields (k : nat) (ps : list json) (msgs : list message) (st : state) :
  nth_error (pending st) k = Some (Inflight ps) ->
  let st' := processBatch k ps msgs st in
  buffer st' = buffer st /\ batch st' = batch st /\ total st' = total st /\
  skipped st' = skipped st /\ stage st' = stage st /\ batches st' = batches st.
Proof.
  intros Hk. unfold processBatch, batches.
  destruct (generateBatch msgs) as [[ds tokens] | e].
  - destruct (emit 0 ps ds) as [lines [e |]]; cbn;
      rewrite (map_set_nth products_of _ k (Inflight ps)) by auto; repeat split; reflexivity.
  - cbn. rewrite (map_set_nth products_of _ k (Inflight ps)) by auto.
    repeat split; reflexivity.
Qed.

Lemma batched_fields (rs : list json) (st st' : state) :
  batches st' = batches st -> batch st' = batch st -> total st' = total st ->
  skipped st' = skipped st ->
  batched overwrite rs st -> batched overwrite rs st'.
Proof.
  intros Hb Hc Ht Hs [H1 H2 H3 H4 H5].
  constructor; rewrite ?Hb, ?Hc, ?Ht, ?Hs; assumption.
Qed.

Lemma flushed_fields (rs : list json) (st st' : state) :
  batches st' = batches st -> total st' = total st -> skipped st' = skipped st ->
  stage st' <> Reading ->
  flushed overwrite rs st -> flushed overwrite rs st'.
Proof.
  intros Hb Ht Hs Hst [H1 H2 H3 H4 H5].
  constructor; rewrite ?Hb, ?Ht, ?Hs; assumption.
Qed.

Lemma forget_fields (a b : state) :
  forget a = forget b ->
  batch a = batch b /\ total a = total b /\ skipped a = skipped b /\
  pending a = pending b /\ stage a = stage b /\ trace a = trace b /\
  completed a = completed b.
Proof. unfold forget, set_buffer. intros H. injection H. intros. repeat split; assumption. Qed.

Lemma feed_stage (lines : list string) :
  forall st : state,
    stage st = Reading ->
    stage (feed overwrite lines st) = Reading \/ stage (feed overwrite lines st) = Exited 1.
Proof.
  induction lines as [| raw lines IH]; intros st Hst.
  - left. exact Hst.
  - cbn [feed]. rewrite Hst.
    destruct (handle_line_stage overwrite raw st Hst) as [H | H].
    + now apply IH.
    + right. now rewrite (feed_exited overwrite lines _ 1 H).
Qed.

Lemma step_chunk (c : string) (st st' : state) :
  stage st = Reading ->
  step overwrite crash (Chunk c) st = Some st' ->
  st' = settle crash (drain overwrite (S (String.length (buffer st ++ c)%string))
                        (set_buffer (buffer st ++ c)%string st)).
Proof.
  intros Hst Hstep. unfold step in Hstep. rewrite Hst in Hstep. cbn zeta in Hstep.
  destruct (lines_covered (buffer (set_buffer (buffer st ++ c)%string st)));
    [| discriminate].
  injection Hstep as <-. reflexivity.
Qed.

Lemma step_chunk_covered (c : string) (st st' : state) :
  stage st = Reading ->
  step overwrite crash (Chunk c) st = Some st' ->
  lines_covered (buffer st ++ c)%string = true.
Proof.
  intros Hst Hstep. unfold step in Hstep. rewrite Hst in Hstep. cbn zeta in Hstep.
  cbn [buffer set_buffer] in Hstep.
  destruct (lines_covered (buffer st ++ c)%string); [reflexivity | discriminate].
Qed.

Lemma step_chunk_some (c : string) (st : state) :
  stage st = Reading ->
  lines_covered (buffer st ++ c)%string = true ->
  step overwrite crash (Chunk c) st
  = Some (settle crash (drain overwrite (S (String.length (buffer st ++ c)%string))
                          (set_buffer (buffer st ++ c)%string st))).
Proof.
  intros Hst Hc. unfold step. rewrite Hst. cbn zeta. cbn [buffer set_buffer].
  now rewrite Hc.
Qed.

Lemma chunk_reading (text c : string) (st st' : state) :
  stage st = Reading -> reading_inv overwrite text st ->
  step overwrite crash (Chunk c) st = Some st' ->
  (stage st' = Reading -> reading_inv overwrite (text ++ c)%string st') /\
  (stage st' = Reading \/ exists code, stage st' = Exited code).
Proof.
  intros Hst [Hbuf Hb] Hstep. rewrite (step_chunk c st st' Hst Hstep). clear Hstep.
  set (st0 := set_buffer (buffer st ++ c)%string st).
  set (d := drain overwrite (S (String.length (buffer st ++ c)%string)) st0).
  destruct (drain_feed overwrite (S (String.length (buffer st ++ c)%string)) st0)
    as [Hforget Hrest]; [cbn; lia |].
  fold d in Hforget, Hrest. cbn [buffer set_buffer st0] in Hforget, Hrest.
  unfold st0 in Hforget. rewrite feed_set_buffer, forget_set_buffer in Hforget.
  destruct (forget_fields _ _ Hforget) as (F1 & F2 & F3 & F4 & F5 & _).
  split.
  - intros Hr. pose proof (settle_reading _ Hr) as Hsame.
    rewrite Hsame in Hr |- *.
    assert (Hbufd : buffer d = snd (split_lines (buffer st ++ c)%string)).
    { apply Hrest. intros code. rewrite Hr. discriminate. }
    split.
    + rewrite split_lines_app, <- Hbuf. exact Hbufd.
    + unfold records_of. rewrite split_lines_app, <- Hbuf. cbn [fst].
      rewrite records_on_app.
      apply (batched_fields _ (feed overwrite (fst (split_lines (buffer st ++ c)%string)) st)).
      * unfold batches. now rewrite F4.
      * exact F1.
      * exact F2.
      * exact F3.
      * apply feed_batched; auto. congruence.
  - destruct (settle_stage d) as [E | E]; [| now right].
    rewrite E, F5.
    destruct (feed_stage (fst (split_lines (buffer st ++ c)%string)) st Hst) as [H | H];
      [now left | right; now exists 1].
Qed.

End Steps.

Section Runs.
Import JS Generate.
Variables overwrite crash : bool.

Lemma step_eof (st st' : state) :
  stage st = Reading ->
  step overwrite crash Eof st = Some st' ->
  st' = settle crash
          (set_stage Joining
             (emit_events
                [Log (LogToGenerate
                        (total match batch st with [] => st | _ :: _ => dispatch st end)
                        (skipped match batch st with [] => st | _ :: _ => dispatch st end))]
                match batch st with [] => st | _ :: _ => dispatch st end)).
Proof.
  intros Hst Hstep. unfold step in Hstep. rewrite Hst in Hstep.
  injection Hstep as <-. reflexivity.
Qed.

Lemma step_complete (k : nat) (msgs : list message) (st st' : state) :
  step overwrite crash (Complete k msgs) st = Some st' ->
  exists ps : list json,
    nth_error (pending st) k = Some (Inflight ps) /\
    (stage st = Reading \/ stage st = Joining) /\
    st' = settle crash (processBatch k ps msgs st).
Proof.
  unfold step.
  destruct (stage st); try discriminate;
    destruct (nth_error (pending st) k) as [[ps | ps | ps e] |]; try discriminate;
    intros H; injection H as <-; exists ps; auto.
Qed.

Lemma step_exited (a : action) (st : state) (code : nat) :
  stage st = Exited code -> step overwrite crash a st = None.
Proof. intros H. unfold step. rewrite H. now destruct a. Qed.

Lemma exec_exited (sched : list action) (st st' : state) (code : nat) :
  stage st = Exited code -> exec overwrite crash sched st = Some st' ->
  sched = [] /\ st' = st.
Proof.
  intros H. destruct sched as [| a rest]; cbn.
  - intros E. injection E as <-. auto.
  - now rewrite (step_exited a st code H).
Qed.

Lemma settle_not_reading (st : state) :
  stage st <> Reading -> stage (settle crash st) <> Reading.
Proof.
  intros H. destruct (settle_stage crash st) as [E | [code E]]; rewrite E; congruence.
Qed.

Lemma eof_flushed (text : string) (st st' : state) :
  stage st = Reading -> reading_inv overwrite text st ->
  step overwrite crash Eof st = Some st' ->
  flushed overwrite (records_of text) st'.
Proof.
  intros Hst [_ [Hrec Hfull Hroom Htot Hskip]] Hstep.
  rewrite (step_eof st st' Hst Hstep). clear Hstep.
  destruct (settle_fields crash
    (set_stage Joining
       (emit_events
          [Log (LogToGenerate
                  (total match batch st with [] => st | _ :: _ => dispatch st end)
                  (skipped match batch st with [] => st | _ :: _ => dispatch st end))]
          match batch st with [] => st | _ :: _ => dispatch st end)))
    as (_ & _ & Ft & Fs & _ & Fp & _).
  cbn [total skipped pending set_stage emit_events] in Ft, Fs, Fp.
  match goal with |- flushed _ _ (settle crash ?s) =>
    pose proof (settle_not_reading s) as Hnr end.
  cbn [stage set_stage] in Hnr. specialize (Hnr ltac:(discriminate)).
  constructor; unfold batches; rewrite ?Ft, ?Fs, ?Fp; [exact Hnr | | | |].
  all: destruct (batch st) as [| p ps] eqn:Hbatch.
  - rewrite List.app_nil_r in Hrec. exact Hrec.
  - destruct (batches_dispatch st) as (Hb & _). unfold batches in Hb. rewrite Hb.
    rewrite concat_app. cbn [concat]. rewrite List.app_nil_r, Hbatch. exact Hrec.
  - exists (batches st), []. rewrite List.app_nil_r. repeat split; auto.
  - destruct (batches_dispatch st) as (Hb & _). unfold batches in Hb. rewrite Hb.
    exists (batches st), [batch st]. repeat split; auto.
    right. exists (batch st). rewrite Hbatch in *. cbn [List.length] in *.
    repeat split; lia.
  - exact Htot.
  - destruct (batches_dispatch st) as (_ & _ & Ht & _). now rewrite Ht.
  - exact Hskip.
  - destruct (batches_dispatch st) as (_ & _ & Ht & Hs & _). now rewrite Ht, Hs.
Qed.

Lemma complete_reading (text : string) (k : nat) (msgs : list message) (st st' : state) :
  stage st = Reading -> reading_inv overwrite text st ->
  step overwrite crash (Complete k msgs) st = Some st' ->
  (stage st' = Reading -> reading_inv overwrite text st') /\
  (stage st' = Reading \/ exists code, stage st' = Exited code).
Proof.
  intros Hst [Hbuf Hb] Hstep.
  destruct (step_complete k msgs st st' Hstep) as (ps & Hk & _ & ->).
  destruct (processBatch_fields k ps msgs st Hk) as (P1 & P2 & P3 & P4 & P5 & P6).
  split.
  - intros Hr. rewrite (settle_reading crash _ Hr) in *.
    split; [congruence |].
    eapply batched_fields; eauto.
  - destruct (settle_stage crash (processBatch k ps msgs st)) as [E | E]; [| now right].
    left. congruence.
Qed.

Lemma step_flushed (rs : list json) (a : action) (st st' : state) :
  flushed overwrite rs st -> step overwrite crash a st = Some st' ->
  flushed overwrite rs st' /\ chunk_text a = "".
Proof.
  intros Hf Hstep. pose proof (flushed_stage _ _ _ Hf) as Hnr.
  destruct a as [c | | k msgs].
  - unfold step in Hstep. destruct (stage st); congruence.
  - unfold step in Hstep. destruct (stage st); congruence.
  - destruct (step_complete k msgs st st' Hstep) as (ps & Hk & _ & ->).
    destruct (processBatch_fields k ps msgs st Hk) as (P1 & P2 & P3 & P4 & P5 & P6).
    destruct (settle_fields crash (processBatch k ps msgs st))
      as (_ & _ & Ft & Fs & _ & Fp & _).
    split; [| reflexivity].
    eapply flushed_fields; [| | | | exact Hf].
    + unfold batches in *. now rewrite Fp.
    + congruence.
    + congruence.
    + apply settle_not_reading. congruence.
Qed.

Lemma exec_flushed (rs : list json) (sched : list action) :
  forall st st' : state,
    flushed overwrite rs st -> exec overwrite crash sched st = Some st' ->
    flushed overwrite rs st' /\ input_text sched = "".
Proof.
  induction sched as [| a rest IH]; intros st st' Hf; cbn [exec].
  - intros E. injection E as <-. auto.
  - destruct (step overwrite crash a st) as [st1 |] eqn:Hstep; [| discriminate].
    intros Hexec. destruct (step_flushed rs a st st1 Hf Hstep) as [Hf1 Ha].
    destruct (IH st1 st' Hf1 Hexec) as [Hf' Hrest].
    split; [exact Hf' |]. rewrite input_text_cons, Ha, Hrest. reflexivity.
Qed.

Lemma exec_reading (sched : list action) :
  forall (text : string) (st st' : state),
    stage st = Reading -> reading_inv overwrite text st ->
    exec overwrite crash sched st = Some st' ->
    (In Eof sched ->
       flushed overwrite (records_of (text ++ input_text sched)%string) st') /\
    (stage st' = Reading ->
       reading_inv overwrite (text ++ input_text sched)%string st').
Proof.
  induction sched as [| a rest IH]; intros text st st' Hst Hinv; cbn [exec].
  - intros E. injection E as <-. cbn [input_text]. rewrite string_app_nil_r.
    split; [intros [] | auto].
  - destruct (step overwrite crash a st) as [st1 |] eqn:Hstep; [| discriminate].
    intros Hexec. rewrite input_text_cons.
    assert (Hnext :
      (stage st1 = Reading -> reading_inv overwrite (text ++ chunk_text a)%string st1) ->
      (stage st1 = Reading \/ exists code, stage st1 = Exited code) ->
      a <> Eof ->
      (In Eof (a :: rest) ->
         flushed overwrite (records_of (text ++ chunk_text a ++ input_text rest)%string) st') /\
      (stage st' = Reading ->
         reading_inv overwrite (text ++ chunk_text a ++ input_text rest)%string st')).
    { intros Hkeep Hstage Ha.
      destruct Hstage as [Hr | [code Hx]].
      - destruct (IH (text ++ chunk_text a)%string st1 st' Hr (Hkeep Hr) Hexec) as [I1 I2].
        rewrite string_app_assoc in I1, I2.
        split; [| exact I2].
        intros [E | Hin]; [congruence | now apply I1].
      - destruct (exec_exited rest st1 st' code Hx Hexec) as [-> ->].
        split.
        + intros [E | []]. congruence.
        + congruence. }
    destruct a as [c | | k msgs].
    + destruct (chunk_reading overwrite crash text c st st1 Hst Hinv Hstep) as [H1 H2].
      apply Hnext; auto. discriminate.
    + pose proof (eof_flushed text st st1 Hst Hinv Hstep) as Hf.
      destruct (exec_flushed (records_of text) rest st1 st' Hf Hexec) as [Hf' Hrest].
      cbn [chunk_text]. rewrite Hrest. cbn [String.append]. rewrite string_app_nil_r.
      split; [intros _; exact Hf' |].
      intros Hr. exfalso. now apply (flushed_stage _ _ _ Hf').
    + destruct (complete_reading text k msgs st st1 Hst Hinv Hstep) as [H1 H2].
      cbn [chunk_text] in *. rewrite string_app_nil_r in Hnext.
      apply Hnext; auto. discriminate.
Qed.

Lemma initial_reading : reading_inv overwrite "" initial.
Proof.
  split; [reflexivity |]. constructor; cbn; auto. unfold BATCH_SIZE. lia.
Qed.

Lemma run_batches (sched : list action) (st : state) :
  run overwrite crash sched = Some st ->
  (In Eof sched -> flushed overwrite (records_of (input_text sched)) st) /\
  (stage st = Reading -> reading_inv overwrite (input_text sched) st).
Proof.
  intros Hrun.
  exact (exec_reading sched "" initial st eq_refl initial_reading Hrun).
Qed.

End Runs.

Section Coherence.
Import JS Generate.
Variables overwrite crash : bool.

Lemma reports_emit_events (st : state) (evs : list event) :
  reports (emit_events evs st)
  = reports st ++ flat_map (fun ev => match ev with
                                      | Failure e => [e]
                                      | Unhandled e => [e]
                                      | _ => []
                                      end) evs.
Proof. unfold reports. cbn. apply flat_map_app. Qed.

Lemma stdout_emit_events (st : state) (evs : list event) :
  stdout (emit_events evs st)
  = stdout st ++ flat_map (fun ev => match ev with
                                     | Stdout o => [o]
                                     | _ => []
                                     end) evs.
Proof. unfold stdout. cbn. apply flat_map_app. Qed.

Lemma first_rejected_app (l l' : list promise) :
  first_rejected (l ++ l') = match first_rejected l with
                             | Some e => Some e
                             | None => first_rejected l'
                             end.
Proof.
  induction l as [| [ps | ps | ps e] l IH]; cbn; auto.
Qed.

Lemma fulfilled_products_app (l l' : list promise) :
  fulfilled_products (l ++ l') = fulfilled_products l ++ fulfilled_products l'.
Proof. unfold fulfilled_products. now rewrite filter_app, map_app, concat_app. Qed.

Lemma settle_reported (st : state) :
  unsettled st -> reported crash (settle crash st).
Proof.
  unfold unsettled, reported, settle.
  destruct (stage st) eqn:Hst.
  - intros Hr. destruct crash.
    + destruct (first_rejected (pending st)) as [e |] eqn:Hf.
      * cbn [stage exit_with set_stage]. right. split; [reflexivity |].
        exists (trace st), e. split; [now right |].
        unfold exit_with, reports. cbn. rewrite flat_map_app. cbn.
        unfold reports in Hr. now rewrite Hr.
      * rewrite Hst. auto.
    + rewrite Hst. split; [exact Hr | discriminate].
  - intros Hr. destruct (first_rejected (pending st)) as [e |] eqn:Hf.
    + cbn [stage exit_with set_stage]. right. split; [reflexivity |].
      exists (trace st), e. split; [now left |].
      unfold exit_with, reports. cbn. rewrite flat_map_app. cbn.
      unfold reports in Hr. now rewrite Hr.
    + destruct (forallb is_fulfilled (pending st)) eqn:Hall.
      * cbn [stage set_stage]. left. split; [reflexivity |].
        split; [| exact Hall].
        unfold reports. cbn. rewrite flat_map_app. cbn.
        unfold reports in Hr. now rewrite Hr.
      * rewrite Hst. auto.
  - rewrite Hst. intros [-> (t & e & Ht & Hr)]. right. split; [reflexivity |].
    exists t, e. auto.
Qed.

Lemma settle_accounted (st : state) : accounted st -> accounted (settle crash st).
Proof.
  intros [H1 H2 H3].
  destruct (settle_fields crash st) as (_ & _ & _ & _ & Fc & Fp & Fo).
  constructor; rewrite ?Fc, ?Fp, ?Fo; auto.
  eapply Forall_impl; [| exact H3].
  intros line (p & i & ds & Hin & Hline). exists p, i, ds.
  unfold batches in *. now rewrite Fp.
Qed.

(** *** Dispatching and reading *)

Lemma dispatch_effect (st : state) :
  exists (new : promise) (evs : list event),
    pending (dispatch st) = pending st ++ [new] /\
    is_fulfilled new = false /\ products_of new = batch st /\
    trace (dispatch st) = trace st ++ evs /\
    Forall (fun ev => match ev with Log _ | Query _ _ => True | _ => False end) evs /\
    completed (dispatch st) = completed st /\ stage (dispatch st) = stage st.
Proof.
  unfold dispatch. destruct (build_prompt (batch st)) as [prompt | e].
  - exists (Inflight (batch st)), [Log (LogStarting (List.length (batch st)));
                                    Query prompt (outputSchema (List.length (batch st)))].
    cbn. rewrite <- List.app_assoc. repeat split; auto.
  - exists (Rejected (batch st) e), [Log (LogStarting (List.length (batch st)))].
    cbn. repeat split; auto.
Qed.

Lemma quiet_flat_maps (evs : list event) :
  quiet evs ->
  flat_map (fun ev => match ev with Stdout o => [o] | _ => [] end) evs = [] /\
  flat_map (fun ev => match ev with Failure e => [e] | Unhandled e => [e] | _ => [] end) evs
  = [].
Proof.
  induction 1 as [| ev evs Hev _ [IH1 IH2]]; [split; reflexivity |].
  destruct ev; try contradiction; cbn; auto.
Qed.

Lemma read_on_refl (st : state) : stage st = Reading -> read_on st st.
Proof.
  intros H. constructor; auto.
  exists []. now rewrite List.app_nil_r.
Qed.

Lemma read_on_trans (a b c : state) :
  read_on a b -> stage b = Reading -> read_on b c -> read_on a c.
Proof.
  intros [(n1 & P1 & U1) C1 O1 S1] Hb [(n2 & P2 & U2) C2 O2 S2].
  constructor.
  - exists (n1 ++ n2). rewrite P2, P1, List.app_assoc. split; [reflexivity |].
    now apply Forall_app.
  - congruence.
  - congruence.
  - destruct S1 as [[_ R1] | [E1 _]]; [| congruence].
    destruct S2 as [[E2 R2] | [E2 (t & e & T2 & R2)]].
    + left. split; congruence.
    + right. split; [exact E2 |]. exists t, e. split; congruence.
Qed.

Lemma read_on_quiet (st st' : state) (new : list promise) (evs : list event) :
  pending st' = pending st ++ new -> Forall (fun p => is_fulfilled p = false) new ->
  completed st' = completed st -> trace st' = trace st ++ evs -> quiet evs ->
  stage st' = Reading ->
  read_on st st'.
Proof.
  intros Hp Hn Hc Ht Hq Hs.
  destruct (quiet_flat_maps evs Hq) as [Q1 Q2].
  constructor; auto.
  - now exists new.
  - unfold stdout. rewrite Ht, flat_map_app, Q1. apply List.app_nil_r.
  - left. split; [exact Hs |].
    unfold reports. rewrite Ht, flat_map_app, Q2. apply List.app_nil_r.
Qed.

Lemma handle_line_read_on (raw : string) (st : state) :
  stage st = Reading -> read_on st (handle_line overwrite raw st).
Proof.
  intros Hst. unfold handle_line.
  assert (Hfail : forall e, read_on st (exit_with (Failure e) 1 st)).
  { intros e. constructor; cbn.
    - exists []. now rewrite List.app_nil_r.
    - reflexivity.
    - unfold stdout. cbn. rewrite flat_map_app. cbn. apply List.app_nil_r.
    - right. split; [reflexivity |]. exists (trace st), e. split; [reflexivity |].
      unfold reports. cbn. now rewrite flat_map_app. }
  destruct (String.eqb (trim raw) ""); [now apply read_on_refl |].
  destruct (JSON.parse (trim raw)) as [p |]; [| apply Hfail].
  destruct (needsGeneration overwrite p) as [[|] | e]; [| | apply Hfail].
  - unfold accept. cbn [batch].
    destruct (BATCH_SIZE <=? _).
    + match goal with |- read_on _ (dispatch ?s) =>
        destruct (dispatch_effect s) as (new & evs & Hp & Hn & _ & Ht & Hq & Hc & Hs) end.
      cbn [pending emit_events trace completed stage] in Hp, Ht, Hc, Hs.
      eapply (read_on_quiet _ _ [new] (_ :: evs)).
      * exact Hp.
      * now constructor.
      * exact Hc.
      * rewrite Ht. rewrite <- List.app_assoc. reflexivity.
      * constructor; [exact I | exact Hq].
      * congruence.
    + eapply (read_on_quiet _ _ [] []); cbn; rewrite ?List.app_nil_r; auto.
      constructor.
  - eapply (read_on_quiet _ _ [] []); cbn; rewrite ?List.app_nil_r; auto.
    constructor.
Qed.

Lemma feed_read_on (lines : list string) :
  forall st : state, stage st = Reading -> read_on st (feed overwrite lines st).
Proof.
  induction lines as [| raw lines IH]; intros st Hst.
  - now apply read_on_refl.
  - cbn [feed]. rewrite Hst.
    pose proof (handle_line_read_on raw st Hst) as H1.
    destruct (read_stage _ _ H1) as [[Hr _] | [Hx _]].
    + eapply read_on_trans; eauto.
    + now rewrite (feed_exited overwrite lines _ 1 Hx).
Qed.

Lemma accounted_read_on (st st' : state) :
  accounted st -> read_on st st' -> accounted st'.
Proof.
  intros [A1 A2 A3] [(new & Hp & Hn) Hc Ho _].
  assert (Hnone : fulfilled_products new = []).
  { unfold fulfilled_products. clear - Hn.
    induction Hn as [| p new Hpf _ IH]; [reflexivity |]. cbn. now rewrite Hpf. }
  constructor.
  - rewrite Hc, Hp, fulfilled_products_app, Hnone, List.app_nil_r. exact A1.
  - rewrite Hp, first_rejected_app, Ho, Hc.
    destruct (first_rejected (pending st)); [discriminate | auto].
  - rewrite Ho. eapply Forall_impl; [| exact A3].
    intros line (p & i & ds & Hin & Hline). exists p, i, ds. split; [| exact Hline].
    unfold batches in *. rewrite Hp, map_app, concat_app. apply in_or_app. now left.
Qed.

Lemma unsettled_read_on (st st' : state) :
  stage st = Reading -> reports st = [] -> read_on st st' -> unsettled st'.
Proof.
  intros Hst Hr [_ _ _ [[E R] | [E (t & e & T & R)]]]; unfold unsettled; rewrite E.
  - congruence.
  - split; [reflexivity |]. exists t, e. split; [exact T |]. now rewrite R, Hr.
Qed.

(** *** The completion of a batch *)

Lemma first_rejected_fulfil (l : list promise) (k : nat) (ps : list json) :
  nth_error l k = Some (Inflight ps) ->
  first_rejected (set_nth k (Fulfilled ps) l) = first_rejected l.
Proof.
  revert k. induction l as [| p l IH]; intros [| k]; cbn; try discriminate.
  - intros H. now injection H as ->.
  - intros H. destruct p; auto.
Qed.

Lemma first_rejected_reject (l : list promise) (k : nat) (ps : list json) (e : exn) :
  nth_error l k = Some (Inflight ps) ->
  first_rejected (set_nth k (Rejected ps e) l) <> None.
Proof.
  revert k. induction l as [| p l IH]; intros [| k]; cbn; try discriminate.
  intros H. destruct p; try discriminate; now apply IH.
Qed.

Lemma fulfilled_products_fulfil (l : list promise) (k : nat) (ps : list json) :
  nth_error l k = Some (Inflight ps) ->
  List.length (fulfilled_products (set_nth k (Fulfilled ps) l))
  = List.length (fulfilled_products l) + List.length ps.
Proof.
  unfold fulfilled_products.
  revert k. induction l as [| p l IH]; intros [| k]; cbn; try discriminate.
  - intros H. injection H as ->. cbn. rewrite length_app. lia.
  - intros H. destruct p; cbn; rewrite ?length_app, (IH k H); lia.
Qed.

Lemma fulfilled_products_reject (l : list promise) (k : nat) (ps : list json) (e : exn) :
  nth_error l k = Some (Inflight ps) ->
  fulfilled_products (set_nth k (Rejected ps e) l) = fulfilled_products l.
Proof.
  unfold fulfilled_products.
  revert k. induction l as [| p l IH]; intros [| k]; cbn; try discriminate.
  - intros H. now injection H as ->.
  - intros H. destruct p; cbn; now rewrite (IH k H).
Qed.

Lemma emit_lines (ds : value) (ps : list json) :
  forall (i : nat) (lines : list json) (r : option exn),
    emit i ps ds = (lines, r) ->
    Forall (fun line => exists (p : json) (j : nat),
                          In p ps /\ output_line j p ds = Ok line) lines /\
    (r = None -> List.length lines = List.length ps).
Proof.
  induction ps as [| p ps IH]; intros i lines r; cbn [emit].
  - intros H. injection H as <- <-. split; [constructor | reflexivity].
  - destruct (output_line i p ds) as [o |] eqn:Ho.
    + destruct (emit (S i) ps ds) as [ls r'] eqn:He.
      intros H. injection H as <- <-.
      destruct (IH (S i) ls r' He) as [IH1 IH2]. split.
      * constructor.
        -- exists p, i. split; [now left | exact Ho].
        -- eapply Forall_impl; [| exact IH1].
           intros line (q & j & Hq & Hl). exists q, j. split; [now right | exact Hl].
      * intros Hr. cbn. now rewrite (IH2 Hr).
    + intros H. injection H as <- <-. split; [constructor | discriminate].
Qed.

Lemma batch_in_batches (st : state) (k : nat) (p : promise) (x : json) :
  nth_error (pending st) k = Some p -> In x (products_of p) -> In x (concat (batches st)).
Proof.
  intros Hk Hx. apply in_concat. exists (products_of p). split; [| exact Hx].
  unfold batches. apply in_map. eapply nth_error_In; eauto.
Qed.

End Coherence.

Section CoherentRuns.
Import JS Generate.
Variables overwrite crash : bool.

Lemma processBatch_accounted (k : nat) (ps : list json) (msgs : list message) (st : state) :
  nth_error (pending st) k = Some (Inflight ps) ->
  accounted st -> accounted (processBatch k ps msgs st).
Proof.
  intros Hk [A1 A2 A3].
  destruct (processBatch_fields k ps msgs st Hk) as (_ & _ & _ & _ & _ & Hb).
  assert (Hold : Forall (printed_for (processBatch k ps msgs st)) (stdout st)).
  { eapply Forall_impl; [| exact A3].
    intros line (p & i & ds & Hin & Hl). exists p, i, ds. now rewrite Hb. }
  revert Hb Hold. unfold processBatch.
  destruct (generateBatch msgs) as [[ds tokens] | e].
  - destruct (emit 0 ps ds) as [lines r] eqn:He.
    destruct (emit_lines ds ps 0 lines r He) as [Hl Hlen].
    assert (Hnew : forall st', batches st' = batches st ->
                     Forall (printed_for st') lines).
    { intros st' Hb'. eapply Forall_impl; [| exact Hl].
      intros line (p & j & Hp & Hline). exists p, j, ds. split; [| exact Hline].
      rewrite Hb'. eapply batch_in_batches; eauto. }
    destruct r as [e |]; intros Hb Hold.
    + constructor; cbn [pending completed set_pending].
      * rewrite fulfilled_products_reject by exact Hk. exact A1.
      * intros H. exfalso. revert H. now apply first_rejected_reject.
      * unfold stdout. cbn [trace set_pending]. rewrite flat_map_app.
        apply Forall_app. split; [exact Hold |].
        replace (flat_map _ (map Stdout lines)) with lines
          by (clear; induction lines; cbn; congruence).
        now apply Hnew.
    + constructor; cbn [pending completed].
      * rewrite fulfilled_products_fulfil by exact Hk. now rewrite A1.
      * rewrite first_rejected_fulfil by exact Hk. intros H.
        unfold stdout. cbn [trace]. rewrite !flat_map_app, !length_app. cbn.
        replace (flat_map _ (map Stdout lines)) with lines
          by (clear; induction lines; cbn; congruence).
        unfold stdout in A2. rewrite (A2 H), (Hlen eq_refl). lia.
      * unfold stdout. cbn [trace]. rewrite !flat_map_app. cbn. rewrite List.app_nil_r.
        apply Forall_app. split; [exact Hold |].
        replace (flat_map _ (map Stdout lines)) with lines
          by (clear; induction lines; cbn; congruence).
        now apply Hnew.
  - intros Hb Hold. constructor; cbn [pending completed set_pending].
    + rewrite fulfilled_products_reject by exact Hk. exact A1.
    + intros H. exfalso. revert H. now apply first_rejected_reject.
    + exact Hold.
Qed.

Lemma processBatch_reports (k : nat) (ps : list json) (msgs : list message) (st : state) :
  reports (processBatch k ps msgs st) = reports st.
Proof.
  unfold processBatch, reports.
  destruct (generateBatch msgs) as [[ds tokens] | e]; [| reflexivity].
  destruct (emit 0 ps ds) as [lines [e |]]; cbn; rewrite !flat_map_app;
    replace (flat_map (fun ev => match ev with
                                 | Failure e => [e]
                                 | Unhandled e => [e]
                                 | _ => []
                                 end) (map Stdout lines)) with (@nil exn)
      by (clear; induction lines; cbn; congruence);
    cbn; now rewrite ?List.app_nil_r.
Qed.

Lemma reported_unsettled (st : state) :
  reported crash st -> (stage st = Reading \/ stage st = Joining) -> reports st = [].
Proof.
  unfold reported. intros H [E | E]; rewrite E in H; tauto.
Qed.

Lemma step_coherent (a : action) (st st' : state) :
  coherent crash st -> step overwrite crash a st = Some st' -> coherent crash st'.
Proof.
  intros [Ha Hr] Hstep. destruct a as [c | | k msgs].
  - assert (Hst : stage st = Reading).
    { unfold step in Hstep. destruct (stage st); congruence. }
    rewrite (step_chunk overwrite crash c st st' Hst Hstep). clear Hstep.
    set (st0 := set_buffer (buffer st ++ c)%string st).
    destruct (drain_feed overwrite (S (String.length (buffer st ++ c)%string)) st0)
      as [Hforget _]; [cbn; lia |].
    unfold st0 in Hforget at 2 3. rewrite feed_set_buffer, forget_set_buffer in Hforget.
    cbn [buffer set_buffer] in Hforget.
    pose proof (feed_read_on overwrite (fst (split_lines (buffer st ++ c)%string)) st Hst)
      as Hread.
    set (d := drain overwrite (S (String.length (buffer st ++ c)%string)) st0) in *.
    set (f := feed overwrite (fst (split_lines (buffer st ++ c)%string)) st) in *.
    destruct (forget_fields _ _ Hforget) as (F1 & F2 & F3 & F4 & F5 & F6 & F7).
    assert (Hread' : read_on st d).
    { destruct Hread as [P C O S]. constructor.
      - now rewrite F4.
      - now rewrite F7.
      - unfold stdout. now rewrite F6.
      - unfold reports in *. now rewrite F5, F6. }
    split.
    + apply settle_accounted. eapply accounted_read_on; eauto.
    + apply settle_reported. eapply unsettled_read_on; eauto.
      apply reported_unsettled; auto.
  - assert (Hst : stage st = Reading).
    { unfold step in Hstep. destruct (stage st); congruence. }
    rewrite (step_eof overwrite crash st st' Hst Hstep). clear Hstep.
    set (st1 := match batch st with [] => st | _ :: _ => dispatch st end).
    assert (H1 : read_on st st1).
    { unfold st1. destruct (batch st); [now apply read_on_refl |].
      destruct (dispatch_effect st) as (new & evs & Hp & Hn & _ & Ht & Hq & Hc & Hs).
      eapply (read_on_quiet _ _ [new] evs); eauto. congruence. }
    destruct H1 as [P C O S].
    destruct S as [[S1 S2] | [S1 _]].
    2: { exfalso. unfold st1 in S1. destruct (batch st); [congruence |].
         destruct (dispatch_effect st) as (_ & _ & _ & _ & _ & _ & _ & _ & Hs). congruence. }
    split.
    + apply settle_accounted.
      assert (Hacc : accounted st1).
      { eapply accounted_read_on; eauto. constructor; auto. }
      destruct Hacc as [A1 A2 A3]. constructor; cbn; auto.
      * unfold stdout in *. cbn. rewrite flat_map_app. cbn. now rewrite List.app_nil_r.
      * unfold stdout in *. cbn. rewrite flat_map_app. cbn. rewrite List.app_nil_r.
        exact A3.
    + apply settle_reported. unfold unsettled. cbn [stage set_stage].
      unfold reports in *. cbn. rewrite flat_map_app. cbn. rewrite List.app_nil_r.
      rewrite S2. apply (reported_unsettled st Hr). now left.
  - destruct (step_complete overwrite crash k msgs st st' Hstep) as (ps & Hk & Hstage & ->).
    destruct (processBatch_fields k ps msgs st Hk) as (_ & _ & _ & _ & Hs & _).
    split.
    + apply settle_accounted. now apply processBatch_accounted.
    + apply settle_reported. unfold unsettled. rewrite Hs, processBatch_reports.
      pose proof (reported_unsettled st Hr Hstage) as H0.
      destruct Hstage as [E | E]; rewrite E; exact H0.
Qed.

Lemma exec_coherent (sched : list action) :
  forall st st' : state,
    coherent crash st -> exec overwrite crash sched st = Some st' -> coherent crash st'.
Proof.
  induction sched as [| a rest IH]; intros st st' Hc; cbn [exec].
  - intros E. now injection E as <-.
  - destruct (step overwrite crash a st) as [st1 |] eqn:Hstep; [| discriminate].
    intros Hexec. eapply IH; [| exact Hexec]. eapply step_coherent; eauto.
Qed.

Lemma initial_coherent : coherent crash initial.
Proof.
  split.
  - constructor; cbn; auto.
  - cbn. auto.
Qed.

Lemma run_coherent (sched : list action) (st : state) :
  run overwrite crash sched = Some st -> coherent crash st.
Proof. apply exec_coherent. apply initial_coherent. Qed.

End CoherentRuns.

Section Tail.
Import JS Generate.
Variables overwrite crash : bool.

Lemma exec_app (s1 s2 : list action) (st st' : state) :
  exec overwrite crash (s1 ++ s2) st = Some st' <->
  exists mid, exec overwrite crash s1 st = Some mid /\ exec overwrite crash s2 mid = Some st'.
Proof.
  revert st. induction s1 as [| a s1 IH]; intros st; cbn [app exec].
  - split; [intros H; now exists st | intros (mid & E & H); now injection E as ->].
  - destruct (step overwrite crash a st) as [st1 |]; [apply IH |].
    split; [discriminate | intros (mid & E & _); discriminate].
Qed.

Lemma set_buffer_twice (x y : string) (st : state) :
  set_buffer x (set_buffer y st) = set_buffer x st.
Proof. reflexivity. Qed.

Lemma set_buffer_same (st : state) : set_buffer (buffer st) st = st.
Proof. now destruct st. Qed.

Lemma settle_set_buffer (x : string) (st : state) :
  settle crash (set_buffer x st) = set_buffer x (settle crash st).
Proof.
  unfold settle. cbn [stage pending set_buffer].
  destruct (stage st); try destruct crash; try destruct (first_rejected (pending st));
    try destruct (forallb is_fulfilled (pending st)); reflexivity.
Qed.

Lemma processBatch_set_buffer (x : string) (k : nat) (ps : list json) (msgs : list message)
  (st : state) :
  processBatch k ps msgs (set_buffer x st) = set_buffer x (processBatch k ps msgs st).
Proof.
  unfold processBatch. destruct (generateBatch msgs) as [[ds tokens] | e]; [| reflexivity].
  destruct (emit 0 ps ds) as [lines [e |]]; reflexivity.
Qed.

Lemma step_set_buffer (x : string) (a : action) (st : state) :
  (forall c, a <> Chunk c) ->
  step overwrite crash a (set_buffer x st)
  = option_map (set_buffer x) (step overwrite crash a st).
Proof.
  intros Ha. destruct a as [c | | k msgs].
  - now destruct (Ha c).
  - unfold step. cbn [stage set_buffer batch].
    destruct (stage st); try reflexivity. cbn [option_map]. f_equal.
    rewrite <- settle_set_buffer. f_equal.
    destruct (batch st); [reflexivity |].
    rewrite dispatch_set_buffer. reflexivity.
  - unfold step. cbn [stage set_buffer pending].
    destruct (stage st); try reflexivity;
      destruct (nth_error (pending st) k) as [[ps | ps | ps e] |]; try reflexivity;
      cbn [option_map]; f_equal;
      now rewrite processBatch_set_buffer, settle_set_buffer.
Qed.

Lemma drain_no_newline (fuel : nat) (st : state) :
  index_of_newline (buffer st) = None -> drain overwrite fuel st = st.
Proof.
  intros H. destruct fuel as [| fuel]; [reflexivity |]. cbn [drain]. rewrite H.
  now destruct (stage st).
Qed.

Lemma step_partial_chunk (c : string) (st : state) :
  stage st = Reading -> index_of_newline (buffer st ++ c)%string = None ->
  step overwrite crash (Chunk c) st
  = Some (set_buffer (buffer st ++ c)%string (settle crash st)).
Proof.
  intros Hst Hn. unfold step. rewrite Hst. cbn zeta. cbn [buffer set_buffer].
  unfold lines_covered. rewrite (split_lines_none _ Hn). cbn [fst forallb]. f_equal.
  rewrite drain_no_newline by exact Hn. apply settle_set_buffer.
Qed.

Lemma forget_eq (a b : state) : forget a = forget b -> a = set_buffer (buffer a) b.
Proof.
  intros H. rewrite <- (set_buffer_same a) at 1.
  rewrite <- (set_buffer_twice (buffer a) "" a). fold (forget a). rewrite H.
  reflexivity.
Qed.

Lemma step_same_but_buffer (x : action) (a b a' : state) :
  index_of_newline (chunk_text x) = None ->
  same_but_buffer a b -> step overwrite crash x a = Some a' ->
  exists b', step overwrite crash x b = Some b' /\ same_but_buffer a' b'.
Proof.
  intros Hx (Hf & Ha & Hb) Hstep.
  pose proof (forget_eq a b Hf) as Eab.
  destruct (forget_fields _ _ Hf) as (_ & _ & _ & _ & Hstage & _).
  destruct x as [c | | k msgs].
  - cbn [chunk_text] in Hx.
    assert (Hst : stage a = Reading).
    { unfold step in Hstep. destruct (stage a); congruence. }
    rewrite step_partial_chunk in Hstep
      by (auto; apply index_of_newline_app; auto).
    injection Hstep as <-.
    rewrite step_partial_chunk
      by (try congruence; apply index_of_newline_app; auto).
    eexists. split; [reflexivity |].
    repeat split; cbn [buffer set_buffer]; try (apply index_of_newline_app; auto).
    rewrite Eab, settle_set_buffer. reflexivity.
  - rewrite Eab, step_set_buffer in Hstep by discriminate.
    destruct (step overwrite crash Eof b) as [b' |] eqn:Hb'; [| discriminate].
    injection Hstep as <-. exists b'. split; [reflexivity |].
    assert (Hbuf : buffer b' = buffer b).
    { rewrite (step_eof overwrite crash b b') by
        (try exact Hb'; unfold step in Hb'; destruct (stage b); congruence).
      destruct (settle_fields crash
        (set_stage Joining
           (emit_events
              [Log (LogToGenerate
                      (total match batch b with [] => b | _ :: _ => dispatch b end)
                      (skipped match batch b with [] => b | _ :: _ => dispatch b end))]
              match batch b with [] => b | _ :: _ => dispatch b end))) as (Fb & _).
      rewrite Fb. cbn [buffer set_stage emit_events].
      destruct (batch b); [reflexivity |].
      now destruct (batches_dispatch b) as (_ & _ & _ & _ & _ & E). }
    repeat split; cbn [buffer set_buffer]; auto. congruence.
  - rewrite Eab, step_set_buffer in Hstep by discriminate.
    destruct (step overwrite crash (Complete k msgs) b) as [b' |] eqn:Hb'; [| discriminate].
    injection Hstep as <-. exists b'. split; [reflexivity |].
    assert (Hbuf : buffer b' = buffer b).
    { destruct (step_complete overwrite crash k msgs b b' Hb') as (ps & Hk & _ & ->).
      destruct (settle_fields crash (processBatch k ps msgs b)) as (Fb & _).
      rewrite Fb. now destruct (processBatch_fields k ps msgs b Hk) as (E & _). }
    repeat split; cbn [buffer set_buffer]; auto. congruence.
Qed.

Lemma exec_same_but_buffer (sched : list action) :
  Forall (fun x => index_of_newline (chunk_text x) = None) sched ->
  forall a b a' : state,
    same_but_buffer a b -> exec overwrite crash sched a = Some a' ->
    exists b', exec overwrite crash sched b = Some b' /\ same_but_buffer a' b'.
Proof.
  induction 1 as [| x sched Hx _ IH]; intros a b a' Hsim; cbn [exec].
  - intros E. injection E as <-. now exists b.
  - destruct (step overwrite crash x a) as [a1 |] eqn:Hstep; [| discriminate].
    intros Hexec.
    destruct (step_same_but_buffer x a b a1 Hx Hsim Hstep) as (b1 & Hb1 & Hsim1).
    rewrite Hb1. now apply (IH a1 b1 a').
Qed.

Lemma settle_settled (st : state) :
  reported crash st -> stage st = Reading -> settle crash st = st.
Proof.
  unfold reported, settle. intros H Hst. rewrite Hst in *.
  destruct crash; [| reflexivity].
  destruct H as [_ H]. now rewrite (H eq_refl).
Qed.

(** Claim C9.  Text after the last newline of the input is never handled:
    a chunk that completes no line only lengthens the buffer, and the end of
    the input leaves the buffer unread, so the run is the one the input
    without this text gives, and the record on an unterminated last line is
    neither generated, nor counted, nor reported.  A line that is empty
    after trimming changes nothing either. *)
Theorem unterminated_last_line_is_dropped
  (before after : list action) (tail : string) (st : state) :
  index_of_newline tail = None ->
  Forall (fun x => index_of_newline (chunk_text x) = None) after ->
  run overwrite crash (before ++ Chunk tail :: after) = Some st ->
  (exists st0 : state,
     run overwrite crash (before ++ after) = Some st0 /\ forget st = forget st0) /\
  records_of (input_text (before ++ Chunk tail :: after)) = records_of (input_text before) /\
  (forall (raw : string) (st1 : state),
     trim raw = "" -> handle_line overwrite raw st1 = st1).
Proof.
  intros Htail Hafter Hrun. unfold run in *.
  apply exec_app in Hrun. destruct Hrun as (mid & Hbefore & Hrest).
  cbn [exec] in Hrest.
  destruct (step overwrite crash (Chunk tail) mid) as [mid' |] eqn:Hstep; [| discriminate].
  assert (Hst : stage mid = Reading).
  { unfold step in Hstep. destruct (stage mid); congruence. }
  destruct (run_batches overwrite crash before mid Hbefore) as [_ Hinv].
  destruct (Hinv Hst) as [Hbuf _].
  assert (Hfree : index_of_newline (buffer mid) = None).
  { rewrite Hbuf. apply split_lines_rest. }
  pose proof (run_coherent overwrite crash before mid Hbefore) as [_ Hrep].
  rewrite step_partial_chunk in Hstep by (auto; apply index_of_newline_app; auto).
  rewrite (settle_settled mid Hrep Hst) in Hstep. injection Hstep as <-.
  assert (Hsim : same_but_buffer (set_buffer (buffer mid ++ tail)%string mid) mid).
  { repeat split; cbn [buffer set_buffer]; auto. apply index_of_newline_app; auto. }
  destruct (exec_same_but_buffer after Hafter _ mid st Hsim Hrest) as (st0 & Hst0 & Hf & _).
  split; [| split].
  - exists st0. split; [| exact Hf].
    apply exec_app. now exists mid.
  - assert (Hnone : forall s, Forall (fun x => index_of_newline (chunk_text x) = None) s ->
                      index_of_newline (input_text s) = None).
    { induction 1 as [| x s Hx _ IH]; [reflexivity |].
      rewrite input_text_cons. apply index_of_newline_app. auto. }
    assert (Happ : forall s1 s2, input_text (s1 ++ s2) = (input_text s1 ++ input_text s2)%string).
    { induction s1 as [| x s1 IH]; intros s2; [reflexivity |].
      cbn [app]. rewrite !input_text_cons, IH. now rewrite string_app_assoc. }
    rewrite Happ. unfold records_of. rewrite split_lines_app.
    cbn [fst]. rewrite records_on_app.
    rewrite (split_lines_none (snd (split_lines (input_text before))
                               ++ input_text (Chunk tail :: after))%string).
    + cbn. apply List.app_nil_r.
    + apply index_of_newline_app. split; [apply split_lines_rest |].
      apply Hnone. constructor; auto.
  - intros raw st1 Hraw. unfold handle_line. now rewrite Hraw.
Qed.

End Tail.

Section Batcher.
Import JS Generate.
Variables overwrite crash : bool.

Lemma all_fulfilled (ps : list promise) :
  forallb is_fulfilled ps = true ->
  first_rejected ps = None /\ fulfilled_products ps = concat (map products_of ps).
Proof.
  unfold fulfilled_products.
  induction ps as [| [x | x | x e] ps IH]; cbn; try discriminate.
  - auto.
  - intros H. destruct (IH H) as [H1 H2]. split; [exact H1 | now rewrite H2].
Qed.

Lemma single_short_batch (bs : list (list json)) (el : list json) :
  flushed_shape bs -> concat bs = el -> 0 < List.length el < BATCH_SIZE -> bs = [el].
Proof.
  intros (full & last & -> & Hfull & Hlast) Hc Hlen.
  destruct full as [| b full].
  - cbn in *. destruct Hlast as [-> | (b & -> & _)].
    + cbn in Hc. subst el. cbn in Hlen. lia.
    + cbn in Hc. rewrite List.app_nil_r in Hc. now subst.
  - exfalso. apply Forall_inv in Hfull.
    apply (f_equal (@List.length json)) in Hc. cbn in Hc.
    rewrite length_app in Hc. lia.
Qed.

(** Claim C4.  While the input is read every dispatched batch holds exactly
    20 eligible records and the batch being filled fewer: a batch leaves the
    moment its twentieth record arrives.  After the end of the input the
    dispatched batches are the eligible records in order, in groups of 20
    with at most one shorter, non-empty group at the end; every line printed
    belongs to a record of a batch; and a run that ends with 0 has completed
    and printed one line for each eligible record.  For 25 records of which
    5 are eligible, exactly one batch, of these 5, is dispatched, 20 records
    are counted as skipped, and a run that ends with 0 has completed 5. *)
Theorem batcher_groups_eligible_records (sched : list action) (st : state) :
  run overwrite crash sched = Some st ->
  let rs := records_of (input_text sched) in
  let el := filter (eligible overwrite) rs in
  (stage st = Reading ->
     concat (batches st) ++ batch st = el /\
     Forall (fun b => List.length b = BATCH_SIZE) (batches st) /\
     List.length (batch st) < BATCH_SIZE) /\
  (In Eof sched ->
     concat (batches st) = el /\ flushed_shape (batches st) /\
     total st = List.length el /\ skipped st + total st = List.length rs /\
     Forall (printed_for st) (stdout st) /\
     (stage st = Exited 0 ->
        completed st = List.length el /\ List.length (stdout st) = List.length el)) /\
  (In Eof sched -> List.length rs = 25 -> List.length el = 5 ->
     batches st = [el] /\ skipped st = 20 /\
     (stage st = Exited 0 -> completed st = 5 /\ List.length (stdout st) = 5)).
Proof.
  intros Hrun rs el.
  destruct (run_batches overwrite crash sched st Hrun) as [Hflush Hread].
  destruct (run_coherent overwrite crash sched st Hrun) as [[A1 A2 A3] Hrep].
  assert (Hdone : In Eof sched -> stage st = Exited 0 ->
                  completed st = List.length el /\ List.length (stdout st) = List.length el).
  { intros Heof Hexit. destruct (Hflush Heof) as [_ Hrec _ _ _].
    unfold reported in Hrep. rewrite Hexit in Hrep.
    destruct Hrep as [(_ & _ & Hall) | (Hcode & _)]; [| discriminate].
    destruct (all_fulfilled _ Hall) as [Hnone Hprod].
    rewrite (A2 Hnone), A1, Hprod. fold (batches st). fold el in Hrec.
    now rewrite Hrec. }
  split; [| split].
  - intros Hr. destruct (Hread Hr) as [_ [H1 H2 H3 _ _]]. auto.
  - intros Heof. destruct (Hflush Heof) as [_ H1 H2 H3 H4]. repeat split; auto.
    + now apply Hdone.
    + now apply Hdone.
  - intros Heof Hrs Hel. destruct (Hflush Heof) as [_ H1 H2 H3 H4].
    split; [| split].
    + apply single_short_batch; auto. unfold BATCH_SIZE. lia.
    + unfold el, rs in *. lia.
    + intros Hexit. destruct (Hdone Heof Hexit) as [D1 D2]. unfold el, rs in *. lia.
Qed.

End Batcher.

(** ** Errors *)

Section GeneratorErrors.
Import JS Generate.
Variables overwrite crash : bool.








(** *** A malformed line *)







End GeneratorErrors.

Section ExporterErrors.
Import JS Exporter.
Variable server : endpoint.

(** *** No function of the exporter catches an exception *)



















(** *** Nor replaces it by another *)

















End ExporterErrors.

Section ExporterReports.
Import JS Exporter.
Variable server : endpoint.

Definition reports_nothing (ev : event) : Prop :=
  match ev with
  | Failure _ => False
  | _ => True
  end.











End ExporterReports.

Section Errors.
Import JS.



End Errors.

(** ** The text of a value read back *)

Section Strings.
Import JS JSON.

Lemma parse_chars_escape (c : ascii) (t : string) :
  parse_chars (escape_char c ++ t)%string = cons_char c (parse_chars t).
Proof. destruct c as [[] [] [] [] [] [] [] []]; reflexivity. Qed.

Lemma parse_chars_quote_body (s rest : string) :
  parse_chars (quote_body s ++ String dquote rest)%string = Some (s, rest).
Proof.
  induction s as [| c s IH]; [reflexivity |].
  cbn [quote_body]. rewrite string_app_assoc, parse_chars_escape, IH. reflexivity.
Qed.

Lemma parse_chars_quote (s rest : string) :
  exists body : string,
    (quote s ++ rest)%string = String dquote body /\ parse_chars body = Some (s, rest).
Proof.
  exists (quote_body s ++ String dquote rest)%string. split.
  - unfold quote. cbn [String.append]. now rewrite string_app_assoc.
  - apply parse_chars_quote_body.
Qed.
End Strings.

Section Numbers.
Import JS JSON.

Lemma delimiter_not_digit (rest : string) :
  delimiter_next rest = true ->
  fraction_next rest = false /\
  match rest with EmptyString => True | String c _ => is_digit c = false end.
Proof.
  destruct rest as [| c r]; [now split |].
  destruct c as [[] [] [] [] [] [] [] []]; cbn; intros H; try discriminate H; now split.
Qed.

Lemma span_digits_app (d rest : string) :
  all_digits d = true ->
  match rest with EmptyString => True | String c _ => is_digit c = false end ->
  span_digits (d ++ rest)%string = (d, rest).
Proof.
  intros Hd Hr. induction d as [| c d IH].
  - destruct rest as [| c r]; [reflexivity |]. cbn [String.append span_digits].
    now rewrite Hr.
  - cbn [all_digits] in Hd. apply andb_prop in Hd. destruct Hd as [Hc Hd].
    cbn [String.append span_digits]. rewrite Hc, (IH Hd). reflexivity.
Qed.

Lemma parse_digits_string_of_N (n : N) (rest : string) :
  delimiter_next rest = true ->
  parse_digits (string_of_N n ++ rest)%string = Some (n, rest).
Proof.
  intros Hrest. destruct (delimiter_not_digit rest Hrest) as [Hf Hd].
  unfold parse_digits.
  rewrite (span_digits_app _ _ (string_of_N_digits n) Hd).
  destruct (string_of_N_head n) as (c & s & Hs & Hhead).
  pose proof (uint_of_string_of_N n) as Hu.
  assert (Hs' := Hs). rewrite Hs' in Hu |- *. clear Hs'.
  assert (Hz : Ascii.eqb c "0"%char && negb (String.eqb s "") = false).
  { destruct (Ascii.eqb_spec c "0"%char) as [-> | Hc]; [| reflexivity].
    rewrite Hs in Hhead. destruct s as [| c' s']; [reflexivity |].
    destruct c' as [[] [] [] [] [] [] [] []]; discriminate Hhead. }
  rewrite Hz, Hf, Hu. now rewrite DecimalN.Unsigned.of_to.
Qed.

Lemma string_of_N_not_minus (n : N) :
  exists (c : ascii) (s : string),
    string_of_N n = String c s /\ Ascii.eqb c "-"%char = false /\ is_digit c = true.
Proof.
  destruct (string_of_N_head n) as (c & s & Hs & _).
  pose proof (string_of_N_digits n) as Hd. rewrite Hs in Hd.
  cbn [all_digits] in Hd. apply andb_prop in Hd. destruct Hd as [Hc _].
  exists c, s. split; [exact Hs |]. split; [| exact Hc].
  destruct (Ascii.eqb_spec c "-"%char) as [-> |]; [discriminate Hc | reflexivity].
Qed.

Lemma parse_number_string_of_Z (n : Z) (rest : string) :
  delimiter_next rest = true ->
  parse_number (string_of_Z n ++ rest)%string = Some (JNum n, rest).
Proof.
  intros Hrest. destruct n as [| p | p].
  - change 0%Z with (Z.of_N 0). rewrite string_of_Z_of_N.
    destruct (string_of_N_not_minus 0) as (c & s & Hs & Hm & _).
    pose proof (parse_digits_string_of_N 0 rest Hrest) as H.
    rewrite Hs in H |- *. cbn [String.append] in H |- *.
    unfold parse_number. now rewrite Hm, H.
  - change (Z.pos p) with (Z.of_N (N.pos p)). rewrite string_of_Z_of_N.
    destruct (string_of_N_not_minus (N.pos p)) as (c & s & Hs & Hm & _).
    pose proof (parse_digits_string_of_N (N.pos p) rest Hrest) as H.
    rewrite Hs in H |- *. cbn [String.append] in H |- *.
    unfold parse_number. now rewrite Hm, H.
  - rewrite string_of_Z_neg. cbn [String.append]. unfold parse_number.
    cbn [Ascii.eqb Bool.eqb]. now rewrite parse_digits_string_of_N.
Qed.
End Numbers.

Section Values.
Import JS JSON.

Lemma json_induction (P : json -> Prop)
  (Hnull : P JNull) (Hbool : forall b, P (JBool b)) (Hnum : forall n, P (JNum n))
  (Hstr : forall s, P (JStr s))
  (Harr : forall l, Forall P l -> P (JArr l))
  (Hobj : forall m, Forall (fun kv => P (snd kv)) m -> P (JObj m)) :
  forall v : json, P v.
Proof.
  fix IH 1. intros [| b | n | s | l | m].
  - exact Hnull.
  - apply Hbool.
  - apply Hnum.
  - apply Hstr.
  - apply Harr. revert l. fix IHl 1. intros [| x l].
    + constructor.
    + constructor; [apply IH | apply IHl].
  - apply Hobj. revert m. fix IHm 1. intros [| [k x] m].
    + constructor.
    + constructor; [apply IH | apply IHm].
Qed.

Lemma proper_array (l : list json) : proper (JArr l) <-> Forall proper l.
Proof.
  cbn [proper]. induction l as [| x l IH].
  - split; [constructor | trivial].
  - split.
    + intros [Hx Hl]. constructor; [exact Hx | now apply IH].
    + intros H. inversion H; subst. split; [assumption | now apply IH].
Qed.

Lemma proper_object (m : list (string * json)) :
  proper (JObj m) <-> in_creation_order m /\ Forall (fun kv => proper (snd kv)) m.
Proof.
  cbn [proper].
  assert (H : (fix all (m : list (string * json)) : Prop :=
                 match m with
                 | [] => True
                 | kv :: m' => proper (snd kv) /\ all m'
                 end) m <-> Forall (fun kv => proper (snd kv)) m).
  { induction m as [| kv m IH].
    - split; [constructor | trivial].
    - split.
      + intros [Hx Hl]. constructor; [exact Hx | now apply IH].
      + intros H. inversion H; subst. split; [assumption | now apply IH]. }
  tauto.
Qed.

Lemma weight_array (l : list json) : weight (JArr l) = S (elements_weight l).
Proof.
  cbn [weight]. apply f_equal. induction l as [| x l IH]; [reflexivity |].
  cbn [elements_weight]. now rewrite IH.
Qed.

Lemma weight_object (m : list (string * json)) : weight (JObj m) = S (members_weight m).
Proof.
  cbn [weight]. apply f_equal. induction m as [| kv m IH]; [reflexivity |].
  cbn [members_weight]. now rewrite IH.
Qed.

Lemma join_elements (x : json) (l : list json) :
  join "," (map stringify (x :: l)) = (stringify x ++ elements_text l)%string.
Proof.
  revert x. induction l as [| y l IH]; intros x.
  - cbn. now rewrite string_app_nil_r.
  - change (join "," (map stringify (x :: y :: l)))
      with (stringify x ++ "," ++ join "," (map stringify (y :: l)))%string.
    rewrite IH. reflexivity.
Qed.

Lemma join_members (kv : string * json) (m : list (string * json)) :
  join "," (map (fun kv => match kv with
                           | (k, x) => quote k ++ ":" ++ stringify x
                           end)%string (kv :: m))
  = (member_text kv ++ members_text m)%string.
Proof.
  revert kv. induction m as [| kv' m IH]; intros [k x].
  - cbn. now rewrite string_app_nil_r.
  - specialize (IH kv'). cbn [map] in IH |- *.
    change (join "," ?l) with (join "," l) in IH.
    match goal with
    | |- join "," (?a :: ?b :: ?l) = _ =>
        change (join "," (a :: b :: l)) with (a ++ "," ++ join "," (b :: l))%string
    end.
    rewrite IH. reflexivity.
Qed.

Lemma stringify_array (x : json) (l : list json) (rest : string) :
  (stringify (JArr (x :: l)) ++ rest)%string
  = String "[" (stringify x ++ (elements_text l ++ String "]" rest))%string.
Proof.
  cbn [stringify]. rewrite join_elements.
  cbn [String.append]. now rewrite !string_app_assoc.
Qed.

Lemma stringify_object (kv : string * json) (m : list (string * json)) (rest : string) :
  (stringify (JObj (kv :: m)) ++ rest)%string
  = String "{" (member_text kv ++ (members_text m ++ String "}" rest))%string.
Proof.
  cbn [stringify]. rewrite join_members.
  cbn [String.append]. now rewrite !string_app_assoc.
Qed.

Lemma digit_opens_number (c : ascii) :
  is_digit c = true \/ c = "-"%char ->
  opens_value c = true /\
  Ascii.eqb c "n"%char = false /\ Ascii.eqb c "t"%char = false /\
  Ascii.eqb c "f"%char = false /\ Ascii.eqb c dquote = false /\
  Ascii.eqb c "["%char = false /\ Ascii.eqb c "{"%char = false.
Proof.
  destruct c as [[] [] [] [] [] [] [] []]; cbn; intros [H | H];
    try discriminate H; repeat split.
Qed.

Lemma string_of_Z_head (n : Z) :
  exists (c : ascii) (s : string),
    string_of_Z n = String c s /\ (is_digit c = true \/ c = "-"%char).
Proof.
  destruct n as [| p | p].
  - exists "0"%char, "". split; [reflexivity | now left].
  - change (Z.pos p) with (Z.of_N (N.pos p)). rewrite string_of_Z_of_N.
    destruct (string_of_N_not_minus (N.pos p)) as (c & s & Hs & _ & Hd).
    exists c, s. split; [exact Hs | now left].
  - rewrite string_of_Z_neg. eexists _, _. split; [reflexivity | now right].
Qed.

Lemma stringify_head (v : json) :
  exists (c : ascii) (s : string), stringify v = String c s /\ opens_value c = true.
Proof.
  destruct v as [| [] | n | s | l | m]; try (eexists _, _; split; reflexivity).
  destruct (string_of_Z_head n) as (c & s & Hs & Hc).
  exists c, s. split; [exact Hs |]. now apply digit_opens_number.
Qed.

Lemma skip_ws_opens (c : ascii) (s : string) :
  opens_value c = true -> skip_ws (String c s) = String c s.
Proof.
  unfold opens_value. intros H. cbn [skip_ws].
  destruct (is_ws c); [discriminate H | reflexivity].
Qed.

Lemma skip_ws_delimiter (s : string) : delimiter_next s = true -> skip_ws s = s.
Proof.
  destruct s as [| c s]; [reflexivity |].
  destruct c as [[] [] [] [] [] [] [] []]; cbn; intros H; try discriminate H; reflexivity.
Qed.

Lemma elements_text_delimiter (l : list json) (rest : string) :
  delimiter_next (elements_text l ++ String "]" rest)%string = true.
Proof. destruct l; reflexivity. Qed.

Lemma members_text_delimiter (m : list (string * json)) (rest : string) :
  delimiter_next (members_text m ++ String "}" rest)%string = true.
Proof. destruct m; reflexivity. Qed.

Lemma parse_elements_text (l : list json) :
  Forall parses_back l -> Forall proper l ->
  forall (fuel : nat) (rest : string),
    S (elements_weight l) <= fuel ->
    parse_elements fuel (elements_text l ++ String "]" rest)%string = Some (l, rest).
Proof.
  intros IH Hp. induction l as [| x l IHl]; intros fuel rest Hfuel.
  - destruct fuel as [| fuel]; [lia |]. reflexivity.
  - inversion IH as [| ? ? IHx IH']; subst. inversion Hp as [| ? ? Hx Hl]; subst.
    cbn [elements_weight] in Hfuel.
    destruct fuel as [| fuel]; [lia |].
    cbn [elements_text]. cbn [String.append parse_elements Ascii.eqb Bool.eqb].
    destruct (stringify_head x) as (c & s & Hs & Hc).
    rewrite string_app_assoc.
    assert (Hskip : skip_ws (stringify x ++ (elements_text l ++ String "]" rest))%string
                    = (stringify x ++ (elements_text l ++ String "]" rest))%string).
    { rewrite Hs. cbn [String.append]. now apply skip_ws_opens. }
    rewrite Hskip.
    rewrite (IHx Hx fuel _ ltac:(lia) (elements_text_delimiter l rest)).
    rewrite (skip_ws_delimiter _ (elements_text_delimiter l rest)).
    rewrite (IHl IH' Hl fuel rest ltac:(lia)). reflexivity.
Qed.

Lemma parse_member_text (kv : string * json) (fuel : nat) (rest : string) :
  parses_back (snd kv) -> proper (snd kv) ->
  S (weight (snd kv)) <= fuel -> delimiter_next rest = true ->
  parse_member fuel (member_text kv ++ rest)%string = Some (kv, rest).
Proof.
  intros IH Hp Hfuel Hrest. destruct kv as [k x]. cbn [fst snd] in *.
  destruct fuel as [| fuel]; [lia |].
  unfold member_text. cbn [fst snd]. rewrite !string_app_assoc.
  destruct (parse_chars_quote k (":" ++ (stringify x ++ rest))%string) as (body & Hq & Hb).
  rewrite Hq. cbn [parse_member]. rewrite Ascii.eqb_refl, Hb.
  cbn [String.append].
  change (skip_ws (String ":" ?r)) with (String ":"%char r).
  cbn [Ascii.eqb Bool.eqb].
  destruct (stringify_head x) as (c & s & Hs & Hc).
  assert (Hskip : skip_ws (stringify x ++ rest)%string = (stringify x ++ rest)%string).
  { rewrite Hs. cbn [String.append]. now apply skip_ws_opens. }
  rewrite Hskip, (IH Hp fuel rest ltac:(lia) Hrest). reflexivity.
Qed.

Lemma parse_members_text (m : list (string * json)) :
  Forall (fun kv => parses_back (snd kv)) m -> Forall (fun kv => proper (snd kv)) m ->
  forall (fuel : nat) (rest : string),
    S (members_weight m) <= fuel ->
    parse_members fuel (members_text m ++ String "}" rest)%string = Some (m, rest).
Proof.
  intros IH Hp. induction m as [| kv m IHm]; intros fuel rest Hfuel.
  - destruct fuel as [| fuel]; [lia |]. reflexivity.
  - inversion IH as [| ? ? IHx IH']; subst. inversion Hp as [| ? ? Hx Hl]; subst.
    cbn [members_weight] in Hfuel.
    destruct fuel as [| fuel]; [lia |].
    cbn [members_text]. cbn [String.append parse_members Ascii.eqb Bool.eqb].
    rewrite string_app_assoc.
    assert (Hskip : skip_ws (member_text kv ++ (members_text m ++ String "}" rest))%string
                    = (member_text kv ++ (members_text m ++ String "}" rest))%string).
    { reflexivity. }
    rewrite Hskip.
    rewrite (parse_member_text kv fuel _ IHx Hx ltac:(lia) (members_text_delimiter m rest)).
    rewrite (skip_ws_delimiter _ (members_text_delimiter m rest)).
    rewrite (IHm IH' Hl fuel rest ltac:(lia)). reflexivity.
Qed.

Lemma parse_value_stringify (v : json) : parses_back v.
Proof.
  induction v as [| b | n | s | l IH | m IH] using json_induction;
    intros Hp fuel rest Hfuel Hrest.
  - destruct fuel as [| fuel]; [cbn in Hfuel; lia |]. reflexivity.
  - destruct fuel as [| fuel]; [cbn in Hfuel; lia |]. destruct b; reflexivity.
  - destruct fuel as [| fuel]; [cbn in Hfuel; lia |].
    pose proof (parse_number_string_of_Z n rest Hrest) as Hn.
    cbn [stringify]. destruct (string_of_Z_head n) as (c & s & Hs & Hc).
    rewrite Hs in Hn |- *. cbn [String.append] in Hn |- *.
    destruct (digit_opens_number c Hc) as (_ & H1 & H2 & H3 & H4 & H5 & H6).
    cbn [parse_value]. now rewrite H1, H2, H3, H4, H5, H6.
  - destruct fuel as [| fuel]; [cbn in Hfuel; lia |].
    cbn [stringify]. destruct (parse_chars_quote s rest) as (body & Hq & Hb).
    rewrite Hq. cbn [parse_value]. rewrite Ascii.eqb_refl.
    change (Ascii.eqb dquote "n") with false. change (Ascii.eqb dquote "t") with false.
    change (Ascii.eqb dquote "f") with false. now rewrite Hb.
  - rewrite weight_array in Hfuel. apply proper_array in Hp.
    destruct fuel as [| fuel]; [lia |].
    destruct l as [| x l]; [reflexivity |].
    inversion IH as [| ? ? IHx IH']; subst. inversion Hp as [| ? ? Hx Hl]; subst.
    cbn [elements_weight] in Hfuel.
    rewrite stringify_array.
    destruct (stringify_head x) as (c & s & Hs & Hc).
    pose proof (IHx Hx fuel _ ltac:(lia) (elements_text_delimiter l rest)) as Hv.
    rewrite Hs in Hv |- *. cbn [String.append] in Hv |- *.
    cbn [parse_value Ascii.eqb Bool.eqb]. rewrite (skip_ws_opens _ _ Hc).
    assert (Hb : Ascii.eqb c "]"%char = false).
    { unfold opens_value in Hc. destruct (Ascii.eqb c "]"%char); [| reflexivity].
      now rewrite andb_false_r in Hc. }
    rewrite Hb, Hv.
    rewrite (skip_ws_delimiter _ (elements_text_delimiter l rest)).
    rewrite (parse_elements_text l IH' Hl fuel rest ltac:(lia)). reflexivity.
  - rewrite weight_object in Hfuel. apply proper_object in Hp. destruct Hp as [Ho Hp].
    destruct fuel as [| fuel]; [lia |].
    destruct m as [| kv m]; [reflexivity |].
    inversion IH as [| ? ? IHx IH']; subst. inversion Hp as [| ? ? Hx Hl]; subst.
    cbn [members_weight] in Hfuel.
    rewrite stringify_object.
    pose proof (parse_member_text kv fuel _ IHx Hx ltac:(lia)
                  (members_text_delimiter m rest)) as Hv.
    set (tail := (members_text m ++ String "}" rest)%string) in *.
    assert (Hhead : exists body : string,
               (member_text kv ++ tail)%string = String dquote body).
    { eexists. unfold member_text, quote. cbn [String.append]. reflexivity. }
    destruct Hhead as [body Hhead]. rewrite Hhead in Hv |- *.
    cbn [parse_value Ascii.eqb Bool.eqb].
    rewrite (skip_ws_opens dquote body eq_refl).
    change (Ascii.eqb dquote "}") with false. cbv iota.
    rewrite Hv. unfold tail.
    rewrite (skip_ws_delimiter _ (members_text_delimiter m rest)).
    rewrite (parse_members_text m IH' Hl fuel rest ltac:(lia)).
    unfold in_creation_order in Ho. now rewrite Ho.
Qed.
End Values.

Section RoundTrip.
Import JS JSON.

Lemma string_of_Z_length (n : Z) : 1 <= String.length (string_of_Z n).
Proof. destruct (string_of_Z_head n) as (c & s & -> & _). cbn. lia. Qed.

Lemma weight_stringify (v : json) : weight v <= String.length (stringify v).
Proof.
  induction v as [| b | n | s | l IH | m IH] using json_induction.
  - cbn. lia.
  - destruct b; cbn; lia.
  - cbn [weight stringify]. apply string_of_Z_length.
  - cbn. lia.
  - rewrite weight_array. destruct l as [| x l]; [cbn; lia |].
    rewrite <- (string_app_nil_r (stringify (JArr (x :: l)))), stringify_array.
    cbn [String.length]. rewrite string_length_app.
    inversion IH as [| ? ? IHx IH']; subst. cbn [elements_weight].
    enough (elements_weight l <= String.length (elements_text l ++ "]")%string - 1 /\
            1 <= String.length (elements_text l ++ "]")%string) by lia.
    clear IHx IH. induction l as [| y l IHl]; [cbn; lia |].
    inversion IH' as [| ? ? IHy IH'']; subst.
    cbn [elements_weight elements_text]. cbn [String.append String.length].
    rewrite string_app_assoc, string_length_app.
    specialize (IHl IH''). lia.
  - rewrite weight_object. destruct m as [| kv m]; [cbn; lia |].
    rewrite <- (string_app_nil_r (stringify (JObj (kv :: m)))), stringify_object.
    cbn [String.length]. rewrite string_length_app.
    inversion IH as [| ? ? IHx IH']; subst. cbn [members_weight].
    assert (Hm : forall kv : string * json,
               weight (snd kv) <= String.length (stringify (snd kv)) ->
               S (S (weight (snd kv))) <= String.length (member_text kv)).
    { intros [k x] H. unfold member_text, quote. cbn [fst snd String.append String.length] in *.
      rewrite !string_length_app. cbn [String.length]. lia. }
    specialize (Hm kv IHx).
    enough (members_weight m <= String.length (members_text m ++ "}")%string - 1 /\
            1 <= String.length (members_text m ++ "}")%string) by lia.
    clear IHx IH Hm. induction m as [| kv' m IHm]; [cbn; lia |].
    inversion IH' as [| ? ? IHy IH'']; subst.
    assert (Hm : S (S (weight (snd kv'))) <= String.length (member_text kv')).
    { destruct kv' as [k x]. unfold member_text, quote.
      cbn [fst snd String.append String.length] in *.
      rewrite !string_length_app. cbn [String.length]. lia. }
    cbn [members_weight members_text]. cbn [String.append String.length].
    rewrite string_app_assoc, string_length_app.
    specialize (IHm IH''). lia.
Qed.

Lemma parse_stringify (v : json) : proper v -> parse (stringify v) = Some v.
Proof.
  intros Hp. unfold parse.
  destruct (stringify_head v) as (c & s & Hs & Hc).
  assert (Hskip : skip_ws (stringify v) = stringify v).
  { rewrite Hs. now apply skip_ws_opens. }
  rewrite Hskip.
  pose proof (parse_value_stringify v Hp (S (String.length (stringify v))) ""
                ltac:(pose proof (weight_stringify v); lia) eq_refl) as H.
  rewrite string_app_nil_r in H. now rewrite H.
Qed.
End RoundTrip.

(** ** The order of the properties of an object *)

Section KeyOrder.
Import JS JSON.

Lemma array_index_canonical (k : string) (i : N) :
  array_index k = Some i -> k = string_of_N i.
Proof.
  unfold array_index. destruct k as [| c s]; [discriminate |].
  destruct (all_digits (String c s) &&
            (String.eqb (String c s) "0" || negb (Ascii.eqb c "0"%char))) eqn:E;
    [| discriminate].
  destruct (NilZero.uint_of_string (String c s)) as [d |] eqn:Hd; [| discriminate].
  cbn zeta. destruct (N.of_uint d <? 4294967295)%N; [| discriminate].
  intros H. injection H as <-.
  unfold string_of_N. rewrite DecimalN.Unsigned.to_of.
  assert (Hn : Decimal.unorm d = d).
  { apply andb_prop in E. destruct E as [_ E]. apply orb_prop in E. destruct E as [E | E].
    - apply String.eqb_eq in E. rewrite E in Hd. cbn in Hd. injection Hd as <-. reflexivity.
    - cbn [NilZero.uint_of_string NilEmpty.uint_of_string] in Hd.
      destruct c as [[] [] [] [] [] [] [] []]; cbn in E; try discriminate E;
        cbn in Hd; destruct (NilEmpty.uint_of_string s); try discriminate Hd;
        injection Hd as <-; reflexivity. }
  rewrite Hn. symmetry. now apply NilZero.sus.
Qed.

Lemma array_index_inj (k k' : string) (i : N) :
  array_index k = Some i -> array_index k' = Some i -> k = k'.
Proof.
  intros H H'. apply array_index_canonical in H, H'. congruence.
Qed.

Lemma has_key_In {A : Type} (k : string) (m : list (string * A)) :
  has_key k m = true <-> In k (map fst m).
Proof.
  unfold has_key. induction m as [| [k' v] m IH]; cbn [assoc map fst In].
  - split; [discriminate | contradiction].
  - destruct (String.eqb_spec k k') as [-> | Hk].
    + split; auto.
    + rewrite IH. split; [auto | intros [H | H]; [congruence | exact H]].
Qed.

Lemma ordered_bound (lo : N) (ks : list string) (k : string) (i : N) :
  ordered lo ks -> In k ks -> array_index k = Some i -> (lo <= i)%N.
Proof.
  revert lo. induction ks as [| k' ks IH]; intros lo Ho Hin Hi; [contradiction |].
  cbn [ordered] in Ho. destruct Hin as [-> | Hin].
  - rewrite Hi in Ho. tauto.
  - destruct (array_index k') as [j |].
    + destruct Ho as [Hj Ho]. specialize (IH _ Ho Hin Hi). lia.
    + destruct Ho as (_ & _ & Ho). exact (IH _ Ho Hin Hi).
Qed.

Lemma ordered_plain (lo lo' : N) (ks : list string) :
  Forall (fun k => array_index k = None) ks -> ordered lo ks -> ordered lo' ks.
Proof.
  induction ks as [| k ks IH]; intros Hp Ho; [exact I |].
  inversion Hp as [| ? ? Hk Hp']; subst.
  cbn [ordered] in *. rewrite Hk in *.
  destruct Ho as (H1 & H2 & H3). auto.
Qed.

Lemma ordered_lower (lo lo' : N) (ks : list string) :
  (lo' <= lo)%N -> ordered lo ks -> ordered lo' ks.
Proof.
  revert lo lo'. induction ks as [| k ks IH]; intros lo lo' Hle Ho; [exact I |].
  cbn [ordered] in *. destruct (array_index k) as [i |].
  - destruct Ho as [Hi Ho]. split; [lia | exact Ho].
  - destruct Ho as (H1 & H2 & H3). repeat split; try assumption.
    now apply (IH lo lo').
Qed.

Lemma replace_key_keys {A : Type} (k : string) (v : A) (m : list (string * A)) :
  map fst (replace_key k v m) = map fst m.
Proof.
  induction m as [| [k' v'] m IH]; [reflexivity |].
  cbn [replace_key]. destruct (String.eqb k k'); cbn [map fst]; [reflexivity |].
  now rewrite IH.
Qed.

Lemma ordered_insert_index {A : Type} (i : N) (k : string) (v : A)
  (m : list (string * A)) :
  array_index k = Some i -> ~ In k (map fst m) ->
  forall lo : N,
    (lo <= i)%N -> ordered lo (map fst m) -> ordered lo (map fst (insert_index i k v m)).
Proof.
  intros Hi. induction m as [| [k' v'] m IH]; intros Hin lo Hlo Ho.
  - cbn. rewrite Hi. split; [exact Hlo | exact I].
  - cbn [insert_index]. cbn [map fst ordered] in Ho.
    cbn [map fst In] in Hin.
    destruct (array_index k') as [j |] eqn:Hj.
    + destruct Ho as [Hlj Ho].
      destruct (N.ltb_spec j i) as [Hlt | Hge].
      * cbn [map fst ordered]. rewrite Hj. split; [exact Hlj |].
        apply IH; [tauto | lia | exact Ho].
      * assert (j <> i).
        { intros ->. apply Hin. left. now apply (array_index_inj k' k i). }
        cbn [map fst ordered]. rewrite Hi, Hj.
        split; [exact Hlo |]. split; [lia | exact Ho].
    + cbn [map fst ordered]. rewrite Hi, Hj.
      split; [exact Hlo |]. destruct Ho as (H1 & H2 & H3).
      repeat split; try assumption. now apply (ordered_plain lo).
Qed.

Lemma ordered_append (k : string) (ks : list string) :
  array_index k = None -> ~ In k ks ->
  forall lo : N, ordered lo ks -> ordered lo (ks ++ [k]).
Proof.
  intros Hk. induction ks as [| k' ks IH]; intros Hin lo Ho.
  - cbn. rewrite Hk. repeat split; auto.
  - cbn [In] in Hin. cbn [app ordered] in *.
    destruct (array_index k') as [j |].
    + destruct Ho as [Hj Ho]. split; [exact Hj |]. apply IH; tauto.
    + destruct Ho as (H1 & H2 & H3). repeat split.
      * intros H. apply in_app_or in H. destruct H as [H | [H | []]]; [tauto |].
        apply Hin. left. congruence.
      * apply Forall_app. split; [exact H2 | constructor; [exact Hk | constructor]].
      * apply IH; tauto.
Qed.

Lemma ordered_define {A : Type} (k : string) (v : A) (m : list (string * A)) :
  ordered 0 (map fst m) -> ordered 0 (map fst (define k v m)).
Proof.
  intros Ho. unfold define. destruct (has_key k m) eqn:Hk.
  - now rewrite replace_key_keys.
  - assert (Hin : ~ In k (map fst m)).
    { intros H. apply has_key_In in H. congruence. }
    destruct (array_index k) as [i |] eqn:Hi.
    + apply ordered_insert_index; [exact Hi | exact Hin | lia | exact Ho].
    + rewrite map_app. cbn [map fst]. now apply ordered_append.
Qed.

Lemma ordered_fold (extra m : list (string * json)) :
  ordered 0 (map fst m) ->
  ordered 0 (map fst (fold_left (fun acc kv => define (fst kv) (snd kv) acc) extra m)).
Proof.
  revert m. induction extra as [| kv extra IH]; intros m Ho; [exact Ho |].
  cbn [fold_left]. apply IH. now apply ordered_define.
Qed.

Lemma ordered_no_key (acc : list string) (k : string) (ks : list string) :
  forall lo : N, ordered lo (acc ++ k :: ks) -> ~ In k acc.
Proof.
  induction acc as [| k' acc IH]; intros lo Ho; [intros [] |].
  cbn [app ordered] in Ho. intros [-> | Hin].
  - destruct (array_index k) as [j |] eqn:Hj.
    + destruct Ho as [_ Ho].
      pose proof (ordered_bound _ _ k j Ho ltac:(apply in_elt) Hj). lia.
    + destruct Ho as (H1 & _). apply H1. apply in_elt.
  - destruct (array_index k') as [j |].
    + destruct Ho as [_ Ho]. exact (IH _ Ho Hin).
    + destruct Ho as (_ & _ & Ho). exact (IH _ Ho Hin).
Qed.

Lemma insert_index_last {A : Type} (i : N) (k : string) (v : A)
  (acc : list (string * A)) (ks : list string) :
  array_index k = Some i ->
  forall lo : N,
    ordered lo (map fst acc ++ k :: ks) -> insert_index i k v acc = acc ++ [(k, v)].
Proof.
  intros Hi. induction acc as [| [k' v'] acc IH]; intros lo Ho; [reflexivity |].
  cbn [map fst app ordered] in Ho. cbn [insert_index app].
  destruct (array_index k') as [j |] eqn:Hj.
  - destruct Ho as [_ Ho].
    pose proof (ordered_bound _ _ k i Ho ltac:(apply in_elt) Hi) as Hb.
    destruct (N.ltb_spec j i) as [_ | Hge]; [| lia].
    now rewrite (IH _ Ho).
  - destruct Ho as (_ & H2 & _).
    rewrite Forall_forall in H2. specialize (H2 k ltac:(apply in_elt)). congruence.
Qed.

Lemma define_last {A : Type} (k : string) (v : A) (acc : list (string * A))
  (ks : list string) :
  ordered 0 (map fst acc ++ k :: ks) -> define k v acc = acc ++ [(k, v)].
Proof.
  intros Ho. unfold define.
  assert (Hk : has_key k acc = false).
  { destruct (has_key k acc) eqn:E; [| reflexivity].
    apply has_key_In in E. now apply (ordered_no_key _ _ _ _ Ho) in E. }
  rewrite Hk. destruct (array_index k) as [i |] eqn:Hi; [| reflexivity].
  now apply (insert_index_last i k v acc ks Hi 0).
Qed.

Lemma fold_define_ordered (m acc : list (string * json)) :
  ordered 0 (map fst (acc ++ m)) ->
  fold_left (fun acc p => define (fst p) (snd p) acc) m acc = acc ++ m.
Proof.
  revert acc. induction m as [| [k v] m IH]; intros acc Ho.
  - now rewrite List.app_nil_r.
  - cbn [fold_left fst snd]. rewrite map_app in Ho. cbn [map fst] in Ho.
    rewrite (define_last k v acc (map fst m) Ho).
    rewrite IH; rewrite <- List.app_assoc; [reflexivity |].
    rewrite map_app. exact Ho.
Qed.

Lemma in_creation_order_ordered (m : list (string * json)) :
  in_creation_order m <-> ordered 0 (map fst m).
Proof.
  unfold in_creation_order. split.
  - intros H. rewrite <- H. now apply ordered_fold.
  - intros H. now apply (fold_define_ordered m []).
Qed.
End KeyOrder.

Section ProperValues.
Import JS JSON.

Lemma string_of_N_inj (a b : N) : string_of_N a = string_of_N b -> a = b.
Proof.
  intros H. pose proof (uint_of_string_of_N a) as Ha.
  rewrite H, uint_of_string_of_N in Ha. injection Ha as Ha.
  now apply DecimalN.Unsigned.to_uint_inj.
Qed.

Lemma array_index_large (n : N) :
  (4294967295 <= n)%N -> array_index (string_of_N n) = None.
Proof.
  intros Hn. destruct (array_index (string_of_N n)) as [i |] eqn:E; [| reflexivity].
  pose proof (array_index_canonical _ _ E) as Hc. apply string_of_N_inj in Hc. subst i.
  unfold array_index in E.
  destruct (string_of_N n) as [| c s]; [discriminate |].
  destruct (all_digits (String c s) && _); [| discriminate].
  destruct (NilZero.uint_of_string (String c s)) as [d |]; [| discriminate].
  cbn zeta in E. destruct (N.ltb_spec (N.of_uint d) 4294967295); [| discriminate].
  injection E as E. lia.
Qed.

Lemma indexed_from_keys {A : Type} (l : list A) :
  forall (i : nat) (k : string),
    In k (map fst (indexed_from i l)) -> exists j : nat, i <= j /\ k = string_of_nat j.
Proof.
  induction l as [| x l IH]; intros i k; [intros [] |].
  cbn [indexed_from map fst In]. intros [<- | H].
  - exists i. split; [lia | reflexivity].
  - destruct (IH _ _ H) as (j & Hj & ->). exists j. split; [lia | reflexivity].
Qed.

Lemma ordered_indexed_from {A : Type} (l : list A) :
  forall (i : nat) (lo : N),
    (lo <= N.of_nat i)%N -> ordered lo (map fst (indexed_from i l)).
Proof.
  induction l as [| x l IH]; intros i lo Hlo; [exact I |].
  cbn [indexed_from map fst ordered]. unfold string_of_nat at 1.
  destruct (N.ltb_spec (N.of_nat i) 4294967295) as [Hlt | Hge].
  - rewrite (array_index_string_of_N _ Hlt). split; [exact Hlo |]. apply IH. lia.
  - rewrite (array_index_large _ Hge). repeat split.
    + intros H. apply indexed_from_keys in H. destruct H as (j & Hj & H).
      unfold string_of_nat in H. apply string_of_N_inj in H. lia.
    + apply Forall_forall. intros k H. apply indexed_from_keys in H.
      destruct H as (j & Hj & ->). apply array_index_large. lia.
    + apply IH. lia.
Qed.

Lemma indexed_from_values {A : Type} (P : A -> Prop) (l : list A) :
  Forall P l -> forall i : nat, Forall (fun kv => P (snd kv)) (indexed_from i l).
Proof.
  induction 1 as [| x l Hx Hl IH]; intros i; constructor; [exact Hx | apply IH].
Qed.

Lemma define_values {A : Type} (P : A -> Prop) (k : string) (v : A)
  (m : list (string * A)) :
  P v -> Forall (fun kv => P (snd kv)) m -> Forall (fun kv => P (snd kv)) (define k v m).
Proof.
  intros Hv Hm. unfold define. destruct (has_key k m).
  - induction Hm as [| [k' v'] m Hx Hm IH]; [constructor |].
    cbn [replace_key]. destruct (String.eqb k k'); constructor; auto.
  - destruct (array_index k) as [i |].
    + induction Hm as [| [k' v'] m Hx Hm IH]; [repeat constructor; exact Hv |].
      cbn [insert_index]. destruct (array_index k') as [j |].
      * destruct (j <? i)%N; repeat constructor; auto.
      * repeat constructor; auto.
    + apply Forall_app. split; [exact Hm | repeat constructor; exact Hv].
Qed.

Lemma fold_define_values (extra m : list (string * json)) :
  Forall (fun kv => proper (snd kv)) extra -> Forall (fun kv => proper (snd kv)) m ->
  Forall (fun kv => proper (snd kv))
         (fold_left (fun acc kv => define (fst kv) (snd kv) acc) extra m).
Proof.
  intros He. revert m. induction He as [| kv extra Hx He IH]; intros m Hm; [exact Hm |].
  cbn [fold_left]. apply IH. now apply define_values.
Qed.

Lemma chars_proper (s : string) : Forall proper (chars s).
Proof. induction s; constructor; [exact I | assumption]. Qed.

Lemma own_properties_proper (v : value) :
  (forall j : json, v = Some j -> proper j) ->
  ordered 0 (map fst (own_properties v)) /\
  Forall (fun kv => proper (snd kv)) (own_properties v).
Proof.
  intros Hv. destruct v as [[| b | n | s | l | m] |]; cbn [own_properties];
    try (split; [exact I | constructor]).
  - split; [apply ordered_indexed_from; lia |].
    apply indexed_from_values, chars_proper.
  - specialize (Hv _ eq_refl). apply proper_array in Hv.
    split; [apply ordered_indexed_from; lia | now apply indexed_from_values].
  - specialize (Hv _ eq_refl). apply proper_object in Hv. destruct Hv as [Ho Hp].
    split; [now apply in_creation_order_ordered | exact Hp].
Qed.

Lemma proper_spread (v : value) (extra : list (string * json)) :
  (forall j : json, v = Some j -> proper j) ->
  Forall (fun kv => proper (snd kv)) extra ->
  proper (spread v extra).
Proof.
  intros Hv He. destruct (own_properties_proper v Hv) as [Ho Hp].
  unfold spread. apply proper_object. split.
  - apply in_creation_order_ordered. now apply ordered_fold.
  - now apply fold_define_values.
Qed.
End ProperValues.

Section OneLine.
Import JS JSON.

Lemma digits_one_line (s : string) : all_digits s = true -> index_of_newline s = None.
Proof.
  induction s as [| c s IH]; [reflexivity |].
  cbn [all_digits index_of_newline]. intros H. apply andb_prop in H. destruct H as [Hc Hs].
  rewrite (IH Hs).
  destruct c as [[] [] [] [] [] [] [] []]; try discriminate Hc; reflexivity.
Qed.

Lemma string_of_Z_one_line (n : Z) : index_of_newline (string_of_Z n) = None.
Proof.
  destruct n as [| p | p].
  - reflexivity.
  - change (Z.pos p) with (Z.of_N (N.pos p)). rewrite string_of_Z_of_N.
    apply digits_one_line, string_of_N_digits.
  - rewrite string_of_Z_neg. cbn [index_of_newline].
    change (Ascii.eqb "-" newline) with false. cbv iota.
    now rewrite (digits_one_line _ (string_of_N_digits (N.pos p))).
Qed.

Lemma escape_char_one_line (c : ascii) : index_of_newline (escape_char c) = None.
Proof. destruct c as [[] [] [] [] [] [] [] []]; reflexivity. Qed.

Lemma quote_one_line (s : string) : index_of_newline (quote s) = None.
Proof.
  unfold quote. change (String dquote ?r) with (String dquote "" ++ r)%string.
  apply index_of_newline_app. split; [reflexivity |].
  apply index_of_newline_app. split; [| reflexivity].
  induction s as [| c s IH]; [reflexivity |].
  cbn [quote_body]. apply index_of_newline_app. split; [apply escape_char_one_line | exact IH].
Qed.

Lemma stringify_one_line (v : json) : index_of_newline (stringify v) = None.
Proof.
  induction v as [| b | n | s | l IH | m IH] using json_induction.
  - reflexivity.
  - destruct b; reflexivity.
  - apply string_of_Z_one_line.
  - apply quote_one_line.
  - destruct l as [| x l]; [reflexivity |].
    rewrite <- (string_app_nil_r (stringify (JArr (x :: l)))), stringify_array.
    inversion IH as [| ? ? IHx IH']; subst.
    change (String "[" ?r) with (String "[" "" ++ r)%string.
    apply index_of_newline_app. split; [reflexivity |].
    apply index_of_newline_app. split; [exact IHx |].
    clear IHx IH. induction l as [| y l IHl]; [reflexivity |].
    inversion IH' as [| ? ? IHy IH'']; subst.
    cbn [elements_text]. rewrite !string_app_assoc.
    apply index_of_newline_app. split; [reflexivity |].
    apply index_of_newline_app. split; [exact IHy | now apply IHl].
  - destruct m as [| kv m]; [reflexivity |].
    rewrite <- (string_app_nil_r (stringify (JObj (kv :: m)))), stringify_object.
    inversion IH as [| ? ? IHx IH']; subst.
    assert (Hm : forall kv : string * json,
               index_of_newline (stringify (snd kv)) = None ->
               index_of_newline (member_text kv) = None).
    { intros kv' H. unfold member_text.
      apply index_of_newline_app. split; [apply quote_one_line |].
      apply index_of_newline_app. split; [reflexivity | exact H]. }
    change (String "{" ?r) with (String "{" "" ++ r)%string.
    apply index_of_newline_app. split; [reflexivity |].
    apply index_of_newline_app. split; [now apply Hm |].
    clear IHx IH. induction m as [| kv' m IHm]; [reflexivity |].
    inversion IH' as [| ? ? IHy IH'']; subst.
    cbn [members_text]. rewrite !string_app_assoc.
    apply index_of_newline_app. split; [reflexivity |].
    apply index_of_newline_app. split; [now apply Hm | now apply IHm].
Qed.
End OneLine.

Section ExportedLines.
Import JS Exporter.

Variable server : endpoint.
Hypothesis Hserver : serves_proper server.

Lemma fetch_loop_proper (q : query) (id : value) (fuel : nat) :
  forall (cursor : value) (items l : list json),
    Forall JSON.proper items ->
    snd (fetch_loop fuel server q id cursor items) = Done l -> Forall JSON.proper l.
Proof.
  induction fuel as [| fuel IH]; intros cursor items l Hi; [discriminate |].
  cbn [fetch_loop]. rewrite bind_outcome.
  destruct (snd (shopify server _)) as [d | e |] eqn:Hs; try discriminate.
  apply shopify_done in Hs. destruct Hs as (b & Hb & ->).
  rewrite bind_outcome.
  destruct (data b) as [c |] eqn:Hd; cbn [extract ret raise snd]; [| discriminate].
  assert (Hi' : Forall JSON.proper (items ++ map node (edges c))).
  { apply Forall_app. split; [exact Hi |].
    apply Forall_map. exact (Hserver _ b c Hb Hd). }
  destruct (negb (hasNextPage (pageInfo c))).
  - cbn. intros H. injection H as <-. exact Hi'.
  - now apply IH.
Qed.

Lemma fetchAllPages_proper (fuel : nat) (q : query) (id : value) (l : list json) :
  snd (fetchAllPages fuel server q id) = Done l -> Forall JSON.proper l.
Proof. apply fetch_loop_proper. constructor. Qed.

Lemma proper_enrich (product : json) (metafields variants media : list json) :
  JSON.proper product -> Forall JSON.proper metafields -> Forall JSON.proper variants ->
  Forall JSON.proper media ->
  JSON.proper (enrich product metafields variants media).
Proof.
  intros Hp Hmf Hv Hm. unfold enrich. apply proper_spread.
  - intros j H. injection H as <-. exact Hp.
  - repeat constructor; cbn [snd]; now apply proper_array.
Qed.

Lemma with_metafields_proper (fuel : nat) (variant v' : json) :
  JSON.proper variant -> snd (with_metafields fuel server variant) = Done v' ->
  JSON.proper v'.
Proof.
  intros Hp H. apply with_metafields_done in H.
  destruct H as (vid & mfs & _ & Hm & -> & _).
  apply proper_spread.
  - intros j H. injection H as <-. exact Hp.
  - repeat constructor. cbn [snd]. apply proper_array.
    exact (fetchAllPages_proper _ _ _ _ Hm).
Qed.

Lemma variant_as_proper (fuel : nat) (variant v' : json) :
  JSON.proper variant -> variant_as fuel server variant v' -> JSON.proper v'.
Proof.
  intros Hp H. apply with_metafields_done in H. now apply (with_metafields_proper fuel variant).
Qed.

Lemma exported_as_proper (fuel : nat) (product o : json) :
  JSON.proper product -> exported_as fuel server product o -> JSON.proper o.
Proof.
  intros Hp (pid & variants & media & metafields & enriched
             & Hid & Hv & Hm & Hmf & Hall & -> & _).
  apply fetchAllPages_proper in Hv, Hm, Hmf.
  apply proper_enrich; try assumption.
  induction Hall as [| x y l l' Hxy _ IH]; [constructor |].
  inversion Hv; subst. constructor; [| now apply IH].
  now apply (variant_as_proper fuel x y).
Qed.

Lemma export_product_proper (order : list nat * list nat) (fuel : nat)
  (product o : json) :
  JSON.proper product ->
  In o (stdout (fst (export_product order fuel server product))) -> JSON.proper o.
Proof.
  intros Hp Hin.
  destruct (export_product_outcome order fuel server product)
    as [[Hq _] | (o' & Ho & _ & Hex)].
  - rewrite Hq in Hin. destruct Hin.
  - rewrite Ho in Hin. destruct Hin as [<- | []].
    now apply (exported_as_proper fuel product).
Qed.

Lemma export_edges_proper (when : arrivals) (fuel : nat) (o : json) (es : list edge) :
  Forall (fun e => JSON.proper (node e)) es ->
  forall total : nat,
    In o (stdout (fst (export_edges when fuel server es total))) -> JSON.proper o.
Proof.
  induction 1 as [| e es He _ IH]; intros total; [intros [] |].
  cbn [export_edges]. rewrite bind_trace, stdout_app. intros H.
  apply in_app_or in H. destruct H as [H | H].
  - now apply (export_product_proper (when total) fuel (node e)).
  - destruct (snd (export_product (when total) fuel server (node e))); try destruct H.
    now apply IH in H.
Qed.

Lemma run_loop_proper (when : arrivals) (fuel : nat) (o : json) (turns : nat) :
  forall (cursor : value) (total : nat),
    In o (stdout (fst (run_loop when fuel server turns cursor total))) -> JSON.proper o.
Proof.
  induction turns as [| turns IH]; intros cursor total; [intros [] |].
  cbn [run_loop]. rewrite bind_trace, stdout_app, shopify_quiet. cbn [app].
  destruct (snd (shopify server _)) as [d | e |] eqn:Hs; try (cbn; contradiction).
  apply shopify_done in Hs. destruct Hs as (b & Hb & ->).
  rewrite bind_trace.
  destruct (data b) as [c |] eqn:Hd; cbn [extract ret raise fst snd app];
    [| cbn; contradiction].
  rewrite bind_trace, stdout_app. intros H.
  apply in_app_or in H. destruct H as [H | H].
  - apply export_edges_proper in H; [exact H |]. exact (Hserver _ b c Hb Hd).
  - destruct (snd (export_edges when fuel server (edges c) total)) as [total' | e |];
      try destruct H.
    rewrite bind_trace, stdout_app in H. cbn [tell fst snd stdout flat_map app] in H.
    destruct (negb (hasNextPage (pageInfo c))); [destruct H |].
    now apply IH in H.
Qed.

Lemma run_proper (when : arrivals) (fuel : nat) (o : json) :
  In o (stdout (fst (run when fuel server))) -> JSON.proper o.
Proof.
  unfold run. rewrite bind_trace. cbn [tell fst snd].
  rewrite stdout_app. cbn [stdout flat_map app].
  rewrite bind_trace, stdout_app. intros H.
  apply in_app_or in H. destruct H as [H | H].
  - now apply run_loop_proper in H.
  - destruct (snd (run_loop when fuel server fuel (Some JNull) 0)); destruct H.
Qed.
End ExportedLines.

(** ** What [JSON.parse] returns *)

Section ParsedValues.
Import JS JSON.

Lemma parse_number_proper (s r : string) (v : json) :
  parse_number s = Some (v, r) -> proper v.
Proof.
  unfold parse_number. destruct s as [| c s]; [discriminate |].
  destruct (Ascii.eqb c "-"%char).
  - destruct (parse_digits s) as [[n rest] |]; [| discriminate].
    destruct (n =? 0)%N; [discriminate |].
    intros H. injection H as <- _. exact I.
  - destruct (parse_digits (String c s)) as [[n rest] |]; [| discriminate].
    intros H. injection H as <- _. exact I.
Qed.

Lemma fold_define_proper (m : list (string * json)) :
  Forall (fun kv => proper (snd kv)) m ->
  proper (JObj (fold_left (fun acc p => define (fst p) (snd p) acc) m [])).
Proof.
  intros Hm. apply proper_object. split.
  - apply in_creation_order_ordered. now apply ordered_fold.
  - apply fold_define_values; [exact Hm | constructor].
Qed.

Lemma parse_value_proper (fuel : nat) :
  (forall (s r : string) (v : json), parse_value fuel s = Some (v, r) -> proper v) /\
  (forall (s r : string) (l : list json),
     parse_elements fuel s = Some (l, r) -> Forall proper l) /\
  (forall (s r : string) (kv : string * json),
     parse_member fuel s = Some (kv, r) -> proper (snd kv)) /\
  (forall (s r : string) (m : list (string * json)),
     parse_members fuel s = Some (m, r) -> Forall (fun kv => proper (snd kv)) m).
Proof.
  induction fuel as [| fuel (IHv & IHe & IHm & IHms)];
    [repeat split; intros; discriminate |].
  repeat split.
  - intros s r v. cbn [parse_value]. destruct s as [| c s]; [discriminate |].
    destruct (Ascii.eqb c "n"%char).
    { destruct (strip_prefix "ull" s); cbn; [| discriminate].
      intros H. injection H as <- _. exact I. }
    destruct (Ascii.eqb c "t"%char).
    { destruct (strip_prefix "rue" s); cbn; [| discriminate].
      intros H. injection H as <- _. exact I. }
    destruct (Ascii.eqb c "f"%char).
    { destruct (strip_prefix "alse" s); cbn; [| discriminate].
      intros H. injection H as <- _. exact I. }
    destruct (Ascii.eqb c dquote).
    { destruct (parse_chars s) as [[str r'] |]; [| discriminate].
      intros H. injection H as <- _. exact I. }
    destruct (Ascii.eqb c "["%char).
    { destruct (skip_ws s) as [| c1 r1]; [discriminate |].
      destruct (Ascii.eqb c1 "]"%char).
      { intros H. injection H as <- _. exact I. }
      destruct (parse_value fuel (String c1 r1)) as [[x r2] |] eqn:Hx; [| discriminate].
      destruct (parse_elements fuel (skip_ws r2)) as [[l r3] |] eqn:Hl; [| discriminate].
      intros H. injection H as <- _. apply proper_array.
      constructor; [exact (IHv _ _ _ Hx) | exact (IHe _ _ _ Hl)]. }
    destruct (Ascii.eqb c "{"%char).
    { destruct (skip_ws s) as [| c1 r1]; [discriminate |].
      destruct (Ascii.eqb c1 "}"%char).
      { intros H. injection H as <- _. apply proper_object. split; [reflexivity | constructor]. }
      destruct (parse_member fuel (String c1 r1)) as [[kv r2] |] eqn:Hx; [| discriminate].
      destruct (parse_members fuel (skip_ws r2)) as [[m r3] |] eqn:Hl; [| discriminate].
      intros H. injection H as <- _. apply (fold_define_proper (kv :: m)).
      constructor; [exact (IHm _ _ _ Hx) | exact (IHms _ _ _ Hl)]. }
    apply parse_number_proper.
  - intros s r l. cbn [parse_elements]. destruct s as [| c s]; [discriminate |].
    destruct (Ascii.eqb c "]"%char).
    { intros H. injection H as <- _. constructor. }
    destruct (Ascii.eqb c ","%char); [| discriminate].
    destruct (parse_value fuel (skip_ws s)) as [[x r2] |] eqn:Hx; [| discriminate].
    destruct (parse_elements fuel (skip_ws r2)) as [[l' r3] |] eqn:Hl; [| discriminate].
    intros H. injection H as <- _.
    constructor; [exact (IHv _ _ _ Hx) | exact (IHe _ _ _ Hl)].
  - intros s r kv. cbn [parse_member]. destruct s as [| c s]; [discriminate |].
    destruct (Ascii.eqb c dquote); [| discriminate].
    destruct (parse_chars s) as [[k r1] |]; [| discriminate].
    destruct (skip_ws r1) as [| c1 r2]; [discriminate |].
    destruct (Ascii.eqb c1 ":"%char); [| discriminate].
    destruct (parse_value fuel (skip_ws r2)) as [[x r3] |] eqn:Hx; [| discriminate].
    intros H. injection H as <- _. exact (IHv _ _ _ Hx).
  - intros s r m. cbn [parse_members]. destruct s as [| c s]; [discriminate |].
    destruct (Ascii.eqb c "}"%char).
    { intros H. injection H as <- _. constructor. }
    destruct (Ascii.eqb c ","%char); [| discriminate].
    destruct (parse_member fuel (skip_ws s)) as [[kv r2] |] eqn:Hx; [| discriminate].
    destruct (parse_members fuel (skip_ws r2)) as [[m' r3] |] eqn:Hl; [| discriminate].
    intros H. injection H as <- _.
    constructor; [exact (IHm _ _ _ Hx) | exact (IHms _ _ _ Hl)].
Qed.

Lemma parse_proper (text : string) (v : json) : parse text = Some v -> proper v.
Proof.
  unfold parse.
  destruct (parse_value _ _) as [[v' rest] |] eqn:Hv; [| discriminate].
  destruct (skip_ws rest); [| discriminate].
  intros H. injection H as <-.
  exact (proj1 (parse_value_proper _) _ _ _ Hv).
Qed.
End ParsedValues.

(** ** The exporter's lines read back *)

(** Claim C8.  Every record the exporter prints, serialized by
    [JSON.stringify] and read back by [JSON.parse], is the record that was in
    memory, and its text is one line: it holds no line feed.  The products,
    variants, media and metafields a response carries are values as
    [res.json()] builds them. *)
Theorem exported_line_reads_back (when : Exporter.arrivals) (fuel : nat)
  (server : Exporter.endpoint) :
  Exporter.serves_proper server ->
  forall o : JS.json,
    In o (Exporter.stdout (fst (Exporter.run when fuel server))) ->
    JSON.parse (JSON.stringify o) = Some o /\
    JS.index_of_newline (JSON.stringify o) = None.
Proof.
  intros Hserver o Ho. split.
  - apply parse_stringify. exact (run_proper server Hserver when fuel o Ho).
  - apply stringify_one_line.
Qed.

(** ** The properties on the samples *)

Section Instances.
Import JS.

Lemma simulated_serves_proper (items : list json) (size : nat) :
  Forall JSON.proper items -> Exporter.serves_proper (Exporter.simulated items size).
Proof.
  intros Hi r b c Hb Hd. cbn in Hb. injection Hb as <-. cbn in Hd. injection Hd as <-.
  cbn [Exporter.page Exporter.edges]. apply Forall_map. cbn [Exporter.node].
  apply Forall_forall. intros x Hx. rewrite Forall_forall in Hi. apply Hi.
  set (off := Exporter.offset_of (Exporter.req_cursor r)) in *.
  rewrite <- (firstn_skipn off items). apply in_or_app. right.
  rewrite <- (firstn_skipn size (skipn off items)). apply in_or_app. now left.
Qed.

Lemma fetchAllPages_traverses_simulated_collection_witness :
  0 < 2 /\ List.length [JNum 1; JNum 2; JNum 3] < 5 /\
  Exporter.fetchAllPages 5 (Exporter.simulated [JNum 1; JNum 2; JNum 3] 2)
    Exporter.VARIANTS_QUERY None
  = ([Exporter.Request {| Exporter.req_query := Exporter.VARIANTS_QUERY;
                          Exporter.req_id := None; Exporter.req_cursor := Some JNull |};
      Exporter.Request {| Exporter.req_query := Exporter.VARIANTS_QUERY;
                          Exporter.req_id := None;
                          Exporter.req_cursor := Some (JNum 2) |}],
     Exporter.Done [JNum 1; JNum 2; JNum 3]).
Proof.
  split; [lia |]. split; [cbn; lia |].
  exact (proj1 (fetchAllPages_traverses_simulated_collection
                  [JNum 1; JNum 2; JNum 3] 2 5 Exporter.VARIANTS_QUERY None
                  ltac:(lia) ltac:(cbn; lia))).
Defined.

Lemma batch_output_is_paired_by_position_witness :
  Forall (fun p => p <> JNull) [Samples.undescribed; Samples.mug] /\
  (N.of_nat (List.length [Samples.undescribed; Samples.mug]) < 4294967295)%N /\
  Generate.consume (Samples.succeeds [Samples.for_bottle; Samples.for_mug]) None
  = Ok (Some (Samples.success_of [Samples.for_bottle; Samples.for_mug])) /\
  Generate.conforms (Generate.outputSchema 2)
    (Some (JObj [("products", JArr [Samples.for_bottle; Samples.for_mug])])) = true /\
  Generate.stdout
    (Generate.processBatch 0 [Samples.undescribed; Samples.mug]
       (Samples.succeeds [Samples.for_bottle; Samples.for_mug]) Generate.initial)
  = [Generate.line_for Samples.undescribed Samples.for_bottle;
     Generate.line_for Samples.mug Samples.for_mug].
Proof.
  assert (H1 : Forall (fun p => p <> JNull) [Samples.undescribed; Samples.mug])
    by (repeat constructor; discriminate).
  assert (H2 : (N.of_nat (List.length [Samples.undescribed; Samples.mug]) < 4294967295)%N)
    by reflexivity.
  assert (H3 : Generate.consume (Samples.succeeds [Samples.for_bottle; Samples.for_mug]) None
               = Ok (Some (Samples.success_of [Samples.for_bottle; Samples.for_mug])))
    by reflexivity.
  assert (H4 : Generate.conforms (Generate.outputSchema 2)
                 (Some (JObj [("products", JArr [Samples.for_bottle; Samples.for_mug])]))
               = true)
    by reflexivity.
  repeat (split; [assumption |]).
  destruct (batch_output_is_paired_by_position
              [Samples.undescribed; Samples.mug] 0
              (Samples.succeeds [Samples.for_bottle; Samples.for_mug])
              (Samples.success_of [Samples.for_bottle; Samples.for_mug])
              Generate.initial H1 H2 H3 H4)
    as (ds & Hgen & _ & _ & (Hout & _) & _).
  cbv in Hgen. injection Hgen as <-. exact Hout.
Defined.

Lemma needsGeneration_decides_eligibility_witness :
  Generate.is_record Samples.described = true /\
  Generate.needsGeneration false Samples.described = Ok false /\
  Generate.needsGeneration true Samples.described = Ok true.
Proof.
  split; [reflexivity |]. split.
  - exact (proj1 (needsGeneration_decides_eligibility false Samples.described eq_refl)).
  - exact (proj1 (needsGeneration_decides_eligibility true Samples.described eq_refl)).
Defined.

Lemma batcher_groups_eligible_records_witness :
  Generate.run false true Samples.scenario = Some Samples.scenario_end /\
  Generate.batches Samples.scenario_end = [repeat Samples.undescribed 5] /\
  Generate.skipped Samples.scenario_end = 20 /\
  Generate.completed Samples.scenario_end = 5 /\
  List.length (Generate.stdout Samples.scenario_end) = 5.
Proof.
  assert (H : Generate.run false true Samples.scenario = Some Samples.scenario_end)
    by (vm_compute; reflexivity).
  split; [exact H |].
  destruct (batcher_groups_eligible_records false true Samples.scenario
              Samples.scenario_end H) as (_ & _ & H3).
  destruct (H3 ltac:(right; left; reflexivity) ltac:(vm_compute; reflexivity)
               ltac:(vm_compute; reflexivity)) as (Hb & Hs & Hc).
  destruct (Hc ltac:(vm_compute; reflexivity)) as [Hc1 Hc2].
  split; [| split; [exact Hs | split; [exact Hc1 | exact Hc2]]].
  rewrite Hb. vm_compute. reflexivity.
Defined.

Lemma throttle_wait_before_next_request_witness :
  Exporter.ok (Samples.throttled Samples.first_request) = true /\
  Exporter.json_body (Samples.throttled Samples.first_request)
  = Some Samples.throttled_body /\
  truthy (Exporter.errors Samples.throttled_body) = false /\
  Exporter.extensions_cost Samples.throttled_body = Some Samples.throttled_cost /\
  Exporter.throttleStatus Samples.throttled_cost = Some Samples.throttled_status /\
  (0 < Exporter.restoreRate Samples.throttled_status)%Z /\
  Exporter.shopify Samples.throttled Samples.first_request
  = ([Exporter.Request Samples.first_request;
      Exporter.Log (Exporter.LogThrottled (Exporter.Millis 2000));
      Exporter.Sleep (Exporter.Millis 2000)],
     Exporter.Done (Exporter.data Samples.throttled_body)).
Proof.
  repeat (split; [reflexivity |]).
  exact (proj1 (proj1 (proj2 (throttle_wait_before_next_request
                                Samples.throttled Exporter.PRODUCTS_QUERY None (Some JNull)
                                Samples.throttled_body Samples.throttled_cost
                                Samples.throttled_status
                                eq_refl eq_refl eq_refl eq_refl eq_refl eq_refl))
                      eq_refl)).
Defined.


Lemma exported_line_reads_back_witness :
  Exporter.serves_proper Samples.one_product /\
  In Samples.exported (Exporter.stdout (fst (Exporter.run Samples.in_turn 2 Samples.one_product))) /\
  JSON.parse (JSON.stringify Samples.exported) = Some Samples.exported /\
  index_of_newline (JSON.stringify Samples.exported) = None.
Proof.
  assert (Hs : Exporter.serves_proper Samples.one_product).
  { apply simulated_serves_proper. constructor; [| constructor].
    vm_compute. repeat split. }
  assert (Hin : In Samples.exported
                   (Exporter.stdout (fst (Exporter.run Samples.in_turn 2 Samples.one_product))))
    by (vm_compute; left; reflexivity).
  split; [exact Hs |]. split; [exact Hin |].
  exact (exported_line_reads_back Samples.in_turn 2 Samples.one_product Hs Samples.exported Hin).
Defined.

Lemma unterminated_last_line_is_dropped_witness :
  index_of_newline (JSON.stringify Samples.undescribed) = None /\
  Forall (fun x => index_of_newline (Generate.chunk_text x) = None)
         [Generate.Eof; Generate.Complete 0 (Samples.succeeds [Samples.pair "a" "b"])] /\
  Generate.run false true
    ([Generate.Chunk (Samples.line Samples.undescribed)]
     ++ Generate.Chunk (JSON.stringify Samples.undescribed)
     :: [Generate.Eof; Generate.Complete 0 (Samples.succeeds [Samples.pair "a" "b"])])
  = Some Samples.unterminated_end /\
  Generate.records_of
    (Generate.input_text
       ([Generate.Chunk (Samples.line Samples.undescribed)]
        ++ Generate.Chunk (JSON.stringify Samples.undescribed)
        :: [Generate.Eof; Generate.Complete 0 (Samples.succeeds [Samples.pair "a" "b"])]))
  = Generate.records_of
      (Generate.input_text [Generate.Chunk (Samples.line Samples.undescribed)]) /\
  Generate.total Samples.unterminated_end = 1.
Proof.
  assert (H1 : index_of_newline (JSON.stringify Samples.undescribed) = None)
    by (vm_compute; reflexivity).
  assert (H2 : Forall (fun x => index_of_newline (Generate.chunk_text x) = None)
                 [Generate.Eof;
                  Generate.Complete 0 (Samples.succeeds [Samples.pair "a" "b"])])
    by (repeat constructor).
  assert (H3 : Generate.run false true
                 ([Generate.Chunk (Samples.line Samples.undescribed)]
                  ++ Generate.Chunk (JSON.stringify Samples.undescribed)
                  :: [Generate.Eof;
                      Generate.Complete 0 (Samples.succeeds [Samples.pair "a" "b"])])
               = Some Samples.unterminated_end)
    by (vm_compute; reflexivity).
  repeat (split; [assumption |]).
  split; [| reflexivity].
  exact (proj1 (proj2 (unterminated_last_line_is_dropped false true _ _ _ _ H1 H2 H3))).
Defined.

End Instances.

(** ** The reader and the chunks of its input *)

Section Chunks.
Import JS Generate.
Variables overwrite crash : bool.

Lemma feed_app (l1 l2 : list string) :
  forall st : state, feed overwrite (l1 ++ l2) st = feed overwrite l2 (feed overwrite l1 st).
Proof.
  induction l1 as [| raw l1 IH]; intros st; [reflexivity |].
  cbn [app feed]. destruct (stage st) eqn:Hs; try apply IH.
  symmetry. now apply (feed_exited overwrite l2 st code).
Qed.

Lemma after_reading_app (a b : string) :
  after_reading overwrite (a ++ b)%string
  = set_buffer (snd (split_lines (buffer (after_reading overwrite a) ++ b)%string))
      (feed overwrite (fst (split_lines (buffer (after_reading overwrite a) ++ b)%string))
         (after_reading overwrite a)).
Proof.
  unfold after_reading. cbn [buffer set_buffer].
  rewrite split_lines_app. cbn [fst snd].
  rewrite feed_app, feed_set_buffer. reflexivity.
Qed.

Lemma after_reading_buffer (text : string) :
  index_of_newline (buffer (after_reading overwrite text)) = None.
Proof. apply split_lines_rest. Qed.

Lemma lines_covered_app (a b : string) :
  lines_covered (a ++ b)%string
  = lines_covered a && lines_covered (snd (split_lines a) ++ b)%string.
Proof.
  unfold lines_covered. rewrite split_lines_app. cbn [fst]. apply forallb_app.
Qed.

Lemma readable_prefix (a b : string) :
  readable overwrite crash (a ++ b)%string -> readable overwrite crash a.
Proof.
  unfold readable. rewrite after_reading_app, lines_covered_app.
  set (st := after_reading overwrite a).
  set (lines := fst (split_lines (buffer st ++ b)%string)).
  cbn [stage pending set_buffer]. intros [Hcov [Hs Hr]].
  apply andb_prop in Hcov. split; [exact (proj1 Hcov) |].
  assert (Hst : stage st = Reading).
  { destruct (stage st) eqn:E; [reflexivity | |].
    - unfold st, after_reading in E. cbn [stage set_buffer] in E.
      destruct (feed_stage overwrite (fst (split_lines a)) initial eq_refl); congruence.
    - rewrite (feed_exited overwrite lines st code E) in Hs. congruence. }
  split; [exact Hst |].
  intros Hc. specialize (Hr Hc).
  destruct (read_pending _ _ (feed_read_on overwrite lines st Hst)) as (new & Hp & _).
  rewrite Hp, first_rejected_app in Hr.
  now destruct (first_rejected (pending st)).
Qed.

Lemma step_chunk_reading (c : string) (st st' : state) :
  stage st = Reading -> index_of_newline (buffer st) = None ->
  let st1 := set_buffer (snd (split_lines (buffer st ++ c)%string))
               (feed overwrite (fst (split_lines (buffer st ++ c)%string)) st) in
  (step overwrite crash (Chunk c) st = Some st' /\ stage st' = Reading) <->
  (lines_covered (buffer st ++ c)%string = true /\
   st' = st1 /\ stage st1 = Reading /\
   (crash = true -> first_rejected (pending st1) = None)).
Proof.
  intros Hs Hb st1.
  set (d := drain overwrite (S (String.length (buffer st ++ c)%string))
              (set_buffer (buffer st ++ c)%string st)).
  assert (Hstep : lines_covered (buffer st ++ c)%string = true ->
                  step overwrite crash (Chunk c) st = Some (settle crash d)).
  { intros Hc. now apply step_chunk_some. }
  destruct (drain_feed overwrite (S (String.length (buffer st ++ c)%string))
              (set_buffer (buffer st ++ c)%string st) (Nat.lt_succ_diag_r _))
    as [Hf Hbuf].
  fold d in Hf, Hbuf.
  change (buffer (set_buffer (buffer st ++ c)%string st))
    with (buffer st ++ c)%string in Hf, Hbuf.
  rewrite feed_set_buffer, forget_set_buffer in Hf.
  assert (Hd : stage d = Reading -> d = st1).
  { intros Hsd.
    rewrite (forget_eq _ _ Hf).
    rewrite Hbuf; [reflexivity |]. intros code. congruence. }
  assert (Hstage : stage d = stage st1).
  { apply forget_fields in Hf. unfold st1. cbn [stage set_buffer]. tauto. }
  split.
  - intros [H Hr].
    pose proof (step_chunk_covered overwrite crash c st st' Hs H) as Hcov.
    split; [exact Hcov |].
    rewrite (Hstep Hcov) in H. injection H as <-.
    pose proof (settle_reading crash d Hr) as Hsd. rewrite Hsd in Hr |- *.
    specialize (Hd Hr). split; [exact Hd |]. split; [congruence |].
    intros Hc. rewrite <- Hd. subst crash.
    unfold settle in Hsd. rewrite Hr in Hsd.
    destruct (first_rejected (pending d)); [| reflexivity].
    rewrite <- Hsd in Hr. discriminate Hr.
  - intros (Hcov & -> & Hr & Hrej). rewrite (Hstep Hcov).
    rewrite Hstage in Hd. specialize (Hd Hr).
    assert (Hsd : settle crash d = d).
    { unfold settle. rewrite Hd, Hr.
      destruct crash; [| reflexivity]. now rewrite (Hrej eq_refl). }
    rewrite Hsd, Hd. split; [reflexivity | exact Hr].
Qed.

Lemma step_chunk_stage (c : string) (st st' : state) :
  stage st = Reading -> step overwrite crash (Chunk c) st = Some st' -> stage st' <> Joining.
Proof.
  intros Hs H. apply (step_chunk overwrite crash c st st' Hs) in H. subst st'.
  set (st0 := set_buffer (buffer st ++ c)%string st).
  set (d := drain overwrite (S (String.length (buffer st ++ c)%string)) st0).
  assert (Hd : stage d = Reading \/ stage d = Exited 1).
  { destruct (drain_feed overwrite (S (String.length (buffer st ++ c)%string)) st0
                (Nat.lt_succ_diag_r _)) as [Hf _].
    fold d in Hf. apply forget_fields in Hf.
    destruct Hf as (_ & _ & _ & _ & Hf & _). rewrite Hf.
    apply feed_stage. exact Hs. }
  destruct (settle_stage crash d) as [E | [code E]]; rewrite E; [| discriminate].
  destruct Hd as [Hd | Hd]; rewrite Hd; discriminate.
Qed.

Lemma exec_chunks (cs : list string) :
  forall (text : string) (st : state),
    readable overwrite crash text ->
    (exec overwrite crash (map Chunk cs) (after_reading overwrite text) = Some st /\
     stage st = Reading) <->
    (readable overwrite crash (text ++ String.concat "" cs)%string /\
     st = after_reading overwrite (text ++ String.concat "" cs)%string).
Proof.
  induction cs as [| c cs IH]; intros text st Hgood.
  - cbn [map exec String.concat]. rewrite string_app_nil_r. split.
    + intros [H Hs]. injection H as <-. now split.
    + intros [_ ->]. split; [reflexivity | apply Hgood].
  - assert (Hcat : (text ++ String.concat "" (c :: cs) = (text ++ c) ++ String.concat "" cs)%string).
    { rewrite string_app_assoc. f_equal. destruct cs; cbn; [now rewrite string_app_nil_r | reflexivity]. }
    rewrite Hcat. cbn [map exec].
    pose proof (fun st' => step_chunk_reading c (after_reading overwrite text) st'
                             (proj1 (proj2 Hgood)) (after_reading_buffer text)) as Hstep.
    cbn zeta in Hstep. rewrite <- after_reading_app in Hstep.
    assert (Hcov : lines_covered (text ++ c)%string
                   = lines_covered (buffer (after_reading overwrite text) ++ c)%string).
    { rewrite lines_covered_app, (proj1 Hgood). reflexivity. }
    split.
    + intros [H Hs].
      destruct (step overwrite crash (Chunk c) (after_reading overwrite text))
        as [st1 |] eqn:E; [| discriminate].
      assert (Hs1 : stage st1 = Reading).
      { destruct (stage st1) eqn:E1; [reflexivity | |].
        - exfalso. now apply (step_chunk_stage c _ _ (proj1 (proj2 Hgood)) E).
        - destruct (exec_exited overwrite crash (map Chunk cs) st1 st code E1 H) as [_ ->].
          congruence. }
      destruct (proj1 (Hstep st1) (conj eq_refl Hs1)) as (Hc1 & -> & Hr1 & Hr2).
      apply IH; [split; [congruence | split; assumption] |]. now split.
    + intros [Hg ->].
      assert (Hg1 : readable overwrite crash (text ++ c)%string)
        by exact (readable_prefix _ _ Hg).
      destruct (proj2 (Hstep (after_reading overwrite (text ++ c)%string))
                  (conj (eq_trans (eq_sym Hcov) (proj1 Hg1)) (conj eq_refl (proj2 Hg1))))
        as [E _].
      rewrite E. apply IH; [exact Hg1 |]. now split.
Qed.

(** Property X1.  The reader does not depend on where the input is cut
    into chunks: when a run that only reads ends still reading, every other
    way of cutting the same text into chunks gives the same state, which is
    the one reached by handling the complete lines of the text in order,
    the text after the last newline waiting in the buffer. *)
Theorem reading_ignores_chunk_boundaries (cs cs' : list string) (st : state) :
  run overwrite crash (map Chunk cs) = Some st -> stage st = Reading ->
  String.concat "" cs = String.concat "" cs' ->
  run overwrite crash (map Chunk cs') = Some st /\
  st = after_reading overwrite (String.concat "" cs).
Proof.
  intros Hrun Hs Hcat.
  assert (H0 : readable overwrite crash "") by (repeat split).
  destruct (proj1 (exec_chunks cs "" st H0) (conj Hrun Hs)) as [Hg ->].
  cbn [String.append] in Hg |- *. split; [| reflexivity].
  rewrite Hcat in Hg |- *.
  exact (proj1 (proj2 (exec_chunks cs' "" _ H0) (conj Hg eq_refl))).
Qed.
End Chunks.

(** ** The generation calls of a run *)

Section Calls.
Import JS Generate.
Variables overwrite crash : bool.


Lemma calls_emit_events (evs : list event) (st : state) :
  calls (emit_events evs st)
  = calls st ++ flat_map (fun ev => match ev with
                                    | Query prompt schema => [(prompt, schema)]
                                    | _ => []
                                    end) evs.
Proof. unfold calls. cbn. apply flat_map_app. Qed.

Lemma called_same (st st' : state) :
  calls st' = calls st -> batches st' = batches st -> called st -> called st'.
Proof. unfold called. intros -> ->. trivial. Qed.

Lemma dispatch_called (st : state) : called st -> called (dispatch st).
Proof.
  unfold called. intros H.
  destruct (batches_dispatch st) as (Hb & _). rewrite Hb, flat_map_app, <- H.
  cbn [flat_map]. rewrite List.app_nil_r.
  unfold dispatch, call_for, calls.
  destruct (build_prompt (batch st)); cbn [trace set_pending emit_events];
    rewrite !flat_map_app; cbn; now rewrite ?List.app_nil_r.
Qed.

Lemma handle_line_called (raw : string) (st : state) :
  called st -> called (handle_line overwrite raw st).
Proof.
  intros H. unfold handle_line.
  destruct (String.eqb (trim raw) ""); [exact H |].
  destruct (JSON.parse (trim raw)) as [p |].
  - destruct (needsGeneration overwrite p) as [[] | e].
    + unfold accept. cbv zeta.
      match goal with |- context [if ?b then _ else _] => destruct b end.
      * apply dispatch_called. revert H. apply called_same.
        -- rewrite calls_emit_events. cbn. now rewrite List.app_nil_r.
        -- reflexivity.
      * revert H. now apply called_same.
    + revert H. now apply called_same.
    + revert H. apply called_same; [| reflexivity].
      unfold exit_with, calls. cbn. rewrite flat_map_app. cbn. now rewrite List.app_nil_r.
  - revert H. apply called_same; [| reflexivity].
    unfold exit_with, calls. cbn. rewrite flat_map_app. cbn. now rewrite List.app_nil_r.
Qed.

Lemma feed_called (lines : list string) :
  forall st : state, called st -> called (feed overwrite lines st).
Proof.
  induction lines as [| raw lines IH]; intros st H; [exact H |].
  cbn [feed]. destruct (stage st); try exact H; apply IH; now apply handle_line_called.
Qed.

Lemma settle_called (st : state) : called st -> called (settle crash st).
Proof.
  apply called_same.
  - unfold settle, calls.
    destruct (stage st); [destruct crash | |]; try reflexivity;
      destruct (first_rejected (pending st)); try reflexivity;
      try destruct (forallb is_fulfilled (pending st)); try reflexivity;
      cbn; rewrite flat_map_app; cbn; now rewrite List.app_nil_r.
  - unfold batches. now rewrite (proj1 (proj2 (proj2 (proj2 (proj2 (proj2 (settle_fields crash st))))))).
Qed.

Lemma stdout_events_call_nothing (lines : list json) :
  flat_map (fun ev => match ev with
                      | Query prompt schema => [(prompt, schema)]
                      | _ => []
                      end) (map Stdout lines) = [].
Proof. induction lines; [reflexivity | exact IHlines]. Qed.

Lemma processBatch_called (k : nat) (ps : list json) (msgs : list message) (st : state) :
  nth_error (pending st) k = Some (Inflight ps) ->
  called st -> called (processBatch k ps msgs st).
Proof.
  intros Hk. apply called_same.
  - unfold processBatch, calls.
    destruct (generateBatch msgs) as [[ds tokens] | e]; [| reflexivity].
    destruct (emit 0 ps ds) as [lines [e |]]; cbn [trace set_pending];
      rewrite ?flat_map_app, stdout_events_call_nothing; cbn; now rewrite ?List.app_nil_r.
  - apply (processBatch_fields k ps msgs st Hk).
Qed.

Lemma step_called (a : action) (st st' : state) :
  called st -> step overwrite crash a st = Some st' -> called st'.
Proof.
  intros H Hstep. destruct a as [c | | k msgs].
  - destruct (stage st) eqn:Hs; try (unfold step in Hstep; rewrite Hs in Hstep; discriminate).
    apply (step_chunk overwrite crash c st st' Hs) in Hstep. subst st'.
    apply settle_called.
    set (st0 := set_buffer (buffer st ++ c)%string st).
    destruct (drain_feed overwrite (S (String.length (buffer st ++ c)%string)) st0
                (Nat.lt_succ_diag_r _)) as [Hf _].
    apply forget_fields in Hf. destruct Hf as (_ & _ & _ & Hp & _ & Ht & _).
    assert (Hc : called (feed overwrite (fst (split_lines (buffer st0))) st0)).
    { apply feed_called. revert H. now apply called_same. }
    revert Hc. apply called_same.
    + unfold calls. now rewrite Ht.
    + unfold batches. now rewrite Hp.
  - destruct (stage st) eqn:Hs; try (unfold step in Hstep; rewrite Hs in Hstep; discriminate).
    apply (step_eof overwrite crash st st' Hs) in Hstep. subst st'.
    apply settle_called.
    assert (Hd : called match batch st with [] => st | _ :: _ => dispatch st end).
    { destruct (batch st); [exact H | now apply dispatch_called]. }
    revert Hd. apply called_same; [| reflexivity].
    change (set_stage Joining ?s) with (set_stage Joining s).
    unfold calls. cbn [trace set_stage emit_events]. rewrite flat_map_app. cbn.
    now rewrite List.app_nil_r.
  - apply step_complete in Hstep. destruct Hstep as (ps & Hk & _ & ->).
    apply settle_called. now apply processBatch_called.
Qed.

Lemma exec_called (sched : list action) :
  forall st st' : state,
    called st -> exec overwrite crash sched st = Some st' -> called st'.
Proof.
  induction sched as [| a sched IH]; intros st st' H Hexec.
  - cbn in Hexec. now injection Hexec as <-.
  - cbn [exec] in Hexec.
    destruct (step overwrite crash a st) as [st1 |] eqn:E; [| discriminate].
    exact (IH _ _ (step_called a st st1 H E) Hexec).
Qed.

Lemma flushed_count (bs : list (list json)) :
  flushed_shape bs ->
  List.length bs = (List.length (concat bs) + (BATCH_SIZE - 1)) / BATCH_SIZE /\
  Forall (fun b => 0 < List.length b <= BATCH_SIZE) bs.
Proof.
  intros (full & last & -> & Hfull & Hlast).
  assert (Hlen : List.length (concat full) = BATCH_SIZE * List.length full).
  { induction Hfull as [| b full Hb _ IH]; [reflexivity |].
    cbn [concat]. rewrite length_app, Hb, IH. cbn [List.length]. lia. }
  assert (Hall : Forall (fun b => 0 < List.length b <= BATCH_SIZE) full).
  { eapply Forall_impl; [| exact Hfull]. cbn. intros b ->. unfold BATCH_SIZE. lia. }
  rewrite concat_app, !length_app, Hlen. unfold BATCH_SIZE in *.
  destruct Hlast as [-> | (b & -> & Hb)].
  - cbn [concat List.length]. rewrite List.app_nil_r. split; [| exact Hall].
    rewrite !Nat.add_0_r.
    apply Nat.div_unique with (r := 19); lia.
  - cbn [concat List.length]. rewrite List.app_nil_r. split.
    + apply Nat.div_unique with (r := List.length b - 1); lia.
    + apply Forall_app. split; [exact Hall |]. constructor; [lia | constructor].
Qed.

Lemma flat_map_length_le {A B : Type} (f : A -> list B) (l : list A) :
  (forall x, List.length (f x) <= 1) -> List.length (flat_map f l) <= List.length l.
Proof.
  intros Hf. induction l as [| x l IH]; [reflexivity |].
  cbn [flat_map List.length]. rewrite length_app. specialize (Hf x). lia.
Qed.

(** Property X2.  The generation calls of a run are those of the
    dispatched batches whose prompt could be built, in order, each asking
    for as many entries as its batch has products; so there is at most one
    call per batch, and once the input has ended the batches number the
    eligible records divided by 20, rounded up, none empty and none longer
    than 20. *)
Theorem one_call_per_batch (sched : list action) (st : state) :
  run overwrite crash sched = Some st ->
  let el := filter (eligible overwrite) (records_of (input_text sched)) in
  calls st = flat_map call_for (batches st) /\
  List.length (calls st) <= List.length (batches st) /\
  (In Eof sched ->
   List.length (batches st) = (List.length el + (BATCH_SIZE - 1)) / BATCH_SIZE /\
   Forall (fun b => 0 < List.length b <= BATCH_SIZE) (batches st)).
Proof.
  intros Hrun el.
  assert (Hc : called st).
  { apply (exec_called sched initial st); [reflexivity | exact Hrun]. }
  split; [exact Hc |]. split.
  - rewrite Hc. apply flat_map_length_le. intros b. unfold call_for.
    destruct (build_prompt b); cbn; lia.
  - intros Heof.
    destruct (run_batches overwrite crash sched st Hrun) as [Hf _].
    destruct (Hf Heof) as [_ Hrec Hshape _ _].
    unfold el. rewrite <- Hrec. now apply flushed_count.
Qed.
End Calls.

(** ** Progress *)

Section Progress.
Import JS Generate.
Variables overwrite crash : bool.

Lemma progress_bounded_app (t t' : list event) :
  progress_bounded t -> progress_bounded t' -> progress_bounded (t ++ t').
Proof. intros H H'. apply Forall_app. now split. Qed.

Lemma steady_same (st st' : state) :
  total st' = total st -> batches st' = batches st -> batch st' = batch st ->
  trace st' = trace st -> steady st -> steady st'.
Proof. unfold steady, tallied. intros -> -> -> ->. trivial. Qed.

Lemma steady_emit (evs : list event) (st : state) :
  progress_bounded evs -> steady st -> steady (emit_events evs st).
Proof.
  intros He [Ht Hp]. split; [exact Ht |]. cbn [trace emit_events].
  now apply progress_bounded_app.
Qed.

Lemma dispatch_steady (st : state) : steady st -> steady (dispatch st).
Proof.
  intros [Ht Hp].
  destruct (batches_dispatch st) as (E1 & E2 & E3 & _).
  split.
  - unfold tallied in *. rewrite E1, E2, E3, Ht, concat_app, length_app.
    cbn [concat List.length]. rewrite List.app_nil_r. lia.
  - unfold dispatch. destruct (build_prompt (batch st));
      cbn [trace set_pending emit_events];
      repeat apply progress_bounded_app; try exact Hp; repeat constructor.
Qed.

Lemma handle_line_steady (raw : string) (st : state) :
  steady st -> steady (handle_line overwrite raw st).
Proof.
  intros H. unfold handle_line.
  destruct (String.eqb (trim raw) ""); [exact H |].
  destruct (JSON.parse (trim raw)) as [p |].
  - destruct (needsGeneration overwrite p) as [[] | e].
    + assert (H1 : steady
                     {| buffer := buffer st; batch := batch st ++ [p];
                        total := S (total st); skipped := skipped st;
                        completed := completed st; totalInput := totalInput st;
                        totalOutput := totalOutput st; pending := pending st;
                        stage := stage st; trace := trace st |}).
      { destruct H as [Ht Hp]. split; [| exact Hp].
        unfold tallied in *. cbn [total batch]. unfold batches in *. cbn [pending].
        rewrite length_app, Ht. cbn. lia. }
      unfold accept. cbv zeta.
      match goal with |- context [if ?b then _ else _] => destruct b end; [| exact H1].
      apply dispatch_steady, steady_emit; [repeat constructor | exact H1].
    + revert H. now apply steady_same.
    + unfold exit_with. destruct H as [Ht Hp]. split; [exact Ht |].
      cbn [trace set_stage emit_events]. apply progress_bounded_app; [exact Hp |].
      repeat constructor.
  - unfold exit_with. destruct H as [Ht Hp]. split; [exact Ht |].
    cbn [trace set_stage emit_events]. apply progress_bounded_app; [exact Hp |].
    repeat constructor.
Qed.

Lemma feed_steady (lines : list string) :
  forall st : state, steady st -> steady (feed overwrite lines st).
Proof.
  induction lines as [| raw lines IH]; intros st H; [exact H |].
  cbn [feed]. destruct (stage st); try exact H; apply IH; now apply handle_line_steady.
Qed.

Lemma settle_steady (st : state) : steady st -> steady (settle crash st).
Proof.
  intros [Ht Hp]. unfold settle.
  destruct (stage st); [destruct crash | |]; try (split; assumption);
    destruct (first_rejected (pending st)); try (split; assumption);
    try destruct (forallb is_fulfilled (pending st)); try (split; assumption);
    (split; [exact Ht |]; cbn [trace set_stage emit_events exit_with];
     apply progress_bounded_app; [exact Hp | repeat constructor]).
Qed.

Lemma fulfilled_le (l : list promise) :
  List.length (fulfilled_products l) <= List.length (concat (map products_of l)).
Proof.
  induction l as [| p l IH]; [reflexivity |].
  unfold fulfilled_products in *. cbn [filter map concat].
  destruct (is_fulfilled p); cbn [map concat]; rewrite !length_app; lia.
Qed.

Lemma inflight_room (l : list promise) :
  forall (k : nat) (ps : list json),
    nth_error l k = Some (Inflight ps) ->
    List.length (fulfilled_products l) + List.length ps
    <= List.length (concat (map products_of l)).
Proof.
  induction l as [| p l IH]; intros [| k] ps H; try discriminate H; cbn [nth_error] in H.
  - injection H as ->. unfold fulfilled_products. cbn [filter is_fulfilled map concat products_of].
    rewrite length_app. pose proof (fulfilled_le l). unfold fulfilled_products in *. lia.
  - specialize (IH k ps H). unfold fulfilled_products in *. cbn [filter map concat].
    destruct (is_fulfilled p); cbn [map concat]; rewrite !length_app; lia.
Qed.

Lemma stdout_events_bounded (lines : list json) : progress_bounded (map Stdout lines).
Proof. induction lines; constructor; [exact I | assumption]. Qed.

Lemma processBatch_steady (k : nat) (ps : list json) (msgs : list message) (st : state) :
  nth_error (pending st) k = Some (Inflight ps) ->
  accounted st -> steady st -> steady (processBatch k ps msgs st).
Proof.
  intros Hk Hacc [Ht Hp].
  destruct (processBatch_fields k ps msgs st Hk) as (_ & E1 & E2 & _ & _ & E3).
  split; [unfold tallied in *; now rewrite E1, E2, E3 |].
  unfold processBatch.
  destruct (generateBatch msgs) as [[ds tokens] | e]; [| exact Hp].
  destruct (emit 0 ps ds) as [lines [e |]]; cbn [trace set_pending].
  - apply progress_bounded_app; [exact Hp | apply stdout_events_bounded].
  - apply progress_bounded_app;
      [apply progress_bounded_app; [exact Hp | apply stdout_events_bounded] |].
    repeat constructor. cbn [completed total].
    rewrite (acc_completed st Hacc).
    pose proof (inflight_room (pending st) k ps Hk) as Hroom.
    unfold tallied, batches in Ht. lia.
Qed.

Lemma step_steady (a : action) (st st' : state) :
  accounted st -> steady st -> step overwrite crash a st = Some st' -> steady st'.
Proof.
  intros Hacc H Hstep. destruct a as [c | | k msgs].
  - destruct (stage st) eqn:Hs; try (unfold step in Hstep; rewrite Hs in Hstep; discriminate).
    apply (step_chunk overwrite crash c st st' Hs) in Hstep. subst st'.
    apply settle_steady.
    set (st0 := set_buffer (buffer st ++ c)%string st).
    destruct (drain_feed overwrite (S (String.length (buffer st ++ c)%string)) st0
                (Nat.lt_succ_diag_r _)) as [Hf _].
    apply forget_fields in Hf. destruct Hf as (Hb & Htot & _ & Hp & _ & Ht & _).
    assert (Hc : steady (feed overwrite (fst (split_lines (buffer st0))) st0)).
    { apply feed_steady. revert H. now apply steady_same. }
    revert Hc. apply steady_same; try assumption.
    unfold batches. now rewrite Hp.
  - destruct (stage st) eqn:Hs; try (unfold step in Hstep; rewrite Hs in Hstep; discriminate).
    apply (step_eof overwrite crash st st' Hs) in Hstep. subst st'.
    apply settle_steady.
    assert (Hd : steady match batch st with [] => st | _ :: _ => dispatch st end).
    { destruct (batch st); [exact H | now apply dispatch_steady]. }
    destruct Hd as [Ht Hp]. split; [exact Ht |].
    cbn [trace set_stage emit_events]. apply progress_bounded_app; [exact Hp |].
    repeat constructor.
  - apply step_complete in Hstep. destruct Hstep as (ps & Hk & _ & ->).
    apply settle_steady. now apply processBatch_steady.
Qed.

Lemma exec_steady (sched : list action) :
  forall st st' : state,
    coherent crash st -> steady st -> exec overwrite crash sched st = Some st' ->
    steady st'.
Proof.
  induction sched as [| a sched IH]; intros st st' Hc H Hexec.
  - cbn in Hexec. now injection Hexec as <-.
  - cbn [exec] in Hexec.
    destruct (step overwrite crash a st) as [st1 |] eqn:E; [| discriminate].
    apply (IH st1 st'); [| | exact Hexec].
    + exact (step_coherent overwrite crash a st st1 Hc E).
    + exact (step_steady a st st1 (proj1 Hc) H E).
Qed.

(** Property X3.  At every point of a run the records counted in [total]
    are those of the dispatched batches and of the batch being filled, the
    number of descriptions generated does not exceed it, and no progress
    line shows more generated than read. *)
Theorem progress_never_exceeds_total (sched : list action) (st : state) :
  run overwrite crash sched = Some st ->
  completed st <= total st /\
  total st = List.length (concat (batches st)) + List.length (batch st) /\
  progress_bounded (trace st).
Proof.
  intros Hrun.
  assert (Hs : steady st).
  { apply (exec_steady sched initial st); [apply initial_coherent | | exact Hrun].
    split; [reflexivity | repeat constructor]. }
  destruct Hs as [Ht Hp].
  destruct (run_coherent overwrite crash sched st Hrun) as [Hacc _].
  split; [| split; assumption].
  rewrite (acc_completed st Hacc). unfold tallied, batches in Ht.
  pose proof (fulfilled_le (pending st)). lia.
Qed.
End Progress.

(** ** Results and prompts *)

Section Results.
Import JS Generate.

Lemma consume_others (msgs : list message) (acc : option result_message) :
  Forall (fun m => m = Other) msgs -> consume msgs acc = Ok acc.
Proof.
  induction 1 as [| m msgs -> _ IH]; [reflexivity | exact IH].
Qed.

Lemma consume_successes (pre rest : list message) :
  Forall (fun m => match m with
                   | Other => True
                   | Result r => subtype r = "success"
                   end) pre ->
  forall (r : result_message) (acc : option result_message),
    subtype r = "success" ->
    consume (pre ++ Result r :: rest) acc = consume rest (Some r).
Proof.
  induction 1 as [| m pre Hm _ IH]; intros r acc Hr.
  - cbn [app consume]. now rewrite Hr.
  - cbn [app consume]. destruct m as [| r']; [now apply IH |].
    rewrite Hm. cbn. now apply IH.
Qed.

(** Property X4.  [generateBatch] on the messages of its call: without a
    result message it throws a [TypeError] (it reads a property of [null]);
    when every result is a success it returns the products and the usage of
    the last one, throwing a [TypeError] when that result carries no
    structured output. *)
Theorem generateBatch_returns_the_last_result :
  (forall msgs : list message,
     Forall (fun m => m = Other) msgs -> generateBatch msgs = Throw TypeError) /\
  (forall (pre post : list message) (r : result_message),
     Forall (fun m => match m with
                      | Other => True
                      | Result r' => subtype r' = "success"
                      end) pre ->
     subtype r = "success" -> Forall (fun m => m = Other) post ->
     generateBatch (pre ++ Result r :: post)
     = match structured_output r with
       | None => Throw TypeError
       | Some JNull => Throw TypeError
       | Some out => match get (Some out) "products" with
                     | Ok ds => Ok (ds, usage_of r)
                     | Throw e => Throw e
                     end
       end).
Proof.
  split.
  - intros msgs H. unfold generateBatch. now rewrite consume_others.
  - intros pre post r Hpre Hr Hpost. unfold generateBatch.
    rewrite (consume_successes pre post Hpre r None Hr), consume_others by exact Hpost.
    cbn [JS.bind].
    destruct (structured_output r) as [[| b | n | s | l | m] |]; reflexivity.
Qed.
End Results.

Section Prompt.
Import JS Generate.

Lemma sequence_ok {A : Type} (l : list (res A)) (l' : list A) :
  sequence l = Ok l' -> Forall2 (fun r a => r = Ok a) l l'.
Proof.
  revert l'. induction l as [| r l IH]; intros l'; cbn [sequence].
  - intros H. injection H as <-. constructor.
  - destruct r as [a | e]; [| discriminate].
    destruct (sequence l) as [l'' | e]; [| discriminate].
    intros H. injection H as <-. constructor; [reflexivity | now apply IH].
Qed.

Lemma product_prompts_ok (attrs : list attributes) :
  forall (i : nat) (ps : list string),
    product_prompts i attrs = Ok ps ->
    List.length ps = List.length attrs /\
    forall (j : nat) (a : attributes),
      nth_error attrs j = Some a ->
      exists (t : string) (more : list string),
        template (title a) = Ok t /\
        nth_error ps j
        = Some (join nl (("Product " ++ string_of_nat (i + j + 1) ++ ": " ++ t)%string :: more)).
Proof.
  induction attrs as [| a attrs IH]; intros i ps; cbn [product_prompts].
  - intros H. injection H as <-. split; [reflexivity |]. intros [| j] a0 H0; discriminate H0.
  - destruct (product_prompt i a) as [p | e] eqn:Hp; [| discriminate]. cbn [JS.bind].
    destruct (product_prompts (S i) attrs) as [ps' | e] eqn:Hps; [| discriminate].
    cbn [JS.bind]. intros H. injection H as <-.
    destruct (IH _ _ Hps) as [Hlen Hnth].
    split; [cbn [List.length]; now rewrite Hlen |].
    intros [| j] a0 H0; cbn [nth_error] in *.
    + injection H0 as <-. unfold product_prompt in Hp.
      destruct (template (title a)) as [t | e]; [| discriminate]. cbn [JS.bind] in Hp.
      destruct (labelled "Type: " (productType a)) as [ty | e]; [| discriminate].
      cbn [JS.bind] in Hp.
      destruct (labelled "Vendor: " (vendor a)) as [vd | e]; [| discriminate].
      cbn [JS.bind] in Hp.
      destruct (tag_lines (tags a)) as [tg | e]; [| discriminate]. cbn [JS.bind] in Hp.
      destruct (metafield_lines (mf_own (metafields a))) as [mfs | e]; [| discriminate].
      cbn [JS.bind] in Hp. injection Hp as <-.
      exists t, (ty ++ vd ++ tg ++ mfs). split; [reflexivity |].
      now rewrite Nat.add_0_r.
    + destruct (Hnth j a0 H0) as (t & more & Ht & Hj).
      exists t, more. split; [exact Ht |]. rewrite Hj.
      now replace (S i + j + 1) with (i + S j + 1) by lia.
Qed.

(** Property X5.  The prompt of a batch announces the number of products
    and holds one block per product, separated by blank lines, in the order
    of the batch; block [i] opens with "Product i+1: " and the title. *)
Theorem prompt_numbers_products_in_order (batch : list json) (text : string) :
  build_prompt batch = Ok text ->
  exists blocks : list string,
    text = ("Generate descriptions for these " ++ string_of_nat (List.length batch)
            ++ " products in order:" ++ nl ++ nl ++ join (nl ++ nl) blocks)%string /\
    List.length blocks = List.length batch /\
    forall (i : nat) (p : json),
      nth_error batch i = Some p ->
      exists (a : attributes) (t : string) (more : list string),
        extractAttributes p = Ok a /\ template (title a) = Ok t /\
        nth_error blocks i
        = Some (join nl (("Product " ++ string_of_nat (i + 1) ++ ": " ++ t)%string :: more)).
Proof.
  unfold build_prompt. intros H.
  destruct (sequence (map extractAttributes batch)) as [attrs | e] eqn:Hseq; [| discriminate].
  cbn [JS.bind] in H.
  destruct (product_prompts 0 attrs) as [ps | e] eqn:Hps; [| discriminate].
  cbn [JS.bind] in H. injection H as <-.
  apply sequence_ok in Hseq.
  destruct (product_prompts_ok attrs 0 ps Hps) as [Hlen Hnth].
  assert (Hla : List.length attrs = List.length batch).
  { apply Forall2_length in Hseq. now rewrite length_map in Hseq. }
  exists ps. split; [reflexivity |]. split; [congruence |].
  intros i p Hi.
  assert (Ha : exists a, nth_error attrs i = Some a /\ extractAttributes p = Ok a).
  { clear Hps Hnth Hlen Hla. revert i Hi.
    remember (map extractAttributes batch) as rs eqn:Hrs. revert batch Hrs.
    induction Hseq as [| r a rs attrs Hr _ IH]; intros [| q batch] Hrs i Hi;
      try discriminate Hrs; [destruct i; discriminate Hi |].
    cbn [map] in Hrs. injection Hrs as -> ->.
    destruct i as [| i]; cbn [nth_error] in *.
    - injection Hi as <-. now exists a.
    - now apply (IH batch eq_refl). }
  destruct Ha as (a & Hai & Hpa).
  destruct (Hnth i a Hai) as (t & more & Ht & Hp).
  exists a, t, more. now repeat split.
Qed.
End Prompt.

Section Feedback.
Import JS Generate.

Lemma assoc_defined (k : string) (fields : list (string * value)) :
  ~ In k (map fst fields) -> assoc k (defined fields) = None.
Proof.
  induction fields as [| [k' [j |]] fields IH]; cbn [defined assoc map fst In]; intros H.
  - reflexivity.
  - destruct (String.eqb_spec k k') as [-> | Hk]; [exfalso; apply H; now left |].
    apply IH. tauto.
  - apply IH. tauto.
Qed.

(** Property X7.  A line the generator has printed is never a record it
    would skip: the line carries no metafields, and its long description is
    a property of the line itself, which [needsGeneration] does not read.
    When the generated description is text or [null], [needsGeneration]
    without the flag selects the line. *)
Theorem printed_line_is_eligible_again (i : nat) (p : json) (ds : value) (line : json) :
  output_line i p ds = Ok line ->
  needsGeneration false line <> Ok false /\
  (forall d : json,
     (exists desc : value,
        get ds (string_of_nat i) = Ok desc /\ get desc "description" = Ok (Some d)) ->
     (exists s : string, d = JStr s) \/ d = JNull ->
     needsGeneration false line = Ok true).
Proof.
  unfold output_line. intros H.
  destruct (get ds (string_of_nat i)) as [desc | e] eqn:Hgd; [| discriminate].
  cbn [JS.bind] in H.
  destruct (get (Some p) "id") as [pid | e]; [| discriminate]. cbn [JS.bind] in H.
  destruct (get (Some p) "handle") as [h | e]; [| discriminate]. cbn [JS.bind] in H.
  destruct (get (Some p) "title") as [t | e]; [| discriminate]. cbn [JS.bind] in H.
  destruct (get desc "description") as [d | e] eqn:Hgt; [| discriminate].
  cbn [JS.bind] in H.
  destruct (get desc "longDescription") as [ld | e]; [| discriminate]. cbn [JS.bind] in H.
  injection H as H.
  set (fields := [("id", pid); ("handle", h); ("title", t); ("description", d);
                  ("longDescription", ld)]).
  assert (Hline : line = JObj (defined fields)) by (symmetry; exact H).
  clear H. subst line.
  assert (Hmf : assoc "metafields" (defined fields) = None).
  { apply assoc_defined. cbn. intros [H | [H | [H | [H | [H | []]]]]]; discriminate H. }
  assert (Hd : assoc "description" (defined fields) = d).
  { unfold fields. destruct pid, h, t, d, ld; reflexivity. }
  assert (Hneeds : needsGeneration false (JObj (defined fields))
                   = (hasDescription <- and_nonblank d;; Ok true)%res).
  { unfold needsGeneration, metafields_object. cbn [get JS.bind]. rewrite Hmf, Hd.
    cbn. destruct (and_nonblank d) as [x |]; [| reflexivity]. cbn.
    now rewrite orb_true_r. }
  rewrite Hneeds. split.
  - destruct (and_nonblank d); cbn; discriminate.
  - intros d0 (desc0 & Hdesc & Hd0) Hs.
    assert (desc0 = desc) by congruence. subst desc0.
    assert (Hdd : d = Some d0) by congruence. rewrite Hdd.
    destruct Hs as [[s ->] | ->]; cbn; [| reflexivity].
    unfold and_nonblank. cbn [truthy]. destruct (negb (String.eqb s "")); reflexivity.
Qed.
End Feedback.

(** ** Prompts of catalogue records *)

Section CataloguePrompts.
Import JS Generate.

Lemma to_string_primitive (v : json) : primitive v = true -> exists s, to_string v = Ok s.
Proof. destruct v as [| [] | n | s | l | m]; try discriminate; intros _; eexists; reflexivity. Qed.

Lemma template_printable (v : value) : printable v = true -> exists s, template v = Ok s.
Proof.
  destruct v as [j |]; [apply to_string_primitive | intros _; now exists "undefined"].
Qed.

Lemma template_text (v : value) : text_or_absent v = true -> exists s, template v = Ok s.
Proof. destruct v as [[| | | | |] |]; try discriminate; intros _; eexists; reflexivity. Qed.

Lemma labelled_printable (label : string) (v : value) :
  printable v = true -> exists ls, labelled label v = Ok ls.
Proof.
  intros H. unfold labelled. destruct (truthy v); [| now exists []].
  destruct (template_printable v H) as [s ->]. eexists. reflexivity.
Qed.

Lemma or_else_printable (v : value) : printable v = true -> printable (or_else v (Some JNull)) = true.
Proof. intros H. unfold or_else. now destruct (truthy v). Qed.

Lemma array_join_primitives (sep : string) (l : list json) :
  forallb primitive l = true -> exists s, array_join sep l = Ok s.
Proof.
  intros H. unfold array_join.
  assert (Hs : exists parts, sequence (map element_string l) = Ok parts).
  { induction l as [| x l IH]; [now exists [] |].
    cbn [forallb] in H. apply andb_prop in H. destruct H as [Hx Hl].
    destruct (IH Hl) as [parts Hp]. cbn [map sequence]. rewrite Hp.
    destruct x as [| [] | n | s | l' | m]; try discriminate Hx; eexists; reflexivity. }
  destruct Hs as [parts ->]. eexists. reflexivity.
Qed.

Lemma tag_lines_printable (v : value) :
  tags_printable v = true -> exists ls, tag_lines (or_else v (Some (JArr []))) = Ok ls.
Proof.
  intros H. unfold or_else, tag_lines.
  destruct v as [[| [] | n | s | l | m] |]; cbn [truthy]; try discriminate H;
    try (eexists; reflexivity).
  - destruct (negb (n =? 0)%Z); eexists; reflexivity.
  - cbn in H. apply String.eqb_eq in H. subst s. eexists. reflexivity.
  - cbn [get String.eqb Ascii.eqb Bool.eqb JS.bind].
    destruct (truthy (Some (JNum (Z.of_nat (List.length l))))); [| now exists []].
    destruct (array_join_primitives ", " l H) as [s ->]. eexists. reflexivity.
Qed.

Lemma metafield_lines_text (entries : list (string * value)) :
  Forall (fun kv => text_or_absent (snd kv) = true) entries ->
  exists ls, metafield_lines entries = Ok ls.
Proof.
  induction 1 as [| [k v] entries Hv _ [ls IH]]; [now exists [] |].
  cbn [metafield_lines]. destruct (String.eqb k "longDescription"); [now exists ls |].
  destruct (truthy v); [| now exists ls].
  destruct (template_text v Hv) as [s ->]. rewrite IH. eexists. reflexivity.
Qed.

Lemma mf_set_values (o : mfobj) (k : string) (v : value) :
  text_or_absent v = true ->
  Forall (fun kv => text_or_absent (snd kv) = true) (mf_own o) ->
  Forall (fun kv => text_or_absent (snd kv) = true) (mf_own (mf_set o k v)).
Proof.
  intros Hv Ho. unfold mf_set.
  destruct (String.eqb k "__proto__" && reaches_proto_accessor o).
  - destruct v as [[| | | | |] |]; try discriminate Hv; exact Ho.
  - cbn [mf_own]. now apply (define_values (fun v => text_or_absent v = true)).
Qed.

Lemma collect_values (ms : list json) :
  forallb is_metafield ms = true ->
  forall o o' : mfobj,
    Forall (fun kv => text_or_absent (snd kv) = true) (mf_own o) ->
    collect (map Some ms) o = Ok o' ->
    Forall (fun kv => text_or_absent (snd kv) = true) (mf_own o').
Proof.
  induction ms as [| m ms IH]; intros Hms o o' Ho; cbn [map collect].
  - intros H. now injection H as <-.
  - cbn [forallb] in Hms. apply andb_prop in Hms. destruct Hms as [Hm Hms].
    unfold is_metafield in Hm. destruct m as [| | | | | e]; try discriminate Hm.
    cbn [get JS.bind].
    destruct (assoc "key" e) as [[| | | k | |] |]; try discriminate Hm.
    cbn [template to_string JS.bind].
    apply (IH Hms). now apply mf_set_values.
Qed.

Lemma extractAttributes_catalogue (p : json) :
  catalogue_record p = true ->
  exists a : attributes,
    extractAttributes p = Ok a /\
    printable (title a) = true /\ printable (productType a) = true /\
    printable (vendor a) = true /\
    (exists v, tags a = or_else v (Some (JArr [])) /\ tags_printable v = true) /\
    Forall (fun kv => text_or_absent (snd kv) = true) (mf_own (metafields a)).
Proof.
  unfold catalogue_record. intros H. apply andb_prop in H. destruct H as [Hrec H].
  destruct p as [| | | | | fields]; try discriminate H.
  apply andb_prop in H. destruct H as [H Htags].
  apply andb_prop in H. destruct H as [H Hvendor].
  apply andb_prop in H. destruct H as [Htitle Htype].
  destruct (metafields_object_record _ Hrec) as (o & Ho & _ & _).
  assert (Hvals : Forall (fun kv => text_or_absent (snd kv) = true) (mf_own o)).
  { unfold metafields_object in Ho. cbn [get JS.bind] in Ho.
    unfold is_record in Hrec. apply andb_prop in Hrec. destruct Hrec as [_ Hms].
    destruct (assoc "metafields" fields) as [[| | | | ms |] |]; try discriminate Hms;
      cbn in Ho; try (injection Ho as <-; constructor).
    destruct ms as [| m ms]; [cbn in Ho; injection Ho as <-; constructor |].
    cbn [or_else truthy iterate JS.bind] in Ho.
    apply (collect_values (m :: ms) Hms empty_object o); [constructor | exact Ho]. }
  unfold extractAttributes. rewrite Ho. cbn [get JS.bind].
  eexists. split; [reflexivity |]. cbn [title productType vendor tags metafields].
  repeat split; try assumption; try now apply or_else_printable.
  now exists (assoc "tags" fields).
Qed.

Lemma product_prompt_catalogue (i : nat) (a : attributes) :
  printable (title a) = true -> printable (productType a) = true ->
  printable (vendor a) = true ->
  (exists v, tags a = or_else v (Some (JArr [])) /\ tags_printable v = true) ->
  Forall (fun kv => text_or_absent (snd kv) = true) (mf_own (metafields a)) ->
  exists s, product_prompt i a = Ok s.
Proof.
  intros Ht Hty Hvd (v & Hv & Htg) Hmf. unfold product_prompt.
  destruct (template_printable _ Ht) as [t ->]. cbn [JS.bind].
  destruct (labelled_printable "Type: " _ Hty) as [ty ->]. cbn [JS.bind].
  destruct (labelled_printable "Vendor: " _ Hvd) as [vd ->]. cbn [JS.bind].
  rewrite Hv. destruct (tag_lines_printable v Htg) as [tg ->]. cbn [JS.bind].
  destruct (metafield_lines_text _ Hmf) as [mfs ->]. cbn [JS.bind].
  eexists. reflexivity.
Qed.

Lemma build_prompt_catalogue (batch : list json) :
  Forall (fun p => catalogue_record p = true) batch ->
  exists text : string, build_prompt batch = Ok text.
Proof.
  intros H. unfold build_prompt.
  assert (Hattrs : exists attrs,
             sequence (map extractAttributes batch) = Ok attrs /\
             Forall (fun a => forall i, exists s, product_prompt i a = Ok s) attrs).
  { induction H as [| p batch Hp _ (attrs & Hs & Hall)]; [exists []; split; [reflexivity | constructor] |].
    destruct (extractAttributes_catalogue p Hp) as (a & Ha & H1 & H2 & H3 & H4 & H5).
    exists (a :: attrs). cbn [map sequence]. rewrite Ha, Hs. split; [reflexivity |].
    constructor; [| exact Hall]. intros i. now apply product_prompt_catalogue. }
  destruct Hattrs as (attrs & -> & Hall). cbn [JS.bind].
  assert (Hps : forall i, exists ps, product_prompts i attrs = Ok ps).
  { induction Hall as [| a attrs Ha _ IH]; intros i; [now exists [] |].
    cbn [product_prompts]. destruct (Ha i) as [s ->]. cbn [JS.bind].
    destruct (IH (S i)) as [ps ->]. eexists. reflexivity. }
  destruct (Hps 0) as [ps ->]. eexists. reflexivity.
Qed.

(** Property X6.  The prompt of a batch of catalogue records always
    builds, so [dispatch] opens the generation call of such a batch and
    leaves its promise in flight instead of rejecting it. *)
Theorem prompt_builds_for_catalogue_records (batch : list json) :
  Forall (fun p => catalogue_record p = true) batch ->
  (exists text : string, build_prompt batch = Ok text) /\
  forall st : state,
    Generate.batch st = batch ->
    exists prompt : string,
      pending (dispatch st) = pending st ++ [Inflight batch] /\
      calls (dispatch st) = calls st ++ [(prompt, outputSchema (List.length batch))].
Proof.
  intros H.
  assert (Hb : exists text, build_prompt batch = Ok text)
    by now apply build_prompt_catalogue.
  split; [exact Hb |].
  intros st Hst. destruct Hb as [text Hb]. exists text.
  unfold dispatch, calls. rewrite Hst, Hb. cbn [pending trace set_pending emit_events].
  split; [reflexivity |].
  rewrite !flat_map_app. cbn. now rewrite List.app_nil_r.
Qed.
End CataloguePrompts.

(** ** Metafields in the filter and in the prompt *)

Section PromptAttributes.
Import JS Generate.

Lemma ordered_NoDup (ks : list string) : forall lo : N, JSON.ordered lo ks -> NoDup ks.
Proof.
  induction ks as [| k ks IH]; intros lo Ho; [constructor |].
  cbn [JSON.ordered] in Ho. destruct (array_index k) as [i |] eqn:E.
  - destruct Ho as [_ Ho]. constructor; [| exact (IH _ Ho)].
    intros Hin. pose proof (ordered_bound _ _ k i Ho Hin E). lia.
  - destruct Ho as (Hn & _ & Ho). constructor; [exact Hn | exact (IH _ Ho)].
Qed.

Lemma mf_set_ordered (o : mfobj) (k : string) (v : value) :
  JSON.ordered 0 (map fst (mf_own o)) -> JSON.ordered 0 (map fst (mf_own (mf_set o k v))).
Proof.
  intros Ho. unfold mf_set.
  destruct (String.eqb k "__proto__" && reaches_proto_accessor o).
  - destruct v as [[| | | | |] |]; exact Ho.
  - cbn [mf_own]. now apply ordered_define.
Qed.

Lemma collect_ordered (ms : list value) :
  forall o o' : mfobj,
    JSON.ordered 0 (map fst (mf_own o)) -> collect ms o = Ok o' ->
    JSON.ordered 0 (map fst (mf_own o')).
Proof.
  induction ms as [| m ms IH]; intros o o' Ho; cbn [collect].
  - intros H. now injection H as <-.
  - destruct (get m "key") as [k | e]; cbn [JS.bind]; [| discriminate].
    destruct (get m "value") as [v | e]; cbn [JS.bind]; [| discriminate].
    destruct (template k) as [key | e]; cbn [JS.bind]; [| discriminate].
    apply IH. now apply mf_set_ordered.
Qed.

Lemma metafields_object_keys (p : json) (o : mfobj) :
  metafields_object p = Ok o -> NoDup (map fst (mf_own o)).
Proof.
  unfold metafields_object.
  destruct (get (Some p) "metafields") as [ms | e]; cbn [JS.bind]; [| discriminate].
  destruct (iterate (or_else ms (Some (JArr [])))) as [l | e]; cbn [JS.bind]; [| discriminate].
  intros H. apply (ordered_NoDup _ 0%N). apply (collect_ordered l empty_object o); [exact I | exact H].
Qed.

Lemma metafields_object_values (p : json) (o : mfobj) :
  is_record p = true -> metafields_object p = Ok o ->
  Forall (fun kv => text_or_absent (snd kv) = true) (mf_own o).
Proof.
  destruct p as [| | | | | fields]; try discriminate.
  cbn [is_record]. intros H. apply andb_prop in H. destruct H as [_ Hms].
  unfold metafields_object. cbn [get JS.bind].
  destruct (assoc "metafields" fields) as [[| | | | ms |] |]; try discriminate Hms;
    cbn [or_else truthy iterate JS.bind]; try (intros H; injection H as <-; constructor).
  intros H. apply (collect_values ms Hms empty_object o); [constructor | exact H].
Qed.

Lemma NoDup_assoc {A : Type} (m : list (string * A)) (k : string) (v : A) :
  NoDup (map fst m) -> In (k, v) m -> assoc k m = Some v.
Proof.
  induction m as [| [k' v'] m IH]; [intros _ [] |].
  cbn [map fst assoc]. intros Hn Hin. inversion Hn as [| ? ? Hk Hn']; subst.
  destruct Hin as [H | H].
  - injection H as -> ->. now rewrite String.eqb_refl.
  - destruct (String.eqb_spec k k') as [-> | _]; [| now apply IH].
    exfalso. apply Hk. apply (in_map fst) in H. exact H.
Qed.

(** The lines of the metafields: one for every entry other than
    [longDescription] whose value is a text that is not empty. *)
Lemma metafield_lines_shown (entries : list (string * value)) :
  Forall (fun kv => text_or_absent (snd kv) = true) entries ->
  NoDup (map fst entries) ->
  exists shown : list (string * string),
    metafield_lines entries = Ok (map (fun kv => fst kv ++ ": " ++ snd kv)%string shown) /\
    NoDup (map fst shown) /\
    (forall k : string, In k (map fst shown) -> In k (map fst entries)) /\
    forall (k v : string),
      In (k, v) shown <->
      k <> "longDescription" /\ v <> "" /\ In (k, Some (JStr v)) entries.
Proof.
  induction 1 as [| [k0 v0] entries Hv _ IH]; intros Hn.
  - exists []. split; [reflexivity |]. split; [constructor |]. split; [intros k [] |].
    intros k v. split; [intros [] | intros (_ & _ & [])].
  - cbn [map fst] in Hn. inversion Hn as [| ? ? Hk Hn']; subst.
    destruct (IH Hn') as (shown & Hl & Hnd & Hkeys & Hin).
    cbn [metafield_lines]. cbn [snd] in Hv.
    destruct (String.eqb_spec k0 "longDescription") as [-> | Hlong].
    { exists shown. split; [exact Hl |]. split; [exact Hnd |]. split.
      - intros k H. right. now apply Hkeys.
      - intros k v. rewrite Hin. split.
        + intros (H1 & H2 & H3). repeat split; auto. now right.
        + intros (H1 & H2 & [H3 | H3]); [congruence |]. now repeat split. }
    assert (Hskip : forall shown', shown' = shown -> truthy v0 = false ->
              (forall s, v0 = Some (JStr s) -> s = "") ->
              exists shown0 : list (string * string),
                metafield_lines entries
                = Ok (map (fun kv => fst kv ++ ": " ++ snd kv)%string shown0) /\
                NoDup (map fst shown0) /\
                (forall k : string, In k (map fst shown0) -> In k (k0 :: map fst entries)) /\
                forall k v : string,
                  In (k, v) shown0 <->
                  k <> "longDescription" /\ v <> "" /\
                  In (k, Some (JStr v)) ((k0, v0) :: entries)).
    { intros shown' -> _ Hs. exists shown. split; [exact Hl |]. split; [exact Hnd |]. split.
      - intros k H. right. now apply Hkeys.
      - intros k v. rewrite Hin. split.
        + intros (H1 & H2 & H3). repeat split; auto. now right.
        + intros (H1 & H2 & [H3 | H3]); [| now repeat split].
          injection H3 as -> ->. now specialize (Hs v eq_refl). }
    destruct v0 as [[| | | s | |] |]; try discriminate Hv.
    + cbn [truthy]. apply (Hskip shown eq_refl eq_refl). intros s H. discriminate H.
    + cbn [truthy]. destruct (String.eqb_spec s "") as [-> | Hs]; cbn [negb].
      * apply (Hskip shown eq_refl eq_refl). intros s H. now injection H as <-.
      * cbn [template to_string JS.bind]. rewrite Hl. cbn [JS.bind].
        exists ((k0, s) :: shown). split; [reflexivity |]. split; [| split].
        -- cbn [map fst]. constructor; [| exact Hnd]. intros H. apply Hk. now apply Hkeys.
        -- cbn [map fst]. intros k [<- | H]; [now left | right; now apply Hkeys].
        -- intros k v. cbn [In]. rewrite Hin. split.
           ++ intros [H | (H1 & H2 & H3)].
              ** injection H as <- <-. repeat split; auto.
              ** repeat split; auto.
           ++ intros (H1 & H2 & [H3 | H3]).
              ** injection H3 as <- <-. now left.
              ** right. now repeat split.
    + cbn [truthy]. apply (Hskip shown eq_refl eq_refl). intros s H. discriminate H.
Qed.

Lemma product_prompts_blocks (attrs : list attributes) :
  forall (i : nat) (ps : list string),
    product_prompts i attrs = Ok ps ->
    forall (j : nat) (a : attributes),
      nth_error attrs j = Some a ->
      exists block : string,
        product_prompt (i + j) a = Ok block /\ nth_error ps j = Some block.
Proof.
  induction attrs as [| a attrs IH]; intros i ps; cbn [product_prompts].
  - intros _ [| j] a0 H0; discriminate H0.
  - destruct (product_prompt i a) as [p | e] eqn:Hp; [| discriminate]. cbn [JS.bind].
    destruct (product_prompts (S i) attrs) as [ps' | e] eqn:Hps; [| discriminate].
    cbn [JS.bind]. intros H. injection H as <-.
    intros [| j] a0 H0; cbn [nth_error] in *.
    + injection H0 as <-. exists p. now rewrite Nat.add_0_r.
    + destruct (IH _ _ Hps j a0 H0) as (block & Hb & Hj).
      exists block. split; [| exact Hj].
      now replace (i + S j) with (S i + j) by lia.
Qed.

Lemma sequence_nth {A B : Type} (f : A -> res B) (l : list A) (l' : list B) :
  sequence (map f l) = Ok l' ->
  forall (i : nat) (x : A),
    nth_error l i = Some x -> exists y : B, nth_error l' i = Some y /\ f x = Ok y.
Proof.
  revert l'. induction l as [| x0 l IH]; intros l'; cbn [map sequence].
  - intros _ [| i] x H; discriminate H.
  - destruct (f x0) as [y0 | e] eqn:Hx; [| discriminate].
    destruct (sequence (map f l)) as [l'' | e]; [| discriminate].
    intros H. injection H as <-.
    intros [| i] x Hi; cbn [nth_error] in *.
    + injection Hi as <-. now exists y0.
    + now apply IH.
Qed.

(** The block of the prompt of a batch that describes the record at
    position [i]. *)
Lemma build_prompt_block (batch : list json) (text : string) (i : nat) (p : json) :
  build_prompt batch = Ok text -> nth_error batch i = Some p ->
  exists (blocks : list string) (a : attributes) (t : string) (ty vd tg mfs : list string),
    text = ("Generate descriptions for these " ++ string_of_nat (List.length batch)
            ++ " products in order:" ++ nl ++ nl ++ join (nl ++ nl) blocks)%string /\
    extractAttributes p = Ok a /\
    template (title a) = Ok t /\
    labelled "Type: " (productType a) = Ok ty /\
    labelled "Vendor: " (vendor a) = Ok vd /\
    tag_lines (tags a) = Ok tg /\
    metafield_lines (mf_own (metafields a)) = Ok mfs /\
    nth_error blocks i
    = Some (join nl (("Product " ++ string_of_nat (i + 1) ++ ": " ++ t)%string
                     :: ty ++ vd ++ tg ++ mfs)).
Proof.
  unfold build_prompt. intros H Hi.
  destruct (sequence (map extractAttributes batch)) as [attrs | e] eqn:Hseq; [| discriminate].
  cbn [JS.bind] in H.
  destruct (product_prompts 0 attrs) as [ps | e] eqn:Hps; [| discriminate].
  cbn [JS.bind] in H. injection H as <-.
  destruct (sequence_nth _ _ _ Hseq i p Hi) as (a & Ha & Hext).
  destruct (product_prompts_blocks attrs 0 ps Hps i a Ha) as (block & Hb & Hn).
  cbn [Nat.add] in Hb. unfold product_prompt in Hb.
  destruct (template (title a)) as [t | e] eqn:H1; [| discriminate]. cbn [JS.bind] in Hb.
  destruct (labelled "Type: " (productType a)) as [ty | e] eqn:H2; [| discriminate].
  cbn [JS.bind] in Hb.
  destruct (labelled "Vendor: " (vendor a)) as [vd | e] eqn:H3; [| discriminate].
  cbn [JS.bind] in Hb.
  destruct (tag_lines (tags a)) as [tg | e] eqn:H4; [| discriminate]. cbn [JS.bind] in Hb.
  destruct (metafield_lines (mf_own (metafields a))) as [mfs | e] eqn:H5; [| discriminate].
  cbn [JS.bind] in Hb. injection Hb as <-.
  exists ps, a, t, ty, vd, tg, mfs.
  split; [reflexivity |]. repeat (split; [assumption |]). exact Hn.
Qed.

(** Claim C10.  The eligibility filter and the attribute extraction read
    metafields by key alone.  Filing the metafields of a record under other
    namespaces changes neither the decision of the filter, nor the
    attributes extracted, nor the prompt of a batch that holds the record.
    The value kept for a key is that of the last metafield of the list with
    this key, whatever its namespace: it is the [longDescription] the
    filter tests, and the block of the record in the prompt shows, after
    the title, type, vendor and tags, one line [key: value] for every key
    other than [longDescription] whose last metafield has a text that is
    not empty, and no other line for a metafield; a [longDescription]
    metafield is never shown, whatever its value.  The prompt of a batch of
    catalogue records exists.  The key [__proto__] is left out: it does not
    name a property of the object the script collects the metafields in. *)
Theorem metafields_are_looked_up_by_key_alone
  (overwrite : bool) (fields : list (string * json)) (ms nss : list json)
  (before after : list json) :
  is_record (JObj fields) = true ->
  assoc "metafields" fields = Some (JArr ms) ->
  List.length nss = List.length ms ->
  let p := JObj fields in
  let p' := set_metafields
              (map (fun nm => set_namespace (fst nm) (snd nm)) (combine nss ms)) p in
  (needsGeneration overwrite p' = needsGeneration overwrite p /\
   extractAttributes p' = extractAttributes p /\
   build_prompt (before ++ p' :: after) = build_prompt (before ++ p :: after)) /\
  (exists a : attributes,
     extractAttributes p = Ok a /\
     (forall k : string,
        k <> "__proto__" ->
        assoc k (mf_own (metafields a)) = last_with_key k ms) /\
     needsGeneration false p
     = Ok (blank (description_text p)
           || blank (match last_with_key "longDescription" ms with
                     | Some v => text_of v
                     | None => ""
                     end)) /\
     forall text : string,
       build_prompt (before ++ p :: after) = Ok text ->
       exists (blocks : list string) (t : string) (ty vd tg : list string)
              (shown : list (string * string)),
         text = ("Generate descriptions for these "
                 ++ string_of_nat (List.length (before ++ p :: after))
                 ++ " products in order:" ++ nl ++ nl ++ join (nl ++ nl) blocks)%string /\
         template (title a) = Ok t /\
         labelled "Type: " (productType a) = Ok ty /\
         labelled "Vendor: " (vendor a) = Ok vd /\
         tag_lines (tags a) = Ok tg /\
         nth_error blocks (List.length before)
         = Some (join nl
                   (("Product " ++ string_of_nat (List.length before + 1) ++ ": " ++ t)%string
                    :: ty ++ vd ++ tg
                       ++ map (fun kv => fst kv ++ ": " ++ snd kv)%string shown)) /\
         NoDup (map fst shown) /\
         forall k v : string,
           k <> "__proto__" ->
           (In (k, v) shown <->
            k <> "longDescription" /\ v <> "" /\
            last_with_key k ms = Some (Some (JStr v)))) /\
  (catalogue_record p = true ->
   Forall (fun q => catalogue_record q = true) (before ++ after) ->
   exists text : string, build_prompt (before ++ p :: after) = Ok text).
Proof.
  intros Hr Hms Hlen p p'.
  assert (Hobj : metafields_object p' = metafields_object p).
  { unfold p', p, set_metafields, metafields_object. cbn [get JS.bind].
    rewrite assoc_define, Hms. cbn [String.eqb Ascii.eqb Bool.eqb or_else truthy iterate JS.bind].
    apply collect_ext. now apply renamed_same. }
  assert (Hget : forall k, k <> "metafields" -> get (Some p') k = get (Some p) k).
  { intros k Hk. unfold p', p, set_metafields. cbn [get]. rewrite assoc_define.
    destruct (String.eqb_spec k "metafields"); [contradiction | reflexivity]. }
  assert (Hext : extractAttributes p' = extractAttributes p).
  { unfold extractAttributes. rewrite Hobj, !Hget by discriminate. reflexivity. }
  split; [| split].
  - split; [| split; [exact Hext |]].
    + unfold needsGeneration. rewrite Hobj, Hget by discriminate. reflexivity.
    + unfold build_prompt. rewrite !map_app, !length_app. cbn [map List.length].
      now rewrite Hext.
  - destruct (metafields_object_record p Hr) as (o & Ho & Hp & Hl).
    assert (Hof : metafields_of p = ms).
    { unfold p, metafields_of. now rewrite Hms. }
    assert (Ha : exists a, extractAttributes p = Ok a /\ metafields a = o).
    { unfold extractAttributes. rewrite Ho. unfold p. cbn [JS.bind get].
      eexists. split; reflexivity. }
    destruct Ha as (a & Ha & Hmf).
    exists a. split; [exact Ha |]. split; [| split].
    + intros k Hk. rewrite Hmf, (Hl k Hk). now rewrite Hof.
    + rewrite (needsGeneration_record p Hr). unfold long_description_text.
      now rewrite Hof.
    + intros text Htext.
      assert (Hi : nth_error (before ++ p :: after) (List.length before) = Some p).
      { rewrite nth_error_app2 by lia. now rewrite Nat.sub_diag. }
      destruct (build_prompt_block _ _ _ _ Htext Hi)
        as (blocks & a' & t & ty & vd & tg & mfs & Ht & Ha' & H1 & H2 & H3 & H4 & H5 & H6).
      assert (a' = a) by congruence. subst a'.
      pose proof (metafields_object_keys p o Ho) as Hkeys.
      pose proof (metafields_object_values p o Hr Ho) as Hvals.
      rewrite Hmf in H5.
      destruct (metafield_lines_shown _ Hvals Hkeys) as (shown & Hs & Hnd & _ & Hin).
      assert (mfs = map (fun kv => fst kv ++ ": " ++ snd kv)%string shown) by congruence.
      subst mfs.
      exists blocks, t, ty, vd, tg, shown.
      repeat (split; [assumption |]).
      intros k v Hk. rewrite Hin, <- Hof, <- (Hl k Hk). split.
      * intros (K1 & K2 & K3). repeat split; auto. now apply NoDup_assoc.
      * intros (K1 & K2 & K3). repeat split; auto. now apply assoc_In.
  - intros Hc Hall. apply build_prompt_catalogue.
    apply Forall_app in Hall. destruct Hall as [Hb Hafter].
    apply Forall_app. split; [exact Hb | constructor; assumption].
Qed.

End PromptAttributes.

(** ** From the exporter to the generator *)

Section Trimmed.
Import JS JSON Generate.

Lemma string_snoc (s : string) :
  s <> "" -> exists (s' : string) (c : ascii), s = (s' ++ String c "")%string.
Proof.
  induction s as [| a s IH]; [congruence |]. intros _.
  destruct s as [| b s].
  - now exists "", a.
  - destruct (IH ltac:(discriminate)) as (s' & c & Hs).
    exists (String a s'), c. cbn [String.append]. now rewrite <- Hs.
Qed.

Lemma all_digits_last (s' : string) (c : ascii) :
  all_digits (s' ++ String c "")%string = true -> is_digit c = true.
Proof.
  induction s' as [| a s' IH]; cbn [String.append all_digits]; intros H;
    apply andb_prop in H; destruct H as [H1 H2]; [exact H1 | now apply IH].
Qed.

Lemma digit_not_space (c : ascii) : is_digit c = true -> is_space c = false.
Proof. destruct c as [[] [] [] [] [] [] [] []]; cbn; intros H; try discriminate H; reflexivity. Qed.

Lemma string_of_N_last (n : N) :
  exists (s : string) (c : ascii),
    string_of_N n = (s ++ String c "")%string /\ is_space c = false.
Proof.
  destruct (string_of_N_head n) as (a & r & Hs & _).
  destruct (string_snoc (string_of_N n) ltac:(rewrite Hs; discriminate)) as (s & c & Hc).
  exists s, c. split; [exact Hc |].
  apply digit_not_space, (all_digits_last s). rewrite <- Hc. apply string_of_N_digits.
Qed.

Lemma stringify_last (v : json) :
  exists (s : string) (c : ascii),
    stringify v = (s ++ String c "")%string /\ is_space c = false.
Proof.
  destruct v as [| [] | n | s | l | m].
  - now exists "nul", "l"%char.
  - now exists "tru", "e"%char.
  - now exists "fals", "e"%char.
  - cbn [stringify]. destruct n as [| p | p].
    + now exists "", "0"%char.
    + change (Z.pos p) with (Z.of_N (N.pos p)). rewrite string_of_Z_of_N.
      apply string_of_N_last.
    + rewrite string_of_Z_neg. destruct (string_of_N_last (N.pos p)) as (s & c & -> & Hc).
      now exists (String "-" s), c.
  - exists (String dquote (quote_body s)), dquote. split; reflexivity.
  - exists (String "[" (join "," (map stringify l))), "]"%char. split; reflexivity.
  - exists (String "{" (join "," (map (fun kv => match kv with
                                                 | (k, x) => (quote k ++ ":" ++ stringify x)%string
                                                 end) m))), "}"%char.
    split; reflexivity.
Qed.

Lemma stringify_first (v : json) :
  exists (c : ascii) (s : string), stringify v = String c s /\ is_space c = false.
Proof.
  destruct v as [| [] | n | s | l | m]; try (eexists _, _; split; reflexivity).
  destruct (string_of_Z_head n) as (c & s & Hs & Hc).
  exists c, s. split; [exact Hs |].
  destruct Hc as [Hc | ->]; [now apply digit_not_space | reflexivity].
Qed.

Lemma trim_end_last (s : string) (c : ascii) :
  is_space c = false -> trim_end (s ++ String c "")%string = (s ++ String c "")%string.
Proof.
  intros Hc. induction s as [| a s IH].
  - cbn. now rewrite Hc.
  - cbn [String.append trim_end]. rewrite IH.
    destruct s; reflexivity.
Qed.

Lemma trim_stringify (v : json) : trim (stringify v) = stringify v.
Proof.
  unfold trim.
  destruct (stringify_first v) as (c & s & Hs & Hc).
  assert (Hstart : trim_start (stringify v) = stringify v).
  { rewrite Hs. cbn [trim_start]. now rewrite Hc. }
  rewrite Hstart.
  destruct (stringify_last v) as (s' & c' & -> & Hc').
  now apply trim_end_last.
Qed.

Lemma split_lines_line (a b : string) :
  index_of_newline a = None ->
  split_lines (a ++ String newline b)%string
  = (a :: fst (split_lines b), snd (split_lines b)).
Proof.
  induction a as [| c a IH]; intros Ha.
  - cbn [String.append split_lines]. destruct (split_lines b). reflexivity.
  - cbn [index_of_newline] in Ha. cbn [String.append split_lines].
    destruct (Ascii.eqb c newline); [discriminate |].
    destruct (index_of_newline a); [discriminate |].
    rewrite (IH eq_refl). reflexivity.
Qed.

Lemma records_of_stdout_text (os : list json) :
  Forall proper os ->
  split_lines (Exporter.stdout_text os) = (map stringify os, "") /\
  Generate.records_on (map stringify os) = os.
Proof.
  induction 1 as [| o os Ho _ [IH1 IH2]]; [split; reflexivity |].
  split.
  - unfold Exporter.stdout_text in *. cbn [map].
    assert (Hc : String.concat "" ((stringify o ++ String newline "")%string
                                   :: map (fun o => (stringify o ++ String newline "")%string) os)
                 = (stringify o ++ String newline
                      (String.concat "" (map (fun o => (stringify o ++ String newline "")%string)
                                           os)))%string).
    { destruct os as [| o' os]; cbn [map String.concat].
      - reflexivity.
      - now rewrite string_app_assoc. }
    rewrite Hc, split_lines_line by apply stringify_one_line.
    now rewrite IH1.
  - cbn [map Generate.records_on]. rewrite trim_stringify, parse_stringify by exact Ho.
    destruct (stringify_first o) as (c & s & -> & _). cbn. now rewrite IH2.
Qed.
End Trimmed.

(** Property X9.  The text the exporter writes on standard output is the
    input the generator expects: cut at the line feeds and parsed, it gives
    back the records the exporter printed, in order, and nothing is left
    after the last line feed. *)
Theorem generator_reads_what_exporter_prints (when : Exporter.arrivals) (fuel : nat)
  (server : Exporter.endpoint) :
  Exporter.serves_proper server ->
  let os := Exporter.stdout (fst (Exporter.run when fuel server)) in
  Generate.records_of (Exporter.stdout_text os) = os /\
  snd (Generate.split_lines (Exporter.stdout_text os)) = "".
Proof.
  intros Hserver os.
  assert (Hos : Forall JSON.proper os).
  { apply Forall_forall. intros o Ho. exact (run_proper server Hserver when fuel o Ho). }
  destruct (records_of_stdout_text os Hos) as [H1 H2].
  unfold Generate.records_of. rewrite H1. split; [exact H2 | reflexivity].
Qed.

(** ** Token accounting *)

Section Tokens.
Import JS Generate.
Variables overwrite crash : bool.

Lemma totals_forget (st : state) : totals (forget st) = totals st.
Proof. reflexivity. Qed.

Lemma dispatch_totals (st : state) : totals (dispatch st) = totals st.
Proof. unfold dispatch, totals. now destruct (build_prompt (batch st)). Qed.

Lemma handle_line_totals (raw : string) (st : state) :
  totals (handle_line overwrite raw st) = totals st.
Proof.
  unfold handle_line.
  destruct (String.eqb (trim raw) ""); [reflexivity |].
  destruct (JSON.parse (trim raw)) as [p |]; [| reflexivity].
  destruct (needsGeneration overwrite p) as [[] | e]; try reflexivity.
  unfold accept. cbv zeta.
  match goal with |- context [if ?b then _ else _] => destruct b end; [| reflexivity].
  now rewrite dispatch_totals.
Qed.

Lemma feed_totals (lines : list string) :
  forall st : state, totals (feed overwrite lines st) = totals st.
Proof.
  induction lines as [| raw lines IH]; intros st; [reflexivity |].
  cbn [feed]. destruct (stage st); try reflexivity; now rewrite IH, handle_line_totals.
Qed.

Lemma settle_totals (st : state) : totals (settle crash st) = totals st.
Proof.
  unfold settle.
  destruct (stage st); [destruct crash | |]; try reflexivity;
    destruct (first_rejected (pending st)); try reflexivity.
  now destruct (forallb is_fulfilled (pending st)).
Qed.

Lemma processBatch_totals (k : nat) (ps : list json) (msgs : list message) (st : state) :
  totals (processBatch k ps msgs st)
  = ((totalInput st + tokens_used input_tokens (Complete k msgs))%Z,
     (totalOutput st + tokens_used output_tokens (Complete k msgs))%Z).
Proof.
  unfold processBatch, totals, tokens_used.
  destruct (generateBatch msgs) as [[ds tokens] | e];
    [| cbn; now rewrite !Z.add_0_r].
  destruct (emit 0 ps ds) as [lines [e |]]; reflexivity.
Qed.

Lemma drain_stage (c : string) (st : state) :
  stage st = Reading ->
  let d := drain overwrite (S (String.length (buffer st ++ c)%string))
             (set_buffer (buffer st ++ c)%string st) in
  (stage d = Reading \/ stage d = Exited 1) /\ totals d = totals st.
Proof.
  intros Hs d.
  destruct (drain_feed overwrite (S (String.length (buffer st ++ c)%string))
              (set_buffer (buffer st ++ c)%string st) (Nat.lt_succ_diag_r _)) as [Hf _].
  fold d in Hf. split.
  - pose proof (forget_fields _ _ Hf) as (_ & _ & _ & _ & Hst & _). rewrite Hst.
    apply feed_stage. exact Hs.
  - apply (f_equal totals) in Hf. rewrite !totals_forget in Hf.
    now rewrite Hf, feed_totals.
Qed.

Lemma step_totals (a : action) (st st' : state) :
  step overwrite crash a st = Some st' ->
  totals st' = ((totalInput st + tokens_used input_tokens a)%Z,
                (totalOutput st + tokens_used output_tokens a)%Z).
Proof.
  intros Hstep. destruct a as [c | | k msgs].
  - destruct (stage st) eqn:Hs; try (unfold step in Hstep; rewrite Hs in Hstep; discriminate).
    apply (step_chunk overwrite crash c st st' Hs) in Hstep. subst st'.
    rewrite settle_totals, (proj2 (drain_stage c st Hs)).
    unfold totals. cbn. now rewrite !Z.add_0_r.
  - destruct (stage st) eqn:Hs; try (unfold step in Hstep; rewrite Hs in Hstep; discriminate).
    apply (step_eof overwrite crash st st' Hs) in Hstep. subst st'.
    rewrite settle_totals.
    change (totals match batch st with [] => st | _ :: _ => dispatch st end
            = ((totalInput st + 0)%Z, (totalOutput st + 0)%Z)).
    rewrite !Z.add_0_r. destruct (batch st); [reflexivity | apply dispatch_totals].
  - apply step_complete in Hstep. destruct Hstep as (ps & _ & _ & ->).
    now rewrite settle_totals, processBatch_totals.
Qed.

Lemma settle_closed (st : state) : stage st <> Exited 0 -> closed (settle crash st).
Proof.
  intros Hs. unfold closed, settle.
  destruct (stage st) as [| | code] eqn:E.
  - destruct crash; [| congruence].
    destruct (first_rejected (pending st)); [cbn; discriminate | congruence].
  - destruct (first_rejected (pending st)); [cbn; discriminate |].
    destruct (forallb is_fulfilled (pending st)); [| congruence].
    intros _. now exists (trace st).
  - congruence.
Qed.

Lemma step_closed (a : action) (st st' : state) :
  step overwrite crash a st = Some st' -> closed st'.
Proof.
  intros Hstep. destruct a as [c | | k msgs].
  - destruct (stage st) eqn:Hs; try (unfold step in Hstep; rewrite Hs in Hstep; discriminate).
    apply (step_chunk overwrite crash c st st' Hs) in Hstep. subst st'.
    apply settle_closed.
    destruct (proj1 (drain_stage c st Hs)) as [H | H]; rewrite H; discriminate.
  - destruct (stage st) eqn:Hs; try (unfold step in Hstep; rewrite Hs in Hstep; discriminate).
    apply (step_eof overwrite crash st st' Hs) in Hstep. subst st'.
    apply settle_closed. discriminate.
  - apply step_complete in Hstep. destruct Hstep as (ps & Hk & Hs & ->).
    apply settle_closed.
    destruct (processBatch_fields k ps msgs st Hk) as (_ & _ & _ & _ & E & _).
    rewrite E. destruct Hs as [Hs | Hs]; rewrite Hs; discriminate.
Qed.

Lemma exec_totals (sched : list action) :
  forall st st' : state,
    exec overwrite crash sched st = Some st' ->
    totals st' = ((totalInput st + tokens_total input_tokens sched)%Z,
                  (totalOutput st + tokens_total output_tokens sched)%Z) /\
    (closed st -> closed st').
Proof.
  induction sched as [| a sched IH]; intros st st' Hexec.
  - cbn in Hexec. injection Hexec as <-. split; [| trivial].
    unfold totals, tokens_total. cbn. now rewrite !Z.add_0_r.
  - cbn [exec] in Hexec.
    destruct (step overwrite crash a st) as [st1 |] eqn:E; [| discriminate].
    destruct (IH _ _ Hexec) as [Ht Hc].
    pose proof (step_totals a st st1 E) as H1. unfold totals in H1. injection H1 as Hi Ho.
    split.
    + rewrite Ht, Hi, Ho. unfold tokens_total. cbn [map fold_right].
      f_equal; lia.
    + intros _. apply Hc. exact (step_closed a st st1 E).
Qed.

(** Property X10.  The token totals of a run are the sums of the usage of
    the results of its calls, a call without usage or one that made
    [generateBatch] throw adding nothing; a run that ends with 0 closes its
    trace with these sums and the number of descriptions generated. *)
Theorem token_totals_sum_the_usage_of_the_calls (sched : list action) (st : state) :
  run overwrite crash sched = Some st ->
  totalInput st = tokens_total input_tokens sched /\
  totalOutput st = tokens_total output_tokens sched /\
  (stage st = Exited 0 ->
   exists t : list event,
     trace st = t ++ [Log (LogCost (tokens_total input_tokens sched)
                                   (tokens_total output_tokens sched));
                      Success (completed st)]).
Proof.
  intros Hrun. destruct (exec_totals sched initial st Hrun) as [Ht Hc].
  unfold totals in Ht. cbn in Ht. injection Ht as Hi Ho.
  split; [exact Hi |]. split; [exact Ho |].
  intros Hs. rewrite <- Hi, <- Ho. apply Hc; [| exact Hs]. intros H. discriminate H.
Qed.
End Tokens.

(** ** Runs with nothing to do, records without attributes *)

Section NothingToDo.
Import JS Generate.
Variables overwrite crash : bool.

Lemma input_text_app (a b : list action) :
  input_text (a ++ b) = (input_text a ++ input_text b)%string.
Proof.
  induction a as [| x a IH]; [reflexivity |].
  cbn [app]. rewrite !input_text_cons, IH. now rewrite string_app_assoc.
Qed.

Lemma full_batches_empty (bs : list (list json)) :
  Forall (fun b => List.length b = BATCH_SIZE) bs -> concat bs = [] -> bs = [].
Proof.
  intros H Hc. destruct H as [| b bs Hb _]; [reflexivity |].
  cbn [concat] in Hc. apply app_eq_nil in Hc. destruct Hc as [-> _]. discriminate Hb.
Qed.

(** Property X11.  When the input ends and no record was eligible (the
    input was empty, or every record was skipped), the run dispatches no
    batch, makes no generation call, prints nothing and ends with 0 after
    "0 descriptions generated". *)
Theorem nothing_eligible_means_no_call (sched : list action) (st : state) :
  run overwrite crash sched = Some st -> In Eof sched ->
  filter (eligible overwrite) (records_of (input_text sched)) = [] ->
  stage st = Exited 0 /\ pending st = [] /\ calls st = [] /\ stdout st = [] /\
  skipped st = List.length (records_of (input_text sched)) /\
  exists t : list event, trace st = t ++ [Success 0].
Proof.
  intros Hrun Heof Hel.
  pose proof (exec_called overwrite crash sched initial st eq_refl Hrun) as Hcalled.
  destruct (in_split Eof sched Heof) as (pre & post & ->).
  apply exec_app in Hrun. destruct Hrun as (mid & Hpre & Hpost).
  cbn [exec] in Hpost.
  destruct (step overwrite crash Eof mid) as [st1 |] eqn:Hstep; [| discriminate].
  assert (Hs : stage mid = Reading).
  { unfold step in Hstep. destruct (stage mid); [reflexivity | discriminate | discriminate]. }
  destruct (run_batches overwrite crash pre mid Hpre) as [_ Hinv].
  destruct (Hinv Hs) as [_ Hb].
  pose proof (eof_flushed overwrite crash (input_text pre) mid st1 Hs (Hinv Hs) Hstep) as Hfl.
  destruct (exec_flushed overwrite crash _ post st1 st Hfl Hpost) as [_ Hnone].
  rewrite input_text_app, input_text_cons, Hnone in Hel. cbn [chunk_text String.append] in Hel.
  rewrite input_text_app, input_text_cons, Hnone. cbn [chunk_text String.append].
  rewrite string_app_nil_r in Hel |- *.
  destruct Hb as [Hrec Hfull _ Htotal Hskip]. rewrite Hel in Hrec, Htotal.
  apply app_eq_nil in Hrec. destruct Hrec as [Hbs Hbatch].
  apply (full_batches_empty _ Hfull) in Hbs.
  assert (Hp : pending mid = []) by (unfold batches in Hbs; now apply map_eq_nil in Hbs).
  destruct (run_coherent overwrite crash pre mid Hpre) as [[Hcomp _ Hlines] _].
  assert (Hout : stdout mid = []).
  { destruct (stdout mid) as [| o os]; [reflexivity |].
    apply Forall_inv in Hlines. destruct Hlines as (p & i & ds & Hin & _).
    rewrite Hbs in Hin. destruct Hin. }
  rewrite Hp in Hcomp. cbn in Hcomp.
  apply (step_eof overwrite crash mid st1 Hs) in Hstep. rewrite Hbatch in Hstep.
  assert (Hst1 : st1 = set_stage (Exited 0)
                         (emit_events [Log (LogCost (totalInput mid) (totalOutput mid));
                                       Success (completed mid)]
                            (set_stage Joining
                               (emit_events [Log (LogToGenerate (total mid) (skipped mid))]
                                  mid)))).
  { rewrite Hstep. unfold settle. cbn [stage set_stage pending emit_events].
    rewrite Hp. reflexivity. }
  assert (Hend : post = [] /\ st = st1).
  { apply (exec_exited overwrite crash post st1 st 0); [now rewrite Hst1 | exact Hpost]. }
  destruct Hend as [-> ->]. rewrite Hst1 in Hcalled |- *.
  cbn [stage pending set_stage emit_events skipped].
  repeat split.
  - exact Hp.
  - rewrite Hcalled. unfold batches. cbn. now rewrite Hp.
  - unfold stdout in *. cbn [trace set_stage emit_events].
    rewrite !flat_map_app, Hout. reflexivity.
  - rewrite Htotal in Hskip. cbn in Hskip. lia.
  - cbn [trace set_stage emit_events]. rewrite Hcomp.
    eexists. rewrite <- List.app_assoc.
    change [Log (LogCost (totalInput mid) (totalOutput mid)); Success 0]
      with ([Log (LogCost (totalInput mid) (totalOutput mid))] ++ [Success 0]).
    rewrite !List.app_assoc. reflexivity.
Qed.
End NothingToDo.

Section AttributeFailures.
Import JS Generate.

Lemma sequence_throws {A : Type} (before after : list (res A)) (e : exn) :
  Forall (fun r => exists a, r = Ok a) before ->
  sequence (before ++ Throw e :: after) = Throw e.
Proof.
  induction 1 as [| r before [a ->] _ IH]; [reflexivity |].
  cbn [app sequence]. now rewrite IH.
Qed.

Lemma sequence_throws_some {A : Type} (before after : list (res A)) (e : exn) :
  exists e', sequence (before ++ Throw e :: after) = Throw e'.
Proof.
  induction before as [| r before [e' IH]]; [now exists e |].
  cbn [app sequence]. destruct r as [a | e0]; [| now exists e0].
  exists e'. now rewrite IH.
Qed.

(** Property X12.  A record on which [extractAttributes] throws makes
    [needsGeneration] throw the same exception without the flag; with the
    flag the record is selected unread, and every batch
    that holds it fails to build its prompt (with that exception when the
    records before it are fine). *)
Theorem attribute_failure_stops_both_paths (p : json) (e : exn) :
  extractAttributes p = Throw e ->
  needsGeneration false p = Throw e /\
  needsGeneration true p = Ok true /\
  forall before after : list json,
    (exists e', build_prompt (before ++ p :: after) = Throw e') /\
    (Forall (fun q => exists a, extractAttributes q = Ok a) before ->
     build_prompt (before ++ p :: after) = Throw e).
Proof.
  intros H.
  assert (Hmf : metafields_object p = Throw e).
  { unfold extractAttributes in H.
    destruct (metafields_object p) as [mf | e0] eqn:Hmf;
      [| cbn in H; now injection H as ->].
    exfalso. cbn [JS.bind] in H.
    destruct p as [| b | n | s | l | m];
      [unfold metafields_object in Hmf; cbn in Hmf; discriminate Hmf | ..];
      cbn in H; discriminate H. }
  split; [unfold needsGeneration; now rewrite Hmf |]. split; [reflexivity |].
  intros before after. unfold build_prompt. rewrite map_app. cbn [map]. rewrite H.
  split.
  - destruct (sequence_throws_some (map extractAttributes before)
                (map extractAttributes after) e) as [e' He'].
    exists e'. now rewrite He'.
  - intros Hb. rewrite sequence_throws; [reflexivity |].
    apply Forall_map. exact Hb.
Qed.
End AttributeFailures.

(** ** Traversals of any endpoint *)

Section Traversals.
Import JS Exporter.
Variable server : endpoint.

Lemma requests_app (t t' : list event) : requests (t ++ t') = requests t ++ requests t'.
Proof. apply flat_map_app. Qed.

Lemma throttle_sends_nothing (c : option cost) : requests (fst (throttle c)) = [].
Proof.
  unfold throttle. destruct c as [c |]; [| reflexivity].
  destruct (throttleStatus c) as [t |]; [| reflexivity].
  destruct (currentlyAvailable t <? FLOOR)%Z; reflexivity.
Qed.

Lemma shopify_requests (r : request) : requests (fst (shopify server r)) = [r].
Proof.
  unfold shopify. rewrite bind_trace. cbn [tell fst snd].
  rewrite requests_app. cbn [requests flat_map app].
  destruct (negb (ok (server r))); [reflexivity |].
  destruct (json_body (server r)) as [b |]; [| reflexivity].
  destruct (truthy (errors b)); [reflexivity |].
  rewrite bind_trace, requests_app, throttle_sends_nothing.
  now destruct (snd (throttle (extensions_cost b))).
Qed.

Lemma shopify_done_ok (r : request) (d : option connection) :
  snd (shopify server r) = Done d ->
  ok (server r) = true /\
  exists b : body, json_body (server r) = Some b /\ truthy (errors b) = false /\ d = data b.
Proof.
  unfold shopify. rewrite bind_outcome. cbn [tell snd].
  destruct (ok (server r)); cbn [negb]; [| discriminate].
  destruct (json_body (server r)) as [b |]; [| discriminate].
  destruct (truthy (errors b)) eqn:He; [discriminate |].
  rewrite bind_outcome, throttle_done. cbn. intros H. injection H as <-.
  split; [reflexivity |]. now exists b.
Qed.

Lemma shopify_served (q : query) (id cursor : value) (d : option connection)
  (c : connection) :
  snd (shopify server {| req_query := q; req_id := id; req_cursor := cursor |}) = Done d ->
  snd (extract d) = Done c -> c = served server q id cursor.
Proof.
  intros Hs He. apply shopify_done_ok in Hs. destruct Hs as (Hok & b & Hb & Herr & ->).
  unfold served. cbv zeta. rewrite Hok, Hb, Herr.
  destruct (data b); cbn in He; [now injection He as <- | discriminate].
Qed.

Lemma fetch_loop_follows (q : query) (id : value) (fuel : nat) :
  forall (cursor : value) (items l : list json),
    snd (fetch_loop fuel server q id cursor items) = Done l ->
    let sent := cursors_sent fuel (served server q id) cursor in
    l = items ++ concat (map (fun c => map node (edges (served server q id c))) sent) /\
    requests (fst (fetch_loop fuel server q id cursor items))
    = map (fun c => {| req_query := q; req_id := id; req_cursor := c |}) sent /\
    exists (before : list value) (last : value),
      sent = before ++ [last] /\
      hasNextPage (pageInfo (served server q id last)) = false /\
      Forall (fun c => hasNextPage (pageInfo (served server q id c)) = true) before.
Proof.
  induction fuel as [| fuel IH]; intros cursor items l; [discriminate |].
  cbn [fetch_loop cursors_sent].
  rewrite bind_outcome, bind_trace, requests_app, shopify_requests.
  destruct (snd (shopify server _)) as [d | e |] eqn:Hs; try discriminate.
  rewrite bind_outcome, bind_trace.
  destruct (snd (extract d)) as [c | e |] eqn:He; try discriminate.
  pose proof (shopify_served q id cursor d c Hs He) as Hc.
  assert (Ht : fst (extract d) = []) by (destruct d; reflexivity).
  rewrite Ht. cbn [app]. subst c.
  set (c := served server q id cursor) in *.
  destruct (hasNextPage (pageInfo c)) eqn:Hnext; cbn [negb]; cbv iota zeta.
  - intros H. destruct (IH _ _ _ H) as (Hl & Hr & before & last & Hsent & Hlast & Hbefore).
    split; [| split].
    + cbn [map concat]. fold c. now rewrite Hl, <- List.app_assoc.
    + cbn [map app]. f_equal. exact Hr.
    + exists (cursor :: before), last. rewrite Hsent. split; [reflexivity |].
      split; [exact Hlast |]. constructor; [exact Hnext | exact Hbefore].
  - cbn. intros H. injection H as <-. split; [| split].
    + fold c. now rewrite List.app_nil_r.
    + reflexivity.
    + exists [], cursor. split; [reflexivity |]. split; [exact Hnext | constructor].
Qed.

(** Property X13.  On any endpoint, when [fetchAllPages] returns, its
    result is the concatenation of the nodes of the pages reached by
    following the end cursors from the [null] cursor, it has sent exactly
    the requests for these cursors, and only the last of these pages
    reports no next page. *)
Theorem fetchAllPages_follows_end_cursors (fuel : nat) (q : query) (id : value)
  (items : list json) :
  snd (fetchAllPages fuel server q id) = Done items ->
  let sent := cursors_sent fuel (served server q id) (Some JNull) in
  items = concat (map (fun c => map node (edges (served server q id c))) sent) /\
  requests (fst (fetchAllPages fuel server q id))
  = map (fun c => {| req_query := q; req_id := id; req_cursor := c |}) sent /\
  exists (before : list value) (last : value),
    sent = before ++ [last] /\
    hasNextPage (pageInfo (served server q id last)) = false /\
    Forall (fun c => hasNextPage (pageInfo (served server q id c)) = true) before.
Proof.
  intros H. exact (fetch_loop_follows q id fuel (Some JNull) [] items H).
Qed.

(** Property X14.  [fetchAllPages] has no bound of its own on the number
    of pages: on an endpoint whose every page of a query reports a next
    page it is still running after any number of turns, having sent one
    request per turn. *)
Theorem fetchAllPages_never_returns_from_endless_pages (q : query) (id : value) :
  (forall cursor : value,
     let r := {| req_query := q; req_id := id; req_cursor := cursor |} in
     ok (server r) = true /\
     exists (b : body) (c : connection),
       json_body (server r) = Some b /\ truthy (errors b) = false /\
       data b = Some c /\ hasNextPage (pageInfo c) = true) ->
  forall fuel : nat,
    snd (fetchAllPages fuel server q id) = Running /\
    List.length (requests (fst (fetchAllPages fuel server q id))) = fuel.
Proof.
  intros Hserver fuel. unfold fetchAllPages.
  generalize (Some JNull) as cursor. generalize (@nil json) as items.
  induction fuel as [| fuel IH]; intros items cursor; [split; reflexivity |].
  destruct (Hserver cursor) as (Hok & b & c & Hb & He & Hd & Hnext).
  rewrite (fetch_loop_step fuel server q id cursor items b c Hok Hb He Hd), Hnext.
  destruct (IH (items ++ map node (edges c)) (endCursor (pageInfo c))) as [H1 H2].
  destruct (fetch_loop fuel server q id (endCursor (pageInfo c)) (items ++ map node (edges c)))
    as [t res].
  cbn [fst snd] in *. split; [exact H1 |].
  change (Request ?r :: ?t) with ([Request r] ++ t).
  rewrite !requests_app, throttle_sends_nothing. cbn. now rewrite H2.
Qed.
End Traversals.

(** ** The order and the counts of the export *)

Section ExportOrder.
Import JS Exporter.
Variables (when : arrivals) (fuel : nat) (server : endpoint).

Lemma export_edges_done (es : list edge) :
  forall total n : nat,
    snd (export_edges when fuel server es total) = Done n ->
    n = total + List.length es /\
    Forall2 (exported_as fuel server) (map node es)
            (stdout (fst (export_edges when fuel server es total))).
Proof.
  induction es as [| e es IH]; intros total n.
  - cbn. intros H. injection H as <-. split; [lia | constructor].
  - cbn [export_edges]. rewrite bind_outcome, bind_trace, stdout_app.
    destruct (snd (export_product (when total) fuel server (node e))) as [[] | x |] eqn:Hp;
      try discriminate.
    intros H. destruct (IH _ _ H) as [-> Hall].
    destruct (export_product_done (when total) fuel server (node e) Hp) as (o & Ho & Hex).
    rewrite Ho. cbn [map List.length app]. split; [lia |].
    constructor; assumption.
Qed.

Lemma run_loop_done (turns : nat) :
  forall (cursor : value) (total n : nat) (items : list json),
    snd (run_loop when fuel server turns cursor total) = Done n ->
    exists products : list json,
      snd (fetch_loop turns server PRODUCTS_QUERY None cursor items)
      = Done (items ++ products) /\
      Forall2 (exported_as fuel server) products
              (stdout (fst (run_loop when fuel server turns cursor total))) /\
      n = total + List.length products.
Proof.
  induction turns as [| turns IH]; intros cursor total n items; [discriminate |].
  cbn [run_loop fetch_loop].
  rewrite !bind_outcome, bind_trace, stdout_app, shopify_quiet. cbn [app].
  destruct (snd (shopify server _)) as [d | e |]; try discriminate.
  rewrite !bind_outcome, bind_trace.
  destruct d as [c |]; cbn [extract ret raise fst snd app]; [| discriminate].
  rewrite bind_outcome, bind_trace, stdout_app.
  destruct (snd (export_edges when fuel server (edges c) total)) as [total' | e |] eqn:He;
    try discriminate.
  destruct (export_edges_done _ _ _ He) as [-> Hall].
  rewrite bind_outcome, bind_trace. cbn [tell fst snd stdout flat_map app].
  destruct (hasNextPage (pageInfo c)); cbn [negb].
  - intros H.
    destruct (IH _ _ _ (items ++ map node (edges c)) H) as (products & Hf & Hrest & ->).
    exists (map node (edges c) ++ products). rewrite List.app_assoc. split; [exact Hf |].
    split; [now apply Forall2_app |]. rewrite length_app, length_map. lia.
  - cbn. intros H. injection H as <-.
    exists (map node (edges c)). split; [reflexivity |].
    rewrite List.app_nil_r. split; [exact Hall |]. now rewrite length_map.
Qed.

(** Property X15.  A run of the exporter that ends well has printed one
    record per product of the listing, in the order of the listing, each
    holding all that the fetches of its product returned, and its last
    event reports their number. *)
Theorem export_prints_every_product_in_order :
  snd (run when fuel server) = Done tt ->
  exists products : list json,
    snd (fetchAllPages fuel server PRODUCTS_QUERY None) = Done products /\
    Forall2 (exported_as fuel server) products (stdout (fst (run when fuel server))) /\
    exists t : list event,
      fst (run when fuel server) = t ++ [Success (List.length products)].
Proof.
  unfold run. rewrite bind_outcome. cbn [tell snd].
  rewrite bind_outcome.
  destruct (snd (run_loop when fuel server fuel (Some JNull) 0)) as [n | e |] eqn:Hn;
    try discriminate.
  intros _. destruct (run_loop_done fuel (Some JNull) 0 n [] Hn) as (products & Hf & Hall & ->).
  exists products. split; [exact Hf |].
  rewrite bind_trace. cbn [tell fst snd]. rewrite bind_trace, Hn. cbn [tell fst].
  split.
  - rewrite stdout_app. cbn [stdout flat_map app]. rewrite stdout_app. cbn.
    now rewrite List.app_nil_r.
  - exists (Log LogStarting :: fst (run_loop when fuel server fuel (Some JNull) 0)).
    reflexivity.
Qed.
End ExportOrder.

Section ExportCounts.
Import JS Exporter.
Variables (when : arrivals) (fuel : nat) (server : endpoint).

Lemma counts_agree_app (t1 t2 : list event) :
  forall seen : nat,
    counts_agree seen (t1 ++ t2) <->
    counts_agree seen t1 /\ counts_agree (seen + List.length (stdout t1)) t2.
Proof.
  induction t1 as [| ev t1 IH]; intros seen.
  - cbn. rewrite Nat.add_0_r. tauto.
  - destruct ev as [r | [| w | k] | w | o | k | e]; cbn [app counts_agree stdout flat_map];
      rewrite ?IH; cbn [List.length app]; rewrite ?Nat.add_succ_r; cbn; tauto.
Qed.

Lemma uncounted_agree (t : list event) :
  uncounted t -> stdout t = [] /\ forall seen, counts_agree seen t.
Proof.
  induction 1 as [| ev t Hev _ [IH1 IH2]]; [split; [reflexivity | intros; exact I] |].
  destruct ev as [r | [| w | k] | w | o | k | e]; try contradiction;
    (split; [exact IH1 | intros seen; apply IH2]).
Qed.

Lemma uncounted_app (t t' : list event) : uncounted t -> uncounted t' -> uncounted (t ++ t').
Proof. intros H H'. apply Forall_app. now split. Qed.

Lemma throttle_uncounted (c : option cost) : uncounted (fst (throttle c)).
Proof.
  unfold throttle. destruct c as [c |]; [| constructor].
  destruct (throttleStatus c) as [t |]; [| constructor].
  destruct (currentlyAvailable t <? FLOOR)%Z; repeat constructor.
Qed.

Lemma shopify_uncounted (r : request) : uncounted (fst (shopify server r)).
Proof.
  unfold shopify. rewrite bind_trace. cbn [tell fst snd].
  apply uncounted_app; [repeat constructor |].
  destruct (negb (ok (server r))); [constructor |].
  destruct (json_body (server r)) as [b |]; [| constructor].
  destruct (truthy (errors b)); [constructor |].
  rewrite bind_trace. apply uncounted_app; [apply throttle_uncounted |].
  destruct (snd (throttle (extensions_cost b))); constructor.
Qed.

Lemma fetch_loop_uncounted (q : query) (id : value) (turns : nat) :
  forall (cursor : value) (items : list json),
    uncounted (fst (fetch_loop turns server q id cursor items)).
Proof.
  induction turns as [| turns IH]; intros cursor items; [constructor |].
  cbn [fetch_loop]. rewrite bind_trace. apply uncounted_app; [apply shopify_uncounted |].
  destruct (snd (shopify server _)) as [d | e |]; try constructor.
  rewrite bind_trace.
  destruct d as [c |]; cbn [extract ret raise fst snd app]; [| constructor].
  destruct (negb (hasNextPage (pageInfo c))); [constructor | apply IH].
Qed.

Lemma export_product_counts (order : list nat * list nat) (product : json) (seen : nat) :
  counts_agree seen (fst (export_product order fuel server product)) /\
  (forall u, snd (export_product order fuel server product) = Done u ->
             List.length (stdout (fst (export_product order fuel server product))) = 1).
Proof.
  destruct (export_product_shape
              (fun ev => match ev with
                         | Stdout _ => False
                         | Log (LogExported _) => False
                         | Success _ => False
                         | _ => True
                         end) order fuel server product)
    as (t & Ht & Hq & [[-> Hn] | (o & -> & Hd & _)]).
  - intros q id. apply fetch_loop_uncounted.
  - split; [apply (uncounted_agree t Ht) |]. intros u Hu. now destruct (Hn u).
  - split.
    + apply counts_agree_app. split; [apply (uncounted_agree t Ht) | exact I].
    + intros _ _. rewrite stdout_app, Hq. reflexivity.
Qed.

Lemma export_edges_counts (es : list edge) :
  forall total : nat,
    counts_agree total (fst (export_edges when fuel server es total)) /\
    forall n, snd (export_edges when fuel server es total) = Done n ->
              n = total + List.length (stdout (fst (export_edges when fuel server es total))).
Proof.
  induction es as [| e es IH]; intros total.
  - cbn. split; [exact I |]. intros n H. injection H as <-. lia.
  - cbn [export_edges]. rewrite bind_outcome, bind_trace, counts_agree_app, stdout_app.
    destruct (export_product_counts (when total) (node e) total) as [Hc Hone].
    destruct (snd (export_product (when total) fuel server (node e))) as [[] | x |] eqn:Hp.
    + rewrite (Hone tt eq_refl). destruct (IH (S total)) as [Hc' Hn].
      replace (total + 1) with (S total) by lia.
      split; [now split |].
      intros n H. rewrite (Hn n H), length_app, (Hone tt eq_refl). lia.
    + split; [split; [exact Hc | exact I] | discriminate].
    + split; [split; [exact Hc | exact I] | discriminate].
Qed.

Lemma run_loop_counts (turns : nat) :
  forall (cursor : value) (total : nat),
    counts_agree total (fst (run_loop when fuel server turns cursor total)) /\
    forall n, snd (run_loop when fuel server turns cursor total) = Done n ->
              n = total
                  + List.length (stdout (fst (run_loop when fuel server turns cursor total))).
Proof.
  induction turns as [| turns IH]; intros cursor total; [split; [exact I | discriminate] |].
  cbn [run_loop]. rewrite bind_outcome, bind_trace.
  destruct (uncounted_agree _ (shopify_uncounted
              {| req_query := PRODUCTS_QUERY; req_id := None; req_cursor := cursor |}))
    as [Hq Hc].
  rewrite counts_agree_app, stdout_app, Hq. cbn [List.length app]. rewrite Nat.add_0_r.
  destruct (snd (shopify server _)) as [d | e |];
    try (split; [split; [apply Hc | exact I] | discriminate]).
  rewrite bind_outcome, bind_trace.
  destruct d as [c |]; cbn [extract ret raise fst snd app];
    [| split; [split; [apply Hc | exact I] | discriminate]].
  rewrite bind_outcome, bind_trace.
  destruct (export_edges_counts (edges c) total) as [Hce Hn].
  rewrite counts_agree_app, stdout_app.
  destruct (snd (export_edges when fuel server (edges c) total)) as [total' | e |];
    try (split; [repeat split; [apply Hc | exact Hce] | discriminate]).
  specialize (Hn total' eq_refl). rewrite <- Hn.
  rewrite bind_outcome, bind_trace. cbn [tell fst snd app].
  destruct (negb (hasNextPage (pageInfo c))).
  - cbn. split; [repeat split; [apply Hc | exact Hce] |].
    intros n H. injection H as <-. rewrite length_app. cbn.
    rewrite Nat.add_0_r. exact Hn.
  - destruct (IH (endCursor (pageInfo c)) total') as [Hcr Hnr].
    cbn [counts_agree stdout flat_map app]. split.
    + repeat split; [apply Hc | exact Hce | exact Hcr].
    + intros n H. rewrite (Hnr n H), length_app.
      unfold stdout in *. cbn [flat_map app] in *. lia.
Qed.

(** Property X17.  Every count the exporter logs, after a page and at the
    end, is the number of records printed before it, whatever the
    endpoint answers and in whatever order. *)
Theorem exporter_counts_what_it_prints :
  counts_agree 0 (fst (main when fuel server)).
Proof.
  assert (Hrun : counts_agree 0 (fst (run when fuel server))).
  { unfold run. rewrite bind_trace. cbn [tell fst snd app counts_agree].
    rewrite bind_trace, counts_agree_app.
    destruct (run_loop_counts fuel (Some JNull) 0) as [Hc Hn].
    split; [exact Hc |].
    destruct (snd (run_loop when fuel server fuel (Some JNull) 0)) as [n | e |];
      try exact I.
    cbn. split; [| exact I]. now apply Hn. }
  unfold main. destruct (run when fuel server) as [t [[] | e |]]; cbn [fst] in *;
    try exact Hrun.
  apply counts_agree_app. split; [exact Hrun | exact I].
Qed.
End ExportCounts.

(** ** Exports that fail *)

Section ExportPrefix.
Import JS Exporter.
Variables (when : arrivals) (fuel : nat) (server : endpoint).

Lemma export_edges_prefix (es : list edge) :
  forall total : nat,
    exists k : nat,
      Forall2 (exported_as fuel server) (firstn k (map node es))
              (stdout (fst (export_edges when fuel server es total))) /\
      (forall n, snd (export_edges when fuel server es total) = Done n ->
                 firstn k (map node es) = map node es).
Proof.
  induction es as [| e es IH]; intros total.
  - exists 0. split; [constructor | reflexivity].
  - cbn [export_edges]. rewrite bind_outcome, bind_trace, stdout_app.
    destruct (snd (export_product (when total) fuel server (node e))) as [[] | x |] eqn:Hp.
    + destruct (export_product_done (when total) fuel server (node e) Hp) as (o & Ho & Hex).
      destruct (IH (S total)) as (k & Hall & Hdone).
      exists (S k). rewrite Ho. cbn [map firstn app]. split.
      * now constructor.
      * intros n H. now rewrite (Hdone n H).
    + exists 0. rewrite export_product_failed by (intros u; rewrite Hp; discriminate).
      split; [constructor | discriminate].
    + exists 0. rewrite export_product_failed by (intros u; rewrite Hp; discriminate).
      split; [constructor | discriminate].
Qed.

Lemma run_loop_prefix (turns : nat) :
  forall (cursor : value) (total : nat),
    exists products rest : list json,
      concat (map (fun c => map node (edges (served server PRODUCTS_QUERY None c)))
                  (cursors_sent turns (served server PRODUCTS_QUERY None) cursor))
      = products ++ rest /\
      Forall2 (exported_as fuel server) products
              (stdout (fst (run_loop when fuel server turns cursor total))) /\
      (forall n, snd (run_loop when fuel server turns cursor total) = Done n -> rest = []).
Proof.
  induction turns as [| turns IH]; intros cursor total.
  - exists [], []. split; [reflexivity |]. split; [constructor | discriminate].
  - cbn [run_loop cursors_sent map concat].
    rewrite bind_outcome, bind_trace, stdout_app, shopify_quiet. cbn [app].
    set (page := served server PRODUCTS_QUERY None cursor).
    destruct (snd (shopify server _)) as [d | e |] eqn:Hs;
      try (eexists [], _; split; [reflexivity |]; split; [constructor | discriminate]).
    rewrite bind_outcome, bind_trace.
    destruct (snd (extract d)) as [c | e |] eqn:He;
      try (assert (Ht : fst (extract d) = []) by (destruct d; reflexivity);
           rewrite Ht; eexists [], _; split; [reflexivity |];
           split; [constructor | discriminate]).
    assert (Ht : fst (extract d) = []) by (destruct d; reflexivity).
    rewrite Ht. cbn [app].
    pose proof (shopify_served server PRODUCTS_QUERY None cursor d c Hs He) as Hc.
    fold page in Hc. subst c.
    rewrite bind_outcome, bind_trace, stdout_app.
    destruct (export_edges_prefix (edges page) total) as (k & Hall & Hdone).
    destruct (snd (export_edges when fuel server (edges page) total))
      as [total' | e |] eqn:Hee.
    + specialize (Hdone total' eq_refl). rewrite Hdone in Hall.
      rewrite bind_outcome, bind_trace. cbn [tell fst snd stdout flat_map app].
      destruct (hasNextPage (pageInfo page)); cbn [negb].
      * destruct (IH (endCursor (pageInfo page)) total') as (products & rest & Hl & Hrest & Hr).
        exists (map node (edges page) ++ products), rest.
        rewrite Hl, List.app_assoc. split; [reflexivity |].
        split; [now apply Forall2_app | exact Hr].
      * exists (map node (edges page)), []. cbn [concat].
        split; [reflexivity |]. split; [| reflexivity].
        cbn. now rewrite List.app_nil_r.
    + exists (firstn k (map node (edges page))),
             (skipn k (map node (edges page))
              ++ concat (map (fun c => map node (edges (served server PRODUCTS_QUERY None c)))
                             (if hasNextPage (pageInfo page)
                              then cursors_sent turns (served server PRODUCTS_QUERY None)
                                     (endCursor (pageInfo page))
                              else []))).
      rewrite List.app_assoc, firstn_skipn. split; [reflexivity |].
      rewrite List.app_nil_r. split; [exact Hall | discriminate].
    + exists (firstn k (map node (edges page))),
             (skipn k (map node (edges page))
              ++ concat (map (fun c => map node (edges (served server PRODUCTS_QUERY None c)))
                             (if hasNextPage (pageInfo page)
                              then cursors_sent turns (served server PRODUCTS_QUERY None)
                                     (endCursor (pageInfo page))
                              else []))).
      rewrite List.app_assoc, firstn_skipn. split; [reflexivity |].
      rewrite List.app_nil_r. split; [exact Hall | discriminate].
Qed.

Lemma run_stdout :
  stdout (fst (run when fuel server))
  = stdout (fst (run_loop when fuel server fuel (Some JNull) 0)).
Proof.
  unfold run. rewrite bind_trace. cbn [tell fst snd].
  rewrite stdout_app. cbn [stdout flat_map app]. rewrite bind_trace, stdout_app.
  destruct (snd (run_loop when fuel server fuel (Some JNull) 0)); cbn;
    now rewrite List.app_nil_r.
Qed.

(** Property X16.  Whatever ends the export, what it has printed are the
    records of the first products of the listing, in order; when it ends
    with 0 they are all of them. *)
Theorem export_prints_a_prefix_of_the_listing :
  exists products rest : list json,
    listing server fuel = products ++ rest /\
    Forall2 (exported_as fuel server) products (stdout (fst (main when fuel server))) /\
    (snd (main when fuel server) = Some 0 -> rest = []).
Proof.
  destruct (run_loop_prefix fuel (Some JNull) 0) as (products & rest & Hl & Hall & Hr).
  exists products, rest. split; [exact Hl |].
  pose proof run_stdout as Hout.
  assert (Hdone : forall u, snd (run when fuel server) = Done u ->
                            exists n, snd (run_loop when fuel server fuel (Some JNull) 0)
                                      = Done n).
  { unfold run. rewrite bind_outcome. cbn [tell snd]. rewrite bind_outcome.
    destruct (snd (run_loop when fuel server fuel (Some JNull) 0)) as [n | e |];
      try discriminate. intros. now exists n. }
  unfold main. destruct (run when fuel server) as [t [[] | e |]] eqn:E; cbn [fst snd] in *.
  - split; [now rewrite Hout |]. intros _.
    destruct (Hdone tt eq_refl) as [n Hn]. exact (Hr n Hn).
  - split; [| discriminate]. rewrite stdout_app, Hout. cbn. now rewrite List.app_nil_r.
  - split; [now rewrite Hout | discriminate].
Qed.
End ExportPrefix.

(** ** The records of the export *)

Section CompleteRecords.
Import JS Exporter.

Lemma Forall2_in_right {A B : Type} (R : A -> B -> Prop) (l : list A) (l' : list B)
  (y : B) :
  Forall2 R l l' -> In y l' -> exists x, In x l /\ R x y.
Proof.
  induction 1 as [| a b l l' Hab _ IH]; [intros [] |].
  intros [<- | H].
  - exists a. split; [now left | exact Hab].
  - destruct (IH H) as (x & Hx & Hr). exists x. split; [now right | exact Hr].
Qed.

(** Claim C7.  Every record the exporter prints is that of a product of
    the listing, and is complete: the three fetches of the product have
    returned, each variant's own metafield fetch has returned, and the
    record holds all they returned under [metafields], [variants] (each
    variant with its metafields) and [media], beside the product's own
    properties; a product one of whose fetches did not return prints
    nothing.  A record holds what was merged into it, whatever it is: the
    three arrays are there under their keys and every other key is the
    product's.  For a product without sub-resources the printed object has
    the product's own properties and an empty array under each of the three
    keys. *)
Theorem exported_records_are_complete (when : arrivals) (fuel : nat) (server : endpoint) :
  (forall o : json,
     In o (stdout (fst (run when fuel server))) -> complete_record fuel server o) /\
  (forall (order : list nat * list nat) (product : json),
     (forall o : json, ~ exported_as fuel server product o) ->
     stdout (fst (export_product order fuel server product)) = []) /\
  (forall (product : json) (metafields variants media : list json),
     exists fields : list (string * json),
       enrich product metafields variants media = JObj fields /\
       assoc "metafields" fields = Some (JArr metafields) /\
       assoc "variants" fields = Some (JArr variants) /\
       assoc "media" fields = Some (JArr media) /\
       forall k : string,
         k <> "metafields" -> k <> "variants" -> k <> "media" ->
         assoc k fields = assoc k (own_properties (Some product))) /\
  (forall (variant : json) (mfs : list json),
     exists fields : list (string * json),
       spread (Some variant) [("metafields", JArr mfs)] = JObj fields /\
       assoc "metafields" fields = Some (JArr mfs) /\
       forall k : string,
         k <> "metafields" -> assoc k fields = assoc k (own_properties (Some variant))) /\
  (forall (order : list nat * list nat) (product : json) (pid : value),
     get (Some product) "id" = Ok pid ->
     snd (fetchAllPages fuel server VARIANTS_QUERY pid) = Done [] ->
     snd (fetchAllPages fuel server MEDIA_QUERY pid) = Done [] ->
     snd (fetchMetafields fuel server pid) = Done [] ->
     stdout (fst (export_product order fuel server product))
     = [enrich product [] [] []]).
Proof.
  split; [| split; [| split; [| split]]].
  - intros o Ho. rewrite run_stdout in Ho.
    destruct (run_loop_prefix when fuel server fuel (Some JNull) 0)
      as (products & rest & Hl & Hall & _).
    destruct (Forall2_in_right _ _ _ o Hall Ho) as (product & Hp & Hex).
    exists product. split; [| exact Hex].
    unfold listing. rewrite Hl. apply in_or_app. now left.
  - intros order product Hnone.
    destruct (export_product_outcome order fuel server product)
      as [[Hq _] | (o & _ & _ & Hex)]; [exact Hq |].
    now destruct (Hnone o).
  - intros product metafields variants media.
    destruct (enrich_carries product metafields variants media)
      as (fields & Hf & Hextra & Hrest).
    exists fields. split; [exact Hf |].
    inversion Hextra as [| ? ? H1 Hextra1]; subst.
    inversion Hextra1 as [| ? ? H2 Hextra2]; subst.
    inversion Hextra2 as [| ? ? H3 _]; subst. cbn [fst snd] in *.
    repeat (split; [assumption |]).
    intros k K1 K2 K3. apply Hrest. cbn. intuition congruence.
  - intros variant mfs.
    destruct (variant_carries variant mfs) as (fields & Hf & Hextra & Hrest).
    exists fields. split; [exact Hf |].
    inversion Hextra as [| ? ? H1 _]; subst. cbn [fst snd] in *.
    split; [assumption |].
    intros k K1. apply Hrest. cbn. intuition congruence.
  - intros order product pid Hid Hv Hm Hmf.
    apply export_product_exported.
    exists pid, [], [], [], []. repeat split; try assumption.
    + constructor.
    + apply enrich_carries.
Qed.
End CompleteRecords.

(** ** The further properties on the samples *)

Section MoreInstances.
Import JS.

Lemma reading_ignores_chunk_boundaries_witness :
  Generate.run false true (map Generate.Chunk [Samples.line Samples.undescribed])
  = Some (Generate.after_reading false (Samples.line Samples.undescribed)) /\
  Generate.stage (Generate.after_reading false (Samples.line Samples.undescribed))
  = Generate.Reading /\
  String.concat "" [Samples.line Samples.undescribed]
  = String.concat "" (Samples.cut 10 (Samples.line Samples.undescribed)) /\
  Generate.run false true
    (map Generate.Chunk (Samples.cut 10 (Samples.line Samples.undescribed)))
  = Some (Generate.after_reading false (Samples.line Samples.undescribed)).
Proof.
  assert (H1 : Generate.run false true
                 (map Generate.Chunk [Samples.line Samples.undescribed])
               = Some (Generate.after_reading false (Samples.line Samples.undescribed)))
    by (vm_compute; reflexivity).
  assert (H2 : Generate.stage
                 (Generate.after_reading false (Samples.line Samples.undescribed))
               = Generate.Reading) by (vm_compute; reflexivity).
  assert (H3 : String.concat "" [Samples.line Samples.undescribed]
               = String.concat "" (Samples.cut 10 (Samples.line Samples.undescribed)))
    by (vm_compute; reflexivity).
  repeat (split; [assumption |]).
  exact (proj1 (reading_ignores_chunk_boundaries false true _ _ _ H1 H2 H3)).
Defined.

Lemma one_call_per_batch_witness :
  Generate.run false true Samples.scenario = Some Samples.scenario_end /\
  List.length (Generate.calls Samples.scenario_end) <= 1 /\
  Generate.calls Samples.scenario_end
  = Generate.call_for (repeat Samples.undescribed 5).
Proof.
  assert (H : Generate.run false true Samples.scenario = Some Samples.scenario_end)
    by (vm_compute; reflexivity).
  split; [exact H |].
  destruct (one_call_per_batch false true Samples.scenario Samples.scenario_end H)
    as (Hc & Hle & _).
  split; [exact Hle |].
  rewrite Hc. vm_compute. reflexivity.
Defined.

Lemma progress_never_exceeds_total_witness :
  Generate.run false true Samples.scenario = Some Samples.scenario_end /\
  Generate.completed Samples.scenario_end <= Generate.total Samples.scenario_end.
Proof.
  assert (H : Generate.run false true Samples.scenario = Some Samples.scenario_end)
    by (vm_compute; reflexivity).
  split; [exact H |].
  exact (proj1 (progress_never_exceeds_total false true Samples.scenario
                  Samples.scenario_end H)).
Defined.

Lemma prompt_numbers_products_in_order_witness :
  Generate.build_prompt [Samples.undescribed] = Ok Samples.prompt_text /\
  exists blocks : list string,
    Samples.prompt_text
    = ("Generate descriptions for these " ++ string_of_nat 1 ++ " products in order:"
       ++ Generate.nl ++ Generate.nl ++ join (Generate.nl ++ Generate.nl) blocks)%string /\
    List.length blocks = 1.
Proof.
  assert (H : Generate.build_prompt [Samples.undescribed] = Ok Samples.prompt_text)
    by (vm_compute; reflexivity).
  split; [exact H |].
  destruct (prompt_numbers_products_in_order [Samples.undescribed] Samples.prompt_text H)
    as (blocks & Ht & Hl & _).
  exists blocks. split; [exact Ht | exact Hl].
Defined.

Lemma prompt_builds_for_catalogue_records_witness :
  Forall (fun p => Generate.catalogue_record p = true) [Samples.undescribed] /\
  exists text : string, Generate.build_prompt [Samples.undescribed] = Ok text.
Proof.
  assert (H : Forall (fun p => Generate.catalogue_record p = true) [Samples.undescribed])
    by (repeat constructor).
  split; [exact H |].
  exact (proj1 (prompt_builds_for_catalogue_records [Samples.undescribed] H)).
Defined.

Lemma printed_line_is_eligible_again_witness :
  Generate.output_line 0 Samples.undescribed (Some (JArr [Samples.pair "a" "b"]))
  = Ok (Generate.line_for Samples.undescribed (Samples.pair "a" "b")) /\
  Generate.needsGeneration false
    (Generate.line_for Samples.undescribed (Samples.pair "a" "b")) = Ok true.
Proof.
  assert (H : Generate.output_line 0 Samples.undescribed
                (Some (JArr [Samples.pair "a" "b"]))
              = Ok (Generate.line_for Samples.undescribed (Samples.pair "a" "b")))
    by (vm_compute; reflexivity).
  split; [exact H |].
  apply (proj2 (printed_line_is_eligible_again 0 Samples.undescribed _ _ H) (JStr "a")).
  - exists (Some (Samples.pair "a" "b")). split; reflexivity.
  - left. now exists "a".
Defined.

Lemma generator_reads_what_exporter_prints_witness :
  Exporter.serves_proper Samples.one_product /\
  Generate.records_of
    (Exporter.stdout_text (Exporter.stdout (fst (Exporter.run Samples.in_turn 2 Samples.one_product))))
  = [Samples.exported].
Proof.
  assert (Hs : Exporter.serves_proper Samples.one_product).
  { apply simulated_serves_proper. constructor; [| constructor].
    vm_compute. repeat split. }
  split; [exact Hs |].
  rewrite (proj1 (generator_reads_what_exporter_prints Samples.in_turn 2 Samples.one_product Hs)).
  vm_compute. reflexivity.
Defined.

Lemma token_totals_sum_the_usage_of_the_calls_witness :
  Generate.run false true Samples.scenario = Some Samples.scenario_end /\
  Generate.totalInput Samples.scenario_end = 100%Z /\
  Generate.totalOutput Samples.scenario_end = 40%Z.
Proof.
  assert (H : Generate.run false true Samples.scenario = Some Samples.scenario_end)
    by (vm_compute; reflexivity).
  split; [exact H |].
  destruct (token_totals_sum_the_usage_of_the_calls false true Samples.scenario
              Samples.scenario_end H) as (Hi & Ho & _).
  split; [rewrite Hi | rewrite Ho]; vm_compute; reflexivity.
Defined.

Lemma nothing_eligible_means_no_call_witness :
  Generate.run false true Samples.nothing_to_do = Some Samples.nothing_to_do_end /\
  In Generate.Eof Samples.nothing_to_do /\
  filter (Generate.eligible false)
         (Generate.records_of (Generate.input_text Samples.nothing_to_do)) = [] /\
  Generate.stage Samples.nothing_to_do_end = Generate.Exited 0 /\
  Generate.calls Samples.nothing_to_do_end = [].
Proof.
  assert (H1 : Generate.run false true Samples.nothing_to_do
               = Some Samples.nothing_to_do_end) by (vm_compute; reflexivity).
  assert (H2 : In Generate.Eof Samples.nothing_to_do) by (right; left; reflexivity).
  assert (H3 : filter (Generate.eligible false)
                 (Generate.records_of (Generate.input_text Samples.nothing_to_do)) = [])
    by (vm_compute; reflexivity).
  repeat (split; [assumption |]).
  destruct (nothing_eligible_means_no_call false true Samples.nothing_to_do
              Samples.nothing_to_do_end H1 H2 H3) as (Hs & _ & Hc & _).
  split; assumption.
Defined.

Lemma attribute_failure_stops_both_paths_witness :
  Generate.extractAttributes JNull = Throw TypeError /\
  Generate.needsGeneration false JNull = Throw TypeError /\
  Generate.build_prompt [Samples.undescribed; JNull] = Throw TypeError.
Proof.
  assert (H : Generate.extractAttributes JNull = Throw TypeError) by reflexivity.
  split; [exact H |].
  destruct (attribute_failure_stops_both_paths JNull TypeError H) as (Hn & _ & Hb).
  split; [exact Hn |].
  apply (proj2 (Hb [Samples.undescribed] [])).
  repeat constructor. eexists. vm_compute. reflexivity.
Defined.

Lemma fetchAllPages_follows_end_cursors_witness :
  snd (Exporter.fetchAllPages 5 (Exporter.simulated Samples.three 2)
         Exporter.VARIANTS_QUERY None) = Exporter.Done Samples.three /\
  Exporter.requests
    (fst (Exporter.fetchAllPages 5 (Exporter.simulated Samples.three 2)
            Exporter.VARIANTS_QUERY None))
  = [ {| Exporter.req_query := Exporter.VARIANTS_QUERY; Exporter.req_id := None;
         Exporter.req_cursor := Some JNull |};
      {| Exporter.req_query := Exporter.VARIANTS_QUERY; Exporter.req_id := None;
         Exporter.req_cursor := Some (JNum 2) |} ].
Proof.
  assert (H : snd (Exporter.fetchAllPages 5 (Exporter.simulated Samples.three 2)
                     Exporter.VARIANTS_QUERY None) = Exporter.Done Samples.three)
    by reflexivity.
  split; [exact H |].
  rewrite (proj1 (proj2 (fetchAllPages_follows_end_cursors
                           (Exporter.simulated Samples.three 2) 5
                           Exporter.VARIANTS_QUERY None Samples.three H))).
  reflexivity.
Defined.

Lemma fetchAllPages_never_returns_from_endless_pages_witness :
  (forall cursor : value,
     let r := {| Exporter.req_query := Exporter.METAFIELDS_QUERY;
                 Exporter.req_id := None; Exporter.req_cursor := cursor |} in
     Exporter.ok (Samples.throttled r) = true /\
     exists (b : Exporter.body) (c : Exporter.connection),
       Exporter.json_body (Samples.throttled r) = Some b /\
       truthy (Exporter.errors b) = false /\
       Exporter.data b = Some c /\
       Exporter.hasNextPage (Exporter.pageInfo c) = true) /\
  snd (Exporter.fetchAllPages 7 Samples.throttled Exporter.METAFIELDS_QUERY None)
  = Exporter.Running.
Proof.
  assert (H : forall cursor : value,
             let r := {| Exporter.req_query := Exporter.METAFIELDS_QUERY;
                         Exporter.req_id := None; Exporter.req_cursor := cursor |} in
             Exporter.ok (Samples.throttled r) = true /\
             exists (b : Exporter.body) (c : Exporter.connection),
               Exporter.json_body (Samples.throttled r) = Some b /\
               truthy (Exporter.errors b) = false /\
               Exporter.data b = Some c /\
               Exporter.hasNextPage (Exporter.pageInfo c) = true).
  { intros cursor r. split; [reflexivity |].
    eexists _, _. repeat split. }
  split; [exact H |].
  exact (proj1 (fetchAllPages_never_returns_from_endless_pages
                  Samples.throttled Exporter.METAFIELDS_QUERY None H 7)).
Defined.

Lemma export_prints_every_product_in_order_witness :
  snd (Exporter.run Samples.in_turn 2 Samples.one_product) = Exporter.Done tt /\
  exists products : list json,
    snd (Exporter.fetchAllPages 2 Samples.one_product Exporter.PRODUCTS_QUERY None)
    = Exporter.Done products /\
    Forall2 (Exporter.exported_as 2 Samples.one_product) products
            (Exporter.stdout (fst (Exporter.run Samples.in_turn 2 Samples.one_product))).
Proof.
  assert (H : snd (Exporter.run Samples.in_turn 2 Samples.one_product) = Exporter.Done tt)
    by (vm_compute; reflexivity).
  split; [exact H |].
  destruct (export_prints_every_product_in_order Samples.in_turn 2 Samples.one_product H)
    as (products & Hf & Hall & _).
  exists products. split; assumption.
Defined.
Lemma metafields_are_looked_up_by_key_alone_witness :
  Generate.is_record Samples.relabelled = true /\
  assoc "metafields" Samples.relabelled_fields = Some (JArr Samples.relabelled_metafields) /\
  List.length [JStr "shop"; JStr "shop"; JStr "shop"; JStr "shop"]
  = List.length Samples.relabelled_metafields /\
  Generate.needsGeneration false Samples.relabelled = Ok true /\
  Generate.build_prompt
    [Generate.set_metafields
       (map (fun nm => Generate.set_namespace (fst nm) (snd nm))
            (combine [JStr "shop"; JStr "shop"; JStr "shop"; JStr "shop"]
                     Samples.relabelled_metafields))
       Samples.relabelled]
  = Generate.build_prompt [Samples.relabelled] /\
  Generate.build_prompt [Samples.relabelled]
  = Ok ("Generate descriptions for these 1 products in order:" ++ Generate.nl ++ Generate.nl
        ++ "Product 1: Flask" ++ Generate.nl ++ "material: plastic")%string.
Proof.
  do 3 (split; [reflexivity |]).
  pose proof (metafields_are_looked_up_by_key_alone
                false Samples.relabelled_fields Samples.relabelled_metafields
                [JStr "shop"; JStr "shop"; JStr "shop"; JStr "shop"] [] []
                eq_refl eq_refl eq_refl) as H.
  cbv zeta in H. destruct H as ((_ & _ & Hprompt) & (a & _ & _ & Hneeds & _) & _).
  split; [exact Hneeds |]. split; [exact Hprompt | reflexivity].
Defined.

Lemma exported_records_are_complete_witness :
  In Samples.exported
     (Exporter.stdout (fst (Exporter.run Samples.in_turn 2 Samples.one_product))) /\
  Exporter.complete_record 2 Samples.one_product Samples.exported.
Proof.
  assert (H : In Samples.exported
                 (Exporter.stdout (fst (Exporter.run Samples.in_turn 2 Samples.one_product))))
    by (vm_compute; now left).
  split; [exact H |].
  exact (proj1 (exported_records_are_complete Samples.in_turn 2 Samples.one_product) _ H).
Defined.

(** The rejection [Promise.all] passes on is the first in time: the media
    fail on their first response and the variants on their second, and the
    run reports the one whose failing response arrives first. *)
Example rejection_follows_arrival :
  Exporter.main Samples.in_turn 3 Samples.flaky
  = (fst (Exporter.run Samples.in_turn 3 Samples.flaky)
     ++ [Exporter.Failure (Error "Shopify API 503: media down")], Some 1) /\
  Exporter.main Samples.variants_first 3 Samples.flaky
  = (fst (Exporter.run Samples.variants_first 3 Samples.flaky)
     ++ [Exporter.Failure (Error "Shopify API 500: variants down")], Some 1) /\
  Exporter.stdout (fst (Exporter.run Samples.in_turn 3 Samples.flaky)) = [] /\
  Exporter.stdout (fst (Exporter.run Samples.variants_first 3 Samples.flaky)) = [].
Proof. repeat split; vm_compute; reflexivity. Qed.

End MoreInstances.
